(* ===== verification/_CoqProject ===== *)
-Q . S2P
Prelude.v
Kind.v
Errors.v
Charconv.v
Logger.v
Buffer.v
Message.v
Parser.v
Builder.v
ParserInv.v
ParserSafety.v
BuilderSpec.v
ParserViews.v
Wire.v
WireParse.v
ParserResume.v
ParserPrefix.v
ParserTheorems.v
Request.v
RingQueue.v
Adapter.v
ResponseSink.v
Response.v
Pipeline.v
PipelineSpec.v
Config.v
Backoff.v
Connection.v
Connect.v
ConnectionSpec.v
ReadSpec.v
ConnectSpec.v
Tolerant.v
Strand.v
Actor.v
Client.v
ConnectionTheorems.v
ConnectTheorems.v
Session.v
Program.v
Examples.v
ReconnectTheorems.v
ActorSpec.v
ActorLife.v
ActorWake.v
ActorShutdown.v
ActorOrder.v
Journal.v
ActorTheorems.v
