(* ===== verification/Prelude.v ===== *)
(** * rediscoro: a verification development of a RESP3 Redis client

    The program is a header-only C++ library (src/include/rediscoro): a
    request builder, an incremental RESP3 parser, adapters from RESP3 values to
    C++ types, a pipeline that matches replies to requests, and a connection
    actor that connects, reads, writes, times out and reconnects on one strand.

    ** The parts and how they interact

    A user builds a [request] (request.hpp) and hands it to the connection
    ([connection::enqueue]), which makes a pending response (a response sink)
    and pushes both into the [pipeline].  The write loop sends the bytes the
    pipeline offers; the read loop feeds the socket's bytes to the [parser],
    builds a message from the raw tree of every completed value
    ([build_message]) and gives it to the pipeline, which delivers it to the
    sink of the oldest request; the sink adapts it to the type the user asked
    for ([adapt]) and wakes the user when its last reply is there.  The control
    loop watches deadlines and reconnects.  Errors run the other way: every
    failure empties the pipeline, which completes every sink with the error.

    ** Files

    - [Prelude]: bytes, machine integers, faults and the [run] monad, tactics.
    - [Kind], [Errors], [Charconv]: resp3/kind.hpp; error.hpp, error_info.hpp,
      impl/error.ipp; the parts of <charconv> in use and the number readers.
    - [Logger]: logger.hpp and the messages of impl/assert.ipp.
    - [Buffer], [Message], [Parser], [Builder]: resp3/buffer.hpp;
      resp3/value.hpp, message.hpp and visitor.hpp; raw.hpp, parser.hpp and
      impl/parser.ipp; builder.hpp.  [Buffer] gives every allocation an
      identity, so that a [std::string_view] into storage that moved is a fault.
    - [ParserInv], [ParserSafety], [BuilderSpec], [ParserViews], [Wire],
      [WireParse], [ParserResume], [ParserPrefix]: the invariant of the parser,
      the recursive reading of the raw tree, the wire syntax of RESP3, the proof
      that the parser reads it, that it goes on where a read ended and that it
      asks for more on a part of a value; [ParserTheorems] states the results.
    - [Request]: request.hpp.  [Adapter]: adapter/*.hpp over codes of C++ types.
    - [RingQueue]: detail/ring_queue.hpp, and the interface [Fifo] it
      implements.
    - [ResponseSink]: detail/response_sink.hpp, response_builder.hpp and
      pending_response.hpp, tracing.hpp; the interfaces [Builder] and
      [ResponseSink] and their implementations.  [Response]: response.hpp and
      the class pending_dynamic_response.
    - [Pipeline], [PipelineSpec]: detail/pipeline.hpp and impl/pipeline.ipp
      against [Fifo] and [ResponseSink], and the specification they refine.
    - [Config]: config.hpp, the sanitizing of the reconnection policy and the
      backoff delay in binary64 arithmetic.  [Backoff]: rounding, products and
      comparison of doubles, and the bounds of the delay.
    - [Connection], [Connect]: detail/connection.hpp and impl/connection/*.ipp.
      A coroutine is the functions it runs between two suspensions; the socket,
      the resolver, timers and clocks appear as the arguments it is resumed
      with, events as counters of notifications, a stop source as the flag its
      current token shows (detail/stop_scope.hpp).
    - [ConnectionSpec], [ReadSpec], [ConnectSpec]: the invariants of the
      connection, the replies of a sequence of reads, the invariant of a
      connection attempt; [ConnectionTheorems], [ConnectTheorems],
      [ReconnectTheorems] state the results.
    - [Tolerant]: the interfaces [Calm] and [Tolerant] of relations that the
      small updates of the connection keep, and that all its coroutines then
      keep.
    - [Strand]: all these functions as tasks that run in any order, and what
      every task keeps.
    - [Actor]: the connection with its coroutines, each suspended at one place:
      [write_loop], [read_loop] and [control_loop] of
      impl/connection/actor_loops.ipp, [actor_loop], [run_actor], [connect] and
      [close] of core.ipp.  An event resumes one coroutine or is a call.
    - [ActorSpec], [ActorLife]: what callers and environment promise of an
      event ([allowed]), the invariant of the system and that every event keeps
      it; [ActorWake]: notifications are not lost; [ActorShutdown]: the actor
      comes to its end; [ActorOrder]: an event is a sequence of tasks of
      [Strand]; [Journal]: what an event promises, sends and hears, and that the
      history of the pipeline is exactly that; [ActorTheorems] states the
      results.
    - [Client]: client.hpp, and the connection at rest, between two calls.
      [Session]: calls one after the other and at the same time, from
      [connect] to their results.
    - [Program]: programs that await the operations of a client, as a free
      monad, how they run on the connection and what they say from the replies
      alone.  [Examples]: the programs of src/examples.

    ** What the theorems show

    - Parser: on every input, in every sequence of reads, [parse_one] returns
      without a fault; it consumes exactly one well-formed value; values whose
      nested values come first are built into the message they encode; the
      split of the bytes between reads does not matter while the storage does
      not move, and a strict prefix of a value with lines below the limit only
      asks for more; errors are final until a reset.
    - Builder: the explicit-stack traversal is the recursive reading.
    - Request: the bytes of a request parse back as its commands.
    - Adapter: results have the requested type, error paths lead to the
      offending part or repeated key, values survive a round trip.
    - Ring queue: it refines a list.  Sinks: exactly the replies, in order, one
      notification, one trace event.
    - Pipeline, for requests with at least one command: the k-th reply reaches
      the k-th slot in the order of acceptance; bytes are written in order and
      accounted for; nothing faults under the documented preconditions;
      [clear_all] completes everybody; the next deadline is the earliest when
      deadlines do not decrease.
    - Connection: replies whose nested values come first reach the requests
      that await them when the network cuts their bytes into reads as
      [pieces_ok] allows (flat replies anywhere); a read of anything is safe
      while the texts of the parser are in place; the outcome of [enqueue] in
      every state; runtime errors, connecting and reconnecting; the delay
      between two attempts stays within the policy.
    - Every schedule: whatever order the strand runs the tasks in, also orders
      in which coroutines disturb each other, the snapshot, the generation and
      the trace numbers are right.
    - The whole connection, on the runs that keep the promises of [allowed]: in
      every interleaving of the three loops, [connect], [close], reconnection
      and requests, nothing faults, at most one read and one write are in
      flight, and nothing is pending in a state that is not open or connecting;
      the history of the pipeline is what the events promised, sent and heard,
      so that the messages read from the socket fill the slots in order; no
      wake-up is lost; once a stop is requested the actor ends after a bounded
      number of its events, and [close] returns with the state [CLOSED].
    - Client: after a handshake taken in one write and answered in one read,
      every [exec] and [exec_dynamic], also of several at once, returns the
      replies to its own commands, in whatever pieces the requests are written,
      and the client stays connected; the replies have their nested values
      first, flat ones are cut anywhere and the others arrive whole
      ([exchange_ok]).  An [exec] that cannot be served fails at once.  A
      program over a client prints and returns what the events determine, in
      the courses of events that [turn] and [says] describe: an unreachable
      server, a handshake as above with or without errors, calls answered as
      above, expired, refused, or failed by a lost connection.  In these the
      examples end with the client closed, except ping after a failed PING.
    - Departures of the code from its comments are theorems too (a nested array
      that is misread, views that dangle after growth, a [close] that is
      overwritten, a [connect] that is left without an actor, a [close] that
      takes an old notification for the end of the actor, and others);
      each is a finding with its place in the code.

    ** Conventions, bounds and fuel

    Operations are functions in the [run] monad: [Ret] or a [Fault] (a failed
    REDISCORO_ASSERT, an exception of [at()] or [std::get], a dangling view, a
    dead object).  Machine integers are [Z] with their wrap-around written out
    ([u32], [u64]).  Loops that are not structural take fuel, and the fuel is
    proved to be enough: [parse_loop] and [do_read_loop] by the number of
    unread bytes, [build_message] by the size of the raw tree, [fail_all] by
    the replies that are missing, [clear_all] by the length of the queues; the
    end of the actor is bounded by [left_to_do], not by fuel.  A
    fault [out_of_fuel] therefore never occurs under the theorems' hypotheses.
    Parser storage is assumed to stay below 4 GiB ([small]), the range of the
    code's 32-bit indices.

    What is assumed of a run of the whole connection is [allowed] in
    [ActorSpec], a decidable predicate: requests have new sinks and at least one
    command, operations whose socket was closed do not succeed, [connect] goes
    on as soon as [do_connect] has returned, [close] is not called before or
    during [connect], [connect] is not called while the connection recovers or
    while an old actor or a [close] is still around, and no bytes arrive after
    the receive buffer moved under a half-read value with texts.  The last is
    also assumed of connecting and reconnecting ([input_ok],
    [reconnect_input_ok]).  [pieces_ok], [exchange_ok] and [says] are
    restrictions too: they name the reads, the exchanges and the courses of
    events that the theorems on replies, sessions and programs speak about.
    What happens otherwise is shown by concrete runs, each a finding.

    Three simplifications of numbers: [reconnect_count_] and points in time are
    unbounded integers, where the code has an int and 64-bit nanoseconds; the
    floating-point targets of [adapt] are double; two keys of a map are equal
    when they compare equal.

    ** Not modelled

    The iocoro library (a git submodule: sockets, timers, coroutines, the
    strand) is not readable here; its results are inputs of the model.
    [std::pow] and the value of [std::llround] outside its domain are
    parameters.  What the connection logs, and exceptions of user callbacks,
    which the code swallows, have no effect on the modelled state.  Memory
    exhaustion is modelled where the code handles it ([enqueue_caught], the
    actor's exception) and nowhere else.  detail/connection_executor.hpp only
    holds a strand.  tracing_hooks.cpp prints from inside the trace callbacks,
    which [Program] does not run; the [main] functions only run an io_context.
    Benchmarks and tests use the library. *)

From stdpp Require Export base list strings gmap.
From Stdlib Require Export ZArith Lia Ascii.

#[global] Set Default Goal Selector "!".
#[global] Open Scope Z_scope.

(** ** Bytes *)

Abbreviation bytes := (list ascii).

(** Byte literals are written as strings, [s2b "PING"]. *)
Definition s2b (s : string) : bytes := String.list_ascii_of_string s.

Definition CR : ascii := ascii_of_nat 13.
Definition LF : ascii := ascii_of_nat 10.
Definition crlf : bytes := [CR; LF].

(** The size of a buffer or container, as the machine integer the code
    compares it with. *)
Definition zlen {A} (l : list A) : Z := Z.of_nat (length l).

(** ** Machine integers *)

Definition u32_max : Z := 4294967295.
Definition u64_max : Z := 18446744073709551615.
Definition i64_min : Z := -9223372036854775808.
Definition i64_max : Z := 9223372036854775807.
Definition size_max : Z := u64_max.

(** [static_cast<std::uint32_t>] and [static_cast<std::uint64_t>]. *)
Definition u32 (z : Z) : Z := z mod 4294967296.
Definition u64 (z : Z) : Z := z mod 18446744073709551616.

Lemma u32_small z : 0 <= z <= u32_max -> u32 z = z.
Proof. unfold u32, u32_max. intros. apply Z.mod_small. lia. Qed.

Lemma u64_small z : 0 <= z <= u64_max -> u64 z = z.
Proof. unfold u64, u64_max. intros. apply Z.mod_small. lia. Qed.

Lemma u32_range z : 0 <= u32 z <= u32_max.
Proof. unfold u32, u32_max. pose proof (Z.mod_pos_bound z 4294967296). lia. Qed.

(** ** Faults and the [run] monad

    An operation of the program either returns, or stops the program.  A
    fault is what the code treats as the end of the process or as undefined
    behaviour: a failed [REDISCORO_ASSERT] (debug builds), a reached
    [REDISCORO_UNREACHABLE], an exception of [.at()] or [std::get], a read
    through a dangling [std::string_view], an element accessed outside its
    lifetime.  [out_of_fuel] belongs to the model only: every definition that
    uses fuel has a theorem that it never occurs. *)
Inductive fault : Set :=
| assert_failed
| unreachable_reached
| out_of_range
| bad_variant_access
| dangling_view
| object_lifetime
| null_pointer
| out_of_fuel.

Inductive run (A : Type) : Type :=
| Ret (a : A)
| Fault (f : fault).
Arguments Ret {A} a.
Arguments Fault {A} f.

#[export] Instance fault_eq_dec : EqDecision fault.
Proof. solve_decision. Defined.

#[export] Instance run_ret : MRet run := fun A a => Ret a.
#[export] Instance run_bind : MBind run := fun A B k m =>
  match m with Ret a => k a | Fault f => Fault f end.
#[export] Instance run_fmap : FMap run := fun A B k m =>
  match m with Ret a => Ret (k a) | Fault f => Fault f end.

(** [REDISCORO_ASSERT(b)] in a debug build. *)
Definition assert (b : bool) : run unit := if b then Ret tt else Fault assert_failed.

(** [v.at(i)] of a vector, and the other checked accesses. *)
Definition or_fault {A} (f : fault) (o : option A) : run A :=
  match o with Some a => Ret a | None => Fault f end.

(** [expected<T, E>]: an error is a value of the result type. *)
Inductive expected (T E : Type) : Type :=
| Val (t : T)
| Unexpected (e : E).
Arguments Val {T E} t.
Arguments Unexpected {T E} e.

Definition has_value {T E} (x : expected T E) : bool :=
  match x with Val _ => true | Unexpected _ => false end.

Lemma run_bind_Ret {A B} (m : run A) (k : A -> run B) b :
  m ≫= k = Ret b <-> exists a, m = Ret a /\ k a = Ret b.
Proof.
  destruct m; simpl; split.
  - intros H. eauto.
  - intros (a' & [= <-] & H). done.
  - intros H. discriminate H.
  - intros (? & [=] & _).
Qed.

Lemma assert_Ret b u : assert b = Ret u <-> b = true.
Proof. destruct b, u; simpl; split; congruence. Qed.

Lemma or_fault_Ret {A} f (o : option A) a : or_fault f o = Ret a <-> o = Some a.
Proof. destruct o; simpl; split; congruence. Qed.

(** ** Tactics *)

(** Unpack a hypothesis [m = Ret x] made of binds, asserts and lookups. *)
Ltac run_inv :=
  repeat match goal with
  | H : _ ≫= _ = Ret _ |- _ => apply run_bind_Ret in H as (? & ? & ?)
  | H : assert _ = Ret _ |- _ => apply assert_Ret in H
  | H : or_fault _ _ = Ret _ |- _ => apply or_fault_Ret in H
  | H : Ret _ = Ret _ |- _ => injection H as H
  | H : Fault _ = Ret _ |- _ => discriminate H
  | H : Ret _ = Fault _ |- _ => discriminate H
  end; simplify_eq.

(** Case split on the boolean tests of the goal (or of a hypothesis) and turn
    them into the propositions they decide. *)
Ltac bool_prop :=
  repeat match goal with
  | H : bool_decide _ = true |- _ => apply bool_decide_eq_true in H
  | H : bool_decide _ = false |- _ => apply bool_decide_eq_false in H
  | H : (_ && _)%bool = true |- _ => apply andb_true_iff in H as [? ?]
  | H : (_ || _)%bool = false |- _ => apply orb_false_iff in H as [? ?]
  | H : negb _ = true |- _ => apply negb_true_iff in H
  | H : negb _ = false |- _ => apply negb_false_iff in H
  | H : (_ <? _)%Z = true |- _ => apply Z.ltb_lt in H
  | H : (_ <? _)%Z = false |- _ => apply Z.ltb_ge in H
  | H : (_ <=? _)%Z = true |- _ => apply Z.leb_le in H
  | H : (_ <=? _)%Z = false |- _ => apply Z.leb_gt in H
  | H : (_ =? _)%Z = true |- _ => apply Z.eqb_eq in H
  | H : (_ =? _)%Z = false |- _ => apply Z.eqb_neq in H
  | H : (_ <? _)%nat = true |- _ => apply Nat.ltb_lt in H
  | H : (_ <? _)%nat = false |- _ => apply Nat.ltb_ge in H
  | H : (_ <=? _)%nat = true |- _ => apply Nat.leb_le in H
  | H : (_ <=? _)%nat = false |- _ => apply Nat.leb_gt in H
  | H : (_ =? _)%nat = true |- _ => apply Nat.eqb_eq in H
  | H : (_ =? _)%nat = false |- _ => apply Nat.eqb_neq in H
  end.

(** Split the first conditional or match of the goal. *)
Ltac split_if :=
  match goal with
  | |- context [if ?b then _ else _] => destruct b eqn:?; bool_prop
  end.

(** ** Lists *)

Create HintDb rediscoro.
Create Rewrite HintDb rediscoro.

Lemma zlen_nonneg {A} (l : list A) : 0 <= zlen l.
Proof. unfold zlen. lia. Qed.

Lemma zlen_app {A} (l k : list A) : zlen (l ++ k) = zlen l + zlen k.
Proof. unfold zlen. rewrite length_app. lia. Qed.

Lemma zlen_nil {A} : zlen (@nil A) = 0.
Proof. done. Qed.

Lemma zlen_cons {A} (x : A) l : zlen (x :: l) = 1 + zlen l.
Proof. unfold zlen. simpl. lia. Qed.

(** Arithmetic over list lengths. *)
Ltac zlen_lia :=
  unfold zlen in *;
  repeat (rewrite length_app in * || rewrite length_insert in * || rewrite length_drop in * ||
          rewrite length_take in *);
  cbn [length] in *; lia.

#[export] Hint Rewrite @zlen_app @zlen_nil @zlen_cons : rediscoro.
#[export] Hint Resolve zlen_nonneg : rediscoro.

Lemma forallb_impl {A} (f g : A -> bool) l :
  (forall x, f x = true -> g x = true) -> forallb f l = true -> forallb g l = true.
Proof.
  intros Hfg. induction l as [|x l IH]; [done|]. cbn [forallb]. rewrite !andb_true_iff. intros [Hx Hl]. auto.
Qed.

(** Overwrite a range of a list, as [memcpy] into a vector does. *)
Definition blit {A} (at_ : nat) (src dst : list A) : list A :=
  take at_ dst ++ src ++ drop (at_ + length src) dst.

Lemma length_blit {A} at_ (src dst : list A) :
  (at_ + length src <= length dst)%nat -> length (blit at_ src dst) = length dst.
Proof. intros. unfold blit. rewrite !length_app, length_take, length_drop. lia. Qed.

(** The bytes [[off, off+len)] of a list. *)
Definition slice {A} (off len : nat) (l : list A) : list A := take len (drop off l).

Lemma slice_nil {A} off (l : list A) : slice off 0 l = [].
Proof. unfold slice. by rewrite take_0. Qed.

Lemma length_slice {A} off len (l : list A) :
  (off + len <= length l)%nat -> length (slice off len l) = len.
Proof. intros. unfold slice. rewrite length_take, length_drop. lia. Qed.

Lemma slice_blit_before {A} off len at_ (src dst : list A) :
  (off + len <= at_)%nat -> (at_ <= length dst)%nat ->
  slice off len (blit at_ src dst) = slice off len dst.
Proof.
  intros. unfold slice, blit.
  rewrite drop_app_le by (rewrite length_take; lia).
  rewrite take_app_le by (rewrite length_drop, length_take; lia).
  rewrite skipn_firstn_comm, take_take. f_equal. lia.
Qed.

Lemma slice_app {A} off n m (l : list A) :
  slice off (n + m) l = slice off n l ++ slice (off + n) m l.
Proof.
  unfold slice. rewrite <- (take_drop n (take (n + m) (drop off l))).
  rewrite take_take, Nat.min_l by lia. f_equal.
  rewrite skipn_firstn_comm, drop_drop. f_equal. lia.
Qed.

Lemma slice_blit_at {A} at_ (src dst : list A) :
  (at_ <= length dst)%nat -> slice at_ (length src) (blit at_ src dst) = src.
Proof.
  intros. unfold slice, blit.
  rewrite drop_app_ge by (rewrite length_take; lia).
  rewrite length_take, Nat.min_l, Nat.sub_diag by lia.
  rewrite drop_0. apply take_app_length.
Qed.
