(* ===== verification/Kind.v ===== *)
(** * RESP3 kinds ([include/rediscoro/resp3/kind.hpp])

    The enumeration of RESP3 data kinds with its wire prefix bytes and its
    diagnostic names. *)

From S2P Require Import Prelude.

Module kind.

(** [enum class kind]. *)
Inductive kind : Set :=
| simple_string
| simple_error
| integer
| double_number
| boolean
| big_number
| null
| bulk_string
| bulk_error
| verbatim_string
| array
| map
| set
| attribute
| push.

End kind.

Abbreviation kind := kind.kind.

#[export] Instance kind_eq_dec : EqDecision kind.
Proof. solve_decision. Defined.

#[export] Instance kind_inhabited : Inhabited kind := populate kind.null.

(** [kind_to_prefix]: the leading byte of a value of the kind. *)
Definition kind_to_prefix (k : kind) : ascii :=
  match k with
  | kind.simple_string => "+"
  | kind.simple_error => "-"
  | kind.integer => ":"
  | kind.double_number => ","
  | kind.boolean => "#"
  | kind.big_number => "("
  | kind.null => "_"
  | kind.bulk_string => "$"
  | kind.bulk_error => "!"
  | kind.verbatim_string => "="
  | kind.array => "*"
  | kind.map => "%"
  | kind.set => "~"
  | kind.attribute => "|"
  | kind.push => ">"
  end%char.

(** [prefix_to_kind]: the [switch] over the leading byte. *)
Definition prefix_to_kind (b : ascii) : option kind :=
  if decide (b = "+"%char) then Some kind.simple_string
  else if decide (b = "-"%char) then Some kind.simple_error
  else if decide (b = ":"%char) then Some kind.integer
  else if decide (b = ","%char) then Some kind.double_number
  else if decide (b = "#"%char) then Some kind.boolean
  else if decide (b = "("%char) then Some kind.big_number
  else if decide (b = "_"%char) then Some kind.null
  else if decide (b = "$"%char) then Some kind.bulk_string
  else if decide (b = "!"%char) then Some kind.bulk_error
  else if decide (b = "="%char) then Some kind.verbatim_string
  else if decide (b = "*"%char) then Some kind.array
  else if decide (b = "%"%char) then Some kind.map
  else if decide (b = "~"%char) then Some kind.set
  else if decide (b = "|"%char) then Some kind.attribute
  else if decide (b = ">"%char) then Some kind.push
  else None.

(** [kind_name]: the name shown in diagnostics. *)
Definition kind_name (k : kind) : string :=
  match k with
  | kind.simple_string => "simple_string"
  | kind.simple_error => "simple_error"
  | kind.integer => "integer"
  | kind.double_number => "double"
  | kind.boolean => "boolean"
  | kind.big_number => "big_number"
  | kind.null => "null"
  | kind.bulk_string => "bulk_string"
  | kind.bulk_error => "bulk_error"
  | kind.verbatim_string => "verbatim_string"
  | kind.array => "array"
  | kind.map => "map"
  | kind.set => "set"
  | kind.attribute => "attribute"
  | kind.push => "push"
  end%string.

Lemma prefix_to_kind_to_prefix k : prefix_to_kind (kind_to_prefix k) = Some k.
Proof. destruct k; reflexivity. Qed.

Lemma prefix_to_kind_Some b k : prefix_to_kind b = Some k -> b = kind_to_prefix k.
Proof. unfold prefix_to_kind. intros. repeat case_decide; simplify_eq; done. Qed.

Lemma kind_name_inj k1 k2 : kind_name k1 = kind_name k2 -> k1 = k2.
Proof. destruct k1, k2; simpl; congruence. Qed.

#[export] Hint Rewrite prefix_to_kind_to_prefix : rediscoro.
