(* ===== verification/Errors.v ===== *)
(** * Error codes ([include/rediscoro/error.hpp], [impl/error.ipp],
    [error_info.hpp])

    The four error enumerations, their [std::error_category] objects, the
    [std::error_code] values made from them, the classification predicates
    and [error_info]. *)

From S2P Require Import Prelude.

Module client_errc.

(** [enum class client_errc]; the first value is 1. *)
Inductive client_errc : Set :=
| operation_aborted
| connection_closed
| resolve_failed
| resolve_timeout
| connect_failed
| connect_timeout
| connection_reset
| handshake_failed
| handshake_timeout
| write_error
| connection_lost
| unsolicited_message
| request_timeout
| not_connected
| already_in_progress
| queue_full
| internal_error.

End client_errc.

Module protocol_errc.

(** [enum class protocol_errc]. *)
Inductive protocol_errc : Set :=
| tree_not_consumed
| invalid_type_byte
| invalid_null
| invalid_boolean
| invalid_bulk_trailer
| invalid_double
| invalid_integer
| invalid_length
| invalid_map_pairs
| invalid_state
| parser_failed
| invalid_verbatim.

End protocol_errc.

Module server_errc.

(** [enum class server_errc]. *)
Inductive server_errc : Set :=
| redis_error.

End server_errc.

Module adapter_errc.

(** [enum class adapter_errc]. *)
Inductive adapter_errc : Set :=
| type_mismatch
| unexpected_null
| value_out_of_range
| duplicate_key
| size_mismatch.

End adapter_errc.

Abbreviation client_errc := client_errc.client_errc.
Abbreviation protocol_errc := protocol_errc.protocol_errc.
Abbreviation server_errc := server_errc.server_errc.
Abbreviation adapter_errc := adapter_errc.adapter_errc.

#[export] Instance client_errc_eq_dec : EqDecision client_errc.
Proof. solve_decision. Defined.
#[export] Instance protocol_errc_eq_dec : EqDecision protocol_errc.
Proof. solve_decision. Defined.
#[export] Instance adapter_errc_eq_dec : EqDecision adapter_errc.
Proof. solve_decision. Defined.

(** The underlying [int] of an enumerator. *)
Definition client_int (e : client_errc) : Z :=
  match e with
  | client_errc.operation_aborted => 1
  | client_errc.connection_closed => 2
  | client_errc.resolve_failed => 3
  | client_errc.resolve_timeout => 4
  | client_errc.connect_failed => 5
  | client_errc.connect_timeout => 6
  | client_errc.connection_reset => 7
  | client_errc.handshake_failed => 8
  | client_errc.handshake_timeout => 9
  | client_errc.write_error => 10
  | client_errc.connection_lost => 11
  | client_errc.unsolicited_message => 12
  | client_errc.request_timeout => 13
  | client_errc.not_connected => 14
  | client_errc.already_in_progress => 15
  | client_errc.queue_full => 16
  | client_errc.internal_error => 17
  end.

Definition protocol_int (e : protocol_errc) : Z :=
  match e with
  | protocol_errc.tree_not_consumed => 1
  | protocol_errc.invalid_type_byte => 2
  | protocol_errc.invalid_null => 3
  | protocol_errc.invalid_boolean => 4
  | protocol_errc.invalid_bulk_trailer => 5
  | protocol_errc.invalid_double => 6
  | protocol_errc.invalid_integer => 7
  | protocol_errc.invalid_length => 8
  | protocol_errc.invalid_map_pairs => 9
  | protocol_errc.invalid_state => 10
  | protocol_errc.parser_failed => 11
  | protocol_errc.invalid_verbatim => 12
  end.

Definition server_int (e : server_errc) : Z :=
  match e with server_errc.redis_error => 1 end.

Definition adapter_int (e : adapter_errc) : Z :=
  match e with
  | adapter_errc.type_mismatch => 1
  | adapter_errc.unexpected_null => 2
  | adapter_errc.value_out_of_range => 3
  | adapter_errc.duplicate_key => 4
  | adapter_errc.size_mismatch => 5
  end.

(** The enumerators, for [static_cast<Errc>(ev)] of an [int]. *)
Definition client_errcs : list client_errc :=
  [client_errc.operation_aborted; client_errc.connection_closed;
   client_errc.resolve_failed; client_errc.resolve_timeout;
   client_errc.connect_failed; client_errc.connect_timeout;
   client_errc.connection_reset; client_errc.handshake_failed;
   client_errc.handshake_timeout; client_errc.write_error;
   client_errc.connection_lost; client_errc.unsolicited_message;
   client_errc.request_timeout; client_errc.not_connected;
   client_errc.already_in_progress; client_errc.queue_full;
   client_errc.internal_error].

Definition protocol_errcs : list protocol_errc :=
  [protocol_errc.tree_not_consumed; protocol_errc.invalid_type_byte;
   protocol_errc.invalid_null; protocol_errc.invalid_boolean;
   protocol_errc.invalid_bulk_trailer; protocol_errc.invalid_double;
   protocol_errc.invalid_integer; protocol_errc.invalid_length;
   protocol_errc.invalid_map_pairs; protocol_errc.invalid_state;
   protocol_errc.parser_failed; protocol_errc.invalid_verbatim].

Definition adapter_errcs : list adapter_errc :=
  [adapter_errc.type_mismatch; adapter_errc.unexpected_null;
   adapter_errc.value_out_of_range; adapter_errc.duplicate_key;
   adapter_errc.size_mismatch].

Definition of_int {E} (all : list E) (num : E -> Z) (ev : Z) : option E :=
  List.find (fun e => num e =? ev) all.

(** [client_category_impl::message]. *)
Definition client_message (ev : Z) : string :=
  match of_int client_errcs client_int ev with
  | Some client_errc.operation_aborted => "operation aborted"
  | Some client_errc.connection_closed => "connection closed"
  | Some client_errc.resolve_failed => "resolve failed"
  | Some client_errc.resolve_timeout => "resolve timeout"
  | Some client_errc.connect_failed => "connect failed"
  | Some client_errc.connect_timeout => "connect timeout"
  | Some client_errc.connection_reset => "connection reset"
  | Some client_errc.handshake_failed => "handshake failed"
  | Some client_errc.handshake_timeout => "handshake timeout"
  | Some client_errc.write_error => "write error"
  | Some client_errc.connection_lost => "connection lost"
  | Some client_errc.unsolicited_message => "unsolicited message"
  | Some client_errc.request_timeout => "request timeout"
  | Some client_errc.not_connected => "not connected"
  | Some client_errc.already_in_progress => "already in progress"
  | Some client_errc.queue_full => "queue full"
  | Some client_errc.internal_error => "internal error"
  | None => "unknown client error"
  end%string.

(** [protocol_category_impl::message]. *)
Definition protocol_message (ev : Z) : string :=
  match of_int protocol_errcs protocol_int ev with
  | Some protocol_errc.tree_not_consumed => "resp3 tree not consumed"
  | Some protocol_errc.invalid_type_byte => "resp3 invalid type byte"
  | Some protocol_errc.invalid_null => "resp3 invalid null"
  | Some protocol_errc.invalid_boolean => "resp3 invalid boolean"
  | Some protocol_errc.invalid_bulk_trailer => "resp3 invalid bulk trailer"
  | Some protocol_errc.invalid_verbatim => "resp3 invalid verbatim"
  | Some protocol_errc.invalid_double => "resp3 invalid double"
  | Some protocol_errc.invalid_integer => "resp3 invalid integer"
  | Some protocol_errc.invalid_length => "resp3 invalid length"
  | Some protocol_errc.invalid_map_pairs => "resp3 invalid map pairs"
  | Some protocol_errc.invalid_state => "resp3 invalid state"
  | Some protocol_errc.parser_failed => "resp3 parser failed"
  | None => "unknown protocol error"
  end%string.

(** [server_category_impl::message]. *)
Definition server_message (ev : Z) : string :=
  if ev =? server_int server_errc.redis_error then "redis error reply"%string
  else "unknown server error"%string.

(** [adapter_category_impl::message]. *)
Definition adapter_message (ev : Z) : string :=
  match of_int adapter_errcs adapter_int ev with
  | Some adapter_errc.type_mismatch => "type mismatch"
  | Some adapter_errc.unexpected_null => "unexpected null"
  | Some adapter_errc.value_out_of_range => "value out of range"
  | Some adapter_errc.duplicate_key => "duplicate key"
  | Some adapter_errc.size_mismatch => "size mismatch"
  | None => "unknown adapter error"
  end%string.

(** An [std::error_category] object, identified by its address.  [cat_other]
    stands for the categories the program did not declare
    ([std::system_category], [iocoro]'s). *)
Inductive category : Set :=
| cat_client | cat_protocol | cat_server | cat_adapter
| cat_other (name : string).

#[export] Instance category_eq_dec : EqDecision category.
Proof. solve_decision. Defined.

(** [std::error_code]: a value and its category. *)
Record error_code : Set := mk_error_code { code_value : Z; code_category : category }.

#[export] Instance error_code_eq_dec : EqDecision error_code.
Proof. solve_decision. Defined.

(** [std::error_code{}]: value 0 of the system category. *)
Definition no_error : error_code := mk_error_code 0 (cat_other "system").

(** [explicit operator bool]. *)
Definition is_error (ec : error_code) : bool := negb (code_value ec =? 0).

(** [category().name()]. *)
Definition category_name (c : category) : string :=
  match c with
  | cat_client => "rediscoro.client"
  | cat_protocol => "rediscoro.resp3"
  | cat_server => "rediscoro.server"
  | cat_adapter => "rediscoro.adapter"
  | cat_other name => name
  end%string.

(** [make_error_code], one overload per enumeration. *)
Definition make_client_error_code (e : client_errc) : error_code :=
  mk_error_code (client_int e) cat_client.
Definition make_protocol_error_code (e : protocol_errc) : error_code :=
  mk_error_code (protocol_int e) cat_protocol.
Definition make_server_error_code (e : server_errc) : error_code :=
  mk_error_code (server_int e) cat_server.
Definition make_adapter_error_code (e : adapter_errc) : error_code :=
  mk_error_code (adapter_int e) cat_adapter.

Definition is_client_error (ec : error_code) : bool :=
  bool_decide (code_category ec = cat_client).
Definition is_protocol_error (ec : error_code) : bool :=
  bool_decide (code_category ec = cat_protocol).

(** [ec.value()] seen as a [client_errc] and compared with an enumerator. *)
Definition client_is (ec : error_code) (e : client_errc) : bool :=
  code_value ec =? client_int e.

Definition is_timeout (ec : error_code) : bool :=
  if bool_decide (code_category ec = cat_client) then
    client_is ec client_errc.resolve_timeout || client_is ec client_errc.connect_timeout ||
    client_is ec client_errc.handshake_timeout || client_is ec client_errc.request_timeout
  else false.

Definition is_retryable (ec : error_code) : bool :=
  if bool_decide (code_category ec = cat_client) then
    client_is ec client_errc.connection_lost || client_is ec client_errc.write_error ||
    client_is ec client_errc.connection_reset || client_is ec client_errc.request_timeout ||
    client_is ec client_errc.handshake_failed || client_is ec client_errc.unsolicited_message
  else bool_decide (code_category ec = cat_protocol).

(** [struct error_info]. *)
Record error_info : Set := mk_error_info { code : error_code; detail : bytes }.

#[export] Instance error_info_eq_dec : EqDecision error_info.
Proof. solve_decision. Defined.

(** The converting constructors [error_info(Errc e)]. *)
Definition client_error (e : client_errc) : error_info :=
  mk_error_info (make_client_error_code e) [].
Definition protocol_error (e : protocol_errc) : error_info :=
  mk_error_info (make_protocol_error_code e) [].

(** [error_info::append_detail]. *)
Definition append_detail (e : error_info) (s : bytes) : error_info :=
  match s with
  | [] => e
  | _ =>
    let d := match detail e with [] => [] | d => d ++ s2b " " end in
    mk_error_info (code e) (d ++ s)
  end.

(** [code.message()]; the categories the program did not declare are a
    parameter of the model. *)
Definition code_message (other : string -> Z -> string) (ec : error_code) : string :=
  match code_category ec with
  | cat_client => client_message (code_value ec)
  | cat_protocol => protocol_message (code_value ec)
  | cat_server => server_message (code_value ec)
  | cat_adapter => adapter_message (code_value ec)
  | cat_other name => other name (code_value ec)
  end.

(** [error_info::to_string]. *)
Definition error_info_to_string (other : string -> Z -> string) (e : error_info) : bytes :=
  (if is_error (code e) then
     s2b (category_name (code_category (code e))) ++ s2b ": " ++
     s2b (code_message other (code e))
   else s2b "unknown error") ++
  match detail e with
  | [] => []
  | d => s2b " (" ++ d ++ s2b ")"
  end.

(** ** The enumerations and their codes *)

Lemma of_int_client e : of_int client_errcs client_int (client_int e) = Some e.
Proof. destruct e; reflexivity. Qed.

Lemma of_int_protocol e : of_int protocol_errcs protocol_int (protocol_int e) = Some e.
Proof. destruct e; reflexivity. Qed.

Lemma of_int_adapter e : of_int adapter_errcs adapter_int (adapter_int e) = Some e.
Proof. destruct e; reflexivity. Qed.

#[export] Hint Rewrite of_int_client of_int_protocol of_int_adapter : rediscoro.

Lemma make_client_error_code_inj e1 e2 :
  make_client_error_code e1 = make_client_error_code e2 -> e1 = e2.
Proof. destruct e1, e2; simpl; intros [=]; done. Qed.

Lemma make_protocol_error_code_inj e1 e2 :
  make_protocol_error_code e1 = make_protocol_error_code e2 -> e1 = e2.
Proof. destruct e1, e2; simpl; intros [=]; done. Qed.

Lemma append_detail_assoc e s1 s2 :
  s1 <> [] -> s2 <> [] ->
  append_detail (append_detail e s1) s2 = append_detail e (s1 ++ s2b " " ++ s2).
Proof.
  destruct s1 as [|c1 s1], s2 as [|c2 s2]; try done. intros _ _.
  destruct e as [c [|d0 d]]; simpl; f_equal; rewrite <- ?app_assoc; done.
Qed.
