(* ===== verification/Charconv.v ===== *)
(** * Number conversions ([std::from_chars], [std::to_chars]) and
    the scalar readers of [resp3/impl/parser.ipp]

    The parts of [<charconv>] that the program calls: integers of 64 bits in
    base 10, and binary64 numbers in the [general] format, computed exactly
    and rounded once.  [parse_i64] and [parse_double] are the program's. *)

From S2P Require Import Prelude.
From Stdlib Require Import SpecFloat.

(** ** Integers *)

Definition digit (c : ascii) : option Z :=
  let n := Z.of_N (N_of_ascii c) in
  if (48 <=? n) && (n <=? 57) then Some (n - 48) else None.

Definition digit_char (d : Z) : ascii := ascii_of_N (Z.to_N (48 + d)).

(** The longest run of digits: its value, its length, what follows it. *)
Fixpoint scan_digits (acc : Z) (n : nat) (s : bytes) : Z * nat * bytes :=
  match s with
  | [] => (acc, n, [])
  | c :: s' =>
    match digit c with
    | Some d => scan_digits (10 * acc + d) (S n) s'
    | None => (acc, n, s)
    end
  end.

(** [std::from_chars_result] with [ptr] as the unread input. *)
Inductive from_chars_result (A : Type) : Type :=
| chars_ok (value : A) (ptr : bytes)
| chars_invalid_argument
| chars_out_of_range (ptr : bytes).
Arguments chars_ok {A} value ptr.
Arguments chars_invalid_argument {A}.
Arguments chars_out_of_range {A} ptr.

Definition take_minus (s : bytes) : bool * bytes :=
  match s with
  | c :: s' => if decide (c = "-"%char) then (true, s') else (false, s)
  | [] => (false, s)
  end.

Definition in_i64 (z : Z) : bool := (i64_min <=? z) && (z <=? i64_max).

(** [std::from_chars(first, last, out)] at [std::int64_t]. *)
Definition from_chars_i64 (s : bytes) : from_chars_result Z :=
  let '(neg, body) := take_minus s in
  let '(m, n, rest) := scan_digits 0 0 body in
  if (n =? 0)%nat then chars_invalid_argument
  else
    let v := if neg then - m else m in
    if in_i64 v then chars_ok v rest else chars_out_of_range rest.

(** [detail::parse_i64]: the whole text must be one integer. *)
Definition parse_i64 (sv : bytes) : option Z :=
  match sv with
  | [] => None
  | _ =>
    match from_chars_i64 sv with
    | chars_ok v [] => Some v
    | _ => None
    end
  end.

(** The decimal digits of a natural number, most significant first. *)
Fixpoint dec_digits (fuel : nat) (n : Z) (acc : bytes) : bytes :=
  match fuel with
  | O => acc
  | S fuel' =>
    let acc' := digit_char (n mod 10) :: acc in
    if n / 10 =? 0 then acc' else dec_digits fuel' (n / 10) acc'
  end.

(** One digit takes more than one bit, so the bit length is enough fuel. *)
Definition dec_of_Z (n : Z) : bytes := dec_digits (S (Z.to_nat (Z.log2 n))) n [].

Definition print_Z (v : Z) : bytes :=
  if v <? 0 then "-"%char :: dec_of_Z (- v) else dec_of_Z v.

(** [std::to_chars(first, last, v)] into a buffer of [cap] bytes: [None] is
    [errc::value_too_large]. *)
Definition to_chars (cap : nat) (v : Z) : option bytes :=
  if (length (print_Z v) <=? cap)%nat then Some (print_Z v) else None.

(** ** Digits *)

Lemma digit_digit_char d : 0 <= d <= 9 -> digit (digit_char d) = Some d.
Proof.
  intros Hd.
  assert (d = 0 \/ d = 1 \/ d = 2 \/ d = 3 \/ d = 4 \/ d = 5 \/ d = 6 \/ d = 7 \/
    d = 8 \/ d = 9) as Hcases by lia.
  destruct_or! Hcases; subst d; reflexivity.
Qed.

Lemma digit_Some_range c d : digit c = Some d -> 0 <= d <= 9.
Proof. unfold digit. intros H. case_match eqn:E; simplify_eq. bool_prop. lia. Qed.

(** A text whose first byte is not a digit ends a number. *)
Definition no_digit_head (s : bytes) : Prop :=
  match s with c :: _ => digit c = None | [] => True end.

Lemma scan_digits_stop acc n s : no_digit_head s -> scan_digits acc n s = (acc, n, s).
Proof. destruct s as [|c s]; simpl; [done|]. by intros ->. Qed.

Lemma dec_digits_spec fuel n acc :
  0 <= n < 10 ^ Z.of_nat fuel -> (0 < fuel)%nat ->
  exists ds, dec_digits fuel n acc = ds ++ acc /\
    (0 < length ds <= fuel)%nat /\ (0 < n -> 10 ^ (zlen ds - 1) <= n) /\
    forall a k s, scan_digits a k (ds ++ s) =
      scan_digits (a * 10 ^ zlen ds + n) (k + length ds)%nat s.
Proof.
  revert n acc. induction fuel as [|fuel IH]; intros n acc Hn Hf; [lia|].
  cbn [dec_digits]. set (d := n mod 10).
  assert (0 <= d <= 9) as Hd by (subst d; pose proof (Z.mod_pos_bound n 10); lia).
  pose proof (Z.div_mod n 10 ltac:(lia)) as Hdm. fold d in Hdm.
  assert (0 <= n / 10) as Hq by (apply Z.div_pos; lia).
  destruct (n / 10 =? 0) eqn:E; bool_prop.
  - exists [digit_char d]. split; [done|]. simpl. unfold zlen; simpl.
    split; [lia|]. split; [intros; change (10 ^ (1 - 1)) with 1; lia|].
    intros a k s. rewrite digit_digit_char by done.
    f_equal; [change (10 ^ 1) with 10; lia | lia].
  - assert (fuel <> 0)%nat as Hf0.
    { intros ->. change (10 ^ Z.of_nat 1) with 10 in Hn.
      apply E. apply Z.div_small. lia. }
    destruct (IH (n / 10) (digit_char d :: acc)) as (ds & Hds & Hlen & Hlow & Hscan).
    { split; [done|]. apply Z.div_lt_upper_bound; [lia|].
      rewrite Nat2Z.inj_succ, Z.pow_succ_r in Hn by lia. lia. }
    { lia. }
    exists (ds ++ [digit_char d]). rewrite Hds, <- app_assoc. split; [done|].
    rewrite length_app. simpl. split; [lia|]. rewrite zlen_app. change (zlen [digit_char d]) with 1.
    assert (10 ^ (zlen ds + 1) = 10 * 10 ^ zlen ds) as Hpow.
    { rewrite Z.add_1_r, Z.pow_succ_r by apply zlen_nonneg. done. }
    split.
    + intros Hpos. replace (zlen ds + 1 - 1) with (Z.succ (zlen ds - 1)) by lia.
      rewrite Z.pow_succ_r by (unfold zlen; lia). pose proof (Hlow ltac:(lia)). lia.
    + intros a k s. rewrite <- app_assoc. rewrite Hscan. simpl.
      rewrite digit_digit_char by done. rewrite Hpow. f_equal; [lia|lia].
Qed.

Lemma dec_of_Z_spec n :
  0 <= n ->
  (0 < length (dec_of_Z n))%nat /\ (0 < n -> 10 ^ (zlen (dec_of_Z n) - 1) <= n) /\
  forall a k s, scan_digits a k (dec_of_Z n ++ s) =
    scan_digits (a * 10 ^ zlen (dec_of_Z n) + n) (k + length (dec_of_Z n))%nat s.
Proof.
  intros Hn. unfold dec_of_Z.
  destruct (dec_digits_spec (S (Z.to_nat (Z.log2 n))) n []) as (ds & Hds & Hlen & Hlow & Hs).
  - split; [done|]. destruct (decide (n = 0)) as [->|]; [simpl; lia|].
    pose proof (Z.log2_spec n ltac:(lia)) as [_ Hlog].
    rewrite Nat2Z.inj_succ, Z2Nat.id by apply Z.log2_nonneg.
    eapply Z.lt_le_trans; [apply Hlog|]. apply Z.pow_le_mono_l. lia.
  - lia.
  - rewrite Hds, app_nil_r. split; [lia|]. done.
Qed.

(** The first byte of a printed natural is a digit, never a minus. *)
Lemma dec_of_Z_head n : 0 <= n -> exists c ds, dec_of_Z n = c :: ds /\ c <> "-"%char.
Proof.
  intros Hn. destruct (dec_of_Z_spec n Hn) as (Hlen & _ & Hscan).
  destruct (dec_of_Z n) as [|c ds] eqn:E; [simpl in Hlen; lia|].
  exists c, ds. split; [done|]. intros ->.
  specialize (Hscan 0 O []). change (digit "-"%char) with (@None Z) in Hscan.
  simpl in Hscan. discriminate Hscan.
Qed.

Lemma from_chars_i64_print v s :
  i64_min <= v <= i64_max -> no_digit_head s ->
  from_chars_i64 (print_Z v ++ s) = chars_ok v s.
Proof.
  intros Hv Hs. unfold from_chars_i64, print_Z.
  assert (forall m, 0 <= m -> scan_digits 0 0 (dec_of_Z m ++ s) = (m, length (dec_of_Z m), s)
    /\ length (dec_of_Z m) <> O) as Hscan.
  { intros m Hm. destruct (dec_of_Z_spec m Hm) as (Hlen & _ & ->).
    rewrite scan_digits_stop by done. split; [|lia]. f_equal. }
  assert (in_i64 v = true) as Hin.
  { unfold in_i64. apply andb_true_iff; split; apply Z.leb_le; lia. }
  destruct (v <? 0) eqn:E; bool_prop.
  - simpl. destruct (Hscan (- v) ltac:(lia)) as [-> Hne].
    rewrite (proj2 (Nat.eqb_neq _ _)) by done. rewrite Z.opp_involutive, Hin. done.
  - destruct (dec_of_Z_head v E) as (c & ds & Heq & Hc).
    assert (take_minus (dec_of_Z v ++ s) = (false, dec_of_Z v ++ s)) as ->.
    { rewrite Heq. simpl. by rewrite decide_False. }
    destruct (Hscan v E) as [-> Hne].
    rewrite (proj2 (Nat.eqb_neq _ _)) by done. by rewrite Hin.
Qed.

Lemma print_Z_nonempty v : print_Z v <> [].
Proof.
  unfold print_Z. split_if; [done|].
  destruct (dec_of_Z_head v) as (c & ds & -> & _); [done|done].
Qed.

(** [parse_i64] reads back what [to_chars] prints. *)
Lemma parse_i64_print v : i64_min <= v <= i64_max -> parse_i64 (print_Z v) = Some v.
Proof.
  intros Hv. pose proof (from_chars_i64_print v [] Hv I) as H. rewrite app_nil_r in H.
  unfold parse_i64. pose proof (print_Z_nonempty v).
  destruct (print_Z v); [done|]. by rewrite H.
Qed.

Lemma parse_i64_range s v : parse_i64 s = Some v -> i64_min <= v <= i64_max.
Proof.
  unfold parse_i64, from_chars_i64. destruct s as [|c s]; [done|].
  destruct (take_minus (c :: s)) as [neg body].
  destruct (scan_digits 0 0 body) as [[m n] rest].
  destruct (n =? 0)%nat; [done|].
  destruct (in_i64 (if neg then - m else m)) eqn:E; [|done].
  unfold in_i64 in E. bool_prop. destruct rest; intros; simplify_eq. lia.
Qed.

Lemma length_dec_of_Z n k : 0 <= n < 10 ^ Z.of_nat k -> (0 < k)%nat -> (length (dec_of_Z n) <= k)%nat.
Proof.
  intros Hn Hk. destruct (dec_of_Z_spec n ltac:(lia)) as (Hlen & Hlow & _).
  destruct (decide (n = 0)) as [->|]; [change (length (dec_of_Z 0)) with 1%nat; lia|].
  specialize (Hlow ltac:(lia)). destruct (decide (length (dec_of_Z n) <= k)%nat) as [|Hgt]; [done|].
  exfalso. assert (10 ^ Z.of_nat k <= 10 ^ (zlen (dec_of_Z n) - 1)); [|lia].
  apply Z.pow_le_mono_r; [lia|]. unfold zlen. lia.
Qed.

(** Any 64-bit integer, signed or unsigned, fits the 32-byte and the 64-byte
    buffers of [request]. *)
Lemma to_chars_fits cap v :
  (21 <= cap)%nat -> i64_min <= v <= u64_max -> to_chars cap v = Some (print_Z v).
Proof.
  unfold to_chars, i64_min, u64_max. intros Hcap Hv.
  rewrite (proj2 (Nat.leb_le _ _)); [done|]. unfold print_Z. split_if.
  - simpl. enough (length (dec_of_Z (- v)) <= 20)%nat by lia.
    apply length_dec_of_Z; [|lia]. change (10 ^ Z.of_nat 20) with 100000000000000000000. lia.
  - enough (length (dec_of_Z v) <= 20)%nat by lia.
    apply length_dec_of_Z; [|lia]. change (10 ^ Z.of_nat 20) with 100000000000000000000. lia.
Qed.

(** ** Binary64

    A double is the [spec_float] of the Standard Library: a sign, a mantissa
    and an exponent, or a zero, an infinity or a NaN. *)

Abbreviation double := spec_float.

Definition prec : Z := 53.
Definition emax : Z := 1024.

(** The decimal number [m * 10^e], rounded once to nearest even.  The two
    guards decide the magnitudes whose power of ten need not be computed: a
    number of at least [10^309] overflows, one below [10^-324] rounds to
    zero. *)
Definition decimal_to_double (neg : bool) (m : Z) (e : Z) : from_chars_result double :=
  match m with
  | Zpos p =>
    let top := e + zlen (dec_of_Z m) in
    if 310 <=? top then chars_out_of_range []
    else if top <=? -324 then chars_out_of_range []
    else
      let r :=
        if 0 <=? e then binary_normalize prec emax (cond_Zopp neg (m * 10 ^ e)) 0 neg
        else SFdiv prec emax (S754_finite neg p 0)
               (S754_finite false (Z.to_pos (10 ^ (- e))) 0) in
      match r with
      | S754_finite _ _ _ => chars_ok r []
      | _ => chars_out_of_range []
      end
  | _ => chars_ok (S754_zero neg) []
  end.

(** Lower case, for the case-insensitive words of the format. *)
Definition to_lower (c : ascii) : ascii :=
  let n := N_of_ascii c in
  if ((65 <=? n) && (n <=? 90))%N then ascii_of_N (n + 32) else c.

(** Drop a word from the front, ignoring case. *)
Fixpoint strip_word (w s : bytes) : option bytes :=
  match w, s with
  | [], _ => Some s
  | a :: w', c :: s' => if decide (to_lower c = a) then strip_word w' s' else None
  | _ :: _, [] => None
  end.

Definition is_nan_char (c : ascii) : bool :=
  let n := N_of_ascii c in
  ((48 <=? n) && (n <=? 57) || (65 <=? n) && (n <=? 90) ||
   (97 <=? n) && (n <=? 122) || (n =? 95))%N.

(** The optional [(n-char-sequence)] after [nan]. *)
Fixpoint scan_nan_chars (s : bytes) : option bytes :=
  match s with
  | [] => None
  | c :: s' =>
    if decide (c = ")"%char) then Some s'
    else if is_nan_char c then scan_nan_chars s' else None
  end.

Definition scan_nan_payload (s : bytes) : bytes :=
  match s with
  | c :: s' =>
    if decide (c = "("%char) then default s (scan_nan_chars s') else s
  | [] => s
  end.

(** The exponent part: [e] or [E], an optional sign, at least one digit; a
    malformed exponent is not part of the number. *)
Definition scan_exponent (s : bytes) : Z * bytes :=
  match s with
  | c :: s' =>
    if decide (to_lower c = "e"%char) then
      let '(neg, body) :=
        match s' with
        | d :: s'' =>
          if decide (d = "-"%char) then (true, s'')
          else if decide (d = "+"%char) then (false, s'') else (false, s')
        | [] => (false, s')
        end in
      let '(x, n, rest) := scan_digits 0 0 body in
      if (n =? 0)%nat then (0, s) else (if neg then - x else x, rest)
    else (0, s)
  | [] => (0, s)
  end.

(** [std::from_chars(first, last, out, std::chars_format::general)]. *)
Definition from_chars_double (s : bytes) : from_chars_result double :=
  let '(neg, body) := take_minus s in
  match strip_word (s2b "inf") body with
  | Some rest =>
    chars_ok (S754_infinity neg) (default rest (strip_word (s2b "inity") rest))
  | None =>
    match strip_word (s2b "nan") body with
    | Some rest => chars_ok S754_nan (scan_nan_payload rest)
    | None =>
      let '(m, n, rest) := scan_digits 0 0 body in
      let '(m', nfrac, rest') :=
        match rest with
        | c :: r => if decide (c = "."%char) then scan_digits m 0 r else (m, O, rest)
        | [] => (m, O, rest)
        end in
      if (n + nfrac =? 0)%nat then chars_invalid_argument
      else
        let '(x, rest'') := scan_exponent rest' in
        match decimal_to_double neg m' (x - Z.of_nat nfrac) with
        | chars_ok v _ => chars_ok v rest''
        | _ => chars_out_of_range rest''
        end
    end
  end.

(** [detail::parse_double]. *)
Definition parse_double (sv : bytes) : option double :=
  if decide (sv = s2b "inf") then Some (S754_infinity false)
  else if decide (sv = s2b "-inf") then Some (S754_infinity true)
  else if decide (sv = s2b "nan") then Some S754_nan
  else
    match from_chars_double sv with
    | chars_ok v [] => Some v
    | _ => None
    end.

Example parse_double_3_25 : parse_double (s2b "3.25") = Some (S754_finite false 7318349394477056 (-51)).
Proof. vm_compute. reflexivity. Qed.
Example parse_double_tenth : parse_double (s2b "-1e-1") = Some (S754_finite true 7205759403792794 (-56)).
Proof. vm_compute. reflexivity. Qed.
Example parse_double_min : parse_double (s2b "4.9e-324") = Some (S754_finite false 1 (-1074)).
Proof. vm_compute. reflexivity. Qed.
Example parse_double_huge : parse_double (s2b "1e309") = None.
Proof. vm_compute. reflexivity. Qed.
Example parse_double_trailing : parse_double (s2b "1.5x") = None.
Proof. vm_compute. reflexivity. Qed.
