(* ===== verification/Logger.v ===== *)
(** * The logger ([logger.hpp]) and the failure messages ([impl/assert.ipp])

    The process-wide logger: which messages pass the level, where they go, and
    the line the default function prints.  The calendar fields come from
    [localtime_r] and are parameters; the formatting library prints integers
    in decimal, padded with zeros where the format asks for it.  What the
    connection logs is not modelled: it changes no state. *)

From S2P Require Import Prelude Charconv.

Module log_level.

(** [enum class log_level]. *)
Inductive log_level : Set := debug | info | warning | error | off.

End log_level.

Abbreviation log_level := log_level.log_level.

Definition level_int (l : log_level) : Z :=
  match l with
  | log_level.debug => 0
  | log_level.info => 1
  | log_level.warning => 2
  | log_level.error => 3
  | log_level.off => 4
  end.

(** [to_string(level)]. *)
Definition level_to_string (l : log_level) : bytes :=
  match l with
  | log_level.debug => s2b "debug"
  | log_level.info => s2b "info"
  | log_level.warning => s2b "warning"
  | log_level.error => s2b "error"
  | log_level.off => s2b "off"
  end.

(** [struct log_context]; the time stamp is in nanoseconds. *)
Record log_context : Set := mk_log_context {
  lc_level : log_level;
  lc_message : bytes;
  lc_file : bytes;
  lc_line : Z;
  lc_timestamp : Z;
}.

(** A [log_function]: the default one, or one of the user's. *)
Inductive log_function : Set := default_log_function | user_log_function (id : nat).

(** [class logger]. *)
Record logger : Set := mk_logger {
  log_fn_ : log_function;
  log_user_data_ : option nat;
  min_level_ : log_level;
}.

(** [logger()]. *)
Definition logger_new : logger := mk_logger default_log_function None log_level.off.

(** [set_log_function(fn, user_data)]: a null function restores the default. *)
Definition set_log_function (fn : option log_function) (user_data : option nat) (l : logger) : logger :=
  match fn with
  | Some f => mk_logger f user_data (min_level_ l)
  | None => mk_logger default_log_function None (min_level_ l)
  end.

(** [set_log_level(level)], [get_log_level()]. *)
Definition set_log_level (level : log_level) (l : logger) : logger :=
  mk_logger (log_fn_ l) (log_user_data_ l) level.
Definition get_log_level (l : logger) : log_level := min_level_ l.

(** [log(level, message, file, line)]: the call of the function, if any. *)
Definition log_message (now : Z) (level : log_level) (message file : bytes) (line : Z) (l : logger) :
    option (log_function * option nat * log_context) :=
  if level_int level <? level_int (min_level_ l) then None
  else Some (log_fn_ l, log_user_data_ l, mk_log_context level message file line now).

(** [log(level, file, line, fmt, args...)]: [format] is applied to its
    arguments only when the level passes. *)
Definition log_format (now : Z) (level : log_level) (file : bytes) (line : Z) (format : unit -> bytes) (l : logger) :
    option (log_function * option nat * log_context) :=
  if level_int level <? level_int (min_level_ l) then None
  else log_message now level (format tt) file line l.

(** ** The default function *)

(** [string_view::find]: the first place of a pattern. *)
Fixpoint is_prefix_of (pat s : bytes) : bool :=
  match pat, s with
  | [], _ => true
  | x :: pat', y :: s' => bool_decide (x = y) && is_prefix_of pat' s'
  | _ :: _, [] => false
  end.

Fixpoint find_sub (pat s : bytes) : option nat :=
  if is_prefix_of pat s then Some 0%nat
  else match s with [] => None | _ :: s' => Datatypes.S <$> find_sub pat s' end.

(** [find_last_of("/\\")]. *)
Definition is_separator (c : ascii) : bool := bool_decide (c = "/"%char) || bool_decide (c = "\"%char).

Fixpoint find_last_separator (s : bytes) : option nat :=
  match s with
  | [] => None
  | c :: s' =>
    match find_last_separator s' with
    | Some i => Some (Datatypes.S i)
    | None => if is_separator c then Some 0%nat else None
    end
  end.

Definition k_rediscoro_posix : bytes := s2b "rediscoro/".
Definition k_rediscoro_win : bytes := s2b "rediscoro\".

(** The lambda [file]: the part of the path that is shown. *)
Definition shown_file (path : bytes) : bytes :=
  match find_sub k_rediscoro_posix path with
  | Some pos => drop (pos + length k_rediscoro_posix) path
  | None =>
    match find_sub k_rediscoro_win path with
    | Some pos => drop (pos + length k_rediscoro_win) path
    | None =>
      match find_last_separator path with
      | Some pos => drop (pos + 1) path
      | None => path
      end
    end
  end.

(** [{:0nd}] of a number that is not negative. *)
Definition padded (n : nat) (z : Z) : bytes :=
  let s := print_Z z in replicate (n - length s) "0"%char ++ s.

(** [struct tm], as [localtime_r] fills it. *)
Record tm : Set := mk_tm { tm_year : Z; tm_mon : Z; tm_mday : Z; tm_hour : Z; tm_min : Z; tm_sec : Z }.

(** The line [default_log_function] prints. *)
Definition log_line (localtime : Z -> tm) (ctx : log_context) : bytes :=
  let t := localtime (Z.quot (lc_timestamp ctx) 1000000000) in
  let ms := Z.rem (Z.quot (lc_timestamp ctx) 1000000) 1000 in
  s2b "[" ++ padded 4 (tm_year t + 1900) ++ s2b "-" ++ padded 2 (tm_mon t + 1) ++ s2b "-" ++ padded 2 (tm_mday t) ++
  s2b " " ++ padded 2 (tm_hour t) ++ s2b ":" ++ padded 2 (tm_min t) ++ s2b ":" ++ padded 2 (tm_sec t) ++
  s2b "." ++ padded 3 ms ++ s2b "] [rediscoro] [" ++ level_to_string (lc_level ctx) ++ s2b "] [" ++
  shown_file (lc_file ctx) ++ s2b ":" ++ print_Z (lc_line ctx) ++ s2b "] " ++ lc_message ctx ++ [LF].

(** ** The text of a failed assertion *)

(** [fail(kind, expr, msg, file, line, func)] writes this to [stderr], then
    aborts; [assert_fail], [ensure_fail] and [unreachable_fail] call it. *)
Definition fail_text (kind : bytes) (expr msg : option bytes) (file : bytes) (line : Z) (func : bytes) : bytes :=
  s2b "[rediscoro] " ++ kind ++ s2b " failure" ++ [LF] ++
  s2b "  expression: " ++ default (s2b "(none)") expr ++ [LF] ++
  (match msg with Some m => s2b "  message   : " ++ m ++ [LF] | None => [] end) ++
  s2b "  location  : " ++ file ++ s2b ":" ++ print_Z line ++ [LF] ++
  s2b "  function  : " ++ func ++ [LF].

Definition assert_fail_text (expr : bytes) (msg : option bytes) (file : bytes) (line : Z) (func : bytes) : bytes :=
  fail_text (s2b "ASSERT") (Some expr) msg file line func.
Definition ensure_fail_text (expr : bytes) (msg : option bytes) (file : bytes) (line : Z) (func : bytes) : bytes :=
  fail_text (s2b "ENSURE") (Some expr) msg file line func.
Definition unreachable_fail_text (file : bytes) (line : Z) (func : bytes) : bytes :=
  fail_text (s2b "UNREACHABLE") None None file line func.

(** ** Levels *)

(** A new logger passes nothing on that the macros log; afterwards a message
    passes when its level is not below the one set, and the last function set
    gets it. *)
Lemma new_logger_quiet now level msg file line :
  level <> log_level.off -> log_message now level msg file line logger_new = None.
Proof. by destruct level. Qed.

Lemma log_passes now level lv fn ud msg file line l :
  log_message now level msg file line (set_log_level lv (set_log_function (Some fn) ud l)) =
  if level_int lv <=? level_int level then Some (fn, ud, mk_log_context level msg file line now) else None.
Proof.
  unfold log_message. cbn [set_log_level set_log_function min_level_ log_fn_ log_user_data_].
  by rewrite Z.leb_antisym; destruct (level_int level <? level_int lv).
Qed.

Lemma log_format_eq now level file line format l :
  log_format now level file line format l = log_message now level (format tt) file line l.
Proof. unfold log_format, log_message. by destruct (_ <? _). Qed.

(** ** The path that is shown *)

Lemma is_prefix_spec pat s : is_prefix_of pat s = true <-> exists rest, s = pat ++ rest.
Proof.
  revert s. induction pat as [|x pat IH]; intros s; cbn [is_prefix_of]; [split; [by exists s|done]|].
  destruct s as [|y s]; [split; [done|by intros [? ?]]|]. rewrite andb_true_iff, bool_decide_eq_true, IH.
  split; [intros [-> [rest ->]]; by exists rest|intros [rest [= -> ->]]; eauto].
Qed.

(** Every occurrence is found, or an earlier one. *)
Lemma find_sub_first pat pre rest : exists i, find_sub pat (pre ++ pat ++ rest) = Some i /\ (i <= length pre)%nat.
Proof.
  induction pre as [|c pre (i & Hi & Hle)].
  - exists 0%nat. split; [|simpl; lia]. assert (is_prefix_of pat (pat ++ rest) = true) as E by (apply is_prefix_spec; eauto).
    cbn [app]. destruct (pat ++ rest); cbn [find_sub]; by rewrite E.
  - cbn [app find_sub]. destruct (is_prefix_of pat _); [exists 0%nat; split; [done|simpl; lia]|].
    rewrite Hi. exists (S i). split; [done|simpl; lia].
Qed.

Lemma find_last_none s : find_last_separator s = None -> Forall (fun c => is_separator c = false) s.
Proof.
  induction s as [|c s IH]; [constructor|]. cbn [find_last_separator].
  destruct (find_last_separator s); [done|]. destruct (is_separator c) eqn:E; [done|]. constructor; auto.
Qed.

Lemma find_last_some s i :
  find_last_separator s = Some i -> (i < length s)%nat /\ Forall (fun c => is_separator c = false) (drop (i + 1) s).
Proof.
  revert i. induction s as [|c s IH]; intros i; [done|]. cbn [find_last_separator].
  destruct (find_last_separator s) as [j|] eqn:E.
  - intros [= <-]. destruct (IH j eq_refl). split; [simpl; lia|done].
  - destruct (is_separator c); [|done]. intros [= <-]. split; [simpl; lia|]. by apply find_last_none.
Qed.

(** ** Theorems *)

(** The file name in a log line is the end of the source path: everything
    after an occurrence of ["rediscoro/"] in the path is shown (it starts after
    the first), and in a path without that directory, in either spelling, the
    part shown contains no separator. *)
Theorem shown_file_ends_path path :
  (exists pre, path = pre ++ shown_file path) /\
  (forall pre rest, path = pre ++ k_rediscoro_posix ++ rest -> exists mid, shown_file path = mid ++ rest) /\
  (find_sub k_rediscoro_posix path = None -> find_sub k_rediscoro_win path = None ->
   Forall (fun c => is_separator c = false) (shown_file path)).
Proof.
  split; [|split].
  - unfold shown_file. destruct (find_sub k_rediscoro_posix path); [eexists; by rewrite take_drop|].
    destruct (find_sub k_rediscoro_win path); [eexists; by rewrite take_drop|].
    destruct (find_last_separator path); [eexists; by rewrite take_drop|by exists []].
  - intros pre rest ->. destruct (find_sub_first k_rediscoro_posix pre rest) as (i & Hi & Hle).
    unfold shown_file. rewrite Hi, app_assoc, drop_app_le by (rewrite length_app; lia). by eexists.
  - intros H1 H2. unfold shown_file. rewrite H1, H2. destruct (find_last_separator path) as [i|] eqn:E.
    + exact (proj2 (find_last_some _ _ E)).
    + by apply find_last_none.
Qed.

Example shown_files :
  shown_file (s2b "/usr/include/rediscoro/impl/pipeline.ipp") = s2b "impl/pipeline.ipp" /\
  shown_file (s2b "/home/me/rediscoro/include/rediscoro/client.hpp") = s2b "include/rediscoro/client.hpp" /\
  shown_file (s2b "src/main.cpp") = s2b "main.cpp".
Proof. by vm_compute. Qed.
