(* ===== verification/Buffer.v ===== *)
(** * The parser's byte buffer ([include/rediscoro/resp3/buffer.hpp])

    A growable byte vector with a read and a write position, and the
    [std::string_view]s the zero-copy parser takes into it.  The storage
    carries the identity of its allocation: a view names the allocation it
    was taken from, so that reading a view after the vector moved to another
    allocation is a fault ([dangling_view]) and not a stale value. *)

From S2P Require Import Prelude.

(** [class buffer]: [buffer_] is the vector (its [size()] is the list's
    length), [storage_id] the allocation it lives in. *)
Record buffer : Set := mk_buffer {
  buffer_ : bytes;
  storage_id : nat;
  read_pos_ : nat;
  write_pos_ : nat;
}.

(** [std::string_view]: the default view is empty and points nowhere. *)
Record string_view : Set := mk_view { sv_storage : nat; sv_off : nat; sv_len : nat }.

#[export] Instance string_view_eq_dec : EqDecision string_view.
Proof. solve_decision. Defined.

Definition empty_view : string_view := mk_view 0 0 0.

(** Reading the characters of a view. *)
Definition view_bytes (b : buffer) (v : string_view) : option bytes :=
  if (sv_len v =? 0)%nat then Some []
  else if decide (sv_storage v = storage_id b) then
    if (sv_off v + sv_len v <=? length (buffer_ b))%nat
    then Some (slice (sv_off v) (sv_len v) (buffer_ b)) else None
  else None.

(** [v.substr(pos, n)] with [pos <= v.size()]. *)
Definition substr (v : string_view) (pos n : nat) : string_view :=
  mk_view (sv_storage v) (sv_off v + pos) (Nat.min n (sv_len v - pos)).

(** ** Operations *)

(** [buffer_.resize(n)]: growing value-initialises the new characters and
    moves the vector to a new allocation; the vector's capacity is taken to
    be its size, the least the standard guarantees. *)
Definition vector_resize (b : buffer) (n : nat) : buffer :=
  if (n <=? length (buffer_ b))%nat
  then mk_buffer (take n (buffer_ b)) (storage_id b) (read_pos_ b) (write_pos_ b)
  else mk_buffer (buffer_ b ++ replicate (n - length (buffer_ b)) zero)
         (S (storage_id b)) (read_pos_ b) (write_pos_ b).

(** [explicit buffer(std::size_t)]; the default constructor passes 4096. *)
Definition buffer_new (initial_capacity : nat) : buffer :=
  let initial_capacity := if (initial_capacity =? 0)%nat then 1%nat else initial_capacity in
  mk_buffer (replicate initial_capacity zero) 0 0 0.

Definition default_capacity : nat := 4096.

(** [size()]. *)
Definition buf_size (b : buffer) : run nat :=
  _ ← assert (read_pos_ b <=? write_pos_ b)%nat;
  Ret (write_pos_ b - read_pos_ b)%nat.

(** [data()]: the view of the readable bytes. *)
Definition data (b : buffer) : string_view :=
  mk_view (storage_id b) (read_pos_ b) (write_pos_ b - read_pos_ b).

(** The readable bytes themselves. *)
Definition data_bytes (b : buffer) : bytes :=
  slice (read_pos_ b) (write_pos_ b - read_pos_ b) (buffer_ b).

(** [commit(n)]. *)
Definition commit (b : buffer) (n : nat) : run buffer :=
  _ ← assert (write_pos_ b <=? length (buffer_ b))%nat;
  _ ← assert (n <=? length (buffer_ b) - write_pos_ b)%nat;
  Ret (mk_buffer (buffer_ b) (storage_id b) (read_pos_ b) (write_pos_ b + n)).

(** [consume(n)]. *)
Definition consume (b : buffer) (n : nat) : run buffer :=
  sz ← buf_size b;
  _ ← assert (n <=? sz)%nat;
  Ret (mk_buffer (buffer_ b) (storage_id b) (read_pos_ b + n) (write_pos_ b)).

(** [reset()]. *)
Definition buf_reset (b : buffer) : buffer := mk_buffer (buffer_ b) (storage_id b) 0 0.

(** [compact()]: the [memmove] copies the unread bytes to the front. *)
Definition compact (b : buffer) : run buffer :=
  if (read_pos_ b =? 0)%nat then Ret b
  else
    remaining ← buf_size b;
    let moved :=
      if (0 <? remaining)%nat
      then blit 0 (slice (read_pos_ b) remaining (buffer_ b)) (buffer_ b)
      else buffer_ b in
    Ret (mk_buffer moved (storage_id b) 0 remaining).

(** The doubling loop of [ensure_writable].  The size doubles from at least 1
    and the loop leaves at [size_max / 2], so 64 turns are enough. *)
Fixpoint grow_size (fuel : nat) (new_size write_pos n : Z) : run Z :=
  if new_size - write_pos <? n then
    if size_max / 2 <? new_size then Ret (u64 (write_pos + n))
    else
      match fuel with
      | O => Fault out_of_fuel
      | S fuel' => grow_size fuel' (new_size * 2) write_pos n
      end
  else Ret new_size.

Definition grow_fuel : nat := 64.

(** [ensure_writable(n)]. *)
Definition ensure_writable (b : buffer) (n : Z) : run buffer :=
  _ ← assert (write_pos_ b <=? length (buffer_ b))%nat;
  match buffer_ b with
  | [] =>
    let b' := vector_resize b (Z.to_nat (Z.max n 1)) in
    Ret (mk_buffer (buffer_ b') (storage_id b') 0 0)
  | _ =>
    let available := zlen (buffer_ b) - Z.of_nat (write_pos_ b) in
    if n <=? available then Ret b
    else
      new_size ← grow_size grow_fuel (zlen (buffer_ b)) (Z.of_nat (write_pos_ b)) n;
      Ret (vector_resize b (Z.to_nat new_size))
  end.

(** [prepare(min_size)]: the writable span is [[write_pos_, size)]. *)
Definition prepare (b : buffer) (min_size : Z) : run buffer := ensure_writable b min_size.

Definition prepare_default : Z := 4096.

(** The caller of [prepare] fills the front of the span, and no more than the
    span: [async_read_some] on the socket, [memcpy] in the tests. *)
Definition fill (b : buffer) (bs : bytes) : run buffer :=
  if (write_pos_ b + length bs <=? length (buffer_ b))%nat
  then Ret (mk_buffer (blit (write_pos_ b) bs (buffer_ b)) (storage_id b) (read_pos_ b)
              (write_pos_ b))
  else Fault out_of_range.

(** One read: [prepare], fill, [commit]. *)
Definition feed (b : buffer) (min_size : Z) (bs : bytes) : run buffer :=
  b1 ← prepare b min_size;
  b2 ← fill b1 bs;
  commit b2 (length bs).

(** ** The invariant *)

Definition buffer_wf (b : buffer) : Prop :=
  (read_pos_ b <= write_pos_ b)%nat /\ (write_pos_ b <= length (buffer_ b))%nat /\
  (0 < length (buffer_ b))%nat.

Lemma length_data_bytes b :
  buffer_wf b -> length (data_bytes b) = (write_pos_ b - read_pos_ b)%nat.
Proof. intros (? & ? & ?). unfold data_bytes. apply length_slice. lia. Qed.

Lemma buffer_new_wf n : buffer_wf (buffer_new n).
Proof.
  unfold buffer_new, buffer_wf. simpl. rewrite length_replicate.
  destruct (n =? 0)%nat eqn:E; bool_prop; lia.
Qed.

Lemma buffer_new_empty n : data_bytes (buffer_new n) = [].
Proof. reflexivity. Qed.

(** ** The doubling loop *)

Lemma grow_size_spec fuel new_size w n :
  0 < new_size -> 0 <= w -> 0 <= n -> w + n <= size_max -> size_max < new_size * 2 ^ Z.of_nat fuel ->
  exists k, grow_size fuel new_size w n = Ret k /\ w + n <= k /\ new_size <= k.
Proof.
  revert new_size. induction fuel as [|fuel IH]; intros s Hs Hw Hn Hmax Hfuel; cbn [grow_size].
  - change (2 ^ Z.of_nat 0) with 1 in Hfuel.
    split_if; [|eexists; split; [done|lia]].
    rewrite (proj2 (Z.ltb_lt _ _)) by (apply Z.div_lt_upper_bound; lia).
    eexists. split; [done|]. rewrite u64_small by (unfold size_max in *; lia). lia.
  - split_if; [|eexists; split; [done|lia]]. split_if.
    + eexists. split; [done|]. rewrite u64_small by (unfold size_max in *; lia). lia.
    + destruct (IH (s * 2)) as (k & Hk & Hle & Hor); [lia|lia|lia|lia| |].
      * rewrite Nat2Z.inj_succ, Z.pow_succ_r in Hfuel by lia. lia.
      * exists k. split; [done|]. lia.
Qed.

Lemma grow_size_bound fuel new_size w n k :
  0 < new_size -> 0 <= w -> 0 <= n -> w + n <= size_max ->
  grow_size fuel new_size w n = Ret k -> new_size <= k <= Z.max new_size (2 * (w + n)).
Proof.
  revert new_size. induction fuel as [|fuel IH]; intros s Hs Hw Hn Hmax; cbn [grow_size].
  all: split_if; [|by intros [= <-]; lia].
  all: split_if; [by intros [= <-]; rewrite u64_small by (unfold size_max in *; lia); lia|].
  - done.
  - intros H. apply IH in H; lia.
Qed.

#[global] Arguments grow_size : simpl never.

(** What [ensure_writable] does to a well-formed buffer: nothing when the
    span is long enough, else a move to a larger allocation that keeps the
    bytes and the positions. *)
Lemma ensure_writable_spec b n :
  buffer_wf b -> 0 <= n -> Z.of_nat (write_pos_ b) + n <= size_max ->
  exists b', ensure_writable b n = Ret b' /\
    read_pos_ b' = read_pos_ b /\ write_pos_ b' = write_pos_ b /\
    n <= zlen (buffer_ b') - Z.of_nat (write_pos_ b') /\
    ((n <= zlen (buffer_ b) - Z.of_nat (write_pos_ b) /\ b' = b) \/
     (zlen (buffer_ b) - Z.of_nat (write_pos_ b) < n /\
      storage_id b' = S (storage_id b) /\
      exists pad, buffer_ b' = buffer_ b ++ pad)).
Proof.
  intros (Hrw & Hwl & Hpos) Hn Hmax. unfold ensure_writable.
  rewrite (proj2 (Nat.leb_le _ _)) by done. simpl.
  destruct (buffer_ b) as [|c0 st] eqn:Est; [simpl in Hpos; lia|]. rewrite <- Est in *.
  split_if; [exists b; split; [done|]; split; [done|]; split; [done|]; split; [lia|left; done]|].
  destruct (grow_size_spec grow_fuel (zlen (buffer_ b)) (Z.of_nat (write_pos_ b)) n)
    as (k & -> & Hk & Hge).
  { unfold zlen. lia. }
  { lia. }
  { lia. }
  { lia. }
  { change (2 ^ Z.of_nat grow_fuel) with 18446744073709551616.
    unfold size_max, u64_max, zlen. lia. }
  simpl. unfold vector_resize.
  rewrite (proj2 (Nat.leb_gt _ _)) by (unfold zlen in *; lia).
  eexists. split; [done|]. simpl. split; [done|]. split; [done|].
  split.
  - unfold zlen in *. rewrite length_app, length_replicate. lia.
  - right. split; [lia|]. split; [done|]. eauto.
Qed.

(** The storage at most doubles what is asked for. *)
Lemma ensure_writable_size b n b' :
  buffer_wf b -> 0 <= n -> Z.of_nat (write_pos_ b) + n <= size_max -> ensure_writable b n = Ret b' ->
  zlen (buffer_ b) <= zlen (buffer_ b') <= Z.max (zlen (buffer_ b)) (2 * (Z.of_nat (write_pos_ b) + n)).
Proof.
  intros (Hrw & Hwl & Hpos) Hn Hmax. unfold ensure_writable.
  rewrite (proj2 (Nat.leb_le _ _)) by done. simpl.
  destruct (buffer_ b) as [|c0 st] eqn:Est; [simpl in Hpos; lia|]. rewrite <- Est in *.
  split_if; [intros [= <-]; lia|]. intros H. apply run_bind_Ret in H as (k & Hk & [= <-]).
  apply grow_size_bound in Hk; [|unfold zlen; lia|lia|lia|lia]. unfold vector_resize.
  split_if; cbn [buffer_]; unfold zlen in *; rewrite ?length_take, ?length_app, ?length_replicate; lia.
Qed.

Lemma ensure_writable_wf b n b' :
  buffer_wf b -> 0 <= n -> Z.of_nat (write_pos_ b) + n <= size_max ->
  ensure_writable b n = Ret b' -> buffer_wf b' /\ data_bytes b' = data_bytes b.
Proof.
  intros Hwf Hn Hmax H.
  destruct (ensure_writable_spec b n Hwf Hn Hmax) as (b2 & H2 & Hr & Hw & Hav & Hcase).
  rewrite H in H2. injection H2 as <-. destruct Hwf as (? & ? & ?).
  destruct Hcase as [[_ ->]|(_ & _ & pad & Hpad)]; [done|].
  assert (length (buffer_ b) <= length (buffer_ b'))%nat as Hlen
    by (rewrite Hpad, length_app; lia).
  split; [unfold buffer_wf; rewrite Hr, Hw; lia|].
  unfold data_bytes. rewrite Hr, Hw, Hpad. unfold slice.
  rewrite drop_app_le by lia. rewrite take_app_le by (rewrite length_drop; lia). done.
Qed.

(** Filling the span and committing appends to the readable bytes. *)
Lemma fill_commit_spec b bs :
  buffer_wf b -> (length bs <= length (buffer_ b) - write_pos_ b)%nat ->
  exists b', (b1 ← fill b bs; commit b1 (length bs)) = Ret b' /\ buffer_wf b' /\
    data_bytes b' = data_bytes b ++ bs /\ read_pos_ b' = read_pos_ b /\
    write_pos_ b' = (write_pos_ b + length bs)%nat /\
    storage_id b' = storage_id b /\ length (buffer_ b') = length (buffer_ b) /\
    take (write_pos_ b) (buffer_ b') = take (write_pos_ b) (buffer_ b).
Proof.
  intros (? & ? & ?) Hle. unfold commit, fill. rewrite (proj2 (Nat.leb_le _ _)) by lia. simpl.
  rewrite length_blit by lia.
  rewrite !(proj2 (Nat.leb_le _ _)) by lia. simpl.
  eexists. split; [done|]. unfold buffer_wf, data_bytes. simpl.
  rewrite length_blit by lia.
  split; [lia|]. split.
  2: { repeat (split; [done|]). unfold blit.
       by rewrite take_app_le, take_take, Nat.min_id by (rewrite length_take; lia). }
  replace (write_pos_ b + length bs - read_pos_ b)%nat
    with ((write_pos_ b - read_pos_ b) + length bs)%nat by lia.
  rewrite slice_app. replace (read_pos_ b + (write_pos_ b - read_pos_ b))%nat
    with (write_pos_ b) by lia.
  rewrite slice_blit_before by lia. by rewrite slice_blit_at by lia.
Qed.

Lemma consume_spec b n :
  buffer_wf b -> (n <= length (data_bytes b))%nat ->
  consume b n = Ret (mk_buffer (buffer_ b) (storage_id b) (read_pos_ b + n) (write_pos_ b)).
Proof.
  intros Hwf Hn. rewrite length_data_bytes in Hn by done. destruct Hwf as (? & ? & ?).
  unfold consume, buf_size. rewrite (proj2 (Nat.leb_le (read_pos_ b) _)) by lia. simpl.
  rewrite (proj2 (Nat.leb_le _ _)) by lia. done.
Qed.

Lemma consumed_data_bytes b n :
  buffer_wf b -> (n <= length (data_bytes b))%nat ->
  data_bytes (mk_buffer (buffer_ b) (storage_id b) (read_pos_ b + n) (write_pos_ b)) =
  drop n (data_bytes b).
Proof.
  intros Hwf Hn. rewrite length_data_bytes in Hn by done.
  unfold data_bytes, slice. simpl. rewrite skipn_firstn_comm, drop_drop.
  f_equal. lia.
Qed.

Lemma compact_spec b :
  buffer_wf b -> exists b', compact b = Ret b' /\ buffer_wf b' /\
    data_bytes b' = data_bytes b /\ read_pos_ b' = 0%nat /\ storage_id b' = storage_id b /\
    length (buffer_ b') = length (buffer_ b).
Proof.
  intros (? & ? & ?). unfold compact, buf_size.
  split_if; [exists b; unfold buffer_wf; repeat split; lia|].
  rewrite (proj2 (Nat.leb_le (read_pos_ b) _)) by lia. simpl.
  remember (write_pos_ b - read_pos_ b)%nat as r eqn:Hr.
  assert (length (slice (read_pos_ b) r (buffer_ b)) = r) as Hl by (apply length_slice; lia).
  eexists. split; [done|]. unfold buffer_wf, data_bytes. simpl. rewrite Nat.sub_0_r.
  destruct (0 <? r)%nat eqn:E; bool_prop.
  - rewrite length_blit by (rewrite Hl; lia). split; [lia|]. split; [|done].
    pose proof (slice_blit_at 0 (slice (read_pos_ b) r (buffer_ b)) (buffer_ b)) as Hat.
    rewrite Hl in Hat. rewrite <- Hr. apply Hat. lia.
  - split; [lia|]. split; [|done]. rewrite <- Hr. by replace r with 0%nat by lia.
Qed.

(** ** Views *)

(** A view of committed bytes of the current allocation is readable, and
    reads the storage. *)
Definition view_in (b : buffer) (v : string_view) (bs : bytes) : Prop :=
  view_bytes b v = Some bs.

Lemma view_of_data b off n :
  buffer_wf b -> (off + n <= length (data_bytes b))%nat ->
  view_bytes b (substr (data b) off n) = Some (slice off n (data_bytes b)).
Proof.
  intros Hwf Hle. rewrite length_data_bytes in Hle by done. destruct Hwf as (? & ? & ?).
  unfold view_bytes, substr, data. simpl.
  rewrite Nat.min_l by lia. split_if; [subst; done|].
  rewrite decide_True by done. rewrite (proj2 (Nat.leb_le _ _)) by lia.
  f_equal. unfold data_bytes, slice. rewrite skipn_firstn_comm, take_take, drop_drop.
  f_equal. lia.
Qed.

(** Moving the read position, or writing behind the write position, leaves
    every view of committed bytes as it was. *)
Lemma view_bytes_same_storage b b' v bs :
  storage_id b' = storage_id b -> length (buffer_ b') = length (buffer_ b) ->
  (sv_off v + sv_len v <= write_pos_ b)%nat ->
  take (write_pos_ b) (buffer_ b') = take (write_pos_ b) (buffer_ b) ->
  view_bytes b v = Some bs -> view_bytes b' v = Some bs.
Proof.
  intros Hid Hlen Hin Htake. unfold view_bytes. rewrite Hid, Hlen.
  split_if; [done|]. case_decide; [|done]. split_if; [|done].
  intros [= <-]. f_equal. unfold slice.
  assert (forall l : bytes, (sv_off v + sv_len v <= write_pos_ b)%nat ->
    take (sv_len v) (drop (sv_off v) l) =
    drop (sv_off v) (take (sv_off v + sv_len v) (take (write_pos_ b) l))) as Hcut.
  { intros l ?. rewrite take_take, Nat.min_l by lia. rewrite skipn_firstn_comm.
    f_equal. lia. }
  rewrite !Hcut by done. by rewrite Htake.
Qed.

(** Growth moves the storage: no non-empty view taken before is readable. *)
Lemma view_bytes_other_storage b v :
  (0 < sv_len v)%nat -> sv_storage v <> storage_id b -> view_bytes b v = None.
Proof.
  intros Hlen Hid. unfold view_bytes.
  rewrite (proj2 (Nat.eqb_neq _ _)) by lia. by rewrite decide_False.
Qed.

Lemma view_bytes_length b v bs : view_bytes b v = Some bs -> length bs = sv_len v.
Proof.
  unfold view_bytes. split_if; [intros [= <-]; simpl; lia|].
  case_decide; [|done]. split_if; [|done]. intros [= <-]. apply length_slice. lia.
Qed.

(** [substr] of a view reads the substring. *)
Lemma view_bytes_substr_Some b v bs pos n :
  view_bytes b v = Some bs -> view_bytes b (substr v pos n) = Some (take n (drop pos bs)).
Proof.
  intros Hv. pose proof (view_bytes_length b v bs Hv) as Hlen.
  unfold view_bytes, substr in *. simpl.
  destruct (Nat.min n (sv_len v - pos) =? 0)%nat eqn:E; bool_prop.
  { f_equal. symmetry. apply nil_length_inv. rewrite length_take, length_drop. lia. }
  destruct (sv_len v =? 0)%nat eqn:E'; bool_prop; [lia|].
  case_decide; [|done]. destruct (sv_off v + sv_len v <=? _)%nat eqn:E2; bool_prop; [|done].
  injection Hv as <-. rewrite (proj2 (Nat.leb_le _ _)) by lia. f_equal. unfold slice.
  rewrite skipn_firstn_comm, drop_drop, take_take. f_equal.
Qed.
