(* ===== verification/Message.v ===== *)
(** * RESP3 values and messages ([resp3/value.hpp], [resp3/message.hpp],
    [resp3/visitor.hpp])

    The value variant, the message with its optional attributes, the
    classification and access functions, and the pre-order walk.  The text
    type is a parameter: the program's messages hold [std::string_view]s
    ([message string_view]); [resolve] reads them into bytes. *)

From S2P Require Import Prelude Kind Charconv.

Module resp3.

(** [message::value_type]: one alternative per value struct, over the text
    type [T] and the type [M] of nested messages. *)
Inductive value_type (T M : Type) : Type :=
| simple_string (data : T)
| simple_error (message : T)
| integer (value : Z)
| double_number (value : double)
| boolean (value : bool)
| big_number (value : T)
| null (source : kind)
| bulk_string (data : T)
| bulk_error (message : T)
| verbatim_string (encoding data : T)
| array (elements : list M)
| map (entries : list (M * M))
| set (elements : list M)
| push (elements : list M).

#[global] Arguments simple_string {T M} data.
#[global] Arguments simple_error {T M} message.
#[global] Arguments integer {T M} value.
#[global] Arguments double_number {T M} value.
#[global] Arguments boolean {T M} value.
#[global] Arguments big_number {T M} value.
#[global] Arguments null {T M} source.
#[global] Arguments bulk_string {T M} data.
#[global] Arguments bulk_error {T M} message.
#[global] Arguments verbatim_string {T M} encoding data.
#[global] Arguments array {T M} elements.
#[global] Arguments map {T M} entries.
#[global] Arguments set {T M} elements.
#[global] Arguments push {T M} elements.

End resp3.

Abbreviation value_type := resp3.value_type.

(** [struct message]: a value and optional attributes (the entries of
    [struct attribute]). *)
#[local] Unset Elimination Schemes.
Inductive message (T : Type) : Type :=
| mk_message (v : value_type T (message T)) (a : option (list (message T * message T))).
#[local] Set Elimination Schemes.
Arguments mk_message {T} v a.

Definition value {T} (m : message T) : value_type T (message T) :=
  let (v, _) := m in v.
Definition attrs {T} (m : message T) : option (list (message T * message T)) :=
  let (_, a) := m in a.

(** [message(T&& val)]: no attributes. *)
Definition message_of {T} (v : value_type T (message T)) : message T := mk_message v None.

(** [message()]: a generic null. *)
Definition default_message {T} : message T := message_of (resp3.null kind.null).

(** [T::kind_id] of each alternative. *)
Definition kind_id {T M} (v : value_type T M) : kind :=
  match v with
  | resp3.simple_string _ => kind.simple_string
  | resp3.simple_error _ => kind.simple_error
  | resp3.integer _ => kind.integer
  | resp3.double_number _ => kind.double_number
  | resp3.boolean _ => kind.boolean
  | resp3.big_number _ => kind.big_number
  | resp3.null _ => kind.null
  | resp3.bulk_string _ => kind.bulk_string
  | resp3.bulk_error _ => kind.bulk_error
  | resp3.verbatim_string _ _ => kind.verbatim_string
  | resp3.array _ => kind.array
  | resp3.map _ => kind.map
  | resp3.set _ => kind.set
  | resp3.push _ => kind.push
  end.

(** [get_kind()]. *)
Definition get_kind {T} (m : message T) : kind := kind_id (value m).

(** [is<T>()], the alternative named by its kind. *)
Definition is_ {T} (k : kind) (m : message T) : bool := bool_decide (get_kind m = k).

(** ** Nulls *)

(** [null::is_typed()], [null::is_typed(t)]. *)
Definition null_is_typed (source : kind) : bool := negb (bool_decide (source = kind.null)).
Definition null_is_typed_as (source t : kind) : bool := bool_decide (source = t).

(** [try_as<null>()]: the source kind of a null. *)
Definition try_as_null {T} (m : message T) : option kind :=
  match value m with resp3.null s => Some s | _ => None end.

Definition is_null {T} (m : message T) : bool := is_ kind.null m.

Definition is_typed_null {T} (m : message T) : bool :=
  match try_as_null m with Some s => null_is_typed s | None => false end.

Definition is_typed_null_of {T} (m : message T) (t : kind) : bool :=
  match try_as_null m with Some s => null_is_typed_as s t | None => false end.

Definition typed_null_source {T} (m : message T) : option kind :=
  match try_as_null m with
  | Some s => if null_is_typed s then Some s else None
  | None => None
  end.

(** ** Classification *)

Definition is_aggregate {T} (m : message T) : bool :=
  is_ kind.array m || is_ kind.map m || is_ kind.set m || is_ kind.push m.

Definition is_simple {T} (m : message T) : bool :=
  is_ kind.simple_string m || is_ kind.simple_error m || is_ kind.integer m ||
  is_ kind.double_number m || is_ kind.boolean m || is_ kind.big_number m || is_ kind.null m.

Definition is_bulk {T} (m : message T) : bool :=
  is_ kind.bulk_string m || is_ kind.bulk_error m || is_ kind.verbatim_string m.

Definition is_error_reply {T} (m : message T) : bool :=
  is_ kind.simple_error m || is_ kind.bulk_error m.

Definition is_string {T} (m : message T) : bool :=
  is_ kind.simple_string m || is_ kind.bulk_string m || is_ kind.verbatim_string m.

(** ** Attributes *)

Definition has_attributes {T} (m : message T) : bool :=
  match attrs m with Some _ => true | None => false end.

Definition try_get_attributes {T} (m : message T) : option (list (message T * message T)) :=
  attrs m.

(** [get_attributes()] dereferences the optional without looking. *)
Definition get_attributes {T} (m : message T) : run (list (message T * message T)) :=
  or_fault bad_variant_access (attrs m).

(** ** Typed access

    [as<T>()] is [std::get<T>], which throws on another alternative. *)

Definition as_elements {T} (k : kind) (m : message T) : run (list (message T)) :=
  match value m with
  | resp3.array l => if decide (k = kind.array) then Ret l else Fault bad_variant_access
  | resp3.set l => if decide (k = kind.set) then Ret l else Fault bad_variant_access
  | resp3.push l => if decide (k = kind.push) then Ret l else Fault bad_variant_access
  | _ => Fault bad_variant_access
  end.

Definition as_map {T} (m : message T) : run (list (message T * message T)) :=
  match value m with resp3.map l => Ret l | _ => Fault bad_variant_access end.

(** ** The walk ([walk], [walk_message], [walk_attribute], [walker])

    The callback sees each value before its nested messages and the
    attributes of a message after its value; a callback that keeps a state
    is a function on it. *)

Inductive walk_event (T : Type) : Type :=
| ev_value (v : value_type T (message T))
| ev_attribute (entries : list (message T * message T)).
Arguments ev_value {T} v.
Arguments ev_attribute {T} entries.

Section walk.

Context {T S : Type} (cb : walk_event T -> S -> S).

Definition walk_elements (w : message T -> S -> S) :=
  fix go (l : list (message T)) (s : S) : S :=
    match l with
    | [] => s
    | e :: l' => go l' (w e s)
    end.

Definition walk_entries (w : message T -> S -> S) :=
  fix go (l : list (message T * message T)) (s : S) : S :=
    match l with
    | [] => s
    | (k, v) :: l' => go l' (w v (w k s))
    end.

Fixpoint walk_message (m : message T) (s : S) {struct m} : S :=
  match m with
  | mk_message v a =>
    let s1 := cb (ev_value v) s in
    let s2 :=
      match v with
      | resp3.array l => walk_elements walk_message l s1
      | resp3.map l => walk_entries walk_message l s1
      | resp3.set l => walk_elements walk_message l s1
      | resp3.push l => walk_elements walk_message l s1
      | _ => s1
      end in
    match a with
    | Some entries => walk_entries walk_message entries (cb (ev_attribute entries) s2)
    | None => s2
    end
  end.

End walk.

(** ** Resolving the text of a message *)

Section resolve.

Context {T U : Type} (f : T -> option U).

Fixpoint resolve (m : message T) {struct m} : option (message U) :=
  match m with
  | mk_message v a =>
    let elems (l : list (message T)) := mapM resolve l in
    let pairs (l : list (message T * message T)) :=
      mapM (fun kv => k ← resolve kv.1; w ← resolve kv.2; Some (k, w)) l in
    v' ← match v with
         | resp3.simple_string s => resp3.simple_string <$> f s
         | resp3.simple_error s => resp3.simple_error <$> f s
         | resp3.integer z => Some (resp3.integer z)
         | resp3.double_number d => Some (resp3.double_number d)
         | resp3.boolean b => Some (resp3.boolean b)
         | resp3.big_number s => resp3.big_number <$> f s
         | resp3.null s => Some (resp3.null s)
         | resp3.bulk_string s => resp3.bulk_string <$> f s
         | resp3.bulk_error s => resp3.bulk_error <$> f s
         | resp3.verbatim_string e s =>
           e' ← f e; s' ← f s; Some (resp3.verbatim_string e' s')
         | resp3.array l => resp3.array <$> elems l
         | resp3.map l => resp3.map <$> pairs l
         | resp3.set l => resp3.set <$> elems l
         | resp3.push l => resp3.push <$> elems l
         end;
    a' ← match a with
         | Some l => Some <$> pairs l
         | None => Some None
         end;
    Some (mk_message v' a')
  end.

End resolve.

(** ** Induction on messages *)

(** A property holds of every nested message of a value. *)
Definition value_forall {T M} (P : M -> Prop) (v : value_type T M) : Prop :=
  match v with
  | resp3.array l => Forall P l
  | resp3.set l => Forall P l
  | resp3.push l => Forall P l
  | resp3.map l => Forall (fun kv => P kv.1 /\ P kv.2) l
  | _ => True
  end.

Definition attrs_forall {M} (P : M -> Prop) (a : option (list (M * M))) : Prop :=
  match a with Some l => Forall (fun kv => P kv.1 /\ P kv.2) l | None => True end.

Section message_ind.

Context {T : Type} (P : message T -> Prop).
Context (Hmk : forall v a, value_forall P v -> attrs_forall P a -> P (mk_message v a)).

Fixpoint message_ind' (m : message T) : P m :=
  match m with
  | mk_message v a =>
    let elems := fix go (l : list (message T)) : Forall P l :=
      match l with
      | [] => List.Forall_nil _
      | x :: l' => @List.Forall_cons _ _ x l' (message_ind' x) (go l')
      end in
    let pairs := fix go (l : list (message T * message T)) :
        Forall (fun kv => P kv.1 /\ P kv.2) l :=
      match l with
      | [] => List.Forall_nil _
      | kv :: l' =>
        @List.Forall_cons _ _ kv l'
          (match kv return P kv.1 /\ P kv.2 with
           | (k, w) => conj (message_ind' k) (message_ind' w)
           end) (go l')
      end in
    Hmk v a
      (match v return value_forall P v with
       | resp3.array l => elems l
       | resp3.set l => elems l
       | resp3.push l => elems l
       | resp3.map l => pairs l
       | _ => I
       end)
      (match a return attrs_forall P a with
       | Some l => pairs l
       | None => I
       end)
  end.

End message_ind.

(** The walk visits the value of a message exactly as often as the message
    occurs: the number of callbacks is the number of values plus the number
    of attribute groups. *)
Fixpoint count_events {T} (m : message T) {struct m} : nat :=
  match m with
  | mk_message v a =>
    let elems := fix go (l : list (message T)) : nat :=
      match l with [] => O | e :: l' => (count_events e + go l')%nat end in
    let pairs := fix go (l : list (message T * message T)) : nat :=
      match l with
      | [] => O
      | (k, w) :: l' => (count_events k + count_events w + go l')%nat
      end in
    (1 + match v with
         | resp3.array l => elems l
         | resp3.map l => pairs l
         | resp3.set l => elems l
         | resp3.push l => elems l
         | _ => 0
         end
       + match a with Some l => 1 + pairs l | None => 0 end)%nat
  end.

Lemma is_null_typed_null_source {T} (m : message T) :
  is_typed_null m = true <-> exists s, typed_null_source m = Some s /\ s <> kind.null.
Proof.
  unfold is_typed_null, typed_null_source, null_is_typed.
  destruct (try_as_null m) as [s|]; [|naive_solver].
  destruct (bool_decide (s = kind.null)) eqn:E; simpl; bool_prop; naive_solver.
Qed.

(** Every message is exactly one of simple, bulk and aggregate. *)
Lemma classification_partition {T} (m : message T) :
  (is_simple m, is_bulk m, is_aggregate m) = (true, false, false) \/
  (is_simple m, is_bulk m, is_aggregate m) = (false, true, false) \/
  (is_simple m, is_bulk m, is_aggregate m) = (false, false, true).
Proof. destruct m as [v a]; destruct v; simpl; auto. Qed.
