(* ===== verification/Parser.v ===== *)
(** * The RESP3 parser ([resp3/raw.hpp], [resp3/parser.hpp],
    [resp3/impl/parser.ipp])

    The incremental zero-copy parser: a stack of frames drives the reading of
    one value from the buffer into a flat tree of nodes linked by index.
    Every operation is a function from the parser to the parser and its
    result; [std::vector] stacks are lists whose head is [back()]. *)

From S2P Require Import Prelude Kind Errors Charconv Buffer.
From Stdlib Require Import SpecFloat.

(** ** The raw tree *)

(** [struct raw_node]. *)
Record raw_node : Set := mk_node {
  node_type : kind;
  text : string_view;
  i64 : Z;
  f64 : double;
  node_boolean : bool;
  first_child : Z;
  child_count : Z;
  first_attr : Z;
  attr_count : Z;
}.

(** [raw_node{.type = t}]. *)
Definition node_of (t : kind) : raw_node :=
  mk_node t empty_view 0 (S754_zero false) false 0 0 0 0.
Definition with_text (v : string_view) (n : raw_node) : raw_node :=
  mk_node (node_type n) v (i64 n) (f64 n) (node_boolean n)
    (first_child n) (child_count n) (first_attr n) (attr_count n).
Definition with_i64 (z : Z) (n : raw_node) : raw_node :=
  mk_node (node_type n) (text n) z (f64 n) (node_boolean n)
    (first_child n) (child_count n) (first_attr n) (attr_count n).
Definition with_f64 (d : double) (n : raw_node) : raw_node :=
  mk_node (node_type n) (text n) (i64 n) d (node_boolean n)
    (first_child n) (child_count n) (first_attr n) (attr_count n).
Definition with_boolean (b : bool) (n : raw_node) : raw_node :=
  mk_node (node_type n) (text n) (i64 n) (f64 n) b
    (first_child n) (child_count n) (first_attr n) (attr_count n).
Definition with_children (first count : Z) (n : raw_node) : raw_node :=
  mk_node (node_type n) (text n) (i64 n) (f64 n) (node_boolean n)
    first count (first_attr n) (attr_count n).
Definition with_attrs (first count : Z) (n : raw_node) : raw_node :=
  mk_node (node_type n) (text n) (i64 n) (f64 n) (node_boolean n)
    (first_child n) (child_count n) first count.

(** [struct raw_tree]. *)
Record raw_tree : Set := mk_tree { nodes : list raw_node; links : list Z }.

(** [raw_tree::reset()]. *)
Definition tree_reset : raw_tree := mk_tree [] [].

(** [nodes.at(i)] and a write through the reference it returns. *)
Definition node_at (t : raw_tree) (i : Z) : run raw_node :=
  or_fault out_of_range (nodes t !! Z.to_nat i).
Definition set_node (t : raw_tree) (i : Z) (n : raw_node) : raw_tree :=
  mk_tree (<[Z.to_nat i := n]> (nodes t)) (links t).
Definition push_link (t : raw_tree) (i : Z) : raw_tree :=
  mk_tree (nodes t) (links t ++ [i]).

(** ** Parser state *)

(** [parser::limits]. *)
Record limits : Set := mk_limits {
  max_resp_bulk_bytes : Z;
  max_resp_container_len : Z;
  max_resp_line_bytes : Z;
}.

Definition default_limits : limits := mk_limits (512 * 1024 * 1024) 1000000 (64 * 1024).

Module frame_kind.

(** [enum class frame_kind]. *)
Inductive frame_kind : Set :=
| value
| array
| map_key
| map_value
| attribute.

End frame_kind.

Abbreviation frame_kind := frame_kind.frame_kind.

#[export] Instance frame_kind_eq_dec : EqDecision frame_kind.
Proof. solve_decision. Defined.

(** [struct frame]. *)
Record frame : Set := mk_frame {
  state : frame_kind;
  container_type : kind;
  expected_ : Z;
  produced_ : Z;
  node_index : Z;
  pending_key : Z;
  has_pending_key : bool;
}.

(** [frame{.state = frame_kind::value}]. *)
Definition value_frame : frame := mk_frame frame_kind.value kind.null 0 0 0 0 false.

(** [struct length_header]. *)
Record length_header : Set := mk_header { lh_length : Z; lh_bytes : nat }.

(** [struct pending_attributes]. *)
Record pending_attributes : Set := mk_pending { pa_first : Z; pa_count : Z }.

Definition pending_reset : pending_attributes := mk_pending 0 0.

(** [pending_attributes::push]. *)
Definition pending_push (pa : pending_attributes) (t : raw_tree) (kv_node : Z) :
    pending_attributes * raw_tree :=
  let first := if pa_count pa =? 0 then u32 (zlen (links t)) else pa_first pa in
  (mk_pending first (u32 (pa_count pa + 1)), push_link t kv_node).

(** [pending_attributes::attach]. *)
Definition pending_attach (pa : pending_attributes) (t : raw_tree) (node_idx : Z) :
    run (pending_attributes * raw_tree) :=
  if pa_count pa =? 0 then Ret (pa, t)
  else
    n ← node_at t node_idx;
    Ret (pending_reset, set_node t node_idx (with_attrs (pa_first pa) (pa_count pa) n)).

(** [struct step_index]. *)
Inductive step_index : Set :=
| continue_parsing
| produced (index : Z).

(** [class parser]. *)
Record parser : Set := mk_parser {
  buf_ : buffer;
  tree_ : raw_tree;
  stack_ : list frame;
  failed_ : bool;
  tree_ready_ : bool;
  pending_attrs_ : pending_attributes;
  limits_ : limits;
}.

Definition set_buf (b : buffer) (p : parser) : parser :=
  mk_parser b (tree_ p) (stack_ p) (failed_ p) (tree_ready_ p) (pending_attrs_ p) (limits_ p).
Definition set_tree (t : raw_tree) (p : parser) : parser :=
  mk_parser (buf_ p) t (stack_ p) (failed_ p) (tree_ready_ p) (pending_attrs_ p) (limits_ p).
Definition set_stack (s : list frame) (p : parser) : parser :=
  mk_parser (buf_ p) (tree_ p) s (failed_ p) (tree_ready_ p) (pending_attrs_ p) (limits_ p).
Definition set_failed (f : bool) (p : parser) : parser :=
  mk_parser (buf_ p) (tree_ p) (stack_ p) f (tree_ready_ p) (pending_attrs_ p) (limits_ p).
Definition set_ready (r : bool) (p : parser) : parser :=
  mk_parser (buf_ p) (tree_ p) (stack_ p) (failed_ p) r (pending_attrs_ p) (limits_ p).
Definition set_pending (pa : pending_attributes) (p : parser) : parser :=
  mk_parser (buf_ p) (tree_ p) (stack_ p) (failed_ p) (tree_ready_ p) pa (limits_ p).

(** [parser()] and [explicit parser(limits)]. *)
Definition parser_new (lims : limits) : parser :=
  mk_parser (buffer_new default_capacity) tree_reset [] false false pending_reset lims.

(** [prepare(min_size)] and [commit(n)]. *)
Definition parser_prepare (p : parser) (min_size : Z) : run parser :=
  b ← prepare (buf_ p) min_size; Ret (set_buf b p).
Definition parser_commit (p : parser) (n : nat) : run parser :=
  b ← commit (buf_ p) n; Ret (set_buf b p).

(** One read of the connection: [prepare], the socket fills the span,
    [commit]. *)
Definition parser_feed (p : parser) (min_size : Z) (bs : bytes) : run parser :=
  p1 ← parser_prepare p min_size;
  b ← fill (buf_ p1) bs;
  parser_commit (set_buf b p1) (length bs).

(** [reset()]. *)
Definition parser_reset (p : parser) : parser :=
  mk_parser (buf_reset (buf_ p)) tree_reset [] false false pending_reset (limits_ p).

(** [reclaim()]. *)
Definition reclaim (p : parser) : run parser :=
  b ← compact (buf_ p);
  Ret (mk_parser b tree_reset [] (failed_ p) false pending_reset (limits_ p)).

(** ** Scalar readers *)

(** [detail::find_crlf]: the offset of the first CR LF. *)
Fixpoint find_crlf (sv : bytes) : option nat :=
  match sv with
  | c :: ((d :: _) as rest) =>
    if decide (c = CR /\ d = LF) then Some O else S <$> find_crlf rest
  | _ => None
  end.

(** [detail::is_representable_length]. *)
Definition is_representable_length (t : kind) (len : Z) : bool :=
  if len <? 0 then false
  else
    match t with
    | kind.array | kind.set | kind.push => len <=? u32_max
    | kind.map | kind.attribute => len <=? u32_max / 2
    | _ => false
    end.

(** [payload[3]]. *)
Definition byte_at (s : bytes) (i : nat) : ascii := default zero (s !! i).

(** [detail::is_valid_verbatim_payload]. *)
Definition is_valid_verbatim_payload (payload : bytes) : bool :=
  (4 <=? length payload)%nat && bool_decide (byte_at payload 3 = ":"%char).

(** [detail::exceeds_i64_limit]. *)
Definition exceeds_i64_limit (v limit : Z) : bool :=
  if v <? 0 then false else limit <? v.

(** [parse_length_after_type(data)]. *)
Definition parse_length_after_type (lims : limits) (data : bytes) :
    expected (option length_header) protocol_errc :=
  let line := drop 1 data in
  match find_crlf line with
  | None =>
    if max_resp_line_bytes lims <? zlen line then Unexpected protocol_errc.invalid_length
    else Val None
  | Some pos =>
    if max_resp_line_bytes lims <? Z.of_nat pos then Unexpected protocol_errc.invalid_length
    else
      match parse_i64 (take pos line) with
      | None => Unexpected protocol_errc.invalid_length
      | Some len => Val (Some (mk_header len (1 + pos + 2)))
      end
  end.

(** The three lines every completed node goes through: the index of the next
    node, [push_back], and the pending attributes attached to it. *)
Definition push_node (n : raw_node) (p : parser) : run (parser * Z) :=
  let idx := u32 (zlen (nodes (tree_ p))) in
  let t := mk_tree (nodes (tree_ p) ++ [n]) (links (tree_ p)) in
  '(pa, t') ← pending_attach (pending_attrs_ p) t idx;
  Ret (set_pending pa (set_tree t' p), idx).

(** ** Containers and attributes *)

(** [start_container(current, t, len)]; [current] is [stack_.back()]. *)
Definition start_container (t : kind) (len : Z) (p : parser) :
    run (parser * expected step_index protocol_errc) :=
  if len <? -1 then Ret (p, Unexpected protocol_errc.invalid_length)
  else if max_resp_container_len (limits_ p) <? len then
    Ret (p, Unexpected protocol_errc.invalid_length)
  else if len =? -1 then
    '(p1, idx) ← push_node (with_i64 (-1) (node_of t)) p;
    Ret (p1, Val (produced idx))
  else if negb (is_representable_length t len) then
    Ret (p, Unexpected protocol_errc.invalid_length)
  else
    let expected_len := u32 len in
    '(p1, idx) ← push_node
      (with_children (u32 (zlen (links (tree_ p)))) 0 (with_i64 len (node_of t))) p;
    if len =? 0 then Ret (p1, Val (produced idx))
    else
      let st := if decide (t = kind.map) then frame_kind.map_key else frame_kind.array in
      let current := mk_frame st t expected_len 0 idx 0 false in
      Ret (set_stack (current :: tail (stack_ p1)) p1, Val continue_parsing).

(** [start_attribute(len)]. *)
Definition start_attribute (len : Z) (p : parser) :
    parser * expected unit protocol_errc :=
  if len <? 0 then (p, Unexpected protocol_errc.invalid_length)
  else if max_resp_container_len (limits_ p) <? len then
    (p, Unexpected protocol_errc.invalid_length)
  else if len =? 0 then (p, Val tt)
  else if negb (is_representable_length kind.attribute len) then
    (p, Unexpected protocol_errc.invalid_length)
  else
    let f := mk_frame frame_kind.attribute kind.attribute (u32 len) 0 0 0 false in
    (set_stack (f :: stack_ p) p, Val tt).

(** ** One value *)

Definition parser_consume (n : nat) (p : parser) : run parser :=
  b ← consume (buf_ p) n; Ret (set_buf b p).

(** A scalar is complete: consume its bytes, append its node. *)
Definition finish_scalar (n : nat) (nd : raw_node) (p : parser) :
    run (parser * expected (option step_index) protocol_errc) :=
  p1 ← parser_consume n p;
  '(p2, idx) ← push_node nd p1;
  Ret (p2, Val (Some (produced idx))).

(** [need_u64]: header, payload and trailer of a bulk value. *)
Definition bulk_need (header_bytes : nat) (len : Z) : Z :=
  u64 (u64 (Z.of_nat header_bytes + u64 len) + 2).

(** The bulk branch of [parse_value] ([$], [!], [=]). *)
Definition parse_bulk (k : kind) (p : parser) :
    run (parser * expected (option step_index) protocol_errc) :=
  let d := data_bytes (buf_ p) in
  match parse_length_after_type (limits_ p) d with
  | Unexpected e => Ret (p, Unexpected e)
  | Val None => Ret (p, Val None)
  | Val (Some lh) =>
    let len := lh_length lh in
    let header_bytes := lh_bytes lh in
    if len <? -1 then Ret (p, Unexpected protocol_errc.invalid_length)
    else if exceeds_i64_limit len (max_resp_bulk_bytes (limits_ p)) then
      Ret (p, Unexpected protocol_errc.invalid_length)
    else if len =? -1 then finish_scalar header_bytes (with_i64 (-1) (node_of k)) p
    else
      let need := bulk_need header_bytes len in
      if size_max <? need then Ret (p, Unexpected protocol_errc.invalid_length)
      else if zlen d <? need then Ret (p, Val None)
      else
        let n := Z.to_nat len in
        let payload := substr (data (buf_ p)) header_bytes n in
        if negb (bool_decide (slice (header_bytes + n) 2 d = crlf)) then
          Ret (p, Unexpected protocol_errc.invalid_bulk_trailer)
        else if bool_decide (k = kind.verbatim_string) &&
                negb (is_valid_verbatim_payload (slice header_bytes n d)) then
          Ret (p, Unexpected protocol_errc.invalid_verbatim)
        else
          finish_scalar (Z.to_nat need) (with_i64 len (with_text payload (node_of k))) p
  end.

(** The line branch of [parse_value] ([+], [-], [:], [,], [(]). *)
Definition parse_line (k : kind) (p : parser) :
    run (parser * expected (option step_index) protocol_errc) :=
  let line_data := drop 1 (data_bytes (buf_ p)) in
  match find_crlf line_data with
  | None =>
    if max_resp_line_bytes (limits_ p) <? zlen line_data then
      Ret (p, Unexpected protocol_errc.invalid_length)
    else Ret (p, Val None)
  | Some pos =>
    if max_resp_line_bytes (limits_ p) <? Z.of_nat pos then
      Ret (p, Unexpected protocol_errc.invalid_length)
    else
      let line := take pos line_data in
      let line_view := substr (substr (data (buf_ p)) 1 (length line_data)) 0 pos in
      let consume_bytes := (1 + pos + 2)%nat in
      match k with
      | kind.simple_string | kind.simple_error | kind.big_number =>
        finish_scalar consume_bytes (with_text line_view (node_of k)) p
      | kind.integer =>
        match parse_i64 line with
        | None => Ret (p, Unexpected protocol_errc.invalid_integer)
        | Some v =>
          finish_scalar consume_bytes (with_i64 v (with_text line_view (node_of k))) p
        end
      | kind.double_number =>
        match parse_double line with
        | None => Ret (p, Unexpected protocol_errc.invalid_double)
        | Some v =>
          finish_scalar consume_bytes (with_f64 v (with_text line_view (node_of k))) p
        end
      | _ => Ret (p, Unexpected protocol_errc.invalid_type_byte)
      end
  end.

(** The null branch. *)
Definition parse_null (p : parser) : run (parser * expected (option step_index) protocol_errc) :=
  let d := data_bytes (buf_ p) in
  if (length d <? 3)%nat then Ret (p, Val None)
  else if negb (bool_decide (byte_at d 1 = CR)) || negb (bool_decide (byte_at d 2 = LF)) then
    Ret (p, Unexpected protocol_errc.invalid_null)
  else finish_scalar 3 (node_of kind.null) p.

(** The boolean branch. *)
Definition parse_boolean (p : parser) :
    run (parser * expected (option step_index) protocol_errc) :=
  let d := data_bytes (buf_ p) in
  if (length d <? 4)%nat then Ret (p, Val None)
  else if negb (bool_decide (byte_at d 2 = CR)) || negb (bool_decide (byte_at d 3 = LF)) then
    Ret (p, Unexpected protocol_errc.invalid_boolean)
  else if bool_decide (byte_at d 1 = "t"%char) then
    finish_scalar 4 (with_boolean true (node_of kind.boolean)) p
  else if bool_decide (byte_at d 1 = "f"%char) then
    finish_scalar 4 (with_boolean false (node_of kind.boolean)) p
  else Ret (p, Unexpected protocol_errc.invalid_boolean).

(** The attribute branch. *)
Definition parse_attribute (p : parser) :
    run (parser * expected (option step_index) protocol_errc) :=
  match parse_length_after_type (limits_ p) (data_bytes (buf_ p)) with
  | Unexpected e => Ret (p, Unexpected e)
  | Val None => Ret (p, Val None)
  | Val (Some lh) =>
    p1 ← parser_consume (lh_bytes lh) p;
    match start_attribute (lh_length lh) p1 with
    | (p2, Unexpected e) => Ret (p2, Unexpected e)
    | (p2, Val _) => Ret (p2, Val (Some continue_parsing))
    end
  end.

(** The container branch ([*], [%], [~], [>]). *)
Definition parse_container (k : kind) (p : parser) :
    run (parser * expected (option step_index) protocol_errc) :=
  match parse_length_after_type (limits_ p) (data_bytes (buf_ p)) with
  | Unexpected e => Ret (p, Unexpected e)
  | Val None => Ret (p, Val None)
  | Val (Some lh) =>
    p1 ← parser_consume (lh_bytes lh) p;
    '(p2, started) ← start_container k (lh_length lh) p1;
    match started with
    | Unexpected e => Ret (p2, Unexpected e)
    | Val s => Ret (p2, Val (Some s))
    end
  end.

(** [parse_value()]. *)
Definition parse_value (p : parser) :
    run (parser * expected (option step_index) protocol_errc) :=
  _ ← assert (match stack_ p with
              | f :: _ => bool_decide (state f = frame_kind.value)
              | [] => false
              end);
  match data_bytes (buf_ p) with
  | [] => Ret (p, Val None)
  | b :: _ =>
    match prefix_to_kind b with
    | None => Ret (p, Unexpected protocol_errc.invalid_type_byte)
    | Some k =>
      match k with
      | kind.attribute => parse_attribute p
      | kind.array | kind.map | kind.set | kind.push => parse_container k p
      | kind.null => parse_null p
      | kind.boolean => parse_boolean p
      | kind.bulk_string | kind.bulk_error | kind.verbatim_string => parse_bulk k p
      | _ => parse_line k p
      end
    end
  end.

(** ** Attaching a completed value to its parents *)

(** Count a child of the container node of a frame: the first one opens the
    container's window of links. *)
Definition open_window (n : raw_node) (t : raw_tree) : Z :=
  if child_count n =? 0 then u32 (zlen (links t)) else first_child n.

(** [attach_to_parent(child_idx)]: the loop over the frames of the stack. *)
Fixpoint attach_to_parent (stack : list frame) (t : raw_tree) (pa : pending_attributes)
    (child_idx : Z) :
    run (list frame * raw_tree * pending_attributes * expected step_index protocol_errc) :=
  match stack with
  | [] => Ret ([], t, pa, Val (produced child_idx))
  | parent :: rest =>
    match state parent with
    | frame_kind.array =>
      _ ← assert (bool_decide (container_type parent = kind.array) ||
                  bool_decide (container_type parent = kind.set) ||
                  bool_decide (container_type parent = kind.push));
      node ← node_at t (node_index parent);
      let first := open_window node t in
      let t1 := push_link t child_idx in
      let prod := u32 (produced_ parent + 1) in
      let t2 := set_node t1 (node_index parent) (with_children first prod node) in
      let parent' := mk_frame (state parent) (container_type parent) (expected_ parent) prod
                       (node_index parent) (pending_key parent) (has_pending_key parent) in
      if prod =? expected_ parent then attach_to_parent rest t2 pa (node_index parent)
      else Ret (value_frame :: parent' :: rest, t2, pa, Val continue_parsing)
    | frame_kind.map_key =>
      _ ← assert (bool_decide (container_type parent = kind.map));
      let parent' := mk_frame frame_kind.map_value (container_type parent) (expected_ parent)
                       (produced_ parent) (node_index parent) child_idx true in
      Ret (value_frame :: parent' :: rest, t, pa, Val continue_parsing)
    | frame_kind.map_value =>
      _ ← assert (bool_decide (container_type parent = kind.map));
      if negb (has_pending_key parent) then
        Ret (stack, t, pa, Unexpected protocol_errc.invalid_map_pairs)
      else
        node ← node_at t (node_index parent);
        let first := open_window node t in
        let t1 := push_link (push_link t (pending_key parent)) child_idx in
        let prod := u32 (produced_ parent + 1) in
        let t2 := set_node t1 (node_index parent) (with_children first (u32 (prod * 2)) node) in
        let parent' := mk_frame frame_kind.map_key (container_type parent) (expected_ parent)
                         prod (node_index parent) (pending_key parent) false in
        if prod =? expected_ parent then attach_to_parent rest t2 pa (node_index parent)
        else Ret (value_frame :: parent' :: rest, t2, pa, Val continue_parsing)
    | frame_kind.attribute =>
      _ ← assert (bool_decide (container_type parent = kind.attribute));
      if negb (has_pending_key parent) then
        let parent' := mk_frame (state parent) (container_type parent) (expected_ parent)
                         (produced_ parent) (node_index parent) child_idx true in
        Ret (value_frame :: parent' :: rest, t, pa, Val continue_parsing)
      else
        let '(pa1, t1) := pending_push pa t (pending_key parent) in
        let '(pa2, t2) := pending_push pa1 t1 child_idx in
        let prod := u32 (produced_ parent + 1) in
        let parent' := mk_frame (state parent) (container_type parent) (expected_ parent) prod
                         (node_index parent) (pending_key parent) false in
        if prod =? expected_ parent then Ret (rest, t2, pa2, Val continue_parsing)
        else Ret (value_frame :: parent' :: rest, t2, pa2, Val continue_parsing)
    | frame_kind.value => Ret (stack, t, pa, Unexpected protocol_errc.invalid_state)
    end
  end.

(** The call on the parser's own stack, tree and pending attributes. *)
Definition parser_attach (p : parser) (child_idx : Z) :
    run (parser * expected step_index protocol_errc) :=
  '(s, t, pa, r) ← attach_to_parent (stack_ p) (tree_ p) (pending_attrs_ p) child_idx;
  Ret (set_pending pa (set_tree t (set_stack s p)), r).

(** ** The loop of [parse_one] *)

(** One turn of the [while (true)]: [inl] goes round again. *)
Definition parse_step (p : parser) :
    run (parser + parser * expected (option Z) protocol_errc) :=
  match stack_ p with
  | [] => Ret (inr (set_failed true p, Unexpected protocol_errc.invalid_state))
  | f :: rest =>
    match state f with
    | frame_kind.value =>
      '(p1, r) ← parse_value p;
      match r with
      | Unexpected e => Ret (inr (set_failed true p1, Unexpected e))
      | Val None => Ret (inr (p1, Val None))
      | Val (Some continue_parsing) => Ret (inl p1)
      | Val (Some (produced child_idx)) =>
        '(p2, done_) ← parser_attach (set_stack (tail (stack_ p1)) p1) child_idx;
        match done_ with
        | Unexpected e => Ret (inr (set_failed true p2, Unexpected e))
        | Val (produced root) => Ret (inr (set_ready true p2, Val (Some root)))
        | Val continue_parsing => Ret (inl p2)
        end
      end
    | _ => Ret (inl (set_stack (value_frame :: stack_ p) p))
    end
  end.

Fixpoint parse_loop (fuel : nat) (p : parser) :
    run (parser * expected (option Z) protocol_errc) :=
  match fuel with
  | O => Fault out_of_fuel
  | S fuel' =>
    r ← parse_step p;
    match r with
    | inl p' => parse_loop fuel' p'
    | inr res => Ret res
    end
  end.

(** Every second turn consumes at least one byte of the unread data. *)
Definition parse_fuel (p : parser) : nat := 2 * length (data_bytes (buf_ p)) + 3.

(** [parse_one()]. *)
Definition parse_one (p : parser) : run (parser * expected (option Z) protocol_errc) :=
  if tree_ready_ p then Ret (p, Unexpected protocol_errc.tree_not_consumed)
  else if failed_ p then Ret (p, Unexpected protocol_errc.parser_failed)
  else
    let p1 := match stack_ p with [] => set_stack [value_frame] p | _ => p end in
    parse_loop (parse_fuel p1) p1.

(** A fresh parser that has read the given bytes. *)
Definition parser_with (lims : limits) (bs : bytes) : run parser :=
  parser_feed (parser_new lims) (zlen bs) bs.

Example parse_ok :
  (p ← parser_with default_limits (s2b "+OK" ++ crlf);
   '(p1, r) ← parse_one p;
   Ret (r, data_bytes (buf_ p1), text <$> nodes (tree_ p1))) =
  Ret (Val (Some 0), [], [mk_view 0 1 2]).
Proof. vm_compute. reflexivity. Qed.
