(* ===== verification/Builder.v ===== *)
(** * Building messages ([resp3/builder.hpp])

    [build_message]: the explicit-stack traversal that turns the raw tree of
    a completed parse into a message.  The text of the message stays in the
    parser's buffer (views). *)

From S2P Require Import Prelude Kind Charconv Buffer Message Parser.

Abbreviation vmessage := (message string_view).

(** [detail::is_typed_null_kind]. *)
Definition is_typed_null_kind (t : kind) : bool :=
  match t with
  | kind.bulk_string | kind.bulk_error | kind.verbatim_string
  | kind.array | kind.map | kind.set | kind.push => true
  | _ => false
  end.

(** [detail::decode_verbatim]: the assertion reads [payload[3]]. *)
Definition decode_verbatim (mem : string_view -> option bytes) (payload : string_view) :
    run (value_type string_view vmessage) :=
  bs ← or_fault dangling_view (mem payload);
  _ ← assert (is_valid_verbatim_payload bs);
  Ret (resp3.verbatim_string (substr payload 0 3) (substr payload 4 (sv_len payload))).

(** [detail::parent_slot_kind]. *)
Inductive parent_slot_kind : Set :=
| slot_child
| slot_attribute.

(** The local [struct frame] of [build_message]. *)
Record build_frame : Type := mk_build_frame {
  bf_node : Z;
  next_child : Z;
  next_attr : Z;
  initialized : bool;
  has_parent : bool;
  parent_kind : parent_slot_kind;
  parent_index : Z;
  result : vmessage;
  pending_map_key : option vmessage;
  pending_attr_key : option vmessage;
  frame_attrs : list (vmessage * vmessage);
}.

(** [frame{.node = root}] and the frames pushed for a child or an attribute. *)
Definition root_frame (root : Z) : build_frame :=
  mk_build_frame root 0 0 false false slot_child 0 default_message None None [].
Definition nested_frame (idx : Z) (k : parent_slot_kind) (pos : Z) : build_frame :=
  mk_build_frame idx 0 0 false true k pos default_message None None [].

(** The first visit of a frame: the result by node type. *)
Definition init_value (mem : string_view -> option bytes) (n : raw_node) : run vmessage :=
  match node_type n with
  | kind.attribute => Fault unreachable_reached
  | kind.null => Ret (message_of (resp3.null kind.null))
  | t =>
    if (i64 n =? -1) && is_typed_null_kind t then Ret (message_of (resp3.null t))
    else
      match t with
      | kind.simple_string => Ret (message_of (resp3.simple_string (text n)))
      | kind.simple_error => Ret (message_of (resp3.simple_error (text n)))
      | kind.integer => Ret (message_of (resp3.integer (i64 n)))
      | kind.double_number => Ret (message_of (resp3.double_number (f64 n)))
      | kind.boolean => Ret (message_of (resp3.boolean (node_boolean n)))
      | kind.big_number => Ret (message_of (resp3.big_number (text n)))
      | kind.bulk_string => Ret (message_of (resp3.bulk_string (text n)))
      | kind.bulk_error => Ret (message_of (resp3.bulk_error (text n)))
      | kind.verbatim_string => message_of <$> decode_verbatim mem (text n)
      | kind.array => Ret (message_of (resp3.array []))
      | kind.set => Ret (message_of (resp3.set []))
      | kind.push => Ret (message_of (resp3.push []))
      | kind.map => Ret (message_of (resp3.map []))
      | kind.null | kind.attribute => Fault unreachable_reached
      end
  end.

(** The two parity assertions that follow it. *)
Definition init_result (mem : string_view -> option bytes) (n : raw_node) : run vmessage :=
  r ← init_value mem n;
  _ ← (if 0 <? attr_count n then assert (attr_count n mod 2 =? 0) else Ret tt);
  _ ← (if bool_decide (node_type n = kind.map) then assert (child_count n mod 2 =? 0)
       else Ret tt);
  Ret r.

Definition initialize (mem : string_view -> option bytes) (n : raw_node) (f : build_frame) :
    run build_frame :=
  if initialized f then Ret f
  else
    r ← init_result mem n;
    Ret (mk_build_frame (bf_node f) (next_child f) (next_attr f) true (has_parent f)
           (parent_kind f) (parent_index f) r (pending_map_key f) (pending_attr_key f)
           (frame_attrs f)).

(** [tree.links.at(i)]. *)
Definition link_at (t : raw_tree) (i : Z) : run Z :=
  or_fault out_of_range (links t !! Z.to_nat i).

Definition set_next_child (i : Z) (f : build_frame) : build_frame :=
  mk_build_frame (bf_node f) i (next_attr f) (initialized f) (has_parent f) (parent_kind f)
    (parent_index f) (result f) (pending_map_key f) (pending_attr_key f) (frame_attrs f).
Definition set_next_attr (i : Z) (f : build_frame) : build_frame :=
  mk_build_frame (bf_node f) (next_child f) i (initialized f) (has_parent f) (parent_kind f)
    (parent_index f) (result f) (pending_map_key f) (pending_attr_key f) (frame_attrs f).
Definition set_result (r : vmessage) (pk : option vmessage) (f : build_frame) : build_frame :=
  mk_build_frame (bf_node f) (next_child f) (next_attr f) (initialized f) (has_parent f)
    (parent_kind f) (parent_index f) r pk (pending_attr_key f) (frame_attrs f).
Definition set_attrs (ak : option vmessage) (l : list (vmessage * vmessage)) (f : build_frame) :
    build_frame :=
  mk_build_frame (bf_node f) (next_child f) (next_attr f) (initialized f) (has_parent f)
    (parent_kind f) (parent_index f) (result f) (pending_map_key f) ak l.

(** [parent.result.as<array>().elements.push_back(finished)] and its
    companions. *)
Definition push_element (k : kind) (m x : vmessage) : run vmessage :=
  l ← as_elements k m;
  Ret (mk_message
         match k with
         | kind.array => resp3.array (l ++ [x])
         | kind.set => resp3.set (l ++ [x])
         | _ => resp3.push (l ++ [x])
         end (attrs m)).

Definition push_entry (m k x : vmessage) : run vmessage :=
  l ← as_map m; Ret (mk_message (resp3.map (l ++ [(k, x)])) (attrs m)).

(** Attach a finished message to the frame of its parent. *)
Definition attach_child (pn : raw_node) (index : Z) (finished : vmessage) (parent : build_frame) :
    run build_frame :=
  match node_type pn with
  | (kind.array | kind.set | kind.push) as k =>
    r ← push_element k (result parent) finished;
    Ret (set_result r (pending_map_key parent) parent)
  | kind.map =>
    if index mod 2 =? 0 then Ret (set_result (result parent) (Some finished) parent)
    else
      match pending_map_key parent with
      | None => Fault assert_failed
      | Some key =>
        r ← push_entry (result parent) key finished;
        Ret (set_result r None parent)
      end
  | _ => Fault unreachable_reached
  end.

Definition attach_attr (index : Z) (finished : vmessage) (parent : build_frame) :
    run build_frame :=
  if index mod 2 =? 0 then Ret (set_attrs (Some finished) (frame_attrs parent) parent)
  else
    match pending_attr_key parent with
    | None => Fault assert_failed
    | Some key => Ret (set_attrs None (frame_attrs parent ++ [(key, finished)]) parent)
    end.

(** The end of a frame: attributes are assigned, the frame is popped, the
    message returned or given to the parent. *)
Definition finalize (n : raw_node) (f : build_frame) : run vmessage :=
  if 0 <? attr_count n then
    match pending_attr_key f with
    | None => Ret (mk_message (value (result f)) (Some (frame_attrs f)))
    | Some _ => Fault unreachable_reached
    end
  else Ret (result f).

Definition deliver_to (t : raw_tree) (f : build_frame) (finished : vmessage)
    (rest : list build_frame) : run (list build_frame + vmessage) :=
  match rest with
  | [] => Ret (inr finished)
  | parent :: rest' =>
    pn ← node_at t (bf_node parent);
    _ ← assert (has_parent f);
    parent' ← match parent_kind f with
              | slot_child => attach_child pn (parent_index f) finished parent
              | slot_attribute => attach_attr (parent_index f) finished parent
              end;
    Ret (inl (parent' :: rest'))
  end.

(** One turn of the [while (!stack.empty())] loop: [inl] goes round again. *)
Definition build_step (mem : string_view -> option bytes) (t : raw_tree)
    (stack : list build_frame) : run (list build_frame + vmessage) :=
  match stack with
  | [] => Fault unreachable_reached
  | f0 :: rest =>
    n ← node_at t (bf_node f0);
    f ← initialize mem n f0;
    if next_child f <? child_count n then
      child_idx ← link_at t (u32 (first_child n + next_child f));
      Ret (inl (nested_frame child_idx slot_child (next_child f)
                :: set_next_child (next_child f + 1) f :: rest))
    else if next_attr f <? attr_count n then
      attr_idx ← link_at t (u32 (first_attr n + next_attr f));
      Ret (inl (nested_frame attr_idx slot_attribute (next_attr f)
                :: set_next_attr (next_attr f + 1) f :: rest))
    else
      finished ← finalize n f;
      deliver_to t f finished rest
  end.

(** Run a loop for at most [p] turns; the bound is binary, so a large bound
    costs nothing. *)
Fixpoint iter_pos {S R : Type} (step : S -> run (S + R)) (p : positive) (s : S) :
    run (S + R) :=
  match p with
  | xH => step s
  | xO q =>
    r ← iter_pos step q s;
    match r with inl s' => iter_pos step q s' | inr x => Ret (inr x) end
  | xI q =>
    r ← step s;
    match r with
    | inl s' =>
      r' ← iter_pos step q s';
      match r' with inl s'' => iter_pos step q s'' | inr x => Ret (inr x) end
    | inr x => Ret (inr x)
    end
  end.

(** The number of turns: a frame takes one turn per child and per attribute
    and one to finish, and a chain of nested frames is no longer than the
    number of nodes. *)
Definition max_fanout (t : raw_tree) : Z :=
  foldr (fun n m => Z.max (child_count n + attr_count n) m) 0 (nodes t).

Definition build_fuel (t : raw_tree) : positive :=
  Z.to_pos ((2 * max_fanout t + 2) ^ (zlen (nodes t) + 1)).

(** [build_message(tree, root)]. *)
Definition build_message (mem : string_view -> option bytes) (t : raw_tree) (root : Z) :
    run vmessage :=
  r ← iter_pos (build_step mem t) (build_fuel t) [root_frame root];
  match r with
  | inl _ => Fault out_of_fuel
  | inr m => Ret m
  end.

(** Parse and build one message, and read its text. *)
Definition parse_and_build (p : parser) :
    run (parser * expected (option (message bytes)) Errors.protocol_errc) :=
  '(p1, r) ← parse_one p;
  match r with
  | Unexpected e => Ret (p1, Unexpected e)
  | Val None => Ret (p1, Val None)
  | Val (Some root) =>
    m ← build_message (view_bytes (buf_ p1)) (tree_ p1) root;
    bm ← or_fault dangling_view (resolve (view_bytes (buf_ p1)) m);
    Ret (p1, Val (Some bm))
  end.
