(* ===== verification/ParserInv.v ===== *)
(** * The parser's invariant and its safety

    The well-formedness of the stack, the raw tree and the pending
    attributes; every turn of [parse_one] keeps it on arbitrary input bytes,
    so that no assertion, no [.at()] and no internal error code of the parser
    is ever reached, and the loop ends. *)

From S2P Require Import Prelude Kind Errors Charconv Buffer Parser.

(** ** Nodes and windows *)

(** The window [[first, first + count)] of the links lies in the links and
    names only nodes of [earlier]. *)
Definition win_ok (first count : Z) (lk earlier : list Z) : Prop :=
  0 <= count /\
  (count = 0 \/
   (0 <= first /\ first + count <= zlen lk /\
    forall k, first <= k < first + count -> exists l, lk !! Z.to_nat k = Some l /\ l ∈ earlier)).

(** The text of a node: a view into this allocation is readable, lies in the
    committed bytes, and is a verbatim payload where the node says so. *)
Definition text_ok (b : buffer) (n : raw_node) : Prop :=
  ((sv_storage (text n) <= storage_id b)%nat /\
   (node_type n = kind.verbatim_string -> i64 n <> -1 -> (0 < sv_len (text n))%nat)) /\
  (sv_storage (text n) = storage_id b ->
   (sv_off (text n) + sv_len (text n) <= write_pos_ b)%nat /\
   exists bs, view_bytes b (text n) = Some bs /\
     (node_type n = kind.verbatim_string -> i64 n <> -1 -> is_valid_verbatim_payload bs = true)).

Definition seq_kind (k : kind) : Prop := k = kind.array \/ k = kind.set \/ k = kind.push.

(** A node whose links are in place. *)
Record node_ok (b : buffer) (lk earlier : list Z) (n : raw_node) : Prop := {
  no_type : node_type n <> kind.attribute;
  no_children : win_ok (first_child n) (child_count n) lk earlier;
  no_attrs : win_ok (first_attr n) (attr_count n) lk earlier;
  no_attr_even : attr_count n mod 2 = 0;
  no_shape : child_count n = 0 \/
    (i64 n <> -1 /\
     (seq_kind (node_type n) \/ (node_type n = kind.map /\ child_count n mod 2 = 0)));
  no_text : text_ok b n;
}.

(** ** Frames *)

(** The open container of a frame holds the children produced so far. *)
Definition container_ok (b : buffer) (t : raw_tree) (closed : list Z) (f : frame) (per : Z) : Prop :=
  0 <= node_index f /\ 0 <= produced_ f < expected_ f /\ per * expected_ f <= u32_max /\
  exists n, nodes t !! Z.to_nat (node_index f) = Some n /\ node_ok b (links t) closed n /\
    node_type n = container_type f /\ i64 n <> -1 /\ child_count n = per * produced_ f.

Definition frame_ok (b : buffer) (t : raw_tree) (closed : list Z) (f : frame) : Prop :=
  match state f with
  | frame_kind.value => True
  | frame_kind.array =>
    seq_kind (container_type f) /\ has_pending_key f = false /\ container_ok b t closed f 1
  | frame_kind.map_key =>
    container_type f = kind.map /\ has_pending_key f = false /\ container_ok b t closed f 2
  | frame_kind.map_value =>
    container_type f = kind.map /\ has_pending_key f = true /\ pending_key f ∈ closed /\
    container_ok b t closed f 2
  | frame_kind.attribute =>
    container_type f = kind.attribute /\ 0 <= produced_ f < expected_ f /\
    expected_ f <= u32_max /\ (has_pending_key f = true -> pending_key f ∈ closed)
  end.

(** The frames a completed value may be attached to: containers, and
    attributes that stand over the value frame they annotate. *)
Fixpoint parents_shape (s : list frame) : Prop :=
  match s with
  | [] => True
  | f :: s' =>
    match state f with
    | frame_kind.value => False
    | frame_kind.attribute =>
      match s' with
      | g :: s'' => state g = frame_kind.value /\ parents_shape s''
      | [] => False
      end
    | _ => parents_shape s'
    end
  end.

(** The stack at the head of the loop: a value to read, or a container or
    attribute that waits for its next value. *)
Definition stack_shape (s : list frame) : Prop :=
  match s with
  | [] => False
  | f :: s' => if decide (state f = frame_kind.value) then parents_shape s' else parents_shape s
  end.

(** The nodes of the containers still being filled. *)
Definition is_container_frame (f : frame) : bool :=
  match state f with
  | frame_kind.array | frame_kind.map_key | frame_kind.map_value => true
  | _ => false
  end.

Fixpoint open_nodes (s : list frame) : list Z :=
  match s with
  | [] => []
  | f :: s' => if is_container_frame f then node_index f :: open_nodes s' else open_nodes s'
  end.

Fixpoint pending_keys (s : list frame) : Z :=
  match s with
  | [] => 0
  | f :: s' => (if has_pending_key f then 1 else 0) + pending_keys s'
  end.

(** ** The core invariant

    [closed] lists the completed nodes in the order of their completion; a
    link names a completed node, so every node refers to nodes completed
    before it. *)
Record core_inv (b : buffer) (t : raw_tree) (pa : pending_attributes) (s : list frame)
    (closed : list Z) : Prop := {
  ci_links : Forall (fun l => l ∈ closed) (links t);
  ci_closed : forall i j, closed !! i = Some j ->
    0 <= j /\ exists n, nodes t !! Z.to_nat j = Some n /\ node_ok b (links t) (take i closed) n;
  ci_nodup : NoDup (open_nodes s ++ closed);
  ci_count : zlen closed + zlen (open_nodes s) = zlen (nodes t);
  ci_frames : Forall (frame_ok b t closed) s;
  ci_pending : win_ok (pa_first pa) (pa_count pa) (links t) closed;
  ci_pending_count : pa_count pa = 0 \/ pa_count pa = 2;
}.

(** Sizes that keep every 32-bit index exact. *)
Definition sizes_ok (t : raw_tree) : Prop := zlen (nodes t) <= u32_max.

(** ** Windows *)

Lemma win_ok_zero first lk earlier : win_ok first 0 lk earlier.
Proof. split; [done|]. by left. Qed.

Lemma win_ok_mono first count lk lk' e e' :
  win_ok first count lk e -> e ⊆ e' -> win_ok first count (lk ++ lk') e'.
Proof.
  intros [H0 H] He. split; [done|]. destruct H as [|(H1 & H2 & H3)]; [by left|]. right.
  split; [done|]. split; [rewrite zlen_app; pose proof (zlen_nonneg lk'); lia|].
  intros k Hk. destruct (H3 k Hk) as (l & Hl & Hin). exists l.
  split; [|by apply He]. apply lookup_app_l_Some. done.
Qed.

Lemma win_ok_all first count lk e :
  Forall (fun l => l ∈ e) lk -> 0 <= first -> 0 <= count -> first + count <= zlen lk ->
  win_ok first count lk e.
Proof.
  intros Hall H0 Hc Hle. split; [done|]. right. split; [done|]. split; [done|].
  intros k Hk. destruct (lookup_lt_is_Some_2 lk (Z.to_nat k)) as [l Hl].
  { unfold zlen in *. lia. }
  exists l. split; [done|]. exact (Forall_lookup_1 _ _ _ _ Hall Hl).
Qed.

Lemma node_ok_mono b lk lk' e e' n :
  node_ok b lk e n -> e ⊆ e' -> node_ok b (lk ++ lk') e' n.
Proof. intros [] He. split; try done; by eapply win_ok_mono. Qed.

#[export] Hint Resolve win_ok_zero win_ok_mono node_ok_mono : rediscoro.

(** ** Adding to the tree *)

(** Appending a node leaves what is known of the others. *)
Lemma frame_ok_add_node b t n closed f :
  frame_ok b t closed f -> frame_ok b (mk_tree (nodes t ++ [n]) (links t)) closed f.
Proof.
  assert (forall per, container_ok b t closed f per ->
    container_ok b (mk_tree (nodes t ++ [n]) (links t)) closed f per) as Hc.
  { intros per (? & ? & ? & n' & Hn & ?). split; [done|]. split; [done|]. split; [done|].
    exists n'. split; [|done]. simpl. by apply lookup_app_l_Some. }
  unfold frame_ok. destruct (state f); naive_solver.
Qed.

(** More links and more completed nodes leave it too. *)
Lemma frame_ok_mono b t lk closed closed' f :
  frame_ok b t closed f -> closed ⊆ closed' ->
  frame_ok b (mk_tree (nodes t) (links t ++ lk)) closed' f.
Proof.
  intros Hf Hsub.
  assert (forall per, container_ok b t closed f per ->
    container_ok b (mk_tree (nodes t) (links t ++ lk)) closed' f per) as Hc.
  { intros per (? & ? & ? & n' & Hn & Hok & ?). split; [done|]. split; [done|]. split; [done|].
    exists n'. split; [done|]. split; [|done]. by eapply node_ok_mono. }
  unfold frame_ok in *. destruct (state f); naive_solver.
Qed.

Lemma frame_ok_set_node b t closed f i n :
  frame_ok b t closed f -> 0 <= i ->
  (is_container_frame f = true -> node_index f <> i) ->
  frame_ok b (set_node t i n) closed f.
Proof.
  intros Hf Hi Hne.
  assert (is_container_frame f = true -> forall per, container_ok b t closed f per ->
    container_ok b (set_node t i n) closed f per) as Hc.
  { intros Hcf per (? & ? & ? & n' & Hn & ?). split; [done|]. split; [done|]. split; [done|].
    exists n'. split; [|done]. simpl.
    rewrite list_lookup_insert_ne; [done|]. specialize (Hne Hcf). lia. }
  unfold frame_ok, is_container_frame in *. destruct (state f); naive_solver.
Qed.

Lemma open_nodes_elem f s : f ∈ s -> is_container_frame f = true -> node_index f ∈ open_nodes s.
Proof.
  intros Hin Hf. induction s as [|g s IH]; [by apply elem_of_nil in Hin|].
  apply elem_of_cons in Hin as [<-|Hin]; simpl.
  - rewrite Hf. apply elem_of_cons. by left.
  - case_match; [apply elem_of_cons; right|]; by apply IH.
Qed.

(** Writing a node that is neither open in the stack nor completed. *)
Lemma frames_ok_set_node b t closed s i n :
  Forall (frame_ok b t closed) s -> 0 <= i -> i ∉ open_nodes s ->
  Forall (frame_ok b (set_node t i n) closed) s.
Proof.
  intros Hs Hi Hni. rewrite Forall_forall in Hs |- *. intros f Hf.
  apply frame_ok_set_node; [by apply Hs|done|].
  intros Hcf <-. apply Hni. by apply open_nodes_elem.
Qed.

(** ** Adding a completed or an open node *)

Lemma take_subseteq {A} n (l : list A) : take n l ⊆ l.
Proof. intros x Hx. rewrite <- (take_drop n l). apply elem_of_app. by left. Qed.

Lemma closed_in_range b t pa s closed j :
  core_inv b t pa s closed -> j ∈ closed -> 0 <= j < zlen (nodes t).
Proof.
  intros Hci Hj. apply list_elem_of_lookup in Hj as [i Hi].
  destruct (ci_closed _ _ _ _ _ Hci i j Hi) as (H0 & n & Hn & _).
  apply lookup_lt_Some in Hn. unfold zlen. lia.
Qed.

Lemma open_in_range b t pa s closed j :
  core_inv b t pa s closed -> j ∈ open_nodes s -> 0 <= j < zlen (nodes t).
Proof.
  intros Hci Hj. pose proof (ci_frames _ _ _ _ _ Hci) as Hf. clear Hci.
  induction s as [|f s IH]; [by apply elem_of_nil in Hj|].
  apply Forall_cons in Hf as [Hf1 Hf]. simpl in Hj.
  destruct (is_container_frame f) eqn:Ec; [|by apply IH].
  apply elem_of_cons in Hj as [->|Hj]; [|by apply IH].
  assert (exists per, container_ok b t closed f per) as [per (H0 & _ & _ & n & Hn & _)].
  { unfold frame_ok, is_container_frame in *. destruct (state f); naive_solver. }
  apply lookup_lt_Some in Hn. unfold zlen. lia.
Qed.

(** A fresh node index is neither open nor completed. *)
Lemma fresh_index b t pa s closed :
  core_inv b t pa s closed -> zlen (nodes t) ∉ open_nodes s ++ closed.
Proof.
  intros Hci Hin. apply elem_of_app in Hin as [Hin|Hin].
  - apply (open_in_range b t pa s closed) in Hin; [lia|done].
  - apply (closed_in_range b t pa s closed) in Hin; [lia|done].
Qed.

Lemma zlen_to_nat {A} (l : list A) : Z.to_nat (zlen l) = length l.
Proof. unfold zlen. lia. Qed.

#[export] Hint Rewrite @zlen_to_nat : rediscoro.

(** The new node [n] is complete. *)
Lemma core_add_closed b t pa s closed n :
  core_inv b t pa s closed -> node_ok b (links t) closed n ->
  core_inv b (mk_tree (nodes t ++ [n]) (links t)) pending_reset s (closed ++ [zlen (nodes t)]).
Proof.
  intros Hci Hn. pose proof (fresh_index _ _ _ _ _ Hci) as Hfresh.
  assert (closed ⊆ closed ++ [zlen (nodes t)]) as Hsub by set_solver.
  destruct Hci as [Hl Hc Hnd Hct Hf Hp Hpc]. split; simpl.
  - eapply Forall_impl; [exact Hl|]. simpl. set_solver.
  - intros i j Hij. apply lookup_app_Some in Hij as [Hij|[Hge Hij]].
    + destruct (Hc i j Hij) as (H0 & n' & Hn' & Hok). split; [done|]. exists n'.
      split; [by apply lookup_app_l_Some|].
      rewrite take_app_le; [done|]. apply lookup_lt_Some in Hij. lia.
    + apply list_lookup_singleton_Some in Hij as [Hi <-]. split; [apply zlen_nonneg|].
      exists n. rewrite zlen_to_nat. rewrite lookup_app_r by lia. rewrite Nat.sub_diag.
      split; [done|]. rewrite take_app_ge by lia.
      replace (i - length closed)%nat with 0%nat by lia. simpl. by rewrite app_nil_r.
  - rewrite app_assoc. apply NoDup_app. split; [done|]. split; [|apply NoDup_singleton].
    intros x Hx Hx'. apply list_elem_of_singleton in Hx' as ->. done.
  - zlen_lia.
  - eapply Forall_impl; [exact Hf|]. intros f Hfr.
    pose proof (frame_ok_mono b t [] closed _ f Hfr Hsub) as Hfr'. rewrite app_nil_r in Hfr'.
    by apply (frame_ok_add_node b (mk_tree (nodes t) (links t))).
  - apply win_ok_zero.
  - by left.
Qed.

(** The new node [n] is the container of a new frame. *)
Lemma core_add_open b t pa s closed n f :
  core_inv b t pa s closed -> is_container_frame f = true -> node_index f = zlen (nodes t) ->
  frame_ok b (mk_tree (nodes t ++ [n]) (links t)) closed f ->
  core_inv b (mk_tree (nodes t ++ [n]) (links t)) pending_reset (f :: s) closed.
Proof.
  intros Hci Hcf Hidx Hfok. pose proof (fresh_index _ _ _ _ _ Hci) as Hfresh.
  destruct Hci as [Hl Hc Hnd Hct Hf Hp Hpc]. split; simpl.
  - done.
  - intros i j Hij. destruct (Hc i j Hij) as (H0 & n' & Hn' & Hok). split; [done|].
    exists n'. split; [by apply lookup_app_l_Some|done].
  - rewrite Hcf, Hidx. simpl. by apply NoDup_cons.
  - rewrite Hcf. zlen_lia.
  - apply Forall_cons. split; [done|]. eapply Forall_impl; [exact Hf|].
    intros. by apply frame_ok_add_node.
  - apply win_ok_zero.
  - by left.
Qed.

(** A value frame holds nothing. *)
Lemma core_drop_value b t pa f s closed :
  state f = frame_kind.value -> core_inv b t pa (f :: s) closed -> core_inv b t pa s closed.
Proof.
  intros Hst [Hl Hc Hnd Hct Hf Hp Hpc]. apply Forall_cons in Hf as [_ Hf].
  assert (is_container_frame f = false) as Hcv by (unfold is_container_frame; by rewrite Hst).
  simpl in Hnd, Hct. rewrite Hcv in Hnd, Hct. done.
Qed.

(** ** Adding children to the open container on top of the stack *)

Section add_children.

Context (b : buffer) (t : raw_tree) (pa : pending_attributes) (f : frame) (s : list frame).
Context (closed : list Z) (Hci : core_inv b t pa (f :: s) closed).
Context (Hcf : is_container_frame f = true).
Context (lk : list Z) (Hlk : Forall (fun l => l ∈ closed) lk).
Context (n : raw_node) (Hn : node_ok b (links t ++ lk) closed n).

Let t' := mk_tree (<[(Z.to_nat (node_index f)) := n]> (nodes t)) (links t ++ lk).

Lemma add_children_index :
  (0 <= node_index f < zlen (nodes t)) /\ (node_index f ∉ open_nodes s) /\ node_index f ∉ closed.
Proof.
  pose proof (ci_nodup _ _ _ _ _ Hci) as Hnd. simpl in Hnd. rewrite Hcf in Hnd.
  simpl in Hnd. apply NoDup_cons in Hnd as [Hnin _].
  split; [|set_solver]. eapply open_in_range; [exact Hci|]. simpl. rewrite Hcf. set_solver.
Qed.

Lemma add_children_frames closed' :
  closed ⊆ closed' -> Forall (frame_ok b t' closed') s.
Proof.
  intros Hsub. destruct add_children_index as (Hr & Hno & _).
  pose proof (ci_frames _ _ _ _ _ Hci) as Hf. apply Forall_cons in Hf as [_ Hf].
  apply (frames_ok_set_node b (mk_tree (nodes t) (links t ++ lk))); [|lia|done].
  eapply Forall_impl; [exact Hf|]. intros. by eapply frame_ok_mono.
Qed.

Lemma add_children_closed i j :
  closed !! i = Some j ->
  0 <= j /\ exists n', nodes t' !! Z.to_nat j = Some n' /\ node_ok b (links t') (take i closed) n'.
Proof.
  intros Hij. destruct add_children_index as (Hr & _ & Hnc).
  destruct (ci_closed _ _ _ _ _ Hci i j Hij) as (H0 & n' & Hn' & Hok). split; [done|].
  exists n'. split; [|by eapply node_ok_mono].
  simpl. rewrite list_lookup_insert_ne; [done|]. intros Heq.
  assert (j = node_index f) as -> by lia. apply Hnc. by eapply list_elem_of_lookup_2.
Qed.

(** The container is still open, in its updated frame. *)
Lemma core_add_children f' :
  is_container_frame f' = true -> node_index f' = node_index f -> frame_ok b t' closed f' ->
  core_inv b t' pa (f' :: s) closed.
Proof.
  intros Hcf' Hidx Hf'. split.
  - apply Forall_app. split; [apply (ci_links _ _ _ _ _ Hci)|done].
  - apply add_children_closed.
  - pose proof (ci_nodup _ _ _ _ _ Hci) as Hnd. simpl in *. rewrite Hcf in Hnd.
    by rewrite Hcf', Hidx.
  - pose proof (ci_count _ _ _ _ _ Hci) as Hct. simpl in *. rewrite Hcf in Hct.
    rewrite Hcf'. zlen_lia.
  - apply Forall_cons. split; [done|]. by apply add_children_frames.
  - eapply win_ok_mono; [apply (ci_pending _ _ _ _ _ Hci)|done].
  - apply (ci_pending_count _ _ _ _ _ Hci).
Qed.

(** The container is complete: its frame is popped. *)
Lemma core_close_container :
  core_inv b t' pa s (closed ++ [node_index f]).
Proof.
  destruct add_children_index as (Hr & Hno & Hnc).
  assert (closed ⊆ closed ++ [node_index f]) as Hsub by set_solver.
  split.
  - eapply Forall_impl; [apply Forall_app; split; [apply (ci_links _ _ _ _ _ Hci)|exact Hlk]|].
    simpl. set_solver.
  - intros i j Hij. apply lookup_app_Some in Hij as [Hij|[Hge Hij]].
    + destruct (add_children_closed i j Hij) as (H0 & n' & Hn' & Hok). split; [done|].
      exists n'. split; [done|]. rewrite take_app_le; [done|].
      apply lookup_lt_Some in Hij. lia.
    + apply list_lookup_singleton_Some in Hij as [Hi <-]. split; [lia|]. exists n.
      split; [simpl; apply list_lookup_insert_eq; unfold zlen in *; lia|].
      rewrite take_app_ge by lia. replace (i - length closed)%nat with 0%nat by lia.
      simpl. by rewrite app_nil_r.
  - pose proof (ci_nodup _ _ _ _ _ Hci) as Hnd. simpl in Hnd. rewrite Hcf in Hnd.
    rewrite app_assoc. simpl in Hnd. by rewrite <- Permutation_cons_append.
  - pose proof (ci_count _ _ _ _ _ Hci) as Hct. simpl in *. rewrite Hcf in Hct.
    zlen_lia.
  - by apply add_children_frames.
  - eapply win_ok_mono; [apply (ci_pending _ _ _ _ _ Hci)|done].
  - apply (ci_pending_count _ _ _ _ _ Hci).
Qed.

End add_children.

(** ** Attaching a completed value *)

Lemma seq_kind_assert k :
  seq_kind k ->
  bool_decide (k = kind.array) || bool_decide (k = kind.set) || bool_decide (k = kind.push) = true.
Proof. unfold seq_kind. intros [->|[->| ->]]; done. Qed.

Lemma map_assert k : k = kind.map -> bool_decide (k = kind.map) = true.
Proof. intros ->. done. Qed.

(** [with_children] on a node with its window open, after [per] more links. *)
Lemma node_ok_add_children b t closed n lk per cnt :
  node_ok b (links t) closed n -> Forall (fun l => l ∈ closed) (links t) ->
  Forall (fun l => l ∈ closed) lk -> zlen lk = per -> 0 < per ->
  zlen (links t) <= u32_max -> cnt = child_count n + per -> i64 n <> -1 ->
  (seq_kind (node_type n) \/ (node_type n = kind.map /\ cnt mod 2 = 0)) ->
  node_ok b (links t ++ lk) closed (with_children (open_window n t) cnt n).
Proof.
  intros [Hty Hch Hat Hev Hsh Htx] Hl Hlk Hlen Hper Hsz Hcnt Hi64 Hkind.
  assert (closed ⊆ closed) as Hsub by done.
  split; simpl; try done.
  - apply win_ok_all; [by apply Forall_app| | |].
    + unfold open_window. case_match eqn:E; bool_prop; [apply u32_range|].
      destruct Hch as [_ [|(? & _)]]; lia.
    + destruct Hch as [? _]. lia.
    + rewrite zlen_app. unfold open_window. case_match eqn:E; bool_prop.
      * rewrite u32_small by (pose proof (zlen_nonneg (links t)); lia). lia.
      * destruct Hch as [_ [|(? & ? & _)]]; lia.
  - by eapply win_ok_mono.
  - right. split; done.
Qed.

Lemma pending_keys_nonneg s : 0 <= pending_keys s.
Proof. induction s as [|f s IH]; simpl; [lia|]. case_match; lia. Qed.

Lemma node_ok_reads t f n :
  nodes t !! Z.to_nat (node_index f) = Some n -> node_at t (node_index f) = Ret n.
Proof. unfold node_at. by intros ->. Qed.

(** What [attach_to_parent] guarantees. *)
Definition attached (b : buffer) (t0 : raw_tree)
    (r : run (list frame * raw_tree * pending_attributes * expected step_index protocol_errc)) :
    Prop :=
  exists s t pa res closed, r = Ret (s, t, pa, Val res) /\ core_inv b t pa s closed /\
    zlen (nodes t) = zlen (nodes t0) /\
    match res with
    | continue_parsing => stack_shape s /\ zlen (links t) + pending_keys s <= zlen closed
    | produced root =>
      s = [] /\ root ∈ closed /\ pa_count pa = 0 /\ zlen (links t) <= zlen closed
    end.

Lemma core_links_small b t pa s closed :
  core_inv b t pa s closed -> zlen (links t) <= zlen closed -> sizes_ok t ->
  zlen (links t) <= u32_max.
Proof.
  intros Hci Hle Hsz. pose proof (ci_count _ _ _ _ _ Hci).
  pose proof (zlen_nonneg (open_nodes s)). unfold sizes_ok in Hsz. lia.
Qed.

(** Replace the frame on top by one that keeps the same container. *)
Lemma core_change_frame b t pa f f' s closed :
  core_inv b t pa (f :: s) closed ->
  is_container_frame f' = is_container_frame f -> node_index f' = node_index f ->
  frame_ok b t closed f' -> core_inv b t pa (f' :: s) closed.
Proof.
  intros [Hl Hc Hnd Hct Hf Hp Hpc] Hcf Hidx Hok. split; try done; simpl in *.
  - by rewrite Hcf, Hidx.
  - by rewrite Hcf, Hidx.
  - apply Forall_cons in Hf as [_ Hf]. by apply Forall_cons.
Qed.

Lemma core_push_value b t pa s closed :
  core_inv b t pa s closed -> core_inv b t pa (value_frame :: s) closed.
Proof. intros [Hl Hc Hnd Hct Hf Hp Hpc]. split; try done. by apply Forall_cons. Qed.

(** The array case: one link, then more elements or the end. *)
Lemma attach_array b t pa f s closed child :
  state f = frame_kind.array ->
  core_inv b t pa (f :: s) closed -> parents_shape (f :: s) -> sizes_ok t ->
  child ∈ closed -> zlen (links t) + pending_keys (f :: s) + 1 <= zlen closed ->
  (forall t' closed', core_inv b t' pa s closed' -> node_index f ∈ closed' ->
     zlen (nodes t') = zlen (nodes t) -> zlen (links t') + pending_keys s + 1 <= zlen closed' ->
     attached b t (attach_to_parent s t' pa (node_index f))) ->
  attached b t (attach_to_parent (f :: s) t pa child).
Proof.
  intros Hst Hci Hsh Hsz Hch Hlk Hrec.
  pose proof (ci_frames _ _ _ _ _ Hci) as Hf. apply Forall_cons in Hf as [Hf _].
  unfold frame_ok in Hf. rewrite Hst in Hf.
  destruct Hf as (Hseq & Hhp & H0 & Hprod & Hexp & n & Hn & Hok & Hty & Hi64 & Hcc).
  assert (is_container_frame f = true) as Hcf by (unfold is_container_frame; by rewrite Hst).
  simpl in Hlk, Hsh. rewrite Hhp in Hlk. rewrite Hst in Hsh.
  pose proof (pending_keys_nonneg s).
  assert (zlen (links t) <= u32_max) as Hlks by (eapply core_links_small; [done|lia|done]).
  cbn [attach_to_parent]. rewrite Hst, seq_kind_assert by done. cbn [assert mbind run_bind].
  rewrite (node_ok_reads _ _ _ Hn). cbn [mbind run_bind].
  rewrite (u32_small (produced_ f + 1)) by lia.
  set (n' := with_children (open_window n t) (produced_ f + 1) n).
  assert (Forall (fun l => l ∈ closed) [child]) as Hall by (by apply Forall_singleton).
  assert (node_ok b (links t ++ [child]) closed n') as Hok'.
  { apply node_ok_add_children with (per := 1); try done; try lia.
    - apply (ci_links _ _ _ _ _ Hci).
    - left. by rewrite Hty. }
  split_if.
  - apply (Hrec _ (closed ++ [node_index f])).
    + exact (core_close_container b t pa f s closed Hci Hcf [child] Hall n' Hok').
    + set_solver.
    + simpl. zlen_lia.
    + simpl. zlen_lia.
  - eexists _, _, _, _, closed. split; [done|]. split; [|split; [simpl; zlen_lia|]].
    + apply core_push_value, (core_add_children b t pa f s closed Hci Hcf [child] Hall n' Hok'); try done.
      unfold frame_ok. simpl. split; [done|]. split; [done|].
      split; [done|]. simpl. split; [lia|]. split; [done|].
      exists n'. split; [|split; [done|]; simpl; split; [done|]; split; [done|lia]].
      apply list_lookup_insert_eq. by eapply lookup_lt_Some.
    + simpl. rewrite Hhp. split; [done|]. zlen_lia.
Qed.

(** The map cases: the key is kept in the frame; the value links both. *)
Lemma attach_map_key b t pa f s closed child :
  state f = frame_kind.map_key ->
  core_inv b t pa (f :: s) closed -> parents_shape (f :: s) ->
  child ∈ closed -> zlen (links t) + pending_keys (f :: s) + 1 <= zlen closed ->
  attached b t (attach_to_parent (f :: s) t pa child).
Proof.
  intros Hst Hci Hsh Hch Hlk.
  pose proof (ci_frames _ _ _ _ _ Hci) as Hf. apply Forall_cons in Hf as [Hf _].
  unfold frame_ok in Hf. rewrite Hst in Hf. destruct Hf as (Hmap & Hhp & Hcon).
  simpl in Hlk, Hsh. rewrite Hhp in Hlk. rewrite Hst in Hsh.
  cbn [attach_to_parent]. rewrite Hst, map_assert by done. cbn [assert mbind run_bind].
  eexists _, _, _, _, closed. split; [done|]. split; [|split; [done|]].
  - apply core_push_value. eapply core_change_frame; [exact Hci| |done|].
    + unfold is_container_frame. by rewrite Hst.
    + unfold frame_ok. simpl. by destruct Hcon as (? & ? & ? & ?).
  - simpl. split; [done|]. lia.
Qed.

Lemma attach_map_value b t pa f s closed child :
  state f = frame_kind.map_value ->
  core_inv b t pa (f :: s) closed -> parents_shape (f :: s) -> sizes_ok t ->
  child ∈ closed -> zlen (links t) + pending_keys (f :: s) + 1 <= zlen closed ->
  (forall t' closed', core_inv b t' pa s closed' -> node_index f ∈ closed' ->
     zlen (nodes t') = zlen (nodes t) -> zlen (links t') + pending_keys s + 1 <= zlen closed' ->
     attached b t (attach_to_parent s t' pa (node_index f))) ->
  attached b t (attach_to_parent (f :: s) t pa child).
Proof.
  intros Hst Hci Hsh Hsz Hch Hlk Hrec.
  pose proof (ci_frames _ _ _ _ _ Hci) as Hf. apply Forall_cons in Hf as [Hf _].
  unfold frame_ok in Hf. rewrite Hst in Hf.
  destruct Hf as (Hmap & Hhp & Hpk & H0 & Hprod & Hexp & n & Hn & Hok & Hty & Hi64 & Hcc).
  assert (is_container_frame f = true) as Hcf by (unfold is_container_frame; by rewrite Hst).
  simpl in Hlk, Hsh. rewrite Hhp in Hlk. rewrite Hst in Hsh.
  pose proof (pending_keys_nonneg s).
  assert (zlen (links t) <= u32_max) as Hlks by (eapply core_links_small; [done|lia|done]).
  cbn [attach_to_parent]. rewrite Hst, map_assert by done. cbn [assert mbind run_bind].
  rewrite Hhp. cbn [negb]. rewrite (node_ok_reads _ _ _ Hn). cbn [mbind run_bind].
  rewrite (u32_small (produced_ f + 1)) by lia.
  rewrite (u32_small ((produced_ f + 1) * 2)) by lia.
  set (lk := [pending_key f; child]). set (n' := with_children _ _ _).
  assert (length lk = 2)%nat as Hlk2 by done.
  assert (set_node (push_link (push_link t (pending_key f)) child) (node_index f) n' =
    mk_tree (<[(Z.to_nat (node_index f)) := n']> (nodes t)) (links t ++ lk)) as ->.
  { unfold set_node, push_link. simpl. by rewrite <- app_assoc. }
  assert (Forall (fun l => l ∈ closed) lk) as Hall by (repeat (apply Forall_cons; split; [done|]); done).
  assert (node_ok b (links t ++ lk) closed n') as Hok'.
  { apply node_ok_add_children with (per := 2); try done; try lia.
    - apply (ci_links _ _ _ _ _ Hci).
    - right. rewrite Hty. split; [done|]. apply Z.mod_mul. lia. }
  split_if.
  - apply (Hrec _ (closed ++ [node_index f])).
    + exact (core_close_container b t pa f s closed Hci Hcf lk Hall n' Hok').
    + set_solver.
    + simpl. zlen_lia.
    + simpl. zlen_lia.
  - eexists _, _, _, _, closed. split; [done|]. split; [|split; [simpl; zlen_lia|]].
    + apply core_push_value, (core_add_children b t pa f s closed Hci Hcf lk Hall n' Hok'); try done.
      unfold frame_ok. simpl. split; [done|]. split; [done|].
      split; [done|]. simpl. split; [lia|]. split; [done|].
      exists n'. split; [|split; [done|]; simpl; split; [done|]; split; [done|lia]].
      apply list_lookup_insert_eq. by eapply lookup_lt_Some.
    + simpl. split; [done|]. zlen_lia.
Qed.

(** The attribute case: a key is kept in the frame, a pair becomes pending. *)
Lemma attach_attribute b t pa f s closed child :
  state f = frame_kind.attribute ->
  core_inv b t pa (f :: s) closed -> parents_shape (f :: s) -> sizes_ok t ->
  pa_count pa = 0 -> child ∈ closed ->
  zlen (links t) + pending_keys (f :: s) + 1 <= zlen closed ->
  attached b t (attach_to_parent (f :: s) t pa child).
Proof.
  intros Hst Hci Hsh Hsz Hpa Hch Hlk.
  pose proof (ci_frames _ _ _ _ _ Hci) as Hf. apply Forall_cons in Hf as [Hf Hfs].
  unfold frame_ok in Hf. rewrite Hst in Hf. destruct Hf as (Hty & Hprod & Hexp & Hkey).
  simpl in Hlk, Hsh. rewrite Hst in Hsh. pose proof (pending_keys_nonneg s) as Hpk.
  assert (zlen (links t) <= u32_max) as Hlks
    by (eapply core_links_small; [done|destruct (has_pending_key f); lia|done]).
  assert (is_container_frame f = false) as Hcf by (unfold is_container_frame; by rewrite Hst).
  cbn [attach_to_parent]. rewrite Hst, Hty. cbn [assert mbind run_bind bool_decide].
  destruct (has_pending_key f) eqn:Hhp; simpl.
  - unfold pending_push. simpl. rewrite Hpa. simpl.
    rewrite (u32_small (zlen (links t))) by (pose proof (zlen_nonneg (links t)); lia).
    rewrite (u32_small (produced_ f + 1)) by lia.
    set (lk := [pending_key f; child]). assert (length lk = 2)%nat as Hlk2 by done.
    assert (push_link (push_link t (pending_key f)) child = mk_tree (nodes t) (links t ++ lk)) as ->.
    { unfold push_link. simpl. by rewrite <- app_assoc. }
    assert (Forall (fun l => l ∈ closed) (links t ++ lk)) as Hall.
    { apply Forall_app. split; [apply (ci_links _ _ _ _ _ Hci)|].
      repeat (apply Forall_cons; split; [auto|]); done. }
    clearbody lk.
    assert (core_inv b (mk_tree (nodes t) (links t ++ lk)) (mk_pending (zlen (links t)) 2) s closed)
      as Hci'.
    { destruct Hci as [Hl Hc Hnd Hct Hf Hp Hpc]. simpl in *. rewrite Hcf in *. split; try done.
      - intros i j Hij. destruct (Hc i j Hij) as (H0 & n & Hn & Hok). split; [done|].
        exists n. split; [done|]. by eapply node_ok_mono.
      - eapply Forall_impl; [exact Hfs|]. intros. by eapply frame_ok_mono.
      - simpl. apply win_ok_all; [done|apply zlen_nonneg|lia|]. zlen_lia.
      - by right. }
    split_if.
    + eexists _, _, _, _, closed. split; [done|]. split; [done|]. split; [done|].
      destruct s as [|g s']; [done|]. destruct Hsh as [Hg Hsh]. simpl.
      rewrite decide_True by done. split; [done|]. simpl in Hlk. zlen_lia.
    + eexists _, _, _, _, closed. split; [done|]. split; [|split; [done|]].
      * apply core_push_value. destruct Hci' as [Hl Hc Hnd Hct Hf Hp Hpc].
        split; try done; simpl. apply Forall_cons. split; [|done].
        unfold frame_ok. simpl. split; [done|]. split; [lia|]. done.
      * simpl. split; [done|]. zlen_lia.
  - eexists _, _, _, _, closed. split; [done|]. split; [|split; [done|]].
    + apply core_push_value. eapply core_change_frame; [exact Hci|done|done|].
      unfold frame_ok. simpl. done.
    + simpl. split; [done|]. lia.
Qed.

Lemma attach_inv b s : forall t pa closed child,
  core_inv b t pa s closed -> parents_shape s -> sizes_ok t -> pa_count pa = 0 ->
  child ∈ closed -> zlen (links t) + pending_keys s + 1 <= zlen closed ->
  attached b t (attach_to_parent s t pa child).
Proof.
  induction s as [|f s IH]; intros t pa closed child Hci Hsh Hsz Hpa Hch Hlk.
  { eexists _, _, _, _, closed. split; [done|]. split; [done|]. split; [done|].
    simpl in Hlk. split; [done|]. split; [done|]. split; [done|]. lia. }
  assert (forall t' closed', parents_shape s -> core_inv b t' pa s closed' ->
     node_index f ∈ closed' -> zlen (nodes t') = zlen (nodes t) ->
     zlen (links t') + pending_keys s + 1 <= zlen closed' ->
     attached b t (attach_to_parent s t' pa (node_index f))) as Hrec.
  { intros t' closed' Hs' Hci' Hin Hnodes Hlk'.
    destruct (IH t' pa closed' (node_index f)) as (s2 & t2 & pa2 & res & cl2 & Heq & Hci2 & Hnn & Hres);
      try done; [unfold sizes_ok in *; lia|].
    exists s2, t2, pa2, res, cl2. split; [done|]. split; [done|]. split; [lia|]. done. }
  destruct (state f) eqn:Hst.
  - simpl in Hsh. by rewrite Hst in Hsh.
  - eapply attach_array; try done. intros. eapply Hrec; try done.
    simpl in Hsh. by rewrite Hst in Hsh.
  - by eapply attach_map_key.
  - eapply attach_map_value; try done. intros. eapply Hrec; try done.
    simpl in Hsh. by rewrite Hst in Hsh.
  - by eapply attach_attribute.
Qed.

(** ** Finding the end of a line *)

Lemma find_crlf_cons c d s :
  find_crlf (c :: d :: s) =
  if decide (c = CR /\ d = LF) then Some O else S <$> find_crlf (d :: s).
Proof. reflexivity. Qed.

Lemma find_crlf_Some s pos :
  find_crlf s = Some pos ->
  s = take pos s ++ crlf ++ drop (pos + 2) s /\ (pos + 2 <= length s)%nat /\
  find_crlf (take pos s) = None.
Proof.
  revert pos. induction s as [|c s IH]; intros pos H; [done|].
  destruct s as [|d s]; [done|]. rewrite find_crlf_cons in H. case_decide as Hd.
  - destruct Hd as [-> ->]. injection H as <-. simpl. split; [done|]. split; [lia|done].
  - destruct (find_crlf (d :: s)) as [q|] eqn:E; [|done]. injection H as <-.
    destruct (IH q eq_refl) as (Heq & Hlen & Hno). split; [|split].
    + rewrite Heq at 1. simpl. done.
    + simpl in *. lia.
    + destruct q as [|q]; [done|]. cbn [take] in *.
      rewrite find_crlf_cons, decide_False by done. by rewrite Hno.
Qed.

(** A text without CR LF, followed by CR LF, ends there. *)
Lemma find_crlf_app s rest :
  find_crlf s = None -> find_crlf (s ++ crlf ++ rest) = Some (length s).
Proof.
  induction s as [|c s IH]; intros H.
  - simpl. done.
  - destruct s as [|d s].
    + simpl. rewrite decide_False; [done|]. intros [_ E]. discriminate E.
    + cbn [app] in IH |- *. rewrite find_crlf_cons in H |- *. case_decide; [done|].
      destruct (find_crlf (d :: s)) eqn:E; [done|].
      by rewrite (IH eq_refl).
Qed.

(** More bytes do not move the first CR LF. *)
Lemma find_crlf_extend s pos more :
  find_crlf s = Some pos -> find_crlf (s ++ more) = Some pos.
Proof.
  intros H. destruct (find_crlf_Some s pos H) as (Heq & Hlen & Hno).
  rewrite Heq. rewrite <- !app_assoc. rewrite find_crlf_app by done.
  rewrite length_take, Nat.min_l by lia. done.
Qed.

(** ** Changing the buffer under the tree *)

Definition text_mono (b b' : buffer) : Prop := forall n, text_ok b n -> text_ok b' n.

Lemma node_ok_buffer b b' lk e n : text_mono b b' -> node_ok b lk e n -> node_ok b' lk e n.
Proof. intros Hm []. split; auto. Qed.

Lemma frame_ok_buffer b b' t closed f :
  text_mono b b' -> frame_ok b t closed f -> frame_ok b' t closed f.
Proof.
  intros Hm.
  assert (forall per, container_ok b t closed f per -> container_ok b' t closed f per).
  { intros per (? & ? & ? & n & ? & ? & ?). split; [done|]. split; [done|]. split; [done|].
    exists n. split; [done|]. split; [|done]. by eapply node_ok_buffer. }
  unfold frame_ok. destruct (state f); naive_solver.
Qed.

Lemma core_inv_buffer b b' t pa s closed :
  text_mono b b' -> core_inv b t pa s closed -> core_inv b' t pa s closed.
Proof.
  intros Hm [Hl Hc Hnd Hct Hf Hp Hpc]. split; try done.
  - intros i j Hij. destruct (Hc i j Hij) as (? & n & ? & ?). split; [done|].
    exists n. split; [done|]. by eapply node_ok_buffer.
  - eapply Forall_impl; [exact Hf|]. intros. by eapply frame_ok_buffer.
Qed.

(** Reading on moves only the read position. *)
Lemma text_mono_read b r : text_mono b (mk_buffer (buffer_ b) (storage_id b) r (write_pos_ b)).
Proof. intros n Hn. exact Hn. Qed.

(** ** The invariant of a parser between turns *)

Record live (p : parser) (closed : list Z) : Prop := {
  lv_core : core_inv (buf_ p) (tree_ p) (pending_attrs_ p) (stack_ p) closed;
  lv_shape : stack_shape (stack_ p);
  lv_links : zlen (links (tree_ p)) + pending_keys (stack_ p) <= zlen closed;
  lv_buffer : buffer_wf (buf_ p);
  lv_nodes : 3 * zlen (nodes (tree_ p)) <= Z.of_nat (read_pos_ (buf_ p));
}.

(** The buffer is within the 32-bit index range. *)
Definition small (p : parser) : Prop := zlen (buffer_ (buf_ p)) <= u32_max.

Lemma live_sizes p closed : live p closed -> small p -> zlen (nodes (tree_ p)) < u32_max.
Proof.
  intros [_ _ _ (Hr & Hw & Hl) Hn] Hs. unfold small in Hs. unfold zlen in *.
  unfold u32_max in *. lia.
Qed.

(** The errors of malformed input; the other codes are internal. *)
Definition input_error (e : protocol_errc) : Prop :=
  match e with
  | protocol_errc.invalid_state | protocol_errc.invalid_map_pairs
  | protocol_errc.tree_not_consumed | protocol_errc.parser_failed => False
  | _ => True
  end.

(** What does not change while parsing. *)
Definition same_input (p p' : parser) : Prop :=
  buffer_ (buf_ p') = buffer_ (buf_ p) /\ storage_id (buf_ p') = storage_id (buf_ p) /\
  write_pos_ (buf_ p') = write_pos_ (buf_ p) /\ limits_ p' = limits_ p /\
  (read_pos_ (buf_ p) <= read_pos_ (buf_ p'))%nat.

Ltac same_input_tac := unfold same_input; simpl; repeat (split; [done|]); lia.

(** The result of one [parse_value] on a live parser. *)
Definition value_outcome (p : parser)
    (r : run (parser * expected (option step_index) protocol_errc)) : Prop :=
  exists p' res, r = Ret (p', res) /\
    buffer_wf (buf_ p') /\ same_input p p' /\
    failed_ p' = failed_ p /\ tree_ready_ p' = tree_ready_ p /\
    match res with
    | Unexpected e => input_error e
    | Val None => p' = p
    | Val (Some continue_parsing) =>
      (read_pos_ (buf_ p) < read_pos_ (buf_ p'))%nat /\ exists closed, live p' closed
    | Val (Some (produced idx)) =>
      (read_pos_ (buf_ p) < read_pos_ (buf_ p'))%nat /\ stack_ p' = stack_ p /\
      pa_count (pending_attrs_ p') = 0 /\
      3 * zlen (nodes (tree_ p')) <= Z.of_nat (read_pos_ (buf_ p')) /\
      exists closed, idx ∈ closed /\
        core_inv (buf_ p') (tree_ p') (pending_attrs_ p') (stack_ p') closed /\
        zlen (links (tree_ p')) + pending_keys (stack_ p') + 1 <= zlen closed
    end.

Lemma outcome_same p res :
  buffer_wf (buf_ p) ->
  match res with Unexpected e => input_error e | Val None => True | _ => False end ->
  value_outcome p (Ret (p, res)).
Proof.
  intros Hwf Hres. exists p, res. destruct res as [[|]|]; [done| |];
    (split; [done|]; split; [done|]; split; [same_input_tac|]; done).
Qed.

Lemma parser_consume_spec p n :
  buffer_wf (buf_ p) -> (n <= length (data_bytes (buf_ p)))%nat ->
  parser_consume n p = Ret (set_buf (mk_buffer (buffer_ (buf_ p)) (storage_id (buf_ p))
    (read_pos_ (buf_ p) + n) (write_pos_ (buf_ p))) p).
Proof. intros. unfold parser_consume. by rewrite consume_spec. Qed.

Lemma consumed_wf b n :
  buffer_wf b -> (n <= length (data_bytes b))%nat ->
  buffer_wf (mk_buffer (buffer_ b) (storage_id b) (read_pos_ b + n) (write_pos_ b)).
Proof.
  intros Hwf Hn. rewrite length_data_bytes in Hn by done. destruct Hwf as (? & ? & ?).
  unfold buffer_wf. simpl. lia.
Qed.

(** The node as it enters the tree, with the pending attributes. *)
Definition attach_pending (pa : pending_attributes) (n : raw_node) : raw_node :=
  if pa_count pa =? 0 then n else with_attrs (pa_first pa) (pa_count pa) n.

Lemma push_node_spec p n :
  zlen (nodes (tree_ p)) <= u32_max ->
  exists pa, pa_count pa = 0 /\ (pa = pending_reset \/ pa = pending_attrs_ p) /\
  push_node n p = Ret
    (set_pending pa
      (set_tree (mk_tree (nodes (tree_ p) ++ [attach_pending (pending_attrs_ p) n])
                   (links (tree_ p))) p), zlen (nodes (tree_ p))).
Proof.
  intros Hs. unfold push_node, pending_attach, attach_pending.
  rewrite u32_small by (pose proof (zlen_nonneg (nodes (tree_ p))); lia).
  split_if.
  - eexists. split; [done|]. split; [by right|]. done.
  - exists pending_reset. split; [done|]. split; [by left|].
    unfold node_at. simpl. rewrite zlen_to_nat, lookup_app_r, Nat.sub_diag by lia. simpl.
    unfold set_node. simpl. rewrite zlen_to_nat. do 4 f_equal.
    rewrite insert_app_r_alt by lia. rewrite Nat.sub_diag. done.
Qed.

Lemma node_ok_attach_pending b lk e pa n :
  node_ok b lk e n -> attr_count n = 0 -> win_ok (pa_first pa) (pa_count pa) lk e ->
  pa_count pa = 0 \/ pa_count pa = 2 -> node_ok b lk e (attach_pending pa n).
Proof.
  intros [Hty Hch Hat Hev Hsh Htx] Hz Hw Hc. unfold attach_pending. split_if; [done|].
  split; simpl; try done. destruct Hc as [->| ->]; done.
Qed.

(** ** The branches of [parse_value] *)

(** A node of a scalar or of a null: no children and no attributes yet. *)
Definition leaf_node (b : buffer) (n : raw_node) : Prop :=
  node_type n <> kind.attribute /\ child_count n = 0 /\ attr_count n = 0 /\ text_ok b n.

Lemma leaf_node_ok b lk e n : leaf_node b n -> node_ok b lk e n.
Proof.
  intros (Hty & Hc & Ha & Ht). split; rewrite ?Hc, ?Ha; auto with rediscoro.
Qed.

(** A node without text cannot be a non-null verbatim string. *)
Lemma text_ok_no_text b n :
  text n = empty_view -> node_type n <> kind.verbatim_string \/ i64 n = -1 -> text_ok b n.
Proof.
  unfold text_ok. intros -> Hv. simpl.
  split; [split; [lia|intros; destruct Hv; done]|]. intros _. split; [lia|].
  exists []. split; [done|]. intros H1 H2. destruct Hv; done.
Qed.

(** A view of unread bytes makes a good text. *)
Lemma text_ok_data b n off len :
  buffer_wf b -> (off + len <= length (data_bytes b))%nat ->
  text n = substr (data b) off len ->
  (node_type n = kind.verbatim_string -> i64 n <> -1 ->
   is_valid_verbatim_payload (slice off len (data_bytes b)) = true) ->
  text_ok b n.
Proof.
  intros Hwf Hle Htx Hv. unfold text_ok. rewrite Htx. simpl. split.
  { split; [lia|]. intros H1 H2. specialize (Hv H1 H2).
    rewrite length_data_bytes in Hle by done.
    destruct len as [|len]; [by rewrite slice_nil in Hv|lia]. }
  intros _. split.
  - rewrite length_data_bytes in Hle by done. destruct Hwf as (? & ? & ?). lia.
  - exists (slice off len (data_bytes b)). split; [by apply view_of_data|]. done.
Qed.

Lemma finish_scalar_outcome p closed n nd :
  live p closed -> small p -> (3 <= n <= length (data_bytes (buf_ p)))%nat ->
  leaf_node (buf_ p) nd -> value_outcome p (finish_scalar n nd p).
Proof.
  intros Hlive Hsm Hn Hleaf. pose proof (live_sizes p closed Hlive Hsm) as Hsz.
  destruct Hlive as [Hci Hsh Hlk Hwf Hnodes].
  unfold finish_scalar. rewrite parser_consume_spec by (done || lia). cbn [mbind run_bind].
  set (b' := mk_buffer _ _ _ _).
  destruct (push_node_spec (set_buf b' p) nd) as (pa & Hpa0 & Hpa & ->); [simpl; lia|].
  cbn [mbind run_bind]. eexists _, _. split; [done|]. simpl.
  split; [by apply consumed_wf; [|lia]|]. split; [same_input_tac|]. split; [done|].
  split; [done|]. split; [lia|]. split; [done|]. split; [done|].
  split; [zlen_lia|].
  exists (closed ++ [zlen (nodes (tree_ p))]). split; [set_solver|]. split; [|zlen_lia].
  apply (core_inv_buffer (buf_ p)); [apply text_mono_read|].
  assert (node_ok (buf_ p) (links (tree_ p)) closed (attach_pending (pending_attrs_ p) nd)) as Hok.
  { apply node_ok_attach_pending; [by apply leaf_node_ok|apply Hleaf| |]; apply Hci. }
  pose proof (core_add_closed _ _ _ _ _ _ Hci Hok) as [Hl Hc Hnd Hct Hf Hp Hpc].
  split; try done; [|left; done]. rewrite Hpa0. apply win_ok_zero.
Qed.

(** What a length header says of the data. *)
Lemma header_bytes_bound lims d lh :
  parse_length_after_type lims d = Val (Some lh) -> (0 < length d)%nat ->
  (3 <= lh_bytes lh <= length d)%nat.
Proof.
  unfold parse_length_after_type. intros H Hd.
  destruct (find_crlf (drop 1 d)) as [pos|] eqn:E.
  - destruct (_ <? _); [done|]. destruct (parse_i64 _); [|done]. injection H as <-. simpl.
    apply find_crlf_Some in E as (_ & Hlen & _). rewrite length_drop in Hlen. lia.
  - destruct (_ <? _); done.
Qed.

Lemma length_header_error lims d e :
  parse_length_after_type lims d = Unexpected e -> e = protocol_errc.invalid_length.
Proof. unfold parse_length_after_type. intros H. repeat case_match; naive_solver. Qed.

Lemma parse_null_outcome p closed :
  live p closed -> small p -> value_outcome p (parse_null p).
Proof.
  intros Hlive Hsm. pose proof (lv_buffer _ _ Hlive) as Hwf. unfold parse_null.
  split_if; [by apply outcome_same|]. split_if; [by apply outcome_same|].
  eapply finish_scalar_outcome; [done|done|lia|].
  split; [done|]. split; [done|]. split; [done|]. apply text_ok_no_text; auto.
Qed.

Lemma parse_boolean_outcome p closed :
  live p closed -> small p -> value_outcome p (parse_boolean p).
Proof.
  intros Hlive Hsm. pose proof (lv_buffer _ _ Hlive) as Hwf. unfold parse_boolean.
  assert (forall v, leaf_node (buf_ p) (with_boolean v (node_of kind.boolean))) as Hleaf.
  { intros v. split; [done|]. split; [done|]. split; [done|]. apply text_ok_no_text; auto. }
  split_if; [by apply outcome_same|]. split_if; [by apply outcome_same|].
  split_if; [eapply finish_scalar_outcome; [done|done|lia|done]|].
  split_if; [eapply finish_scalar_outcome; [done|done|lia|done]|].
  by apply outcome_same.
Qed.

Lemma parse_line_outcome p closed k :
  live p closed -> small p -> data_bytes (buf_ p) <> [] ->
  k <> kind.attribute -> k <> kind.verbatim_string ->
  value_outcome p (parse_line k p).
Proof.
  intros Hlive Hsm Hne Hk Hk'. pose proof (lv_buffer _ _ Hlive) as Hwf. unfold parse_line.
  assert (0 < length (data_bytes (buf_ p)))%nat as Hpos
    by (destruct (data_bytes (buf_ p)); [done|simpl; lia]).
  destruct (find_crlf _) as [pos|] eqn:E.
  2: { split_if; by apply outcome_same. }
  apply find_crlf_Some in E as (_ & Hlen & _). rewrite length_drop in Hlen.
  split_if; [by apply outcome_same|].
  set (v := substr _ _ _).
  assert (v = substr (data (buf_ p)) 1 pos) as Hv.
  { subst v. unfold substr, data. simpl. rewrite length_drop, length_data_bytes by done.
    rewrite length_data_bytes in Hlen by done. f_equal; lia. }
  assert (forall nd, text nd = v -> node_type nd = k -> child_count nd = 0 -> attr_count nd = 0 ->
    value_outcome p (finish_scalar (1 + pos + 2) nd p)) as Hfin.
  { intros nd Htx Hty Hc Ha. eapply finish_scalar_outcome; [done|done|lia|].
    split; [by rewrite Hty|]. split; [done|]. split; [done|].
    eapply text_ok_data; [done| |by rewrite Htx|]; [lia|by rewrite Hty]. }
  destruct k; try done; try (by apply outcome_same); try (by apply Hfin).
  - destruct (parse_i64 _); [by apply Hfin|by apply outcome_same].
  - destruct (parse_double _); [by apply Hfin|by apply outcome_same].
Qed.

Lemma bulk_need_exact h len :
  0 <= len -> Z.of_nat h + len + 2 <= u64_max -> bulk_need h len = Z.of_nat h + len + 2.
Proof.
  intros. unfold bulk_need. rewrite (u64_small len) by lia.
  rewrite (u64_small (Z.of_nat h + len)) by lia. apply u64_small. lia.
Qed.

Lemma parse_length_range lims d lh :
  parse_length_after_type lims d = Val (Some lh) -> i64_min <= lh_length lh <= i64_max.
Proof.
  unfold parse_length_after_type. intros H.
  destruct (find_crlf _); [|by destruct (_ <? _)]. destruct (_ <? _); [done|].
  destruct (parse_i64 _) eqn:E; [|done]. injection H as <-. by eapply parse_i64_range.
Qed.

Lemma parse_bulk_outcome p closed k :
  live p closed -> small p -> data_bytes (buf_ p) <> [] -> k <> kind.attribute ->
  value_outcome p (parse_bulk k p).
Proof.
  intros Hlive Hsm Hne Hk. pose proof (lv_buffer _ _ Hlive) as Hwf. unfold parse_bulk.
  assert (0 < length (data_bytes (buf_ p)))%nat as Hpos
    by (destruct (data_bytes (buf_ p)); [done|simpl; lia]).
  assert (zlen (data_bytes (buf_ p)) <= u32_max) as Hdl.
  { unfold small in Hsm. unfold zlen in *. rewrite length_data_bytes by done.
    destruct Hwf as (? & ? & ?). lia. }
  destruct (parse_length_after_type _ _) as [[lh|]|e] eqn:E.
  2: { by apply outcome_same. }
  2: { apply length_header_error in E as ->. by apply outcome_same. }
  pose proof (header_bytes_bound _ _ _ E Hpos) as Hh. pose proof (parse_length_range _ _ _ E) as Hr.
  split_if; [by apply outcome_same|]. split_if; [by apply outcome_same|].
  split_if.
  { eapply finish_scalar_outcome; [done|done|lia|].
    split; [done|]. split; [done|]. split; [done|]. apply text_ok_no_text; auto. }
  assert (0 <= lh_length lh) as Hlen0 by lia.
  rewrite bulk_need_exact by (unfold i64_max, u64_max, u32_max, zlen in *; lia).
  split_if; [by apply outcome_same|]. split_if; [by apply outcome_same|].
  split_if; [by apply outcome_same|]. split_if; [by apply outcome_same|].
  eapply finish_scalar_outcome; [done|done|unfold zlen in *; lia|].
  split; [done|]. split; [done|]. split; [done|].
  eapply text_ok_data; [done| |done|].
  - unfold zlen in *. lia.
  - simpl. intros -> _. destruct (is_valid_verbatim_payload _); done.
Qed.

(** A live parser that has consumed a header. *)
Lemma live_consumed p closed n :
  live p closed -> (n <= length (data_bytes (buf_ p)))%nat ->
  live (set_buf (mk_buffer (buffer_ (buf_ p)) (storage_id (buf_ p))
    (read_pos_ (buf_ p) + n) (write_pos_ (buf_ p))) p) closed.
Proof.
  intros [Hci Hsh Hlk Hwf Hnodes] Hn. split; simpl; try done.
  - apply (core_inv_buffer (buf_ p)); [apply text_mono_read|done].
  - by apply consumed_wf.
  - lia.
Qed.

Lemma parse_attribute_outcome p closed :
  live p closed -> small p -> data_bytes (buf_ p) <> [] ->
  (exists f s, stack_ p = f :: s /\ state f = frame_kind.value) -> value_outcome p (parse_attribute p).
Proof.
  intros Hlive Hsm Hne (vf & s & Hstk & Hvf). pose proof (lv_buffer _ _ Hlive) as Hwf. unfold parse_attribute.
  assert (0 < length (data_bytes (buf_ p)))%nat as Hpos
    by (destruct (data_bytes (buf_ p)); [done|simpl; lia]).
  destruct (parse_length_after_type _ _) as [[lh|]|e] eqn:E.
  2: { by apply outcome_same. }
  2: { apply length_header_error in E as ->. by apply outcome_same. }
  pose proof (header_bytes_bound _ _ _ E Hpos) as Hh.
  rewrite parser_consume_spec by (done || lia). cbn [mbind run_bind].
  pose proof (live_consumed p closed (lh_bytes lh) Hlive ltac:(lia)) as Hlive'.
  set (p1 := set_buf _ p) in *.
  assert (buffer_wf (buf_ p1)) as Hwf1 by apply Hlive'.
  assert (value_outcome p (Ret (p1, Unexpected protocol_errc.invalid_length))) as Herr.
  { eexists _, _. split; [done|]. split; [done|]. split; [same_input_tac|]. done. }
  unfold start_attribute.
  split_if; [by apply Herr|].
  split_if; [by apply Herr|].
  split_if.
  { eexists _, _. split; [done|]. split; [done|]. split; [same_input_tac|].
    split; [done|]. split; [done|]. split; [simpl; lia|]. by exists closed. }
  destruct (is_representable_length kind.attribute (lh_length lh)) eqn:Hrep; simpl;
    [|by apply Herr].
  unfold is_representable_length in Hrep.
  destruct (lh_length lh <? 0) eqn:E0; [done|]. bool_prop.
  assert (lh_length lh <= u32_max) as Hlen
    by (change (u32_max / 2) with 2147483647 in Hrep; unfold u32_max; lia).
  eexists _, _. split; [done|]. simpl. split; [done|]. split; [same_input_tac|].
  split; [done|]. split; [done|]. split; [lia|].
  exists closed. destruct Hlive' as [Hci Hsh Hlk Hwf' Hnodes].
  split; simpl; try done.
  - destruct Hci as [Hl Hc Hnd Hct Hf Hp Hpc]. split; try done.
    apply Forall_cons. split; [|done]. unfold frame_ok. simpl.
    rewrite u32_small by lia. split; [done|]. split; [lia|]. done.
  - simpl in Hsh. rewrite Hstk in Hsh |- *. simpl in Hsh. by rewrite decide_True in Hsh.
Qed.

(** The frame and the node of a container that was just opened. *)
Definition opened_frame (k : kind) (len idx : Z) : frame :=
  mk_frame (if decide (k = kind.map) then frame_kind.map_key else frame_kind.array) k (u32 len) 0 idx 0 false.

Lemma representable_u32 k len :
  is_representable_length k len = true -> k <> kind.attribute ->
  0 <= len /\ u32 len = len /\ (k = kind.map -> 2 * len <= u32_max) /\ len <= u32_max.
Proof.
  unfold is_representable_length. intros Hrep Hk. destruct (len <? 0) eqn:E0; [done|]. bool_prop.
  assert (len <= u32_max /\ (k = kind.map -> 2 * len <= u32_max)) as [Hle Hm]
    by (destruct k; try done; bool_prop; change (u32_max / 2) with 2147483647 in *; unfold u32_max in *; split; (lia || done)).
  split; [lia|]. split; [by apply u32_small|done].
Qed.

Lemma opened_frame_ok b t closed k len nd :
  seq_kind k \/ k = kind.map -> is_representable_length k len = true -> k <> kind.attribute -> len <> 0 ->
  node_ok b (links t) closed nd -> node_type nd = k -> i64 nd <> -1 -> child_count nd = 0 ->
  frame_ok b (mk_tree (nodes t ++ [nd]) (links t)) closed (opened_frame k len (zlen (nodes t))).
Proof.
  intros Hk Hrep Hka Hlen Hok Hty H64 Hcc. destruct (representable_u32 _ _ Hrep Hka) as (H0 & Hu & Hm & Hle).
  assert (forall per, per * len <= u32_max ->
    container_ok b (mk_tree (nodes t ++ [nd]) (links t)) closed (opened_frame k len (zlen (nodes t))) per) as Hcon.
  { intros per Hper. split; [apply zlen_nonneg|]. cbn [opened_frame produced_ expected_ node_index container_type nodes links].
    rewrite Hu. split; [lia|]. split; [done|]. exists nd.
    split; [by rewrite zlen_to_nat, lookup_app_r, Nat.sub_diag by lia|]. repeat (split; [done|]). lia. }
  unfold frame_ok. cbn [opened_frame state container_type has_pending_key]. case_decide as Hmap.
  - split; [done|]. split; [done|]. apply Hcon. auto.
  - destruct Hk as [Hk|]; [|done]. split; [done|]. split; [done|]. apply Hcon. lia.
Qed.

Lemma attach_pending_fields pa nd :
  node_type (attach_pending pa nd) = node_type nd /\ i64 (attach_pending pa nd) = i64 nd /\
  child_count (attach_pending pa nd) = child_count nd.
Proof. unfold attach_pending. by split_if. Qed.

(** Opening a container keeps the parser live. *)
Lemma live_open_container p closed k len f s pa nd :
  live p closed -> stack_ p = f :: s -> state f = frame_kind.value ->
  seq_kind k \/ k = kind.map -> k <> kind.attribute -> is_representable_length k len = true -> len <> 0 ->
  leaf_node (buf_ p) nd -> node_type nd = k -> i64 nd <> -1 -> child_count nd = 0 ->
  pa_count pa = 0 -> 3 * (zlen (nodes (tree_ p)) + 1) <= Z.of_nat (read_pos_ (buf_ p)) ->
  live (set_stack (opened_frame k len (zlen (nodes (tree_ p))) :: s)
    (set_pending pa (set_tree (mk_tree (nodes (tree_ p) ++ [attach_pending (pending_attrs_ p) nd]) (links (tree_ p))) p))) closed.
Proof.
  intros [Hci Hsh Hlk Hwf Hn] Hstk Hst Hk Hka Hrep Hlen Hleaf Hty H64 Hcc Hpa Hsz.
  rewrite Hstk in Hci, Hsh, Hlk. simpl in Hsh, Hlk. rewrite decide_True in Hsh by done.
  destruct (attach_pending_fields (pending_attrs_ p) nd) as (Hty' & H64' & Hcc').
  assert (node_ok (buf_ p) (links (tree_ p)) closed (attach_pending (pending_attrs_ p) nd)) as Hok.
  { apply node_ok_attach_pending; [by apply leaf_node_ok|apply Hleaf|apply Hci|apply Hci]. }
  pose proof (opened_frame_ok (buf_ p) (tree_ p) closed k len (attach_pending (pending_attrs_ p) nd) Hk Hrep Hka Hlen Hok
    (eq_trans Hty' Hty) ltac:(by rewrite H64') (eq_trans Hcc' Hcc)) as Hfok.
  assert (is_container_frame (opened_frame k len (zlen (nodes (tree_ p)))) = true) as Hcf
    by (unfold is_container_frame; cbn [opened_frame state]; by case_decide).
  pose proof (core_add_open _ _ _ _ _ _ _ (core_drop_value _ _ _ _ _ _ Hst Hci) Hcf eq_refl Hfok)
    as [Hl Hc Hnd Hct Hf Hp Hpc].
  split; try done; simpl.
  - split; try done; [|by left]. rewrite Hpa. apply win_ok_zero.
  - by destruct (decide (k = kind.map)).
  - destruct (has_pending_key f); lia.
  - zlen_lia.
Qed.

Lemma parse_container_outcome p closed k :
  live p closed -> small p -> data_bytes (buf_ p) <> [] ->
  (exists f s, stack_ p = f :: s /\ state f = frame_kind.value) -> seq_kind k \/ k = kind.map ->
  value_outcome p (parse_container k p).
Proof.
  intros Hlive Hsm Hne (vf & s & Hstk & Hvf) Hk. pose proof (lv_buffer _ _ Hlive) as Hwf.
  pose proof (live_sizes p closed Hlive Hsm) as Hsz. unfold parse_container.
  assert (0 < length (data_bytes (buf_ p)))%nat as Hpos
    by (destruct (data_bytes (buf_ p)); [done|simpl; lia]).
  destruct (parse_length_after_type _ _) as [[lh|]|e] eqn:E.
  2: { by apply outcome_same. }
  2: { apply length_header_error in E as ->. by apply outcome_same. }
  pose proof (header_bytes_bound _ _ _ E Hpos) as Hh.
  rewrite parser_consume_spec by (done || lia). cbn [mbind run_bind].
  pose proof (live_consumed p closed (lh_bytes lh) Hlive ltac:(lia)) as Hlive'.
  set (p1 := set_buf _ p) in *.
  assert (value_outcome p (Ret (p1, Unexpected protocol_errc.invalid_length))) as Herr.
  { eexists _, _. split; [done|]. split; [apply Hlive'|]. split; [same_input_tac|]. done. }
  assert (k <> kind.attribute) as Hka by (unfold seq_kind in Hk; naive_solver).
  (* a container that is complete with its header *)
  assert (forall nd, leaf_node (buf_ p1) nd ->
    value_outcome p ('(p2, idx) ← push_node nd p1; Ret (p2, Val (Some (produced idx))))) as Hleaf.
  { intros nd Hleaf. unfold value_outcome.
    pose proof (finish_scalar_outcome p closed (lh_bytes lh) nd Hlive Hsm ltac:(lia) Hleaf) as Ho.
    unfold finish_scalar in Ho. rewrite parser_consume_spec in Ho by (done || lia). exact Ho. }
  unfold start_container. split_if; [by apply Herr|]. split_if; [by apply Herr|]. split_if.
  { destruct (Hleaf (with_i64 (-1) (node_of k))) as (p' & res & Heq & Hrest).
    - split; [done|]. split; [done|]. split; [done|]. apply text_ok_no_text; auto.
    - exists p', res. split; [|done]. rewrite <- Heq. by destruct (push_node _ _) as [[]|]. }
  destruct (is_representable_length k (lh_length lh)) eqn:Hrep; [|by apply Herr]. cbn [negb].
  set (nd := with_children _ 0 _).
  assert (leaf_node (buf_ p1) nd) as Hndl.
  { split; [done|]. split; [done|]. split; [done|]. apply text_ok_no_text; [done|].
    left. simpl. unfold seq_kind in Hk; naive_solver. }
  split_if.
  { destruct (Hleaf nd Hndl) as (p' & res & Heq & Hrest).
    exists p', res. split; [|done]. rewrite <- Heq. by destruct (push_node _ _) as [[]|]. }
  destruct (push_node_spec p1 nd) as (pa & Hpa0 & Hpa & ->); [simpl; lia|]. cbn [mbind run_bind]. bool_prop.
  eexists _, _. split; [done|]. cbn [stack_ set_pending set_tree p1 set_buf]. rewrite Hstk. cbn [tail].
  split; [apply Hlive'|]. split; [same_input_tac|]. split; [done|]. split; [done|]. split; [simpl; lia|].
  exists closed. apply (live_open_container p1 closed k (lh_length lh) vf s pa nd); try done.
  pose proof (lv_nodes _ _ Hlive). simpl. lia.
Qed.

Lemma parse_value_outcome p closed :
  live p closed -> small p -> (exists f s, stack_ p = f :: s /\ state f = frame_kind.value) ->
  value_outcome p (parse_value p).
Proof.
  intros Hlive Hsm Hstk. pose proof (lv_buffer _ _ Hlive) as Hwf. unfold parse_value.
  destruct Hstk as (vf & s & Hstk & Hvf). rewrite Hstk. rewrite bool_decide_true by done. cbn [assert mbind run_bind].
  destruct (data_bytes (buf_ p)) as [|c d] eqn:Ed; [by apply outcome_same|].
  assert (data_bytes (buf_ p) <> []) as Hne by (by rewrite Ed).
  destruct (prefix_to_kind c) as [k|]; [|by apply outcome_same].
  assert (exists f s, stack_ p = f :: s /\ state f = frame_kind.value) as Hex by eauto.
  unfold seq_kind.
  destruct k; eauto using parse_line_outcome, parse_bulk_outcome, parse_boolean_outcome,
    parse_null_outcome, parse_attribute_outcome.
  all: eapply parse_container_outcome; try done; unfold seq_kind; auto.
Qed.

(** ** One turn of the loop *)

Definition unread (p : parser) : nat := (write_pos_ (buf_ p) - read_pos_ (buf_ p))%nat.

(** The bound on the turns that are left: a container or attribute on top
    costs one turn that reads nothing. *)
Definition turns (p : parser) : nat :=
  (2 * unread p +
   match stack_ p with
   | f :: _ => if decide (state f = frame_kind.value) then 0 else 1
   | [] => 0
   end)%nat.

(** A parser that holds a complete tree. *)
Definition parsed (p : parser) (root : Z) : Prop :=
  tree_ready_ p = true /\ stack_ p = [] /\
  3 * zlen (nodes (tree_ p)) <= Z.of_nat (read_pos_ (buf_ p)) /\
  exists closed, root ∈ closed /\
    core_inv (buf_ p) (tree_ p) (pending_attrs_ p) [] closed /\ zlen (links (tree_ p)) <= zlen closed.

(** The three ends of [parse_one] on a live parser. *)
Definition parse_result (p' : parser) (res : expected (option Z) protocol_errc) : Prop :=
  buffer_wf (buf_ p') /\
  match res with
  | Unexpected e => input_error e /\ failed_ p' = true /\ tree_ready_ p' = false
  | Val None => failed_ p' = false /\ tree_ready_ p' = false /\ exists closed, live p' closed
  | Val (Some root) => failed_ p' = false /\ parsed p' root
  end.

Definition step_outcome (p : parser)
    (r : run (parser + parser * expected (option Z) protocol_errc)) : Prop :=
  exists x, r = Ret x /\
  match x with
  | inl p' => same_input p p' /\ (exists closed, live p' closed) /\ failed_ p' = false /\
      tree_ready_ p' = false /\ (turns p' < turns p)%nat
  | inr (p', res) => same_input p p' /\ parse_result p' res
  end.

(** A container or an attribute asks for its next value. *)
Lemma step_push_value p closed f s :
  live p closed -> stack_ p = f :: s -> state f <> frame_kind.value -> failed_ p = false -> tree_ready_ p = false ->
  step_outcome p (Ret (inl (set_stack (value_frame :: stack_ p) p))).
Proof.
  intros Hlive Hstk Hst Hf0 Hr0. pose proof (lv_shape _ _ Hlive) as Hsh.
  assert (live (set_stack (value_frame :: stack_ p) p) closed) as Hlive'.
  { destruct Hlive as [Hci _ Hlk Hwf Hn]. split; try done; simpl; [by apply core_push_value|].
    rewrite Hstk in *. simpl in Hsh. by rewrite decide_False in Hsh. }
  eexists. split; [done|]. split; [done|]. split; [by exists closed|]. split; [done|]. split; [done|].
  unfold turns, unread. simpl. rewrite Hstk. rewrite (decide_False (P := state f = _)) by done. lia.
Qed.

Lemma parse_step_outcome p closed :
  live p closed -> small p -> failed_ p = false -> tree_ready_ p = false ->
  step_outcome p (parse_step p).
Proof.
  intros Hlive Hsm Hf0 Hr0. pose proof (lv_shape _ _ Hlive) as Hsh. unfold parse_step.
  destruct (stack_ p) as [|f s] eqn:Hstk; [done|]. rewrite <- Hstk.
  destruct (decide (state f = frame_kind.value)) as [Hst|Hst].
  2: { destruct (step_push_value p closed f s Hlive Hstk Hst Hf0 Hr0) as (x & [= <-] & Hx).
       exists (inl (set_stack (value_frame :: stack_ p) p)). split; [by destruct (state f)|exact Hx]. }
  rewrite Hst. simpl in Hsh. rewrite decide_True in Hsh by done.
  destruct (parse_value_outcome p closed Hlive Hsm) as
    (p1 & res & -> & Hwf1 & Hsame & Hfl & Hrd & Hres); [by eauto|].
  cbn [mbind run_bind]. destruct Hsame as (Hb & Hid & Hw & Hlim & Hrp).
  assert (unread p1 < unread p \/ read_pos_ (buf_ p1) <= read_pos_ (buf_ p))%nat as Hun.
  { destruct Hwf1 as (Hrw & _). unfold unread. lia. }
  destruct res as [[[|idx]|]|e].
  - destruct Hres as (Hlt & Hl1). exists (inl p1). split; [done|].
    split; [same_input_tac|]. split; [done|]. split; [congruence|]. split; [congruence|].
    unfold turns. rewrite Hstk, decide_True by done. case_match; [lia|]. case_decide; lia.
  - destruct Hres as (Hlt & Hstk1 & Hpa & Hn & cl & Hin & Hci & Hlk).
    unfold parser_attach. cbn [stack_ set_stack tree_ pending_attrs_]. rewrite Hstk1, Hstk. cbn [tail].
    assert (core_inv (buf_ p1) (tree_ p1) (pending_attrs_ p1) s cl /\
      zlen (links (tree_ p1)) + pending_keys s + 1 <= zlen cl) as [Hci1 Hlk1].
    { rewrite Hstk1, Hstk in Hci, Hlk. simpl in Hlk.
      split; [by apply (core_drop_value _ _ _ f)|destruct (has_pending_key f); lia]. }
    assert (zlen (nodes (tree_ p1)) <= u32_max) as Hsz.
    { unfold small in Hsm. rewrite <- Hb in Hsm. destruct Hwf1 as (? & ? & ?).
      unfold zlen in *. lia. }
    destruct (attach_inv (buf_ p1) s _ _ _ _ Hci1 Hsh Hsz Hpa Hin Hlk1)
      as (s2 & t2 & pa2 & res & cl2 & -> & Hci2 & Hnn & Hres2).
    cbn [mbind run_bind]. destruct res as [|root].
    + destruct Hres2 as (Hsh2 & Hlk2). eexists (inl _). split; [done|].
      split; [same_input_tac|]. split.
      * exists cl2. split; simpl; try done. lia.
      * split; [simpl; congruence|]. split; [simpl; congruence|].
        unfold turns, unread in *. simpl. rewrite Hstk, decide_True by done.
        case_match; [lia|]. case_decide; lia.
    + destruct Hres2 as (-> & Hroot & Hpa2 & Hlk2). eexists (inr _). split; [done|].
      split; [same_input_tac|]. split; [done|]. split; [simpl; congruence|].
      split; [done|]. split; [done|]. simpl. split; [lia|]. exists cl2. split; [done|].
      done.
  - subst p1. eexists (inr _). split; [done|]. split; [same_input_tac|]. split; [done|].
    split; [done|]. split; [done|]. by exists closed.
  - eexists (inr _). split; [done|]. split; [same_input_tac|]. split; [done|].
    split; [done|]. split; [done|]. simpl. congruence.
Qed.

(** ** Termination

    [parse_loop] returns within [turns p + 1] turns. *)

Lemma same_input_trans p1 p2 p3 : same_input p1 p2 -> same_input p2 p3 -> same_input p1 p3.
Proof.
  intros (? & ? & ? & ? & ?) (? & ? & ? & ? & ?). unfold same_input.
  repeat (split; [congruence|]). lia.
Qed.

Lemma small_same p p' : same_input p p' -> small p -> small p'.
Proof. unfold small. by intros (-> & _). Qed.

Lemma parse_loop_outcome fuel : forall p closed,
  live p closed -> small p -> failed_ p = false -> tree_ready_ p = false ->
  (turns p < fuel)%nat ->
  exists p' res, parse_loop fuel p = Ret (p', res) /\ same_input p p' /\ parse_result p' res.
Proof.
  induction fuel as [|fuel IH]; intros p closed Hlive Hsm Hf Hr Hfuel; [lia|].
  cbn [parse_loop]. destruct (parse_step_outcome p closed Hlive Hsm Hf Hr) as (x & -> & Hx).
  cbn [mbind run_bind]. destruct x as [p1|[p1 res]].
  - destruct Hx as (Hsame & (cl & Hlive1) & Hf1 & Hr1 & Hlt).
    destruct (IH p1 cl Hlive1 (small_same _ _ Hsame Hsm) Hf1 Hr1 ltac:(lia))
      as (p' & res & -> & Hsame' & Hres).
    exists p', res. split; [done|]. split; [by eapply same_input_trans|done].
  - destruct Hx as (Hsame & Hres). by exists p1, res.
Qed.

(** ** Parsers between calls *)

(** Nothing of a value has been read yet. *)
Definition idle (p : parser) : Prop :=
  stack_ p = [] /\ tree_ p = tree_reset /\ pending_attrs_ p = pending_reset.

Definition parser_inv (p : parser) : Prop :=
  buffer_wf (buf_ p) /\
  (failed_ p = true \/
   (failed_ p = false /\ exists root, parsed p root) \/
   (failed_ p = false /\ tree_ready_ p = false /\ (idle p \/ exists closed, live p closed))).

Lemma idle_live p :
  buffer_wf (buf_ p) -> idle p -> live (set_stack [value_frame] p) [].
Proof.
  intros Hwf (Hs & Ht & Hp). split; simpl; rewrite ?Ht, ?Hp; simpl; try done; [|unfold zlen; simpl; lia].
  split; simpl; try done.
  - apply NoDup_nil_2.
  - by apply Forall_singleton.
  - apply win_ok_zero.
  - by left.
Qed.

Lemma turns_fuel p : buffer_wf (buf_ p) -> (turns p < parse_fuel p)%nat.
Proof.
  intros Hwf. unfold turns, parse_fuel, unread. rewrite length_data_bytes by done.
  case_match; [lia|]. case_decide; lia.
Qed.

(** [parse_one] on any parser that satisfies the invariant: it returns, keeps
    the invariant, and its errors are those of the input or of a call the
    contract excludes. *)
Lemma parse_one_inv p :
  parser_inv p -> small p ->
  exists p' res, parse_one p = Ret (p', res) /\ same_input p p' /\ parser_inv p' /\
    match res with
    | Unexpected protocol_errc.tree_not_consumed => tree_ready_ p = true
    | Unexpected protocol_errc.parser_failed => failed_ p = true
    | Unexpected e => input_error e /\ failed_ p' = true /\ tree_ready_ p' = false
    | Val None => tree_ready_ p' = false
    | Val (Some root) => failed_ p' = false /\ parsed p' root
    end.
Proof.
  intros Hinv Hsm. pose proof Hinv as (Hwf & Hcase). unfold parse_one.
  destruct (tree_ready_ p) eqn:Hr.
  { exists p, (Unexpected protocol_errc.tree_not_consumed). split; [done|].
    split; [same_input_tac|]. done. }
  destruct (failed_ p) eqn:Hf.
  { exists p, (Unexpected protocol_errc.parser_failed). split; [done|].
    split; [same_input_tac|]. done. }
  set (p1 := match stack_ p with [] => _ | _ => p end).
  assert ((exists closed, live p1 closed) /\ same_input p p1 /\ failed_ p1 = false /\
    tree_ready_ p1 = false) as ((cl & Hlive) & Hsame & Hf1 & Hr1).
  { destruct Hcase as [|[(_ & root & Hp & _)|(_ & _ & [Hidle|(cl & Hlive)])]]; [congruence|congruence| |].
    - pose proof Hidle as (Hs & _). subst p1. rewrite Hs.
      split; [exists []; by apply idle_live|]. split; [same_input_tac|]. done.
    - subst p1. pose proof (lv_shape _ _ Hlive). destruct (stack_ p) eqn:Hs; [done|].
      split; [eauto|]. split; [same_input_tac|done]. }
  destruct (parse_loop_outcome (parse_fuel p1) p1 cl Hlive (small_same _ _ Hsame Hsm) Hf1 Hr1)
    as (p' & res & Heq & Hsame' & Hwf' & Hres).
  { apply turns_fuel. apply Hlive. }
  exists p', res. split; [done|]. split; [by eapply same_input_trans|].
  destruct res as [[root|]|e].
  - destruct Hres as (? & ?). split; [|done]. split; [done|]. right. left. eauto.
  - destruct Hres as (? & ? & ?). split; [|done]. split; [done|]. right. right. auto.
  - destruct Hres as (He & ? & ?). split; [split; auto|]. by destruct e.
Qed.
