(* ===== verification/ParserSafety.v ===== *)
(** * Safety of the parser on every input

    The operations a connection performs on its parser ([prepare]/[commit],
    [parse_one], [reclaim], [reset]) keep the invariant of [ParserInv], in any
    order and on any bytes. *)

From S2P Require Import Prelude Kind Errors Charconv Buffer Parser ParserInv.

(** ** Feeding *)

Lemma parser_feed_buf p m bs :
  parser_feed p m bs = (b ← feed (buf_ p) m bs; Ret (set_buf b p)).
Proof.
  unfold parser_feed, parser_prepare, parser_commit, feed.
  destruct (prepare (buf_ p) m) as [b1|]; [|done]. cbn [mbind run_bind set_buf buf_].
  destruct (fill b1 bs) as [b2|]; [|done]. cbn [mbind run_bind set_buf buf_].
  by destruct (commit b2 _).
Qed.

(** What one read does to the buffer: the bytes are appended, and the storage
    is either the same, unchanged below the old write position, or new. *)
Definition fed (b : buffer) (bs : bytes) (b' : buffer) : Prop :=
  buffer_wf b' /\ data_bytes b' = data_bytes b ++ bs /\ read_pos_ b' = read_pos_ b /\
  write_pos_ b' = (write_pos_ b + length bs)%nat /\
  ((storage_id b' = storage_id b /\ length (buffer_ b') = length (buffer_ b) /\
    take (write_pos_ b) (buffer_ b') = take (write_pos_ b) (buffer_ b)) \/
   storage_id b' = S (storage_id b)).

Lemma feed_spec b m bs :
  buffer_wf b -> 0 <= m -> Z.of_nat (write_pos_ b) + m <= size_max -> zlen bs <= m ->
  exists b', feed b m bs = Ret b' /\ fed b bs b' /\
    (zlen (buffer_ b) - Z.of_nat (write_pos_ b) < m <-> storage_id b' <> storage_id b).
Proof.
  intros Hwf Hm Hmax Hbs. unfold feed, prepare.
  destruct (ensure_writable_spec b m Hwf Hm Hmax) as (b1 & Hb1 & Hr & Hw & Hav & Hcase).
  destruct (ensure_writable_wf b m b1 Hwf Hm Hmax Hb1) as [Hwf1 Hdata].
  rewrite Hb1. cbn [mbind run_bind].
  destruct (fill_commit_spec b1 bs Hwf1) as
    (b2 & Hb2 & Hwf2 & Hd2 & Hr2 & Hw2 & Hid2 & Hlen2 & Htk2); [unfold zlen in *; lia|].
  exists b2. split; [exact Hb2|]. rewrite Hdata in Hd2. unfold fed.
  destruct Hcase as [[Hle ->]|(Hlt & Hid & _)].
  - split; [|split; [lia|by intros []]]. repeat (split; [done|]). left. done.
  - split; [|split; [lia|lia]]. repeat (split; [congruence|]). right. congruence.
Qed.

Lemma feed_fed b m bs b' :
  buffer_wf b -> 0 <= m -> Z.of_nat (write_pos_ b) + m <= size_max ->
  feed b m bs = Ret b' -> fed b bs b'.
Proof.
  intros Hwf Hm Hmax Hf. unfold feed, prepare in Hf.
  destruct (ensure_writable_spec b m Hwf Hm Hmax) as (b1 & Hb1 & Hr & Hw & Hav & Hcase).
  destruct (ensure_writable_wf b m b1 Hwf Hm Hmax Hb1) as [Hwf1 Hdata].
  rewrite Hb1 in Hf. cbn [mbind run_bind] in Hf.
  assert (length bs <= length (buffer_ b1) - write_pos_ b1)%nat as Hfit.
  { unfold fill in Hf. destruct (_ <=? _)%nat eqn:E; [|done]. bool_prop. lia. }
  destruct (fill_commit_spec b1 bs Hwf1 Hfit) as
    (b2 & Hb2 & Hwf2 & Hd2 & Hr2 & Hw2 & Hid2 & Hlen2 & Htk2).
  rewrite Hf in Hb2. injection Hb2 as <-. rewrite Hdata in Hd2. unfold fed.
  repeat (split; [congruence|]).
  destruct Hcase as [[_ ->]|(_ & Hid & _)]; [left; done|right; congruence].
Qed.

(** A read leaves the text of every node as it is, or in the old storage. *)
Lemma text_mono_fed b bs b' : fed b bs b' -> text_mono b b'.
Proof.
  intros (Hwf & _ & _ & Hw & Hcase) n [[Hle Hvb] Htx].
  split; [split; [destruct Hcase as [[-> _]|]; lia|done]|].
  destruct Hcase as [(Hid & Hlen & Htk)|Hid]; [|intros; lia].
  rewrite Hid. intros Heq. destruct (Htx Heq) as (Hin & bs' & Hv & Hvp).
  split; [lia|]. exists bs'. split; [|done]. by apply (view_bytes_same_storage b).
Qed.

Lemma live_fed p closed bs b' :
  live p closed -> fed (buf_ p) bs b' -> live (set_buf b' p) closed.
Proof.
  intros [Hci Hsh Hlk Hwf Hn] Hfed. pose proof Hfed as (Hwf' & _ & Hr & _).
  split; simpl; try done; [|by rewrite Hr].
  eapply core_inv_buffer; [by eapply text_mono_fed|done].
Qed.

Lemma parsed_fed p root bs b' :
  parsed p root -> fed (buf_ p) bs b' -> parsed (set_buf b' p) root.
Proof.
  intros (Hr & Hs & Hn & closed & Hroot & Hci & Hlk) Hfed.
  pose proof Hfed as (_ & _ & Hrd & _).
  split; [done|]. split; [done|]. simpl. split; [by rewrite Hrd|].
  exists closed. split; [done|]. split; [|done].
  eapply core_inv_buffer; [by eapply text_mono_fed|done].
Qed.

Lemma parser_inv_fed p bs b' : parser_inv p -> fed (buf_ p) bs b' -> parser_inv (set_buf b' p).
Proof.
  intros [Hwf Hcase] Hb. split; [apply Hb|]. simpl.
  destruct Hcase as [|[(? & root & ?)|(? & ? & [?|(cl & ?)])]]; [by left| | |].
  - right. left. split; [done|]. exists root. by eapply parsed_fed.
  - right. right. auto.
  - right. right. split; [done|]. split; [done|]. right. exists cl. by eapply live_fed.
Qed.

Lemma parser_feed_inv p m bs p' :
  parser_inv p -> small p -> 0 <= m <= u32_max -> parser_feed p m bs = Ret p' ->
  parser_inv p' /\ fed (buf_ p) bs (buf_ p').
Proof.
  intros Hinv Hsm Hm Hf. pose proof Hinv as [Hwf _]. rewrite parser_feed_buf in Hf.
  apply run_bind_Ret in Hf as (b' & Hb & [= <-]).
  apply feed_fed in Hb; [|done|lia|].
  2: { destruct Hwf as (_ & ? & _). unfold small, zlen, size_max, u64_max, u32_max in *. lia. }
  split; [by eapply parser_inv_fed|done].
Qed.

(** A [prepare] that nothing follows. *)
Lemma parser_prepare_inv p m :
  parser_inv p -> small p -> 0 <= m <= u32_max ->
  exists b, parser_prepare p m = Ret (set_buf b p) /\ parser_inv (set_buf b p) /\ buffer_wf b.
Proof.
  intros Hinv Hsm Hm. pose proof Hinv as [Hwf _]. pose proof Hwf as (Hrw & Hw & Hpos).
  destruct (ensure_writable_spec (buf_ p) m Hwf) as (b & He & Hr' & Hw' & _ & Hb);
    [lia|unfold small, zlen, size_max, u64_max, u32_max in *; lia|].
  exists b. unfold parser_prepare, prepare. rewrite He. split; [done|].
  destruct Hb as [[_ ->]|(_ & Hid & pad & Hpad)]; [split; [by destruct p|done]|].
  assert (buffer_wf b) as Hwfb by (unfold buffer_wf; rewrite Hr', Hw', Hpad, length_app; lia).
  split; [|done]. apply (parser_inv_fed p []); [done|]. split; [done|].
  rewrite app_nil_r, Hr', Hw'. unfold data_bytes. rewrite Hr', Hw', Hpad.
  split; [unfold slice; rewrite drop_app_le by lia; apply take_app_le; rewrite length_drop; lia|].
  split; [done|]. split; [simpl; lia|by right].
Qed.

(** ** [reclaim] and [reset] *)

Lemma reclaim_inv p :
  parser_inv p -> exists p', reclaim p = Ret p' /\ parser_inv p' /\
    data_bytes (buf_ p') = data_bytes (buf_ p) /\ failed_ p' = failed_ p /\
    length (buffer_ (buf_ p')) = length (buffer_ (buf_ p)) /\
    idle p' /\ tree_ready_ p' = false.
Proof.
  intros (Hwf & Hcase). unfold reclaim.
  destruct (compact_spec _ Hwf) as (b' & -> & Hwf' & Hd & _ & _ & Hlen). cbn [mbind run_bind].
  eexists. split; [done|]. simpl.
  assert (idle (mk_parser b' tree_reset [] (failed_ p) false pending_reset (limits_ p))) as Hidle
    by done.
  split; [|done]. split; [done|]. simpl. destruct (failed_ p); [by left|].
  right. right. auto.
Qed.

Lemma reset_inv p : parser_inv p -> parser_inv (parser_reset p) /\ idle (parser_reset p) /\
  failed_ (parser_reset p) = false /\ data_bytes (buf_ (parser_reset p)) = [].
Proof.
  intros ((? & ? & ?) & _). split; [|done]. split.
  - unfold buffer_wf. simpl. lia.
  - right. right. split; [done|]. split; [done|]. left. done.
Qed.

(** ** Histories *)

(** The states a parser goes through: a fresh parser, then reads that fit
    the prepared span, [parse_one], [reclaim] and [reset] in any order, with
    the buffer within the range of the 32-bit node indices. *)
Inductive reachable (lims : limits) : parser -> Prop :=
| reach_new : reachable lims (parser_new lims)
| reach_feed p m bs p' :
    reachable lims p -> 0 <= m <= u32_max -> parser_feed p m bs = Ret p' -> small p' ->
    reachable lims p'
| reach_parse p p' res : reachable lims p -> parse_one p = Ret (p', res) -> reachable lims p'
| reach_reclaim p p' : reachable lims p -> reclaim p = Ret p' -> reachable lims p'
| reach_reset p : reachable lims p -> reachable lims (parser_reset p).

Lemma parser_new_inv lims : parser_inv (parser_new lims) /\ small (parser_new lims).
Proof.
  split.
  - split; [apply buffer_new_wf|]. right. right. split; [done|]. split; [done|]. by left.
  - unfold small, parser_new, buffer_new, zlen. cbn [buf_ buffer_]. rewrite length_replicate.
    unfold u32_max, default_capacity. simpl. lia.
Qed.

Lemma reachable_inv lims p :
  reachable lims p -> parser_inv p /\ small p /\ limits_ p = lims.
Proof.
  induction 1 as [|p m bs p' _ (Hinv & Hsm & Hl) Hm Hf Hsm'|p p' res _ (Hinv & Hsm & Hl) Hp|
                  p p' _ (Hinv & Hsm & Hl) Hr|p _ (Hinv & Hsm & Hl)].
  - destruct (parser_new_inv lims). done.
  - destruct (parser_feed_inv p m bs p') as [Hinv' _]; try done.
    split; [done|]. split; [done|]. rewrite parser_feed_buf in Hf.
    by apply run_bind_Ret in Hf as (b' & _ & [= <-]).
  - destruct (parse_one_inv p Hinv Hsm) as (p2 & res2 & Heq & Hsame & Hinv2 & _).
    rewrite Heq in Hp. injection Hp as <- <-. split; [done|].
    split; [by eapply small_same|]. destruct Hsame as (_ & _ & _ & -> & _). done.
  - destruct (reclaim_inv p Hinv) as (p2 & Heq & Hinv2 & _ & _ & Hlen & _).
    rewrite Heq in Hr. injection Hr as <-. split; [done|].
    unfold small, zlen in *. rewrite Hlen. split; [done|].
    unfold reclaim in Heq. by apply run_bind_Ret in Heq as (? & _ & [= <-]).
  - destruct (reset_inv p Hinv). done.
Qed.
