(* ===== verification/BuilderSpec.v ===== *)
(** * Correctness of the message builder

    [build_message] walks the raw tree with a stack of its own.  Here is the
    recursive reading of a node ([read]), and the proof that on every tree
    the parser completes the traversal ends, within [build_fuel], with the
    message that [read] gives. *)

From S2P Require Import Prelude Kind Errors Charconv Buffer Message Parser Builder ParserInv.

(** ** Loops with a bound *)

Section iter.

Context {S R : Type} (step : S -> run (S + R)).

Fixpoint iter_n (n : nat) (s : S) : run (S + R) :=
  match n with
  | O => Ret (inl s)
  | Datatypes.S n' =>
    r ← step s;
    match r with inl s' => iter_n n' s' | inr x => Ret (inr x) end
  end.

Lemma iter_n_add n m s :
  iter_n (n + m) s =
  (r ← iter_n n s; match r with inl s' => iter_n m s' | inr x => Ret (inr x) end).
Proof.
  revert s. induction n as [|n IH]; intros s; [done|]. simpl.
  destruct (step s) as [[s'|x]|]; simpl; [apply IH|done|done].
Qed.

Lemma iter_pos_n p s : iter_pos step p s = iter_n (Pos.to_nat p) s.
Proof.
  revert s. induction p as [p IH|p IH|]; intros s.
  - rewrite Pos2Nat.inj_xI. cbn [iter_pos].
    replace (Datatypes.S (2 * Pos.to_nat p))
      with (1 + (Pos.to_nat p + Pos.to_nat p))%nat by lia.
    rewrite iter_n_add. simpl. destruct (step s) as [[s'|x]|]; simpl; [|done|done].
    rewrite iter_n_add, IH. destruct (iter_n _ s') as [[s''|x]|]; simpl; auto.
  - rewrite Pos2Nat.inj_xO. cbn [iter_pos].
    replace (2 * Pos.to_nat p)%nat with (Pos.to_nat p + Pos.to_nat p)%nat by lia.
    rewrite iter_n_add, IH. destruct (iter_n _ s) as [[s''|x]|]; simpl; auto.
  - simpl. by destruct (step s) as [[s'|x]|].
Qed.

(** A result that is there stays there. *)
Lemma iter_n_more n m s x :
  iter_n n s = Ret (inr x) -> (n <= m)%nat -> iter_n m s = Ret (inr x).
Proof.
  intros H Hle. replace m with (n + (m - n))%nat by lia. rewrite iter_n_add, H. done.
Qed.

Lemma iter_n_trans n m s s' r :
  iter_n n s = Ret (inl s') -> iter_n m s' = r -> iter_n (n + m) s = r.
Proof. intros H1 H2. rewrite iter_n_add, H1. done. Qed.

End iter.

Lemma mapM_Ret {A B} (f : A -> run B) l k :
  Forall2 (fun x y => f x = Ret y) l k -> mapM f l = Ret k.
Proof. induction 1 as [|x y l k Hxy _ IH]; [done|]. simpl. rewrite Hxy. simpl. by rewrite IH. Qed.

(** ** Pairs *)

(** The entries of a list of alternating keys and values, and the key left
    over when its length is odd. *)
Fixpoint pairs {A} (l : list A) : list (A * A) :=
  match l with
  | k :: x :: l' => (k, x) :: pairs l'
  | _ => []
  end.

Fixpoint last_key {A} (l : list A) : option A :=
  match l with
  | [] => None
  | [k] => Some k
  | _ :: _ :: l' => last_key l'
  end.

Lemma pairs_ind {A} (P : list A -> Prop) :
  P [] -> (forall k, P [k]) -> (forall k x l, P l -> P (k :: x :: l)) -> forall l, P l.
Proof.
  intros H0 H1 H2. fix go 1. intros [|k [|x l]]; [done|apply H1|apply H2, go].
Qed.

Lemma pairs_snoc_even {A} (l : list A) x :
  zlen l mod 2 = 0 -> pairs (l ++ [x]) = pairs l /\ last_key (l ++ [x]) = Some x.
Proof.
  induction l as [|k|k y l IH] using pairs_ind; [done|done|].
  rewrite !zlen_cons. intros Hm.
  destruct IH as [H1 H2].
  { rewrite <- Hm. replace (1 + (1 + zlen l)) with (zlen l + 1 * 2) by lia.
    by rewrite Z.mod_add by lia. }
  simpl. by rewrite H1, H2.
Qed.

Lemma pairs_snoc_odd {A} (l : list A) x :
  zlen l mod 2 <> 0 ->
  exists k, last_key l = Some k /\ pairs (l ++ [x]) = pairs l ++ [(k, x)] /\
    last_key (l ++ [x]) = None.
Proof.
  induction l as [|k|k y l IH] using pairs_ind; [done|by eexists|].
  rewrite !zlen_cons. intros Hm.
  destruct IH as (k' & H1 & H2 & H3).
  { intros Hm'. apply Hm. rewrite <- Hm'.
    replace (1 + (1 + zlen l)) with (zlen l + 1 * 2) by lia. by rewrite Z.mod_add by lia. }
  exists k'. simpl. by rewrite H1, H2, H3.
Qed.

Lemma last_key_even {A} (l : list A) : zlen l mod 2 = 0 -> last_key l = None.
Proof.
  induction l as [|k|k y l IH] using pairs_ind; [done|done|].
  rewrite !zlen_cons. intros Hm. apply IH. rewrite <- Hm.
  replace (1 + (1 + zlen l)) with (zlen l + 1 * 2) by lia. by rewrite Z.mod_add by lia.
Qed.

(** ** The recursive reading of a tree *)

(** A container with its nested messages. *)
Definition assemble {T M} (v : value_type T M) (ms : list M) : value_type T M :=
  match v with
  | resp3.array _ => resp3.array ms
  | resp3.set _ => resp3.set ms
  | resp3.push _ => resp3.push ms
  | resp3.map _ => resp3.map (pairs ms)
  | v => v
  end.

(** The links [[first, first + count)]. *)
Definition window (first count : Z) (lk : list Z) : list Z :=
  slice (Z.to_nat first) (Z.to_nat count) lk.

Fixpoint read (mem : string_view -> option bytes) (t : raw_tree) (fuel : nat) (idx : Z) :
    run vmessage :=
  match fuel with
  | O => Fault out_of_fuel
  | S fuel' =>
    n ← node_at t idx;
    base ← init_result mem n;
    cs ← mapM (read mem t fuel') (window (first_child n) (child_count n) (links t));
    ats ← mapM (read mem t fuel') (window (first_attr n) (attr_count n) (links t));
    Ret (mk_message (assemble (value base) cs)
           (if 0 <? attr_count n then Some (pairs ats) else None))
  end.

(** ** Trees that can be built *)

(** A node whose nested nodes are in [earlier]. *)
Record node_good (mem : string_view -> option bytes) (lk earlier : list Z) (n : raw_node) :
    Prop := {
  ng_type : node_type n <> kind.attribute;
  ng_children : win_ok (first_child n) (child_count n) lk earlier;
  ng_attrs : win_ok (first_attr n) (attr_count n) lk earlier;
  ng_attr_even : attr_count n mod 2 = 0;
  ng_shape : child_count n = 0 \/
    (i64 n <> -1 /\
     (seq_kind (node_type n) \/ (node_type n = kind.map /\ child_count n mod 2 = 0)));
  ng_verbatim : node_type n = kind.verbatim_string -> i64 n <> -1 ->
    exists bs, mem (text n) = Some bs /\ is_valid_verbatim_payload bs = true;
}.

(** Every node of [order] refers to nodes before it. *)
Definition tree_good (mem : string_view -> option bytes) (t : raw_tree) (order : list Z) : Prop :=
  zlen (links t) <= u32_max /\
  forall i j, order !! i = Some j ->
    exists n, node_at t j = Ret n /\ node_good mem (links t) (take i order) n.

Lemma window_lookup first count lk earlier :
  win_ok first count lk earlier ->
  zlen (window first count lk) = count /\
  Forall (fun l => l ∈ earlier) (window first count lk) /\
  forall c, 0 <= c < count -> lk !! Z.to_nat (first + c) = window first count lk !! Z.to_nat c.
Proof.
  intros [H0 [->|(H1 & H2 & H3)]].
  { split; [done|]. split; [|lia]. unfold window, slice. simpl. by apply Forall_nil. }
  assert (forall c, 0 <= c < count ->
    lk !! Z.to_nat (first + c) = window first count lk !! Z.to_nat c) as Hlk.
  { intros c Hc. unfold window, slice. rewrite lookup_take_lt by lia. rewrite lookup_drop.
    f_equal. lia. }
  assert (zlen (window first count lk) = count) as Hlen.
  { unfold window, zlen in *. rewrite length_slice by lia. lia. }
  split; [done|]. split; [|done]. apply Forall_lookup. intros i l Hi.
  pose proof (lookup_lt_Some _ _ _ Hi) as Hlt. unfold zlen in Hlen.
  destruct (H3 (first + Z.of_nat i)) as (l' & Hl' & Hin); [lia|].
  rewrite Hlk, Nat2Z.id in Hl' by lia. congruence.
Qed.

(** The first visit gives an empty container of the node's kind, or a value
    without nested messages. *)
Definition empty_container (k : kind) : value_type string_view vmessage :=
  match k with
  | kind.array => resp3.array []
  | kind.set => resp3.set []
  | kind.push => resp3.push []
  | _ => resp3.map []
  end.

Lemma init_result_good mem lk earlier n :
  node_good mem lk earlier n ->
  exists v, init_result mem n = Ret (message_of v) /\
    (0 < child_count n -> v = empty_container (node_type n)) /\ assemble v [] = v.
Proof.
  intros [Hty _ _ Hev Hsh Hv]. unfold init_result, init_value. rewrite Hev.
  assert (node_type n = kind.map -> (child_count n mod 2 =? 0) = true) as Hmap.
  { intros Hm. destruct Hsh as [->|[_ [[|[|]]|[_ ->]]]]; try done; congruence. }
  assert ((if 0 <? attr_count n then assert (0 =? 0) else Ret tt) = Ret tt) as ->
    by (by destruct (0 <? attr_count n)).
  assert (0 < child_count n -> i64 n <> -1) as Hi by (intros; destruct Hsh as [|[? _]]; [lia|done]).
  destruct (node_type n) eqn:Ek; try done; simpl;
    try (destruct (i64 n =? -1) eqn:Ei; bool_prop; simpl);
    try (rewrite Hmap by done; simpl);
    try (eexists; split; [done|]; split; [|done]; unfold seq_kind in Hsh; naive_solver lia).
  destruct (Hv eq_refl Ei) as (bs & Hbs & Hval). unfold decode_verbatim. rewrite Hbs. simpl.
  rewrite Hval. simpl. eexists. split; [done|]. split; [|done].
  unfold seq_kind in Hsh. naive_solver lia.
Qed.

(** ** The traversal follows the reading *)

Section simulate.

Context (mem : string_view -> option bytes) (t : raw_tree).

(** From a fresh frame of node [j], [m] is delivered to the parent within
    [bound] turns. *)
Definition delivers (j : Z) (m : vmessage) (bound : Z) : Prop :=
  forall k pos hp rest, exists n f,
    Z.of_nat n <= bound /\ has_parent f = hp /\ parent_kind f = k /\ parent_index f = pos /\
    iter_n (build_step mem t) n
      (mk_build_frame j 0 0 false hp k pos default_message None None [] :: rest) =
    deliver_to t f m rest.

(** The frame of node [j] when the children [cs] and the attributes [ats]
    have been attached. *)
Definition at_ (j : Z) (isn_map : bool) (v : value_type string_view vmessage) (hp : bool)
    (k : parent_slot_kind) (pos : Z) (cs ats : list vmessage) : build_frame :=
  mk_build_frame j (zlen cs) (zlen ats) true hp k pos (message_of (assemble v cs))
    (if isn_map then last_key cs else None) (last_key ats) (pairs ats).

Context (j : Z) (n : raw_node) (lk earlier : list Z).
Context (Hlk : links t = lk) (Hsmall : zlen lk <= u32_max).
Context (Hn : node_at t j = Ret n) (Hgood : node_good mem lk earlier n).
Context (v : value_type string_view vmessage) (hp : bool) (k : parent_slot_kind) (pos : Z).
Context (Hinit : init_result mem n = Ret (message_of v)).
Context (Hshape : 0 < child_count n -> v = empty_container (node_type n)) (Hv : assemble v [] = v).
Context (rest : list build_frame) (bound : Z) (Hbound : 0 <= bound).

Let is_map := bool_decide (node_type n = kind.map).
Let F := at_ j is_map v hp k pos.

Lemma build_step_init :
  build_step mem t (mk_build_frame j 0 0 false hp k pos default_message None None [] :: rest) =
  build_step mem t (F [] [] :: rest).
Proof.
  unfold build_step. simpl. rewrite Hn. cbn [mbind run_bind]. unfold initialize.
  cbn [initialized]. rewrite Hinit. cbn [mbind run_bind]. unfold F, at_. cbn [zlen].
  rewrite Hv. by destruct is_map.
Qed.

(** Delivering a child to the frame. *)
Lemma attach_child_at cs m ats :
  0 < child_count n ->
  attach_child n (zlen cs) m (set_next_child (zlen cs + 1) (F cs ats)) = Ret (F (cs ++ [m]) ats).
Proof.
  intros Hpos. destruct Hgood as [_ _ _ _ [|[_ Hk]] _]; [lia|]. unfold F, at_, is_map.
  rewrite zlen_app. rewrite (Hshape Hpos). unfold attach_child, set_next_child. simpl.
  destruct Hk as [[Hk|[Hk|Hk]]|[Hk _]]; rewrite Hk; simpl; try done.
  destruct (zlen cs mod 2 =? 0) eqn:E; bool_prop.
  - destruct (pairs_snoc_even cs m E) as [-> ->]. done.
  - destruct (pairs_snoc_odd cs m E) as (key & -> & -> & ->). done.
Qed.

Lemma attach_attr_at cs m ats :
  attach_attr (zlen ats) m (set_next_attr (zlen ats + 1) (F cs ats)) = Ret (F cs (ats ++ [m])).
Proof.
  unfold F, at_. rewrite zlen_app. unfold attach_attr, set_next_attr. simpl.
  destruct (zlen ats mod 2 =? 0) eqn:E; bool_prop.
  - destruct (pairs_snoc_even ats m E) as [-> ->]. done.
  - destruct (pairs_snoc_odd ats m E) as (key & -> & -> & ->). done.
Qed.

(** One child. *)
Lemma child_turn cs c m :
  window (first_child n) (child_count n) lk !! length cs = Some c ->
  delivers c m bound ->
  exists q, Z.of_nat q <= 1 + bound /\
    iter_n (build_step mem t) q (F cs [] :: rest) = Ret (inl (F (cs ++ [m]) [] :: rest)).
Proof.
  intros Hc Hdel.
  destruct (window_lookup _ _ _ _ (ng_children _ _ _ _ Hgood)) as (Hlen & _ & Hwin).
  pose proof (lookup_lt_Some _ _ _ Hc) as Hlt.
  assert (0 <= zlen cs < child_count n) as Hcs by (unfold zlen in *; lia).
  destruct (ng_children _ _ _ _ Hgood) as [_ [|(Hf0 & Hf1 & _)]]; [lia|].
  destruct (Hdel slot_child (zlen cs) true
    (set_next_child (zlen cs + 1) (F cs []) :: rest)) as (q & f & Hq & Hhp & Hk & Hpos & Hiter).
  exists (1 + q)%nat. split; [lia|]. apply iter_n_trans with
    (s' := nested_frame c slot_child (zlen cs) :: set_next_child (zlen cs + 1) (F cs []) :: rest).
  - cbn [iter_n build_step]. simpl. rewrite Hn. cbn [mbind run_bind]. unfold initialize.
    cbn [F at_ initialized mbind run_bind next_child].
    rewrite (proj2 (Z.ltb_lt _ _)) by lia. unfold link_at. rewrite Hlk.
    rewrite u32_small by lia. rewrite (Hwin (zlen cs)) by lia.
    rewrite zlen_to_nat, Hc. done.
  - etransitivity; [exact Hiter|]. unfold deliver_to. simpl. rewrite Hn. cbn [mbind run_bind].
    rewrite Hhp, Hk, Hpos. cbn [assert mbind run_bind].
    rewrite attach_child_at by lia. done.
Qed.


(** One attribute key or value, once the children are there. *)
Lemma attr_turn cs ats a m :
  zlen cs = child_count n ->
  window (first_attr n) (attr_count n) lk !! length ats = Some a ->
  delivers a m bound ->
  exists q, Z.of_nat q <= 1 + bound /\
    iter_n (build_step mem t) q (F cs ats :: rest) = Ret (inl (F cs (ats ++ [m]) :: rest)).
Proof.
  intros Hcs Ha Hdel.
  destruct (window_lookup _ _ _ _ (ng_attrs _ _ _ _ Hgood)) as (Hlen & _ & Hwin).
  pose proof (lookup_lt_Some _ _ _ Ha) as Hlt.
  assert (0 <= zlen ats < attr_count n) as Hats by (unfold zlen in *; lia).
  destruct (ng_attrs _ _ _ _ Hgood) as [_ [|(Hf0 & Hf1 & _)]]; [lia|].
  destruct (Hdel slot_attribute (zlen ats) true
    (set_next_attr (zlen ats + 1) (F cs ats) :: rest)) as (q & f & Hq & Hhp & Hk & Hpos & Hiter).
  exists (1 + q)%nat. split; [lia|]. apply iter_n_trans with
    (s' := nested_frame a slot_attribute (zlen ats) :: set_next_attr (zlen ats + 1) (F cs ats) :: rest).
  - cbn [iter_n build_step]. simpl. rewrite Hn. cbn [mbind run_bind]. unfold initialize.
    cbn [F at_ initialized mbind run_bind next_child next_attr].
    rewrite (proj2 (Z.ltb_ge _ _)) by lia.
    rewrite (proj2 (Z.ltb_lt _ _)) by lia. unfold link_at. rewrite Hlk.
    rewrite u32_small by lia. rewrite (Hwin (zlen ats)) by lia.
    rewrite zlen_to_nat, Ha. done.
  - etransitivity; [exact Hiter|]. unfold deliver_to. simpl. rewrite Hn. cbn [mbind run_bind].
    rewrite Hhp, Hk, Hpos. cbn [assert mbind run_bind].
    rewrite attach_attr_at by lia. done.
Qed.

(** All children, then all attributes. *)
Lemma child_turns todo ms : forall cs,
  drop (length cs) (window (first_child n) (child_count n) lk) = todo ->
  Forall2 (fun c m => delivers c m bound) todo ms ->
  exists q, Z.of_nat q <= zlen todo * (1 + bound) /\
    iter_n (build_step mem t) q (F cs [] :: rest) = Ret (inl (F (cs ++ ms) [] :: rest)).
Proof.
  revert ms. induction todo as [|c todo IH]; intros ms cs Htodo Hms.
  - apply Forall2_nil_inv_l in Hms as ->. exists 0%nat. rewrite app_nil_r. split; [done|done].
  - apply Forall2_cons_inv_l in Hms as (m & ms' & Hdel & Hms & ->).
    assert (window (first_child n) (child_count n) lk !! length cs = Some c) as Hc.
    { rewrite <- (Nat.add_0_r (length cs)), <- lookup_drop, Htodo. done. }
    destruct (child_turn cs c m Hc Hdel) as (q1 & Hq1 & Hrun1).
    destruct (IH ms' (cs ++ [m])) as (q2 & Hq2 & Hrun2); [|done|].
    { rewrite length_app, <- drop_drop, Htodo. done. }
    exists (q1 + q2)%nat. split; [rewrite zlen_cons; lia|].
    eapply iter_n_trans; [exact Hrun1|]. rewrite <- app_assoc in Hrun2. exact Hrun2.
Qed.

Lemma attr_turns cs todo ms : forall ats,
  zlen cs = child_count n ->
  drop (length ats) (window (first_attr n) (attr_count n) lk) = todo ->
  Forall2 (fun a m => delivers a m bound) todo ms ->
  exists q, Z.of_nat q <= zlen todo * (1 + bound) /\
    iter_n (build_step mem t) q (F cs ats :: rest) = Ret (inl (F cs (ats ++ ms) :: rest)).
Proof.
  revert ms. induction todo as [|a todo IH]; intros ms ats Hcs Htodo Hms.
  - apply Forall2_nil_inv_l in Hms as ->. exists 0%nat. rewrite app_nil_r. split; [done|done].
  - apply Forall2_cons_inv_l in Hms as (m & ms' & Hdel & Hms & ->).
    assert (window (first_attr n) (attr_count n) lk !! length ats = Some a) as Ha.
    { rewrite <- (Nat.add_0_r (length ats)), <- lookup_drop, Htodo. done. }
    destruct (attr_turn cs ats a m Hcs Ha Hdel) as (q1 & Hq1 & Hrun1).
    destruct (IH ms' (ats ++ [m])) as (q2 & Hq2 & Hrun2); [done| |done|].
    { rewrite length_app, <- drop_drop, Htodo. done. }
    exists (q1 + q2)%nat. split; [rewrite zlen_cons; lia|].
    eapply iter_n_trans; [exact Hrun1|]. rewrite <- app_assoc in Hrun2. exact Hrun2.
Qed.

(** The last turn of the frame. *)
Lemma last_turn cs ats :
  zlen cs = child_count n -> zlen ats = attr_count n ->
  build_step mem t (F cs ats :: rest) =
  deliver_to t (F cs ats)
    (mk_message (assemble v cs) (if 0 <? attr_count n then Some (pairs ats) else None)) rest.
Proof.
  intros Hcs Hats. cbn [build_step]. simpl. rewrite Hn. cbn [mbind run_bind].
  unfold initialize. cbn [F at_ initialized mbind run_bind next_child next_attr].
  rewrite !(proj2 (Z.ltb_ge _ _)) by lia. unfold finalize. cbn [F pending_attr_key at_ result frame_attrs].
  rewrite last_key_even by (rewrite Hats; apply Hgood).
  by destruct (0 <? attr_count n).
Qed.

(** The whole node. *)
Lemma node_turns cs ats :
  Forall2 (fun c m => delivers c m bound) (window (first_child n) (child_count n) lk) cs ->
  Forall2 (fun a m => delivers a m bound) (window (first_attr n) (attr_count n) lk) ats ->
  exists q f, Z.of_nat q <= 1 + (child_count n + attr_count n) * (1 + bound) /\
    has_parent f = hp /\ parent_kind f = k /\ parent_index f = pos /\
    iter_n (build_step mem t) q
      (mk_build_frame j 0 0 false hp k pos default_message None None [] :: rest) =
    deliver_to t f
      (mk_message (assemble v cs) (if 0 <? attr_count n then Some (pairs ats) else None)) rest.
Proof.
  intros Hcs Hats.
  destruct (window_lookup _ _ _ _ (ng_children _ _ _ _ Hgood)) as (Hlen & _ & _).
  destruct (window_lookup _ _ _ _ (ng_attrs _ _ _ _ Hgood)) as (Hlen' & _ & _).
  assert (zlen cs = child_count n) as Hc
    by (rewrite <- Hlen; unfold zlen; by rewrite (Forall2_length _ _ _ Hcs)).
  assert (zlen ats = attr_count n) as Ha
    by (rewrite <- Hlen'; unfold zlen; by rewrite (Forall2_length _ _ _ Hats)).
  destruct (child_turns _ cs [] eq_refl Hcs) as (q1 & Hq1 & Hrun1).
  destruct (attr_turns cs _ ats [] Hc eq_refl Hats) as (q2 & Hq2 & Hrun2).
  cbn [length] in *. rewrite drop_0 in *. simpl in Hrun1, Hrun2.
  exists (q1 + q2 + 1)%nat, (F cs ats). split; [nia|]. do 3 (split; [done|]).
  assert (forall q s, iter_n (build_step mem t) (q + 1) (F [] [] :: rest) = s ->
    iter_n (build_step mem t) (q + 1)
      (mk_build_frame j 0 0 false hp k pos default_message None None [] :: rest) = s) as Hfirst.
  { intros q s. rewrite Nat.add_1_r. cbn [iter_n]. by rewrite build_step_init. }
  apply Hfirst. rewrite <- Nat.add_assoc. eapply iter_n_trans; [exact Hrun1|].
  eapply iter_n_trans; [exact Hrun2|]. cbn [iter_n]. rewrite last_turn by done.
  by destruct (deliver_to _ _ _ _) as [[]|].
Qed.

End simulate.

(** ** The bound *)

Definition turn_bound (t : raw_tree) (i : nat) : Z := (2 * max_fanout t + 2) ^ Z.of_nat (i + 1).

Lemma max_fanout_nonneg t : 0 <= max_fanout t.
Proof. unfold max_fanout. induction (nodes t) as [|n l IH]; simpl; lia. Qed.

Lemma max_fanout_node t j n :
  node_at t j = Ret n -> child_count n + attr_count n <= max_fanout t.
Proof.
  unfold node_at. intros H. apply or_fault_Ret in H. unfold max_fanout.
  revert H. generalize (Z.to_nat j). induction (nodes t) as [|n' l IH]; intros i H; [done|].
  destruct i as [|i]; simpl in *; [injection H as ->; lia|]. specialize (IH i H). lia.
Qed.

Lemma turn_bound_mono t i i' : (i <= i')%nat -> turn_bound t i <= turn_bound t i'.
Proof.
  intros. unfold turn_bound. pose proof (max_fanout_nonneg t). apply Z.pow_le_mono_r; lia.
Qed.

Lemma turn_bound_step t i c :
  0 <= c <= max_fanout t -> 1 + c * (1 + turn_bound t i) <= turn_bound t (S i).
Proof.
  intros Hc. unfold turn_bound. replace (Z.of_nat (S i + 1)) with (Z.of_nat (i + 1) + 1) by lia.
  rewrite Z.pow_add_r, Z.pow_1_r by lia.
  assert (1 <= (2 * max_fanout t + 2) ^ Z.of_nat (i + 1)) as H1.
  { apply Z.lt_pred_le. simpl. apply Z.pow_pos_nonneg; lia. }
  nia.
Qed.

Lemma delivers_mono mem t j m b b' : delivers mem t j m b -> b <= b' -> delivers mem t j m b'.
Proof.
  intros H Hle k pos hp rest. destruct (H k pos hp rest) as (n & f & Hn & ?).
  exists n, f. split; [lia|done].
Qed.

(** ** Every node is read, and the traversal agrees *)

Definition reads (mem : string_view -> option bytes) (t : raw_tree) (i : nat) (j : Z)
    (m : vmessage) : Prop :=
  (forall fuel, (i < fuel)%nat -> read mem t fuel j = Ret m) /\ delivers mem t j m (turn_bound t i).

(** The nested nodes of a window, all read before [i]. *)
Lemma reads_window mem t order i first count :
  (forall i', (i' < i)%nat -> forall j, order !! i' = Some j -> exists m, reads mem t i' j m) ->
  win_ok first count (links t) (take i order) ->
  exists ms,
    (forall fuel, (i <= fuel)%nat -> mapM (read mem t fuel) (window first count (links t)) = Ret ms) /\
    Forall2 (fun c m => delivers mem t c m (turn_bound t (pred i))) (window first count (links t)) ms.
Proof.
  intros IH Hwin. destruct (window_lookup _ _ _ _ Hwin) as (_ & Hall & _).
  assert (exists ms, Forall2 (fun c m =>
    (forall fuel, (i <= fuel)%nat -> read mem t fuel c = Ret m) /\
    delivers mem t c m (turn_bound t (pred i))) (window first count (links t)) ms) as [ms Hms].
  { induction Hall as [|c l Hc _ [ms IHl]]; [exists []; constructor|].
    apply list_elem_of_lookup in Hc as [i' Hi']. apply lookup_take_Some in Hi' as [Hi' Hlt].
    destruct (IH i' Hlt c Hi') as (m & Hread & Hdel). exists (m :: ms). constructor; [|done].
    split; [intros; apply Hread; lia|].
    eapply delivers_mono; [exact Hdel|]. apply turn_bound_mono. lia. }
  exists ms. split.
  - intros fuel Hf. apply mapM_Ret. eapply Forall2_impl; [exact Hms|]. naive_solver.
  - eapply Forall2_impl; [exact Hms|]. naive_solver.
Qed.

Lemma tree_reads mem t order :
  tree_good mem t order ->
  forall i j, order !! i = Some j -> exists m, reads mem t i j m.
Proof.
  intros [Hlinks Hnodes] i. induction (lt_wf i) as [i _ IH]. intros j Hij.
  destruct (Hnodes i j Hij) as (n & Hn & Hgood).
  destruct (init_result_good _ _ _ _ Hgood) as (v & Hinit & Hshape & Hv).
  destruct (reads_window mem t order i _ _ IH (ng_children _ _ _ _ Hgood)) as (cs & Hcr & Hcs).
  destruct (reads_window mem t order i _ _ IH (ng_attrs _ _ _ _ Hgood)) as (ats & Har & Hats).
  eexists. split.
  { intros [|fuel] Hf; [lia|]. cbn [read]. rewrite Hn. cbn [mbind run_bind].
    rewrite Hinit. cbn [mbind run_bind]. rewrite Hcr by lia. cbn [mbind run_bind].
    rewrite Har by lia. cbn [mbind run_bind value message_of]. done. }
  pose proof (max_fanout_nonneg t) as HF. pose proof (max_fanout_node _ _ _ Hn) as Hfan.
  destruct (ng_children _ _ _ _ Hgood) as [Hc0 Hc1]. destruct (ng_attrs _ _ _ _ Hgood) as [Ha0 Ha1].
  intros k pos hp rest.
  assert (0 <= turn_bound t (pred i)) as Hb0 by (unfold turn_bound; apply Z.pow_nonneg; lia).
  destruct (node_turns mem t j n _ _ eq_refl Hlinks Hn Hgood v hp k pos Hinit Hshape Hv rest
    (turn_bound t (pred i)) Hb0 cs ats Hcs Hats) as (q & f & Hq & Hrest).
  exists q, f. split; [|exact Hrest]. destruct i as [|i].
  - assert (child_count n = 0 /\ attr_count n = 0) as [Hcz Haz].
    { clear Hq. split; [destruct Hc1 as [|(_ & _ & H)]|destruct Ha1 as [|(_ & _ & H)]]; try done.
      - destruct (decide (child_count n = 0)); [done|].
        destruct (H (first_child n)) as (? & _ & []%elem_of_nil). lia.
      - destruct (decide (attr_count n = 0)); [done|].
        destruct (H (first_attr n)) as (? & _ & []%elem_of_nil). lia. }
    rewrite Hcz, Haz in Hq. unfold turn_bound in *. simpl in *. lia.
  - simpl in Hq. pose proof (turn_bound_step t i (child_count n + attr_count n)). lia.
Qed.

(** [build_message] is the recursive reading of the tree. *)
Lemma build_message_reads mem t order root i :
  tree_good mem t order -> order !! i = Some root -> zlen order <= zlen (nodes t) ->
  exists m, build_message mem t root = Ret m /\
    forall fuel, (zlen (nodes t) <= Z.of_nat fuel) -> read mem t fuel root = Ret m.
Proof.
  intros Hgood Hi Hlen. destruct (tree_reads mem t order Hgood i root Hi) as (m & Hread & Hdel).
  pose proof (lookup_lt_Some _ _ _ Hi) as Hlt.
  exists m. split; [|intros; apply Hread; unfold zlen in *; lia].
  unfold build_message. rewrite iter_pos_n.
  destruct (Hdel slot_child 0 false []) as (q & f & Hq & _ & _ & _ & Hrun).
  rewrite (iter_n_more _ q _ _ m); [done|exact Hrun|].
  enough (Z.of_nat q <= Z.pos (build_fuel t)) by lia.
  unfold build_fuel. pose proof (max_fanout_nonneg t).
  assert (turn_bound t i <= (2 * max_fanout t + 2) ^ (zlen (nodes t) + 1)) as Hle.
  { unfold turn_bound. apply Z.pow_le_mono_r; [lia|]. unfold zlen in *. lia. }
  rewrite Z2Pos.id; [lia|]. apply Z.pow_pos_nonneg; [lia|]. pose proof (zlen_nonneg (nodes t)). lia.
Qed.
