(* ===== verification/ParserViews.v ===== *)
(** * The views of a parse

    The nodes of a value that is read without a move of the storage have
    readable text: the message built from them can be read. *)

From S2P Require Import Prelude Kind Errors Charconv Buffer Message Parser Builder ParserInv.
From S2P Require Import ParserSafety BuilderSpec.

(** ** Views of the current storage *)

Definition view_live (b : buffer) (v : string_view) : Prop :=
  sv_storage v = storage_id b \/ sv_len v = 0%nat.

Definition texts (t : raw_tree) : list string_view := text <$> nodes t.

Definition texts_live (p : parser) : Prop := Forall (view_live (buf_ p)) (texts (tree_ p)).

Lemma view_live_substr b v pos n : view_live b v -> view_live b (substr v pos n).
Proof. unfold view_live, substr. simpl. intros [|]; [by left|right; lia]. Qed.

Lemma view_live_data b pos n : view_live b (substr (data b) pos n).
Proof. by left. Qed.

#[export] Hint Resolve view_live_data view_live_substr : rediscoro.

(** Attaching does not touch the text of any node. *)
Lemma texts_set_node t i n n' :
  node_at t i = Ret n -> text n' = text n -> texts (set_node t i n') = texts t.
Proof.
  unfold node_at. intros Hn Htx. apply or_fault_Ret in Hn. unfold texts, set_node. simpl.
  rewrite list_fmap_insert, Htx. apply list_insert_id. by rewrite list_lookup_fmap, Hn.
Qed.

Lemma texts_push_link t i : texts (push_link t i) = texts t.
Proof. done. Qed.

Lemma texts_pending_push pa t i : texts (pending_push pa t i).2 = texts t.
Proof. done. Qed.

Lemma texts_pending_attach pa t i pa' t' :
  pending_attach pa t i = Ret (pa', t') -> texts t' = texts t.
Proof.
  unfold pending_attach. destruct (_ =? _); [by intros [= <- <-]|]. intros H.
  apply run_bind_Ret in H as (n & Hn & [= <- <-]). by eapply texts_set_node.
Qed.

Lemma texts_attach s : forall t pa child s' t' pa' res,
  attach_to_parent s t pa child = Ret (s', t', pa', res) -> texts t' = texts t.
Proof.
  induction s as [|f s IH]; intros t pa child s' t' pa' res H; [by injection H as <- <- <- <-|].
  cbn [attach_to_parent] in H. destruct (state f).
  - by injection H as <- <- <- <-.
  - apply run_bind_Ret in H as (_ & _ & H). apply run_bind_Ret in H as (n & Hn & H).
    pose proof (texts_set_node (push_link t child) (node_index f) n
      (with_children (open_window n t) (u32 (produced_ f + 1)) n) Hn eq_refl) as Htx.
    destruct (_ =? _); [by rewrite (IH _ _ _ _ _ _ _ H)|by injection H as <- <- <- <-].
  - apply run_bind_Ret in H as (_ & _ & H). by injection H as <- <- <- <-.
  - apply run_bind_Ret in H as (_ & _ & H). destruct (negb _); [by injection H as <- <- <- <-|].
    apply run_bind_Ret in H as (n & Hn & H).
    pose proof (texts_set_node (push_link (push_link t (pending_key f)) child) (node_index f) n
      (with_children (open_window n t) (u32 (u32 (produced_ f + 1) * 2)) n) Hn eq_refl) as Htx.
    destruct (_ =? _); [by rewrite (IH _ _ _ _ _ _ _ H)|by injection H as <- <- <- <-].
  - apply run_bind_Ret in H as (_ & _ & H).
    destruct (negb _); [by injection H as <- <- <- <-|].
    destruct (pending_push pa t (pending_key f)) as [pa1 t1] eqn:E1.
    destruct (pending_push pa1 t1 child) as [pa2 t2] eqn:E2.
    pose proof (texts_pending_push pa t (pending_key f)) as H1. rewrite E1 in H1.
    pose proof (texts_pending_push pa1 t1 child) as H2. rewrite E2 in H2. simpl in *.
    destruct (_ =? _); injection H as <- <- <- <-; congruence.
Qed.

(** ** A turn adds only views of the current storage *)

Definition views_kept (p p' : parser) : Prop :=
  storage_id (buf_ p') = storage_id (buf_ p) /\ (texts_live p -> texts_live p').

Lemma views_kept_refl p : views_kept p p.
Proof. done. Qed.

Lemma views_kept_trans p1 p2 p3 : views_kept p1 p2 -> views_kept p2 p3 -> views_kept p1 p3.
Proof. intros [H1 H2] [H3 H4]. split; [congruence|auto]. Qed.

Lemma views_kept_same p p' :
  storage_id (buf_ p') = storage_id (buf_ p) -> texts (tree_ p') = texts (tree_ p) ->
  views_kept p p'.
Proof.
  intros Hid Htx. split; [done|]. unfold texts_live. rewrite Htx. intros Hall.
  eapply Forall_impl; [exact Hall|]. intros v. unfold view_live. by rewrite Hid.
Qed.

Lemma views_kept_push_node p n p' idx :
  push_node n p = Ret (p', idx) -> view_live (buf_ p) (text n) -> views_kept p p'.
Proof.
  unfold push_node. intros H Hv. apply run_bind_Ret in H as ([pa t'] & Ht & [= <- <-]).
  apply texts_pending_attach in Ht. split; [done|]. unfold texts_live. simpl. rewrite Ht.
  unfold texts. simpl. rewrite fmap_app. intros Hall. apply Forall_app. split; [done|].
  by apply Forall_singleton.
Qed.

Lemma views_kept_consume p n p' : parser_consume n p = Ret p' -> views_kept p p'.
Proof.
  unfold parser_consume. intros H. apply run_bind_Ret in H as (b' & Hb & [= <-]).
  unfold consume, buf_size in Hb. run_inv. by apply views_kept_same.
Qed.

Lemma views_kept_scalar n nd p p' res :
  finish_scalar n nd p = Ret (p', res) -> view_live (buf_ p) (text nd) -> views_kept p p'.
Proof.
  unfold finish_scalar. intros H Hv. apply run_bind_Ret in H as (p1 & Hc & H).
  apply views_kept_consume in Hc. apply run_bind_Ret in H as ([p2 idx] & Hp & [= <- <-]).
  eapply views_kept_trans; [exact Hc|]. eapply views_kept_push_node; [exact Hp|].
  destruct Hc as [Hid _]. unfold view_live in *. by rewrite Hid.
Qed.

Lemma view_live_empty b : view_live b empty_view.
Proof. by right. Qed.

#[export] Hint Resolve view_live_empty views_kept_refl views_kept_scalar : rediscoro.

Lemma views_kept_container k p p' res :
  parse_container k p = Ret (p', res) -> views_kept p p'.
Proof.
  unfold parse_container. intros H.
  destruct (parse_length_after_type _ _) as [[lh|]|e];
    [|by injection H as <- <-|by injection H as <- <-].
  apply run_bind_Ret in H as (p1 & Hc & H). apply views_kept_consume in Hc.
  eapply views_kept_trans; [exact Hc|]. clear Hc.
  apply run_bind_Ret in H as ([p2 r] & Hs & H).
  assert (views_kept p1 p2) as Hk; [|destruct r; by injection H as <- <-]. clear H.
  unfold start_container in Hs.
  destruct (_ <? _); [by injection Hs as <- <-|].
  destruct (_ <? _); [by injection Hs as <- <-|].
  destruct (_ =? -1).
  { apply run_bind_Ret in Hs as ([p3 idx] & Hp & [= <- <-]).
    eapply views_kept_push_node; [exact Hp|by right]. }
  destruct (negb _); [by injection Hs as <- <-|].
  apply run_bind_Ret in Hs as ([p3 idx] & Hp & Hs).
  apply views_kept_push_node in Hp; [|by right].
  destruct (_ =? 0); injection Hs as <- <-; exact Hp.
Qed.

Lemma views_kept_attribute p p' res :
  parse_attribute p = Ret (p', res) -> views_kept p p'.
Proof.
  unfold parse_attribute. intros H.
  destruct (parse_length_after_type _ _) as [[lh|]|e];
    [|by injection H as <- <-|by injection H as <- <-].
  apply run_bind_Ret in H as (p1 & Hc & H). apply views_kept_consume in Hc.
  eapply views_kept_trans; [exact Hc|]. unfold start_attribute in H.
  destruct (_ <? _); [by injection H as <- <-|].
  destruct (_ <? _); [by injection H as <- <-|].
  destruct (_ =? 0); [by injection H as <- <-|].
  destruct (negb _); by injection H as <- <-.
Qed.

(** Split the tests of a scalar reader; its ends are a return without a
    node, or [finish_scalar]. *)
Ltac scalar_ends H :=
  repeat match type of H with
  | Ret _ = Ret _ => injection H as <- <-; apply views_kept_refl
  | finish_scalar _ _ _ = Ret _ =>
    apply views_kept_scalar in H; [exact H|first [by right|simpl; eauto with rediscoro]]
  | context [if ?c then _ else _] => destruct c
  | context [match ?x with _ => _ end] => destruct x
  end.

Lemma views_kept_value p p' res : parse_value p = Ret (p', res) -> views_kept p p'.
Proof.
  unfold parse_value. intros H. apply run_bind_Ret in H as (_ & _ & H).
  destruct (data_bytes (buf_ p)) as [|c d] eqn:Ed; [by injection H as <- <-|].
  destruct (prefix_to_kind c) as [k|]; [|by injection H as <- <-].
  destruct k; try (by eapply views_kept_container); try (by eapply views_kept_attribute);
    unfold parse_line, parse_null, parse_boolean, parse_bulk in H; scalar_ends H.
Qed.

Lemma views_kept_step p r :
  parse_step p = Ret r ->
  match r with inl p' => views_kept p p' | inr (p', _) => views_kept p p' end.
Proof.
  unfold parse_step. destruct (stack_ p) as [|f s] eqn:Hs; [by intros [= <-]|].
  destruct (state f); try (by intros [= <-]). intros H.
  apply run_bind_Ret in H as ([p1 res] & Hv & H). apply views_kept_value in Hv.
  destruct res as [[[|child]|]|e]; try (by injection H as <-).
  apply run_bind_Ret in H as ([p2 res2] & Ha & H).
  assert (views_kept p p2) as Hk.
  { eapply views_kept_trans; [exact Hv|]. unfold parser_attach in Ha.
    apply run_bind_Ret in Ha as ([[[s' t'] pa'] res'] & Ha & [= <- <-]).
    apply views_kept_same; [done|]. by apply texts_attach in Ha. }
  by destruct res2 as [[|root]|e]; injection H as <-.
Qed.

Lemma views_kept_loop fuel : forall p p' res,
  parse_loop fuel p = Ret (p', res) -> views_kept p p'.
Proof.
  induction fuel as [|fuel IH]; intros p p' res H; [done|]. cbn [parse_loop] in H.
  apply run_bind_Ret in H as (r & Hr & H). apply views_kept_step in Hr.
  destruct r as [p1|[p1 res1]]; [|by injection H as <- <-].
  eapply views_kept_trans; [exact Hr|]. by eapply IH.
Qed.

Lemma views_kept_parse_one p p' res : parse_one p = Ret (p', res) -> views_kept p p'.
Proof.
  unfold parse_one. destruct (tree_ready_ p); [by intros [= <- <-]|].
  destruct (failed_ p); [by intros [= <- <-]|]. intros H. apply views_kept_loop in H.
  eapply views_kept_trans; [|exact H]. by destruct (stack_ p).
Qed.

(** A read that does not move the storage keeps the views too. *)
Lemma views_kept_fed p b' :
  storage_id b' = storage_id (buf_ p) -> views_kept p (set_buf b' p).
Proof. intros Hid. by apply views_kept_same. Qed.

Lemma idle_texts p : idle p -> texts_live p.
Proof. intros (_ & Ht & _). unfold texts_live. rewrite Ht. by apply Forall_nil. Qed.

(** ** Readable messages *)

Lemma view_bytes_substr b v pos n :
  is_Some (view_bytes b v) -> is_Some (view_bytes b (substr v pos n)).
Proof.
  unfold view_bytes, substr. simpl. intros H.
  destruct (Nat.min n (sv_len v - pos) =? 0)%nat eqn:E; [done|]. bool_prop.
  destruct (sv_len v =? 0)%nat eqn:E'; bool_prop; [lia|].
  destruct (decide _); [|by destruct H].
  destruct (sv_off v + sv_len v <=? _)%nat eqn:E2; bool_prop; [|by destruct H].
  rewrite (proj2 (Nat.leb_le _ _)) by lia. done.
Qed.

Section resolves.

Context (mem : string_view -> option bytes) (t : raw_tree).
Context (Hsub : forall v pos n, is_Some (mem v) -> is_Some (mem (substr v pos n))).
Context (Hmem : forall j n, node_at t j = Ret n -> is_Some (mem (text n))).

Definition readable (m : vmessage) : Prop := is_Some (resolve mem m).

Lemma resolve_pairs_some l :
  Forall (fun kv => readable kv.1 /\ readable kv.2) l ->
  is_Some (mapM (fun kv => k ← resolve mem kv.1; w ← resolve mem kv.2; Some (k, w)) l).
Proof.
  intros Hl. apply mapM_is_Some_2. eapply Forall_impl; [exact Hl|].
  intros [k w] [[k' Hk] [w' Hw]]. simpl in *. by rewrite Hk, Hw.
Qed.

Lemma mapM_resolve_iff (l : list vmessage) :
  is_Some (mapM (resolve mem) l) <-> Forall readable l.
Proof. split; [apply mapM_is_Some_1|apply mapM_is_Some_2]. Qed.

Lemma resolve_some v a :
  value_forall readable v -> attrs_forall readable a ->
  match v with
  | resp3.simple_string s | resp3.simple_error s | resp3.big_number s | resp3.bulk_string s
  | resp3.bulk_error s => is_Some (mem s)
  | resp3.verbatim_string e s => is_Some (mem e) /\ is_Some (mem s)
  | _ => True
  end -> readable (mk_message v a).
Proof.
  intros Hv Ha Ht. unfold readable. cbn [resolve].
  assert (is_Some (match a with
    | Some l => Some <$> mapM (fun kv => k ← resolve mem kv.1; w ← resolve mem kv.2; Some (k, w)) l
    | None => Some None end)) as [a' Ha'].
  { destruct a as [l|]; [|done]. destruct (resolve_pairs_some l Ha) as [l' Hl']. by rewrite Hl'. }
  rewrite Ha'. destruct v; simpl in *;
    match type of Ht with
    | True => try (by eexists)
    | is_Some _ => destruct Ht as [? ->]; done
    | _ => idtac
    end;
    try (apply mapM_resolve_iff in Hv as [l' ->]; done).
  - destruct Ht as [[x ->] [y ->]]. done.
  - apply resolve_pairs_some in Hv as [l' ->]. done.
Qed.

Lemma pairs_forall (P : vmessage -> Prop) l :
  Forall P l -> Forall (fun kv => P kv.1 /\ P kv.2) (pairs l).
Proof.
  induction l as [|k|k x l IH] using pairs_ind; intros Hl; simpl; try by apply Forall_nil.
  apply Forall_cons in Hl as [Hk Hl]. apply Forall_cons in Hl as [Hx Hl].
  apply Forall_cons. auto.
Qed.

Lemma mapM_Ret_forall {A B} (f : A -> run B) (P : B -> Prop) l k :
  mapM f l = Ret k -> (forall x y, f x = Ret y -> P y) -> Forall P k.
Proof.
  intros H HP. revert k H. induction l as [|x l IH]; intros k H; simpl in H.
  - injection H as <-. by apply Forall_nil.
  - apply run_bind_Ret in H as (y & Hy & H). apply run_bind_Ret in H as (k' & Hk & [= <-]).
    apply Forall_cons. eauto.
Qed.

Lemma init_result_readable n j base cs a :
  node_at t j = Ret n -> init_result mem n = Ret base -> Forall readable cs ->
  attrs_forall readable a -> readable (mk_message (assemble (value base) cs) a).
Proof.
  intros Hn Hb Hcs Ha. pose proof (Hmem j n Hn) as Htx.
  unfold init_result in Hb. run_inv. clear dependent x0 x1. unfold init_value in *.
  pose proof (pairs_forall readable cs Hcs) as Hp.
  assert (forall k, readable (mk_message (resp3.null k) a)) as Hnull
    by (intros; by apply resolve_some).
  destruct (node_type n); try done; simpl in *;
    repeat match goal with
    | H : (if ?c then _ else _) = Ret _ |- _ => destruct c
    | H : Ret _ = Ret _ |- _ => injection H as <-
    end; simpl; try apply Hnull; try (by apply resolve_some).
  unfold decode_verbatim in H. destruct (mem (text n)) as [bs|] eqn:E; [|done]. simpl in H.
  destruct (assert _); [|done]. simpl in H. injection H as <-.
  simpl. apply resolve_some; try done. rewrite <- E in Htx. auto.
Qed.

Lemma read_readable fuel : forall j m, read mem t fuel j = Ret m -> readable m.
Proof.
  induction fuel as [|fuel IH]; intros j m H; [done|]. cbn [read] in H.
  apply run_bind_Ret in H as (n & Hn & H). apply run_bind_Ret in H as (base & Hb & H).
  apply run_bind_Ret in H as (cs & Hcs & H). apply run_bind_Ret in H as (ats & Hats & [= <-]).
  eapply init_result_readable; [exact Hn|exact Hb| |].
  - by eapply mapM_Ret_forall.
  - destruct (0 <? attr_count n); [|done]. apply pairs_forall. by eapply mapM_Ret_forall.
Qed.

End resolves.

(** ** From a completed parse to its message *)

Lemma text_ok_readable b n :
  text_ok b n -> view_live b (text n) -> is_Some (view_bytes b (text n)).
Proof.
  intros [_ Htx] [Hid|Hlen].
  - destruct (Htx Hid) as (_ & bs & -> & _). done.
  - unfold view_bytes. rewrite Hlen. done.
Qed.

Lemma node_ok_good b lk earlier n :
  node_ok b lk earlier n -> view_live b (text n) -> node_good (view_bytes b) lk earlier n.
Proof.
  intros [Hty Hch Hat Hev Hsh Htx] Hlive. split; try done. intros Hv Hi.
  destruct Hlive as [Hid|Hlen].
  - destruct Htx as [_ Htx]. destruct (Htx Hid) as (_ & bs & Hbs & Hval). eauto.
  - destruct Htx as [[_ Hvb] _]. specialize (Hvb Hv Hi). lia.
Qed.

Lemma texts_live_node p j n :
  texts_live p -> node_at (tree_ p) j = Ret n -> view_live (buf_ p) (text n).
Proof.
  unfold texts_live, node_at. intros Hall Hn. apply or_fault_Ret in Hn.
  eapply Forall_lookup_1; [exact Hall|]. unfold texts. by rewrite list_lookup_fmap, Hn.
Qed.

(** A duplicate-free list of as many indices as there are nodes has them all. *)
Lemma nodup_all_indices (l : list Z) n :
  NoDup l -> (forall j, j ∈ l -> 0 <= j < Z.of_nat n) -> length l = n ->
  forall j, 0 <= j < Z.of_nat n -> j ∈ l.
Proof.
  intros Hnd Hin Hlen j Hj.
  assert (l ≡ₚ seqZ 0 (Z.of_nat n)) as ->.
  { apply submseteq_length_Permutation.
    - apply NoDup_submseteq; [done|]. intros x Hx. apply elem_of_seqZ.
      specialize (Hin x Hx). lia.
    - rewrite length_seqZ. lia. }
  apply elem_of_seqZ. lia.
Qed.

Lemma parsed_tree_good p root :
  parsed p root -> buffer_wf (buf_ p) -> small p -> texts_live p ->
  exists order i, tree_good (view_bytes (buf_ p)) (tree_ p) order /\ order !! i = Some root /\
    zlen order = zlen (nodes (tree_ p)) /\
    forall j n, node_at (tree_ p) j = Ret n -> is_Some (view_bytes (buf_ p) (text n)).
Proof.
  intros (_ & _ & Hnum & closed & Hroot & Hci & Hlk) (? & ? & ?) Hsm Hlive.
  apply list_elem_of_lookup in Hroot as [i Hi].
  pose proof (ci_count _ _ _ _ _ Hci) as Hcount. simpl in Hcount. rewrite zlen_nil in Hcount.
  assert (forall i j, closed !! i = Some j -> exists n, node_at (tree_ p) j = Ret n /\
    node_ok (buf_ p) (links (tree_ p)) (take i closed) n) as Hnodes.
  { intros i' j Hij. destruct (ci_closed _ _ _ _ _ Hci i' j Hij) as (_ & n & Hn & Hok).
    exists n. unfold node_at. by rewrite Hn. }
  exists closed, i. split; [|split; [done|split; [lia|]]].
  - split; [unfold small, zlen in *; unfold u32_max in *; lia|]. intros i' j Hij.
    destruct (Hnodes i' j Hij) as (n & Hn & Hok). exists n. split; [done|].
    eapply node_ok_good; [done|]. by eapply texts_live_node.
  - intros j0 n Hn0.
    assert (node_at (tree_ p) (Z.max 0 j0) = Ret n) as Hn
      by (rewrite <- Hn0; unfold node_at; do 2 f_equal; lia).
    assert (0 <= Z.max 0 j0) as Hj by lia. revert Hn Hj. generalize (Z.max 0 j0). clear Hn0.
    intros j Hn Hj.
    assert (j ∈ closed) as Hjc.
    { pose proof (ci_nodup _ _ _ _ _ Hci) as Hnd. simpl in Hnd.
      eapply (nodup_all_indices closed (length (nodes (tree_ p)))); [done| |unfold zlen in *; lia|].
      - intros x Hx. exact (closed_in_range _ _ _ _ _ x Hci Hx).
      - split; [done|]. apply or_fault_Ret, lookup_lt_Some in Hn. lia. }
    apply list_elem_of_lookup in Hjc as [i' Hi']. destruct (Hnodes i' j Hi') as (n' & Hn' & Hok).
    rewrite Hn in Hn'. injection Hn' as <-.
    apply text_ok_readable; [apply Hok|]. by eapply texts_live_node.
Qed.

(** A completed parse whose text has not moved builds, and reads back. *)
Lemma parsed_builds p root :
  parsed p root -> buffer_wf (buf_ p) -> small p -> texts_live p ->
  exists m bm, build_message (view_bytes (buf_ p)) (tree_ p) root = Ret m /\
    (forall fuel, zlen (nodes (tree_ p)) <= Z.of_nat fuel ->
       read (view_bytes (buf_ p)) (tree_ p) fuel root = Ret m) /\
    resolve (view_bytes (buf_ p)) m = Some bm.
Proof.
  intros Hp Hwf Hsm Hlive.
  destruct (parsed_tree_good p root Hp Hwf Hsm Hlive) as (order & i & Hgood & Hi & Hlen & Hmem).
  destruct (build_message_reads _ _ order root i Hgood Hi) as (m & Hbuild & Hread); [lia|].
  assert (read (view_bytes (buf_ p)) (tree_ p) (length (nodes (tree_ p))) root = Ret m) as Hr
    by (apply Hread; unfold zlen; lia).
  destruct (read_readable (view_bytes (buf_ p)) (tree_ p)
    (fun v pos n => view_bytes_substr (buf_ p) v pos n) Hmem _ _ _ Hr) as [bm Hbm].
  eauto.
Qed.

Lemma parse_and_build_inv p :
  parser_inv p -> small p -> texts_live p ->
  exists p' r, parse_and_build p = Ret (p', r) /\ same_input p p' /\ parser_inv p' /\
    texts_live p' /\
    match r with
    | Unexpected e => tree_ready_ p = true \/ failed_ p = true \/ input_error e
    | Val None => tree_ready_ p' = false
    | Val (Some _) => tree_ready_ p' = true
    end.
Proof.
  intros Hinv Hsm Hlive. unfold parse_and_build.
  destruct (parse_one_inv p Hinv Hsm) as (p' & res & Heq & Hsame & Hinv' & Hres).
  pose proof (views_kept_parse_one p p' res Heq) as [_ Hkept]. specialize (Hkept Hlive).
  rewrite Heq. cbn [mbind run_bind]. destruct res as [[root|]|e].
  - destruct (parsed_builds p' root (proj2 Hres)) as (m & bm & -> & _ & Hbm); try done.
    { apply Hinv'. }
    { by eapply small_same. }
    cbn [mbind run_bind]. rewrite Hbm. cbn [or_fault mbind run_bind].
    eexists _, _. repeat (split; [done|]). apply Hres.
  - eexists _, _. repeat (split; [done|]). done.
  - eexists _, _. repeat (split; [done|]). destruct e; naive_solver.
Qed.
