(* ===== verification/Wire.v ===== *)
(** * RESP3 on the wire

    The syntax of RESP3 values with the exact bytes of each header and line,
    its encoding, the values the parser's limits admit ([wf]), and the
    message a value stands for ([denote]).  The specification the parser is
    proved against in [WireParse]. *)

From S2P Require Import Prelude Kind Errors Charconv Buffer Message Parser Builder BuilderSpec.
From Stdlib Require Import SpecFloat.

(** ** Syntax *)

Inductive scalar : Set :=
| SLine (k : kind) (line : bytes)
| SNull
| SBool (b : bool)
| SBulk (k : kind) (header payload : bytes)
| STypedNull (k : kind) (header : bytes).

(** The nested values of a map and of an attribute are its keys and values in
    turn. *)
#[local] Unset Elimination Schemes.
Inductive wire : Set :=
| Leaf (s : scalar)
| Agg (k : kind) (header : bytes) (l : list wire)
| Attr (header : bytes) (l : list wire) (w : wire).
#[local] Set Elimination Schemes.

Section wire_ind.

Context (P : wire -> Prop).
Context (Hleaf : forall s, P (Leaf s)).
Context (Hagg : forall k h l, Forall P l -> P (Agg k h l)).
Context (Hattr : forall h l w, Forall P l -> P w -> P (Attr h l w)).

Fixpoint wire_ind' (w : wire) : P w :=
  let all := fix go (l : list wire) : Forall P l :=
    match l with
    | [] => List.Forall_nil _
    | x :: l' => @List.Forall_cons _ _ x l' (wire_ind' x) (go l')
    end in
  match w with
  | Leaf s => Hleaf s
  | Agg k h l => Hagg k h l (all l)
  | Attr h l w' => Hattr h l w' (all l) (wire_ind' w')
  end.

End wire_ind.

(** ** Encoding *)

Definition encode_scalar (s : scalar) : bytes :=
  match s with
  | SLine k line => kind_to_prefix k :: line ++ crlf
  | SNull => kind_to_prefix kind.null :: crlf
  | SBool b => kind_to_prefix kind.boolean :: (if b then "t"%char else "f"%char) :: crlf
  | SBulk k h payload => kind_to_prefix k :: h ++ crlf ++ payload ++ crlf
  | STypedNull k h => kind_to_prefix k :: h ++ crlf
  end.

Definition encode_header (k : kind) (h : bytes) : bytes := kind_to_prefix k :: h ++ crlf.

Fixpoint encode (w : wire) : bytes :=
  match w with
  | Leaf s => encode_scalar s
  | Agg k h l => encode_header k h ++ concat (encode <$> l)
  | Attr h l w' => encode_header kind.attribute h ++ concat (encode <$> l) ++ encode w'
  end.

(** ** The values the parser accepts *)

(** A length header: no CR LF inside, within the line limit, and the number
    it spells. *)
Definition header_ok (lims : limits) (h : bytes) (n : Z) : bool :=
  bool_decide (find_crlf h = None) && (zlen h <=? max_resp_line_bytes lims) &&
  bool_decide (parse_i64 h = Some n).

Definition scalar_wf (lims : limits) (s : scalar) : bool :=
  match s with
  | SLine k line =>
    bool_decide (find_crlf line = None) && (zlen line <=? max_resp_line_bytes lims) &&
    match k with
    | kind.simple_string | kind.simple_error | kind.big_number => true
    | kind.integer => match parse_i64 line with Some _ => true | None => false end
    | kind.double_number => match parse_double line with Some _ => true | None => false end
    | _ => false
    end
  | SNull | SBool _ => true
  | SBulk k h payload =>
    header_ok lims h (zlen payload) && (zlen payload <=? max_resp_bulk_bytes lims) &&
    match k with
    | kind.bulk_string | kind.bulk_error => true
    | kind.verbatim_string => is_valid_verbatim_payload payload
    | _ => false
    end
  | STypedNull k h =>
    header_ok lims h (-1) && is_typed_null_kind k && (0 <=? max_resp_container_len lims)
  end.

(** How many values one unit of a container's length stands for. *)
Definition per_unit (k : kind) : Z :=
  match k with kind.map | kind.attribute => 2 | _ => 1 end.

Definition count_ok (lims : limits) (k : kind) (h : bytes) (n : Z) : bool :=
  let len := n / per_unit k in
  header_ok lims h len && (n mod per_unit k =? 0) && (len <=? max_resp_container_len lims) &&
  is_representable_length k len.

Fixpoint wf (lims : limits) (w : wire) : bool :=
  match w with
  | Leaf s => scalar_wf lims s
  | Agg k h l =>
    match k with kind.array | kind.set | kind.push | kind.map => true | _ => false end &&
    count_ok lims k h (zlen l) && forallb (wf lims) l
  | Attr h l w' =>
    count_ok lims kind.attribute h (zlen l) && forallb (wf lims) l && wf lims w'
  end.

(** ** What a value means *)

Definition scalar_value (s : scalar) : value_type bytes (message bytes) :=
  match s with
  | SLine kind.simple_string line => resp3.simple_string line
  | SLine kind.simple_error line => resp3.simple_error line
  | SLine kind.big_number line => resp3.big_number line
  | SLine kind.integer line => resp3.integer (default 0 (parse_i64 line))
  | SLine kind.double_number line =>
    resp3.double_number (default (S754_zero false) (parse_double line))
  | SLine k _ => resp3.null k
  | SNull => resp3.null kind.null
  | SBool b => resp3.boolean b
  | SBulk kind.bulk_error _ payload => resp3.bulk_error payload
  | SBulk kind.verbatim_string _ payload =>
    resp3.verbatim_string (take 3 payload) (drop 4 payload)
  | SBulk _ _ payload => resp3.bulk_string payload
  | STypedNull k _ => resp3.null k
  end.

Definition aggregate_value (k : kind) (ms : list (message bytes)) :
    value_type bytes (message bytes) :=
  match k with
  | kind.set => resp3.set ms
  | kind.push => resp3.push ms
  | kind.map => resp3.map (pairs ms)
  | _ => resp3.array ms
  end.

(** [denote a w]: the message of [w], with the attributes [a] that precede
    it. *)
Fixpoint denote (a : option (list (message bytes * message bytes))) (w : wire) : message bytes :=
  match w with
  | Leaf s => mk_message (scalar_value s) a
  | Agg k _ l => mk_message (aggregate_value k (denote None <$> l)) a
  | Attr _ l w' =>
    denote (match l with [] => a | _ => Some (pairs (denote None <$> l)) end) w'
  end.

(** ** The values whose tree is laid out contiguously

    A value that adds no links to the tree. *)
Definition flat (w : wire) : bool :=
  match w with
  | Leaf _ => true
  | Agg _ _ [] => true
  | _ => false
  end.

(** Only the first element of an array, and only the first entry of a map,
    may have nested values of its own; attributes have at most one entry and
    do not follow one another ([pending]: attributes precede the value). *)
Fixpoint tidy (pending : bool) (w : wire) : bool :=
  match w with
  | Leaf _ => true
  | Agg k _ l => forallb (tidy false) l && forallb flat (drop (Z.to_nat (per_unit k)) l)
  | Attr _ [] w' => tidy pending w'
  | Attr _ [k; v] w' => negb pending && tidy false k && tidy false v && tidy true w'
  | Attr _ _ _ => false
  end.

(** The depth of the reading. *)
Fixpoint wdepth (w : wire) : nat :=
  match w with
  | Leaf _ => 1
  | Agg _ _ l => S (foldr (fun x d => Nat.max (wdepth x) d) 0%nat l)
  | Attr _ l w' => (wdepth w' + foldr (fun x d => Nat.max (wdepth x) d) 0%nat l)%nat
  end.

Lemma length_encode_scalar s : (3 <= length (encode_scalar s))%nat.
Proof. destruct s; simpl; rewrite ?length_app; simpl; lia. Qed.

Lemma length_encode w : (3 <= length (encode w))%nat.
Proof.
  induction w as [s|k h l _|h l w _ IH] using wire_ind'; [apply length_encode_scalar| |]; simpl;
    rewrite !length_app; simpl; lia.
Qed.

Example wire_sample :
  encode (Attr (s2b "1") [Leaf (SLine kind.simple_string (s2b "ttl")); Leaf (SLine kind.integer (s2b "9"))]
            (Agg kind.array (s2b "2") [Leaf (SBulk kind.bulk_string (s2b "3") (s2b "abc")); Leaf SNull])) =
  s2b "|1" ++ crlf ++ s2b "+ttl" ++ crlf ++ s2b ":9" ++ crlf ++
  s2b "*2" ++ crlf ++ s2b "$3" ++ crlf ++ s2b "abc" ++ crlf ++ s2b "_" ++ crlf.
Proof. vm_compute. reflexivity. Qed.
