(* ===== verification/WireParse.v ===== *)
(** * The parser reads what the wire says

    On every well-formed value followed by any bytes, [parse_one] completes,
    consumes exactly the value, and (for values laid out contiguously) the
    tree it leaves reads as the message the value stands for. *)

From S2P Require Import Prelude Kind Errors Charconv Buffer Message Parser Builder ParserInv.
From S2P Require Import ParserSafety BuilderSpec ParserViews Wire.

(** ** Scalars *)

Lemma drop_1_cons_app {A} (c : A) l r : drop 1 ((c :: l) ++ r) = l ++ r.
Proof. reflexivity. Qed.

Lemma header_read lims k h n rest :
  header_ok lims h n = true ->
  parse_length_after_type lims (encode_header k h ++ rest) =
  Val (Some (mk_header n (length (encode_header k h)))).
Proof.
  unfold header_ok. intros H. bool_prop. unfold parse_length_after_type, encode_header.
  rewrite drop_1_cons_app, <- app_assoc, find_crlf_app by done.
  rewrite (proj2 (Z.ltb_ge _ _)) by (unfold zlen in *; lia).
  rewrite take_app_length, H0. do 3 f_equal. cbn [length]. rewrite length_app. simpl. lia.
Qed.

(** The view of a line is a view of the data. *)
Lemma line_view_eq b n pos :
  buffer_wf b -> n = length (drop 1 (data_bytes b)) -> (pos <= n)%nat ->
  substr (substr (data b) 1 n) 0 pos = substr (data b) 1 pos.
Proof.
  intros Hwf Hn Hle. rewrite length_drop, length_data_bytes in Hn by done.
  unfold substr, data. simpl. f_equal; lia.
Qed.

(** The node of a scalar at the front of the unread data. *)
Definition scalar_node (s : scalar) (b : buffer) : raw_node :=
  match s with
  | SLine k line =>
    let n := with_text (substr (data b) 1 (length line)) (node_of k) in
    match k with
    | kind.integer => with_i64 (default 0 (parse_i64 line)) n
    | kind.double_number => with_f64 (default (SpecFloat.S754_zero false) (parse_double line)) n
    | _ => n
    end
  | SNull => node_of kind.null
  | SBool v => with_boolean v (node_of kind.boolean)
  | SBulk k h payload =>
    with_i64 (zlen payload)
      (with_text (substr (data b) (length (encode_header k h)) (length payload)) (node_of k))
  | STypedNull k _ => with_i64 (-1) (node_of k)
  end.

Section scalars.

Context (p : parser) (rest : bytes) (Hwf : buffer_wf (buf_ p)).

Lemma parse_line_scalar k line :
  scalar_wf (limits_ p) (SLine k line) = true ->
  data_bytes (buf_ p) = encode_scalar (SLine k line) ++ rest ->
  parse_line k p =
  finish_scalar (length (encode_scalar (SLine k line))) (scalar_node (SLine k line) (buf_ p)) p.
Proof.
  intros Hok Hd. cbn [scalar_wf] in Hok. bool_prop. unfold parse_line.
  assert (drop 1 (data_bytes (buf_ p)) = line ++ crlf ++ rest) as Hdrop
    by (rewrite Hd; cbn [encode_scalar]; by rewrite drop_1_cons_app, <- app_assoc).
  rewrite Hdrop, find_crlf_app by done.
  rewrite (proj2 (Z.ltb_ge _ _)) by (unfold zlen in *; lia).
  rewrite take_app_length.
  replace (length (encode_scalar (SLine k line))) with (1 + length line + 2)%nat
    by (cbn [encode_scalar length]; rewrite length_app; simpl; lia).
  rewrite line_view_eq by (done || (by rewrite Hdrop) || (rewrite length_app; lia)).
  destruct k; try done; cbn [scalar_node].
  - by destruct (parse_i64 line).
  - by destruct (parse_double line).
Qed.

Lemma parse_bulk_scalar k h payload :
  scalar_wf (limits_ p) (SBulk k h payload) = true -> small p ->
  data_bytes (buf_ p) = encode_scalar (SBulk k h payload) ++ rest ->
  parse_bulk k p =
  finish_scalar (length (encode_scalar (SBulk k h payload)))
    (scalar_node (SBulk k h payload) (buf_ p)) p.
Proof.
  intros Hok Hsm Hd. cbn [scalar_wf] in Hok. bool_prop. unfold parse_bulk.
  assert (encode_scalar (SBulk k h payload) = encode_header k h ++ payload ++ crlf) as Henc
    by (cbn [encode_scalar encode_header app]; by rewrite <- app_assoc).
  assert (length (data_bytes (buf_ p)) <= length (buffer_ (buf_ p)))%nat as Hle
    by (rewrite length_data_bytes by done; destruct Hwf as (? & ? & ?); lia).
  rewrite Hd, Henc in Hle |- *. rewrite !length_app in Hle. rewrite <- !app_assoc.
  rewrite (header_read _ _ _ (zlen payload)) by done. cbn [lh_length lh_bytes].
  unfold small, zlen, u32_max in *. change (length crlf) with 2%nat in *.
  rewrite (proj2 (Z.ltb_ge _ _)) by lia. unfold exceeds_i64_limit.
  rewrite (proj2 (Z.ltb_ge _ 0)) by lia. rewrite (proj2 (Z.ltb_ge _ _)) by lia.
  rewrite (proj2 (Z.eqb_neq _ _)) by lia.
  rewrite bulk_need_exact by (unfold u64_max; lia).
  rewrite (proj2 (Z.ltb_ge size_max _)) by (unfold size_max, u64_max; lia).
  rewrite (proj2 (Z.ltb_ge _ _)) by (rewrite !length_app; change (length crlf) with 2%nat; lia).
  rewrite Nat2Z.id.
  assert (slice (length (encode_header k h) + length payload) 2
    (encode_header k h ++ payload ++ crlf ++ rest) = crlf) as ->.
  { unfold slice. rewrite <- drop_drop, drop_app_length, drop_app_length. done. }
  assert (slice (length (encode_header k h)) (length payload)
    (encode_header k h ++ payload ++ crlf ++ rest) = payload) as ->.
  { unfold slice. rewrite drop_app_length. apply take_app_length. }
  cbn [negb bool_decide]. rewrite !length_app. change (length crlf) with 2%nat.
  replace (Z.to_nat (Z.of_nat (length (encode_header k h)) + Z.of_nat (length payload) + 2))
    with (length (encode_header k h) + (length payload + 2))%nat by lia.
  destruct k; try done; simpl. rewrite H0. done.
Qed.

Lemma parse_null_scalar :
  data_bytes (buf_ p) = encode_scalar SNull ++ rest ->
  parse_null p = finish_scalar (length (encode_scalar SNull)) (scalar_node SNull (buf_ p)) p.
Proof. intros Hd. unfold parse_null. rewrite Hd. done. Qed.

Lemma parse_boolean_scalar v :
  data_bytes (buf_ p) = encode_scalar (SBool v) ++ rest ->
  parse_boolean p =
  finish_scalar (length (encode_scalar (SBool v))) (scalar_node (SBool v) (buf_ p)) p.
Proof. intros Hd. unfold parse_boolean. rewrite Hd. by destruct v. Qed.

Lemma parse_typed_null_bulk k h :
  header_ok (limits_ p) h (-1) = true ->
  data_bytes (buf_ p) = encode_header k h ++ rest ->
  parse_bulk k p =
  finish_scalar (length (encode_header k h)) (with_i64 (-1) (node_of k)) p.
Proof.
  intros Hok Hd. unfold parse_bulk. rewrite Hd, (header_read _ _ _ (-1)) by done. done.
Qed.

Lemma parse_typed_null_container k h :
  header_ok (limits_ p) h (-1) = true -> 0 <= max_resp_container_len (limits_ p) ->
  data_bytes (buf_ p) = encode_header k h ++ rest ->
  parse_container k p =
  finish_scalar (length (encode_header k h)) (with_i64 (-1) (node_of k)) p.
Proof.
  intros Hok Hmax Hd. unfold parse_container. rewrite Hd, (header_read _ _ _ (-1)) by done.
  cbn [lh_bytes lh_length]. unfold finish_scalar.
  destruct (parser_consume _ p) as [p1|] eqn:Ec; [|done]. cbn [mbind run_bind].
  unfold start_container.
  assert (limits_ p1 = limits_ p) as ->.
  { unfold parser_consume in Ec. by apply run_bind_Ret in Ec as (? & _ & [= <-]). }
  change (-1 <? -1) with false. change (-1 =? -1) with true. cbv iota.
  rewrite (proj2 (Z.ltb_ge (max_resp_container_len (limits_ p)) (-1))) by lia. cbv iota.
  by destruct (push_node _ p1) as [[p2 idx]|].
Qed.

Lemma parse_value_scalar s vf stk :
  stack_ p = vf :: stk -> state vf = frame_kind.value ->
  scalar_wf (limits_ p) s = true -> small p ->
  data_bytes (buf_ p) = encode_scalar s ++ rest ->
  parse_value p = finish_scalar (length (encode_scalar s)) (scalar_node s (buf_ p)) p.
Proof.
  intros Hstk Hvf Hok Hsm Hd. unfold parse_value. rewrite Hstk, bool_decide_true by done.
  cbn [assert mbind run_bind].
  assert (exists k d, data_bytes (buf_ p) = kind_to_prefix k :: d /\
    k = match s with SLine k _ | SBulk k _ _ | STypedNull k _ => k | SNull => kind.null
        | SBool _ => kind.boolean end) as (k & d & Hd' & Hk)
    by (rewrite Hd; destruct s; eexists _, _; split; reflexivity).
  rewrite Hd', prefix_to_kind_to_prefix. destruct s as [k' line| |v|k' h payload|k' h]; subst k.
  - pose proof Hok as Hok'. cbn [scalar_wf] in Hok'. bool_prop.
    destruct k'; try done; by apply parse_line_scalar.
  - by apply parse_null_scalar.
  - by apply parse_boolean_scalar.
  - pose proof Hok as Hok'. cbn [scalar_wf] in Hok'. bool_prop.
    destruct k'; try done; by apply parse_bulk_scalar.
  - cbn [scalar_wf] in Hok. bool_prop.
    destruct k'; try done; first [by apply parse_typed_null_bulk | by apply parse_typed_null_container].
Qed.

End scalars.

(** ** Reading above a bound

    [read_from] is [read] confined to the nodes from [lo] on and to windows
    inside the links, so that it is stable when the tree grows. *)

Definition win_in (first count : Z) (lk : list Z) : bool :=
  (count =? 0) || ((0 <=? first) && (0 <=? count) && (first + count <=? zlen lk)).

Fixpoint read_from (mem : string_view -> option bytes) (t : raw_tree) (lo : Z) (fuel : nat)
    (idx : Z) : run vmessage :=
  match fuel with
  | O => Fault out_of_fuel
  | S fuel' =>
    _ ← assert (lo <=? idx);
    n ← node_at t idx;
    _ ← assert (win_in (first_child n) (child_count n) (links t));
    _ ← assert (win_in (first_attr n) (attr_count n) (links t));
    base ← init_result mem n;
    cs ← mapM (read_from mem t lo fuel') (window (first_child n) (child_count n) (links t));
    ats ← mapM (read_from mem t lo fuel') (window (first_attr n) (attr_count n) (links t));
    Ret (mk_message (assemble (value base) cs)
           (if 0 <? attr_count n then Some (pairs ats) else None))
  end.

Lemma mapM_Ret_impl {A B} (f g : A -> run B) l k :
  mapM f l = Ret k -> (forall x y, f x = Ret y -> g x = Ret y) -> mapM g l = Ret k.
Proof.
  intros H Hfg. revert k H. induction l as [|x l IH]; intros k H; [done|]. simpl in *.
  apply run_bind_Ret in H as (y & Hy & H). apply run_bind_Ret in H as (k' & Hk & [= <-]).
  rewrite (Hfg _ _ Hy). simpl. rewrite (IH _ Hk). done.
Qed.

Lemma read_from_read mem t lo fuel idx m :
  read_from mem t lo fuel idx = Ret m -> read mem t fuel idx = Ret m.
Proof.
  revert idx m. induction fuel as [|fuel IH]; intros idx m H; [done|].
  cbn [read_from read] in *. run_inv. rewrite H0. cbn [mbind run_bind]. rewrite H3. cbn [mbind run_bind].
  rewrite (mapM_Ret_impl _ _ _ _ H4 IH). cbn [mbind run_bind].
  rewrite (mapM_Ret_impl _ _ _ _ H5 IH). done.
Qed.

(** [t'] has the nodes of [t] from [lo] on, and all its links. *)
Definition agree (lo : Z) (t t' : raw_tree) : Prop :=
  (forall i n, lo <= i -> node_at t i = Ret n -> node_at t' i = Ret n) /\
  exists lk, links t' = links t ++ lk.

Lemma agree_trans lo t1 t2 t3 : agree lo t1 t2 -> agree lo t2 t3 -> agree lo t1 t3.
Proof.
  intros [H1 [l1 E1]] [H2 [l2 E2]]. split; [auto|]. exists (l1 ++ l2).
  by rewrite E2, E1, app_assoc.
Qed.

Lemma agree_mono lo lo' t t' : agree lo t t' -> lo <= lo' -> agree lo' t t'.
Proof. intros [H1 H2] Hle. split; [|done]. intros. apply H1; [lia|done]. Qed.

Lemma window_app first count lk lk' :
  win_in first count lk = true -> window first count (lk ++ lk') = window first count lk.
Proof.
  unfold win_in, window, slice. intros H. apply orb_true_iff in H as [H|H]; bool_prop.
  - subst count. by rewrite !take_0.
  - unfold zlen in *. rewrite drop_app_le by lia. rewrite take_app_le; [done|].
    rewrite length_drop. lia.
Qed.

Lemma win_in_app first count lk lk' :
  win_in first count lk = true -> win_in first count (lk ++ lk') = true.
Proof.
  unfold win_in. intros H. apply orb_true_iff in H as [H|H]; [by rewrite H|]. bool_prop.
  apply orb_true_iff. right. rewrite zlen_app. pose proof (zlen_nonneg lk').
  rewrite !andb_true_iff, !Z.leb_le. lia.
Qed.

Lemma read_from_agree mem t t' lo fuel idx m :
  agree lo t t' -> read_from mem t lo fuel idx = Ret m -> read_from mem t' lo fuel idx = Ret m.
Proof.
  intros [Hn [lk Hlk]]. revert idx m. induction fuel as [|fuel IH]; intros idx m H; [done|].
  cbn [read_from] in *. run_inv. bool_prop.
  rewrite (proj2 (Z.leb_le _ _)) by done. cbn [assert mbind run_bind].
  rewrite (Hn _ _ H H0). cbn [mbind run_bind].
  rewrite Hlk, !win_in_app, !window_app by done. cbn [assert mbind run_bind].
  rewrite H3. cbn [mbind run_bind].
  rewrite (mapM_Ret_impl _ _ _ _ H4 IH). cbn [mbind run_bind].
  rewrite (mapM_Ret_impl _ _ _ _ H5 IH). done.
Qed.

Lemma read_from_lower mem t lo lo' fuel idx m :
  lo' <= lo -> read_from mem t lo fuel idx = Ret m -> read_from mem t lo' fuel idx = Ret m.
Proof.
  intros Hle. revert idx m. induction fuel as [|fuel IH]; intros idx m H; [done|].
  cbn [read_from] in *. run_inv. bool_prop.
  rewrite (proj2 (Z.leb_le _ _)) by lia. cbn [assert mbind run_bind].
  rewrite H0. cbn [mbind run_bind]. rewrite H1, H2. cbn [assert mbind run_bind].
  rewrite H3. cbn [mbind run_bind].
  rewrite (mapM_Ret_impl _ _ _ _ H4 IH). cbn [mbind run_bind].
  rewrite (mapM_Ret_impl _ _ _ _ H5 IH). done.
Qed.

(** ** Resolving a message piecewise *)

Definition resolve_attrs (mem : string_view -> option bytes)
    (a : option (list (vmessage * vmessage))) : option (option (list (message bytes * message bytes))) :=
  match a with
  | Some l =>
    Some <$> mapM (fun kv : vmessage * vmessage => k ← resolve mem kv.1; w ← resolve mem kv.2; Some (k, w)) l
  | None => Some None
  end.

Lemma resolve_split (mem : string_view -> option bytes) v v' a a' :
  resolve mem (message_of v) = Some (message_of v') -> resolve_attrs mem a = Some a' ->
  resolve mem (mk_message v a) = Some (mk_message v' a').
Proof.
  unfold message_of. cbn [resolve]. intros Hv Ha.
  apply bind_Some in Hv as (v2 & Hv & Hv'). simpl in Hv'. injection Hv' as ->.
  rewrite Hv. simpl. unfold resolve_attrs in Ha. by rewrite Ha.
Qed.

Lemma resolve_pairs (mem : string_view -> option bytes) ms ms' :
  mapM (resolve mem) ms = Some ms' ->
  mapM (fun kv : vmessage * vmessage => k ← resolve mem kv.1; w ← resolve mem kv.2; Some (k, w)) (pairs ms) =
  Some (pairs ms').
Proof.
  revert ms'. induction ms as [|k|k x ms IH] using pairs_ind; intros ms' H; simpl in H.
  - by injection H as <-.
  - apply bind_Some in H as (k' & Hk & [= <-]). done.
  - apply bind_Some in H as (k' & Hk & H). apply bind_Some in H as (l & Hl & [= <-]).
    apply bind_Some in Hl as (x' & Hx & H). apply bind_Some in H as (l' & Hl & [= <-]).
    simpl. rewrite Hk, Hx. simpl. rewrite (IH _ Hl). done.
Qed.

Lemma resolve_container (mem : string_view -> option bytes) k ms ms' :
  match k with kind.array | kind.set | kind.push | kind.map => true | _ => false end = true ->
  mapM (resolve mem) ms = Some ms' ->
  resolve mem (message_of (assemble (empty_container k) ms)) =
  Some (message_of (aggregate_value k ms')).
Proof.
  intros Hk Hms. destruct k; try done; unfold message_of; cbn [resolve assemble empty_container aggregate_value];
    rewrite ?Hms; try done.
  by rewrite (resolve_pairs _ _ _ Hms).
Qed.

(** ** Nodes that read as a value *)

Section reads.

Context (mem : string_view -> option bytes).

(** Node [idx] of [t] reads as [w] with the attributes [a]; [d] is the depth
    of the attributes. *)
Definition reads_as (t : raw_tree) (lo idx : Z) (d : nat)
    (a : option (list (message bytes * message bytes))) (w : wire) : Prop :=
  exists m, (forall fuel, (wdepth w + d <= fuel)%nat -> read_from mem t lo fuel idx = Ret m) /\
    resolve mem m = Some (denote a w).

Definition list_depth (ws : list wire) : nat := foldr (fun x d => Nat.max (wdepth x) d) 0%nat ws.

Definition all_read (t : raw_tree) (lo : Z) (idxs : list Z) (ws : list wire) : Prop :=
  Forall2 (fun i w => reads_as t lo i 0 None w) idxs ws.

Lemma all_read_mapM t lo idxs ws :
  all_read t lo idxs ws ->
  exists ms, (forall fuel, (list_depth ws <= fuel)%nat -> mapM (read_from mem t lo fuel) idxs = Ret ms) /\
    mapM (resolve mem) ms = Some (denote None <$> ws).
Proof.
  induction 1 as [|i w idxs ws (m & Hm & Hr) _ (ms & Hms & Hrs)]; [by exists []|].
  exists (m :: ms). split.
  - intros fuel Hf. cbn [list_depth foldr] in Hf. fold (list_depth ws) in Hf.
    simpl. rewrite Hm by lia. simpl. rewrite Hms by lia. done.
  - simpl. rewrite Hr. simpl. rewrite Hrs. done.
Qed.

Lemma reads_as_agree t t' lo idx d a w :
  agree lo t t' -> reads_as t lo idx d a w -> reads_as t' lo idx d a w.
Proof.
  intros Hag (m & Hm & Hr). exists m. split; [|done]. intros. eapply read_from_agree; eauto.
Qed.

Lemma reads_as_lower t lo lo' idx d a w :
  lo' <= lo -> reads_as t lo idx d a w -> reads_as t lo' idx d a w.
Proof.
  intros Hle (m & Hm & Hr). exists m. split; [|done]. intros. eapply read_from_lower; eauto.
Qed.

Lemma all_read_agree t t' lo idxs ws : agree lo t t' -> all_read t lo idxs ws -> all_read t' lo idxs ws.
Proof. intros Hag H. eapply Forall2_impl; [exact H|]. intros. by eapply reads_as_agree. Qed.

Lemma all_read_lower t lo lo' idxs ws : lo' <= lo -> all_read t lo idxs ws -> all_read t lo' idxs ws.
Proof. intros Hle H. eapply Forall2_impl; [exact H|]. intros. by eapply reads_as_lower. Qed.

(** The pending attributes [pa], and the attributes [a] they stand for. *)
Definition pending_as (t : raw_tree) (lo : Z) (d : nat) (pending : bool) (pa : pending_attributes)
    (a : option (list (message bytes * message bytes))) : Prop :=
  if pending then
    0 < pa_count pa /\ pa_count pa mod 2 = 0 /\ win_in (pa_first pa) (pa_count pa) (links t) = true /\
    exists ats, all_read t lo (window (pa_first pa) (pa_count pa) (links t)) ats /\
      (list_depth ats <= d)%nat /\ a = Some (pairs (denote None <$> ats))
  else pa_count pa = 0 /\ a = None.

Lemma init_result_node t lo d pending pa a nd base first count :
  init_value mem nd = Ret base -> pending_as t lo d pending pa a -> attr_count nd = 0 ->
  (node_type nd = kind.map -> count mod 2 = 0) ->
  init_result mem (with_children first count (attach_pending pa nd)) = Ret base.
Proof.
  intros Hv Hpend Hac Hmap. unfold init_result.
  assert (init_value mem (with_children first count (attach_pending pa nd)) = Ret base) as ->
    by (rewrite <- Hv; unfold attach_pending; by destruct (_ =? _)).
  assert (attr_count (with_children first count (attach_pending pa nd)) mod 2 = 0) as Hev.
  { unfold attach_pending. destruct pending; cbn [pending_as] in Hpend.
    - destruct Hpend as (Hpos & Hev & _). by rewrite (proj2 (Z.eqb_neq _ _)) by lia.
    - destruct Hpend as [-> _]. simpl. by rewrite Hac. }
  assert (node_type (with_children first count (attach_pending pa nd)) = node_type nd) as Hty
    by (unfold attach_pending; by destruct (_ =? _)).
  cbn [mbind run_bind]. rewrite Hev, Hty.
  destruct (0 <? _); cbn [Z.eqb assert mbind run_bind];
    (case_bool_decide as Hm; [|done]; cbn [child_count with_children]; rewrite (Hmap Hm); done).
Qed.

(** The reading of a node from the readings of its windows. *)
Lemma reads_as_node t lo idx d pending pa a nd ws v w first count :
  node_at t idx = Ret (with_children first count (attach_pending pa nd)) ->
  lo <= idx -> pending_as t lo d pending pa a -> attr_count nd = 0 ->
  init_value mem nd = Ret (message_of v) -> (node_type nd = kind.map -> count mod 2 = 0) ->
  win_in first count (links t) = true ->
  all_read t lo (window first count (links t)) ws ->
  wdepth w = S (list_depth ws) ->
  (forall ms, mapM (resolve mem) ms = Some (denote None <$> ws) ->
     exists v', resolve mem (message_of (assemble v ms)) = Some (message_of v') /\
       forall a', denote a' w = mk_message v' a') ->
  reads_as t lo idx d a w.
Proof.
  intros Hn Hlo Hpend Hac Hiv Hmap Hwin Hall Hdepth Hres.
  pose proof (init_result_node _ _ _ _ _ _ _ _ first count Hiv Hpend Hac Hmap) as Hinit.
  destruct (all_read_mapM _ _ _ _ Hall) as (cs & Hcs & Hcr).
  destruct (Hres cs Hcr) as (v' & Hv' & Hden).
  set (n := with_children first count (attach_pending pa nd)) in *.
  assert (exists ats a0, win_in (first_attr n) (attr_count n) (links t) = true /\
    (forall fuel, (d <= fuel)%nat ->
       mapM (read_from mem t lo fuel) (window (first_attr n) (attr_count n) (links t)) = Ret ats) /\
    (if 0 <? attr_count n then Some (pairs ats) else None) = a0 /\ resolve_attrs mem a0 = Some a)
    as (ats & a0 & Hwa & Hats & <- & Ha0).
  { unfold n, attach_pending. destruct pending; cbn [pending_as] in Hpend.
    - destruct Hpend as (Hpos & Hev & Hw & as_ & Hall' & Hd & ->).
      rewrite (proj2 (Z.eqb_neq _ _)) by lia. simpl.
      destruct (all_read_mapM _ _ _ _ Hall') as (ats & Hats & Har).
      eexists ats, _. split; [done|]. split; [intros; apply Hats; lia|]. split; [done|].
      rewrite (proj2 (Z.ltb_lt _ _)) by lia. simpl. by rewrite (resolve_pairs _ _ _ Har).
    - destruct Hpend as [-> ->]. simpl. rewrite Hac. by exists [], None. }
  eexists. split.
  - intros [|fuel] Hf; [lia|]. cbn [read_from]. rewrite (proj2 (Z.leb_le _ _)) by done.
    cbn [assert mbind run_bind]. rewrite Hn. cbn [mbind run_bind].
    assert (win_in (first_child n) (child_count n) (links t) = true) as -> by done. rewrite Hwa.
    cbn [assert mbind run_bind]. rewrite Hinit. cbn [mbind run_bind].
    change (window (first_child n) (child_count n) (links t)) with (window first count (links t)).
    rewrite Hcs by lia. cbn [mbind run_bind]. rewrite Hats by lia. cbn [mbind run_bind]. done.
  - rewrite Hden. by apply resolve_split.
Qed.

End reads.

(** ** Steps of the parser on a value *)

Definition advance (n : nat) (b : buffer) : buffer :=
  mk_buffer (buffer_ b) (storage_id b) (read_pos_ b + n) (write_pos_ b).

Lemma advance_advance n m b : advance m (advance n b) = advance (n + m) b.
Proof. unfold advance. simpl. f_equal. lia. Qed.

Lemma data_advance b l rest :
  buffer_wf b -> data_bytes b = l ++ rest -> data_bytes (advance (length l) b) = rest.
Proof.
  intros Hwf Hd. unfold advance. rewrite consumed_data_bytes, Hd; [apply drop_app_length|done|].
  rewrite Hd, length_app. lia.
Qed.

Lemma advance_wf b l rest :
  buffer_wf b -> data_bytes b = l ++ rest -> buffer_wf (advance (length l) b).
Proof. intros Hwf Hd. apply consumed_wf; [done|]. rewrite Hd, length_app. lia. Qed.

(** The end of a turn in which the value [idx] was completed; the stack is
    that of its parents. *)
Definition attach_step (p : parser) (idx : Z) :
    run (parser + parser * expected (option Z) protocol_errc) :=
  '(p2, done_) ← parser_attach p idx;
  match done_ with
  | Unexpected e => Ret (inr (set_failed true p2, Unexpected e))
  | Val (produced root) => Ret (inr (set_ready true p2, Val (Some root)))
  | Val continue_parsing => Ret (inl p2)
  end.

(** The parser [p] after [n] more bytes, with another tree, stack and pending
    attributes. *)
Definition landed (p : parser) (n : nat) (t : raw_tree) (s : list frame) (pa : pending_attributes) :
    parser :=
  mk_parser (advance n (buf_ p)) t s (failed_ p) (tree_ready_ p) pa (limits_ p).

(** The tree grows by at most [n] nodes and by fewer links; by no links when
    [fl]. *)
Definition grows (t t' : raw_tree) (n : Z) (fl : bool) : Prop :=
  exists new lk, nodes t' = nodes t ++ new /\ links t' = links t ++ lk /\
    zlen new <= n /\ zlen lk + 1 <= n /\ (fl = true -> lk = []).

Definition room (t : raw_tree) (n : Z) : Prop :=
  zlen (nodes t) + n <= u32_max /\ zlen (links t) + n <= u32_max.

(** What is known when the parser is about to read the value [w]. *)
Record facing (p : parser) (w : bytes) (rest : bytes) : Prop := {
  fc_small : small p;
  fc_buffer : buffer_wf (buf_ p);
  fc_data : data_bytes (buf_ p) = w ++ rest;
  fc_room : room (tree_ p) (zlen w);
}.

(** The value is read and completed, as node [idx] of [t']. *)
Definition value_claim (w : wire) : Prop :=
  forall p vf s rest,
    stack_ p = vf :: s -> state vf = frame_kind.value -> wf (limits_ p) w = true ->
    facing p (encode w) rest ->
    exists q t' pa' idx,
      iter_n parse_step q p = attach_step (landed p (length (encode w)) t' s pa') idx /\
      pa_count pa' = 0 /\ grows (tree_ p) t' (zlen (encode w)) (flat w) /\
      zlen (nodes (tree_ p)) <= idx < zlen (nodes t') /\
      forall lo d pending a,
        tidy pending w = true -> lo <= zlen (nodes (tree_ p)) ->
        pending_as (view_bytes (buf_ p)) (tree_ p) lo d pending (pending_attrs_ p) a ->
        reads_as (view_bytes (buf_ p)) t' lo idx d a w.

Lemma with_children_id n : with_children (first_child n) (child_count n) n = n.
Proof. by destruct n. Qed.

Lemma attach_pending_children pa n :
  with_children (first_child n) (child_count n) (attach_pending pa n) = attach_pending pa n.
Proof. unfold attach_pending. destruct (_ =? _); [apply with_children_id|done]. Qed.

Lemma agree_grows lo t t' n fl : grows t t' n fl -> agree lo t t'.
Proof.
  intros (new & lk & Hn & Hl & _). split; [|by eexists].
  intros i nd _ Hnd. unfold node_at in *. rewrite Hn. apply or_fault_Ret in Hnd.
  apply or_fault_Ret. by apply lookup_app_l_Some.
Qed.

Lemma node_at_last ns lk n : node_at (mk_tree (ns ++ [n]) lk) (zlen ns) = Ret n.
Proof.
  unfold node_at. simpl. rewrite zlen_to_nat, lookup_app_r, Nat.sub_diag by lia. done.
Qed.

Lemma iter_n_1 {S R} (step : S -> run (S + R)) s : iter_n step 1 s = step s.
Proof. simpl. by destruct (step s) as [[]|]. Qed.

(** A value without nested values. *)
Lemma leaf_claim p vf s w rest nd v :
  stack_ p = vf :: s -> state vf = frame_kind.value -> facing p (encode w) rest ->
  parse_value p = finish_scalar (length (encode w)) nd p ->
  child_count nd = 0 -> attr_count nd = 0 -> wdepth w = 1%nat ->
  init_value (view_bytes (buf_ p)) nd = Ret (message_of v) -> assemble v [] = v ->
  (exists v', resolve (view_bytes (buf_ p)) (message_of v) = Some (message_of v') /\
     forall a, denote a w = mk_message v' a) ->
  exists q t' pa' idx,
    iter_n parse_step q p = attach_step (landed p (length (encode w)) t' s pa') idx /\
    pa_count pa' = 0 /\ grows (tree_ p) t' (zlen (encode w)) true /\
    zlen (nodes (tree_ p)) <= idx < zlen (nodes t') /\
    forall lo d pending a,
      lo <= zlen (nodes (tree_ p)) ->
      pending_as (view_bytes (buf_ p)) (tree_ p) lo d pending (pending_attrs_ p) a ->
      reads_as (view_bytes (buf_ p)) t' lo idx d a w.
Proof.
  intros Hstk Hvf [Hsm Hwf Hd [Hroom _]] Hpv Hcc Hac Hdep Hiv Hasm Hres.
  pose proof (length_encode w) as Hlen. pose proof (zlen_nonneg (nodes (tree_ p))).
  assert (length (encode w) <= length (data_bytes (buf_ p)))%nat as Hle
    by (rewrite Hd, length_app; lia).
  unfold finish_scalar in Hpv. rewrite parser_consume_spec in Hpv by done.
  cbn [mbind run_bind] in Hpv. fold (advance (length (encode w)) (buf_ p)) in Hpv.
  destruct (push_node_spec (set_buf (advance (length (encode w)) (buf_ p)) p) nd)
    as (pa & Hpa0 & _ & Hpn); [simpl; unfold zlen in *; lia|].
  rewrite Hpn in Hpv. cbn [mbind run_bind] in Hpv. simpl in Hpv.
  exists 1%nat, (mk_tree (nodes (tree_ p) ++ [attach_pending (pending_attrs_ p) nd])
    (links (tree_ p))), pa, (zlen (nodes (tree_ p))). split; [|split; [done|]].
  - rewrite iter_n_1. unfold parse_step. rewrite Hstk, Hvf, Hpv. cbn [mbind run_bind].
    cbn [stack_ set_stack set_pending set_tree set_buf]. rewrite Hstk. reflexivity.
  - split.
    { eexists [_], []. split; [reflexivity|]. split; [by rewrite app_nil_r|].
      split; [unfold zlen; simpl; lia|]. split; [unfold zlen in *; simpl; lia|done]. }
    cbn [nodes]. split; [rewrite zlen_app, zlen_cons, zlen_nil; lia|]. intros lo d pending a Hlo Hpend.
    eapply (reads_as_node _ _ _ _ _ pending (pending_attrs_ p) a nd [] v _
      (first_child nd) (child_count nd)).
    + rewrite attach_pending_children. apply node_at_last.
    + done.
    + destruct pending; [|done]. cbn [pending_as links] in *. 
      destruct Hpend as (? & ? & ? & ats & Hall & ? & ?). do 3 (split; [done|]).
      exists ats. split; [|done]. eapply all_read_agree; [|exact Hall].
      eapply (agree_grows _ _ _ 2 true). eexists [_], []. split; [reflexivity|].
      split; [by rewrite app_nil_r|]. done.
    + done.
    + done.
    + intros _. by rewrite Hcc.
    + unfold win_in. by rewrite Hcc.
    + rewrite Hcc. unfold window, slice. rewrite take_0. constructor.
    + done.
    + intros ms Hms. apply mapM_Some, Forall2_nil_inv_r in Hms as ->.
      by rewrite Hasm.
Qed.

(** The node of a scalar gives the value of the scalar. *)
Lemma scalar_init b s rest lims :
  scalar_wf lims s = true -> buffer_wf b -> data_bytes b = encode_scalar s ++ rest ->
  exists v, init_value (view_bytes b) (scalar_node s b) = Ret (message_of v) /\ assemble v [] = v /\
    resolve (view_bytes b) (message_of v) = Some (message_of (scalar_value s)).
Proof.
  intros Hok Hwf Hd. destruct s as [k line| |v|k h payload|k h]; cbn [scalar_wf] in Hok; bool_prop.
  - assert (view_bytes b (substr (data b) 1 (length line)) = Some line) as Hv.
    { rewrite view_of_data, Hd; [|done|rewrite Hd, length_app; cbn [encode_scalar length]; rewrite length_app; lia].
      unfold slice. cbn [encode_scalar]. rewrite drop_1_cons_app, <- app_assoc.
      by rewrite take_app_length. }
    destruct k; try done; unfold init_value, scalar_node; cbn [node_type with_text with_i64 with_f64 node_of i64 is_typed_null_kind];
      rewrite ?andb_false_r; eexists; (split; [reflexivity|]; split; [done|]);
      unfold message_of; cbn [resolve text with_text with_i64 with_f64 f64 i64]; rewrite ?Hv; done.
  - by eexists.
  - by eexists.
  - assert (encode_scalar (SBulk k h payload) = encode_header k h ++ payload ++ crlf) as Henc
      by (cbn [encode_scalar encode_header app]; by rewrite <- app_assoc).
    set (off := length (encode_header k h)).
    assert (view_bytes b (substr (data b) off (length payload)) = Some payload) as Hv.
    { rewrite view_of_data, Hd, Henc; [|done|rewrite Hd, Henc, !length_app; subst off; lia].
      unfold slice, off. rewrite <- !app_assoc, drop_app_length. by rewrite take_app_length. }
    unfold init_value, scalar_node; cbn [node_type with_text with_i64 node_of i64]. fold off.
    assert ((zlen payload =? -1) = false) as -> by (unfold zlen; apply Z.eqb_neq; lia).
    destruct k; try done; cbn [andb];
      try (eexists; split; [reflexivity|]; split; [done|]; unfold message_of;
           cbn [resolve text with_text with_i64]; rewrite ?Hv; done).
    unfold decode_verbatim. cbn [text with_text with_i64]. rewrite Hv. cbn [or_fault mbind run_bind].
    rewrite H0. cbn [assert mbind run_bind fmap run_fmap].
    eexists. split; [reflexivity|]. split; [done|]. unfold message_of. cbn [resolve scalar_value].
    rewrite !(view_bytes_substr_Some _ _ _ _ _ Hv). simpl. do 3 f_equal.
    rewrite take_ge; [done|]. rewrite length_drop.
    pose proof (view_bytes_length _ _ _ Hv) as Hl. simpl in Hl. lia.
  - unfold init_value, scalar_node. cbn [node_type with_i64 node_of i64].
    destruct k; try done; by eexists.
Qed.

Lemma value_claim_leaf s : value_claim (Leaf s).
Proof.
  intros p vf stk rest Hstk Hvf Hok Hf. pose proof Hf as [Hsm Hwf Hd _].
  destruct (scalar_init (buf_ p) s rest (limits_ p) Hok Hwf Hd) as (v & Hiv & Hasm & Hres).
  destruct (leaf_claim p vf stk (Leaf s) rest (scalar_node s (buf_ p)) v) as
    (q & t' & pa' & idx & Hrun & Hpa & Hgr & Hidx & Hread); try done.
  - by eapply parse_value_scalar.
  - destruct s as [[]| | | |]; done.
  - destruct s as [[]| | | |]; done.
  - by exists (scalar_value s).
  - exists q, t', pa', idx. do 4 (split; [done|]). intros. by eapply Hread.
Qed.

(** ** Elements of a sequence *)

Lemma window_extend first c lk idxs :
  0 <= first -> 0 <= c -> first + c = zlen lk ->
  window first (c + zlen idxs) (lk ++ idxs) = window first c lk ++ idxs.
Proof.
  intros Hf Hc Hlen. unfold window, slice, zlen in *.
  rewrite drop_app_le by lia. rewrite take_ge.
  - rewrite (take_ge (drop _ lk)); [done|]. rewrite length_drop. lia.
  - rewrite length_app, length_drop. lia.
Qed.

Lemma win_in_end first c lk : 0 <= first -> 0 <= c -> first + c <= zlen lk -> win_in first c lk = true.
Proof.
  intros. unfold win_in. apply orb_true_iff. right. rewrite !andb_true_iff, !Z.leb_le. lia.
Qed.

Lemma landed_landed p n m t1 s1 pa1 t2 s2 pa2 :
  landed (landed p n t1 s1 pa1) m t2 s2 pa2 = landed p (n + m) t2 s2 pa2.
Proof. unfold landed. cbn [buf_ failed_ tree_ready_ limits_]. by rewrite advance_advance. Qed.

(** The window of a container after more children: it opens at the end of
    the links when it was empty, and stays contiguous when the children added
    no links of their own. *)
Lemma window_grow mem t t2 lo first c lk1 idxs done_ ws :
  links t2 = links t ++ lk1 ++ idxs -> agree lo t t2 -> 0 <= c ->
  (c = 0 \/ (0 <= first /\ first + c = zlen (links t) /\ lk1 = [])) ->
  all_read mem t lo (window first c (links t)) done_ -> all_read mem t2 lo idxs ws ->
  let first1 := if c =? 0 then zlen (links t) + zlen lk1 else first in
  0 <= first1 /\ first1 + (c + zlen idxs) = zlen (links t2) /\
  all_read mem t2 lo (window first1 (c + zlen idxs) (links t2)) (done_ ++ ws).
Proof.
  intros Hl2 Hag Hc Hpos Hdone Hws first1.
  assert (0 <= first1 /\ first1 + (c + zlen idxs) = zlen (links t2) /\
    window first1 (c + zlen idxs) (links t2) = window first c (links t) ++ idxs) as (H0 & Hend & Hwin).
  { pose proof (zlen_nonneg (links t)). pose proof (zlen_nonneg lk1).
    rewrite Hl2, !zlen_app. subst first1. destruct (c =? 0) eqn:Ec; bool_prop.
    - subst c. split; [lia|]. split; [lia|]. rewrite app_assoc, window_extend
        by (rewrite ?zlen_app; lia). unfold window, slice. by rewrite !take_0.
    - destruct Hpos as [|(Hf & Hend & ->)]; [lia|]. split; [done|].
      split; [rewrite zlen_nil; lia|]. cbn [app]. by rewrite window_extend by lia. }
  split; [done|]. split; [done|]. rewrite Hwin. apply Forall2_app; [|done].
  by eapply all_read_agree.
Qed.

(** The container node at index [zlen pre]. *)
Lemma node_at_mid t pre n sub : nodes t = pre ++ n :: sub -> node_at t (zlen pre) = Ret n.
Proof.
  intros H. unfold node_at. rewrite H, zlen_to_nat, lookup_app_r, Nat.sub_diag by lia. done.
Qed.

Lemma set_node_mid t pre n n' sub :
  nodes t = pre ++ n :: sub -> set_node t (zlen pre) n' = mk_tree (pre ++ n' :: sub) (links t).
Proof.
  intros H. unfold set_node. rewrite H, zlen_to_nat.
  rewrite insert_app_r_alt, Nat.sub_diag by lia. done.
Qed.

Lemma agree_set_node t pre n n' sub lk :
  nodes t = pre ++ n :: sub ->
  agree (zlen pre + 1) t (mk_tree (pre ++ n' :: sub) (links t ++ lk)).
Proof.
  intros H. split; [|by eexists]. intros i nd Hi Hnd. unfold node_at in *. rewrite H in Hnd.
  apply or_fault_Ret in Hnd. apply or_fault_Ret. cbn [nodes].
  rewrite lookup_app_r in Hnd |- * by (unfold zlen in *; lia).
  replace (Z.to_nat i - length pre)%nat with (S (Z.to_nat i - length pre - 1)) in *
    by (unfold zlen in *; lia). done.
Qed.

(** The frame of a sequence with [c] of [total] elements. *)
Definition seq_frame (k : kind) (total c idx : Z) : frame :=
  mk_frame frame_kind.array k total c idx 0 false.

(** One more element of the sequence. *)
Lemma attach_seq p n t k total c pre nc sub s pa ci :
  seq_kind k -> 0 <= c < total -> total <= u32_max -> nodes t = pre ++ nc :: sub ->
  child_count nc = c -> zlen (links t) <= u32_max ->
  let first := if c =? 0 then zlen (links t) else first_child nc in
  let t2 := mk_tree (pre ++ with_children first (c + 1) nc :: sub) (links t ++ [ci]) in
  attach_step (landed p n t (seq_frame k total c (zlen pre) :: s) pa) ci =
  if c + 1 =? total then attach_step (landed p n t2 s pa) (zlen pre)
  else Ret (inl (landed p n t2 (value_frame :: seq_frame k total (c + 1) (zlen pre) :: s) pa)).
Proof.
  intros Hk Hc Htot Hn Hcc Hlk first t2. unfold attach_step, parser_attach.
  cbn [landed stack_ tree_ pending_attrs_ attach_to_parent seq_frame state container_type expected_
       produced_ node_index pending_key has_pending_key].
  rewrite seq_kind_assert by done. cbn [assert mbind run_bind].
  rewrite (node_at_mid _ _ _ _ Hn). cbn [mbind run_bind].
  rewrite (u32_small (c + 1)) by lia.
  assert (open_window nc t = first) as ->.
  { unfold open_window, first. rewrite Hcc. rewrite u32_small; [done|].
    pose proof (zlen_nonneg (links t)). lia. }
  rewrite (set_node_mid (push_link t ci) pre nc _ sub) by done. cbn [push_link links].
  fold t2. destruct (c + 1 =? total); [|done].
  by destruct (attach_to_parent s t2 pa (zlen pre)) as [[[[]]]|].
Qed.

Lemma facing_front p a b rest : facing p (a ++ b) rest -> facing p a (b ++ rest).
Proof.
  intros [Hsm Hwf Hd [Hr1 Hr2]]. split; [done|done|by rewrite app_assoc|].
  rewrite zlen_app in *. pose proof (zlen_nonneg b). split; lia.
Qed.

Lemma facing_landed p a b rest t s pa :
  facing p (a ++ b) rest -> zlen (nodes t) <= zlen (nodes (tree_ p)) + zlen a ->
  zlen (links t) <= zlen (links (tree_ p)) + zlen a ->
  facing (landed p (length a) t s pa) b rest.
Proof.
  intros [Hsm Hwf Hd [Hr1 Hr2]] Hn Hl. rewrite <- app_assoc in Hd.
  split; cbn [landed buf_ tree_].
  - exact Hsm.
  - by eapply advance_wf.
  - by eapply data_advance.
  - rewrite zlen_app in *. split; lia.
Qed.

(** ** Containers

    A container is filled unit by unit: an element of a sequence, an entry of
    a map.  [fr c idx pk] is the frame of the container node [idx] with [c] of
    [total] units; a unit of [per] values appends their [idxs] to the links. *)

Definition unit_claim (per total : Z) (fr : Z -> Z -> Z -> frame) (us : list wire) : Prop :=
  forall p s c pk pre nc sub rest,
  stack_ p = value_frame :: fr c (zlen pre) pk :: s -> 0 <= c < total ->
  nodes (tree_ p) = pre ++ nc :: sub -> child_count nc = per * c ->
  forallb (wf (limits_ p)) us = true -> facing p (concat (encode <$> us)) rest ->
  pa_count (pending_attrs_ p) = 0 ->
  exists q pa' pk' idxs new lk,
    let n := length (concat (encode <$> us)) in
    let first := if per * c =? 0 then zlen (links (tree_ p)) + zlen lk else first_child nc in
    let t2 := mk_tree (pre ++ with_children first (per * (c + 1)) nc :: sub ++ new)
                (links (tree_ p) ++ lk ++ idxs) in
    iter_n parse_step q p =
      (if c + 1 =? total then attach_step (landed p n t2 s pa') (zlen pre)
       else Ret (inl (landed p n t2 (value_frame :: fr (c + 1) (zlen pre) pk' :: s) pa'))) /\
    pa_count pa' = 0 /\ zlen idxs = per /\ zlen new <= Z.of_nat n /\ zlen lk + per <= Z.of_nat n /\
    (forallb flat us = true -> lk = []) /\
    (forallb (tidy false) us = true -> all_read (view_bytes (buf_ p)) t2 (zlen pre + 1) idxs us).

Lemma seq_unit k total w :
  seq_kind k -> total <= u32_max -> value_claim w ->
  unit_claim 1 total (fun c idx _ => seq_frame k total c idx) [w].
Proof.
  intros Hk Htot Hw p s c pk pre nc sub rest Hstk Hc Hn Hcc Hok Hf Hpa.
  rewrite Z.mul_1_l in *. cbn [fmap list_fmap concat forallb] in *.
  rewrite app_nil_r, andb_true_r in *.
  destruct (Hw p value_frame _ _ Hstk eq_refl Hok Hf)
    as (q1 & t1 & pa1 & ci & Hrun1 & Hpa1 & (new1 & lk1 & Hn1 & Hl1 & Hnew1 & Hlk1 & Hflat1) & Hci & Hread1).
  pose proof (fc_room _ _ _ Hf) as [Hr1 Hr2].
  assert (nodes t1 = pre ++ nc :: sub ++ new1) as Hn1' by (rewrite Hn1, Hn; by rewrite <- app_assoc).
  pose proof (attach_seq p (length (encode w)) t1 k total c pre nc (sub ++ new1) s pa1 ci Hk
    ltac:(lia) Htot Hn1' Hcc ltac:(rewrite Hl1, zlen_app; lia)) as Hatt. cbv zeta in Hatt.
  exists q1, pa1, 0, [ci], new1, lk1. cbv zeta. rewrite Hl1, zlen_app, <- app_assoc in Hatt.
  rewrite Z.mul_1_l. split; [by rewrite Hrun1, Hatt|]. split; [done|]. split; [done|]. split; [done|].
  split; [done|]. rewrite !andb_true_r. split; [done|]. intros Hti. constructor; [|constructor].
  eapply reads_as_agree; [|eapply Hread1; [exact Hti| |done]; rewrite Hn; zlen_lia].
  pose proof (agree_set_node t1 pre nc (with_children
    (if c =? 0 then zlen (links (tree_ p)) + zlen lk1 else first_child nc) (c + 1) nc) _ [ci] Hn1') as Hag.
  by rewrite Hl1, <- app_assoc in Hag.
Qed.

Definition key_frame (total c idx pk : Z) : frame :=
  mk_frame frame_kind.map_key kind.map total c idx pk false.
Definition entry_frame (total c idx key : Z) : frame :=
  mk_frame frame_kind.map_value kind.map total c idx key true.

Lemma attach_key p n t total c idx pk s pa ki :
  attach_step (landed p n t (key_frame total c idx pk :: s) pa) ki =
  Ret (inl (landed p n t (value_frame :: entry_frame total c idx ki :: s) pa)).
Proof. done. Qed.

Lemma attach_entry p n t total c pre nc sub s pa ki vi :
  0 <= c < total -> 2 * total <= u32_max -> nodes t = pre ++ nc :: sub ->
  child_count nc = 2 * c -> zlen (links t) <= u32_max ->
  let first := if 2 * c =? 0 then zlen (links t) else first_child nc in
  let t2 := mk_tree (pre ++ with_children first (2 * (c + 1)) nc :: sub) (links t ++ [ki; vi]) in
  attach_step (landed p n t (entry_frame total c (zlen pre) ki :: s) pa) vi =
  if c + 1 =? total then attach_step (landed p n t2 s pa) (zlen pre)
  else Ret (inl (landed p n t2 (value_frame :: key_frame total (c + 1) (zlen pre) ki :: s) pa)).
Proof.
  intros Hc Htot Hn Hcc Hlk first t2. unfold attach_step, parser_attach.
  cbn [landed stack_ tree_ pending_attrs_ attach_to_parent entry_frame state container_type expected_
       produced_ node_index pending_key has_pending_key].
  rewrite map_assert by done. cbn [assert mbind run_bind negb].
  rewrite (node_at_mid _ _ _ _ Hn). cbn [mbind run_bind].
  rewrite (u32_small (c + 1)), (u32_small ((c + 1) * 2)) by lia. rewrite (Z.mul_comm (c + 1)).
  assert (open_window nc t = first) as ->.
  { unfold open_window, first. rewrite Hcc. rewrite u32_small; [done|].
    pose proof (zlen_nonneg (links t)). lia. }
  rewrite (set_node_mid (push_link (push_link t ki) vi) pre nc _ sub) by done.
  cbn [push_link links]. rewrite <- app_assoc. cbn [app].
  fold t2. destruct (c + 1 =? total); [|done].
  by destruct (attach_to_parent s t2 pa (zlen pre)) as [[[[]]]|].
Qed.

(** A key and its value: two values read one after the other. *)
Lemma pair_read wk wv p g1 (g2 : Z -> list frame) rest :
  value_claim wk -> value_claim wv -> stack_ p = value_frame :: g1 ->
  wf (limits_ p) wk = true -> wf (limits_ p) wv = true ->
  facing p (encode wk ++ encode wv) rest ->
  (forall n t pa ki, attach_step (landed p n t g1 pa) ki = Ret (inl (landed p n t (value_frame :: g2 ki) pa))) ->
  exists q t' pa' ki vi new lk,
    iter_n parse_step q p =
      attach_step (landed p (length (encode wk ++ encode wv)) t' (g2 ki) pa') vi /\
    pa_count pa' = 0 /\ nodes t' = nodes (tree_ p) ++ new /\ links t' = links (tree_ p) ++ lk /\
    zlen new <= zlen (encode wk ++ encode wv) /\ zlen lk + 2 <= zlen (encode wk ++ encode wv) /\
    (flat wk = true -> flat wv = true -> lk = []) /\
    (pa_count (pending_attrs_ p) = 0 -> tidy false wk = true -> tidy false wv = true ->
     forall lo, lo <= zlen (nodes (tree_ p)) -> all_read (view_bytes (buf_ p)) t' lo [ki; vi] [wk; wv]).
Proof.
  intros Hck Hcv Hstk Hok1 Hok2 Hf Hkey.
  destruct (Hck p value_frame g1 _ Hstk eq_refl Hok1 (facing_front _ _ _ _ Hf))
    as (q1 & t1 & pa1 & ki & Hrun1 & Hpa1 & Hg1 & Hki & Hread1).
  pose proof Hg1 as (new1 & lk1 & Hn1 & Hl1 & Hnew1 & Hlk1 & Hflat1).
  set (p1 := landed p (length (encode wk)) t1 (value_frame :: g2 ki) pa1).
  assert (facing p1 (encode wv) rest) as Hf1.
  { eapply facing_landed; [exact Hf| |]; [rewrite Hn1, zlen_app; lia|rewrite Hl1, zlen_app; lia]. }
  destruct (Hcv p1 value_frame (g2 ki) rest eq_refl eq_refl Hok2 Hf1)
    as (q2 & t2 & pa2 & vi & Hrun2 & Hpa2 & Hg2 & Hvi & Hread2).
  pose proof Hg2 as (new2 & lk2 & Hn2 & Hl2 & Hnew2 & Hlk2 & Hflat2). cbn [p1 landed tree_] in *.
  exists (q1 + q2)%nat, t2, pa2, ki, vi, (new1 ++ new2), (lk1 ++ lk2).
  split; [|split; [done|]].
  { eapply iter_n_trans; [by rewrite Hrun1, Hkey|]. fold p1. rewrite Hrun2. unfold p1.
    by rewrite landed_landed, length_app. }
  split; [by rewrite Hn2, Hn1, app_assoc|]. split; [by rewrite Hl2, Hl1, app_assoc|].
  rewrite !zlen_app. split; [lia|]. split; [lia|].
  split; [intros E1 E2; by rewrite Hflat1, Hflat2|].
  intros Hpa Ht1 Ht2 lo Hlo. constructor; [|constructor; [|constructor]].
  - eapply reads_as_agree; [by eapply agree_grows|]. eapply Hread1; [exact Ht1|done|done].
  - eapply Hread2; [exact Ht2|rewrite Hn1, zlen_app; pose proof (zlen_nonneg new1); lia|done].
Qed.

Lemma map_unit total wk wv :
  2 * total <= u32_max -> value_claim wk -> value_claim wv ->
  unit_claim 2 total (key_frame total) [wk; wv].
Proof.
  intros Htot Hck Hcv p s c pk pre nc sub rest Hstk Hc Hn Hcc Hok Hf Hpa.
  cbn [fmap list_fmap concat forallb] in *. rewrite app_nil_r in *. bool_prop.
  destruct (pair_read wk wv p _ (fun ki => entry_frame total c (zlen pre) ki :: s) rest Hck Hcv Hstk)
    as (q1 & t1 & pa1 & ki & vi & new1 & lk1 & Hrun1 & Hpa1 & Hn1 & Hl1 & Hnew1 &
    Hlk1 & Hflat1 & Hread1); try done.
  pose proof (fc_room _ _ _ Hf) as [Hr1 Hr2].
  assert (nodes t1 = pre ++ nc :: sub ++ new1) as Hn1' by (rewrite Hn1, Hn; by rewrite <- app_assoc).
  pose proof (attach_entry p (length (encode wk ++ encode wv)) t1 total c pre nc (sub ++ new1) s pa1
    ki vi ltac:(lia) Htot Hn1' Hcc ltac:(rewrite Hl1, zlen_app; lia)) as Hatt. cbv zeta in Hatt.
  exists q1, pa1, ki, [ki; vi], new1, lk1. cbv zeta. rewrite Hl1, zlen_app, <- app_assoc in Hatt.
  split; [by rewrite Hrun1, Hatt|]. split; [done|]. split; [done|]. split; [done|].
  split; [done|]. rewrite !andb_true_r. split; [intros; bool_prop; auto|]. intros Hti. bool_prop.
  eapply all_read_agree; [|apply Hread1; [done|done|done|]; rewrite Hn; zlen_lia].
  pose proof (agree_set_node t1 pre nc (with_children
    (if 2 * c =? 0 then zlen (links (tree_ p)) + zlen lk1 else first_child nc)
    (2 * (c + 1)) nc) _ [ki; vi] Hn1') as Hag.
  by rewrite Hl1, <- app_assoc in Hag.
Qed.

(** Units appended to a container node whose window ends at the end of the
    links. *)
Definition contiguous (per c : Z) (nc : raw_node) (t : raw_tree) : Prop :=
  c = 0 \/ (0 <= first_child nc /\ first_child nc + per * c = zlen (links t)).

Lemma unit_window mem per c nc t pre sub new lk idxs done_ us :
  0 < per -> 0 <= c -> zlen idxs = per -> nodes t = pre ++ nc :: sub ->
  contiguous per c nc t -> (0 < c -> lk = []) ->
  let first := if per * c =? 0 then zlen (links t) + zlen lk else first_child nc in
  let t2 := mk_tree (pre ++ with_children first (per * (c + 1)) nc :: sub ++ new)
              (links t ++ lk ++ idxs) in
  all_read mem t (zlen pre + 1) (window (first_child nc) (per * c) (links t)) done_ ->
  all_read mem t2 (zlen pre + 1) idxs us ->
  0 <= first /\ first + per * (c + 1) = zlen (links t2) /\
  all_read mem t2 (zlen pre + 1) (window first (per * (c + 1)) (links t2)) (done_ ++ us).
Proof.
  intros Hper Hc Hidx Hn Hcon Hlk first t2 Hdone Hus.
  replace (per * (c + 1)) with (per * c + zlen idxs) by lia.
  apply (window_grow mem t t2 (zlen pre + 1) (first_child nc) (per * c) lk idxs); try done.
  - split; [|by eexists]. intros i nd Hi Hnd. unfold node_at in *. rewrite Hn in Hnd.
    apply or_fault_Ret in Hnd. apply or_fault_Ret. cbn [t2 nodes].
    rewrite lookup_app_r in Hnd |- * by (unfold zlen in *; lia).
    replace (Z.to_nat i - length pre)%nat with (S (Z.to_nat i - length pre - 1)) in *
      by (unfold zlen in *; lia). by apply lookup_app_l_Some.
  - lia.
  - destruct Hcon as [->|[? ?]]; [left; lia|]. destruct (decide (c = 0)) as [->|]; [left; lia|].
    right. split; [done|]. split; [done|]. apply Hlk. lia.
Qed.

(** All units but the first of a container are flat: what the next unit and
    those after it need. *)
Lemma flat_front c us uss :
  forallb flat (concat (if c =? 0 then tail (us :: uss) else us :: uss)) = true ->
  0 < c -> forallb flat us = true.
Proof.
  intros Hfl Hc. rewrite (proj2 (Z.eqb_neq _ _)) in Hfl by lia. cbn [concat] in Hfl.
  rewrite forallb_app in Hfl. by bool_prop.
Qed.

Lemma flat_rest c us uss :
  0 <= c -> forallb flat (concat (if c =? 0 then tail (us :: uss) else us :: uss)) = true ->
  forallb flat (concat (if c + 1 =? 0 then tail uss else uss)) = true.
Proof.
  intros Hc Hfl. rewrite (proj2 (Z.eqb_neq _ _)) by lia. destruct (c =? 0); [exact Hfl|].
  cbn [concat] in Hfl. rewrite forallb_app in Hfl. by bool_prop.
Qed.

(** The units that are left: when the last is read, the container is
    complete. *)
Lemma container_loop per total fr : 0 < per -> per * total <= u32_max ->
  forall uss, Forall (unit_claim per total fr) uss ->
  forall p s c pk pre nc sub rest,
  uss <> [] -> stack_ p = value_frame :: fr c (zlen pre) pk :: s ->
  0 <= c -> c + zlen uss = total -> nodes (tree_ p) = pre ++ nc :: sub -> child_count nc = per * c ->
  forallb (wf (limits_ p)) (concat uss) = true -> facing p (concat (encode <$> concat uss)) rest ->
  pa_count (pending_attrs_ p) = 0 ->
  exists q pa' new lk first,
    let t' := mk_tree (pre ++ with_children first (per * total) nc :: sub ++ new)
                (links (tree_ p) ++ lk) in
    iter_n parse_step q p =
      attach_step (landed p (length (concat (encode <$> concat uss))) t' s pa') (zlen pre) /\
    pa_count pa' = 0 /\ zlen new <= zlen (concat (encode <$> concat uss)) /\
    zlen lk <= zlen (concat (encode <$> concat uss)) /\
    forall done_,
      forallb (tidy false) (concat uss) = true ->
      forallb flat (concat (if c =? 0 then tail uss else uss)) = true ->
      contiguous per c nc (tree_ p) ->
      all_read (view_bytes (buf_ p)) (tree_ p) (zlen pre + 1)
        (window (first_child nc) (per * c) (links (tree_ p))) done_ ->
      win_in first (per * total) (links t') = true /\
      all_read (view_bytes (buf_ p)) t' (zlen pre + 1) (window first (per * total) (links t'))
        (done_ ++ concat uss).
Proof.
  intros Hper Htot uss. induction 1 as [|us uss Hu _ IH];
    intros p s c pk pre nc sub rest Hne Hstk Hc Hcount Hn Hcc Hok Hf Hpa; [done|]. clear Hne.
  rewrite zlen_cons in Hcount. pose proof (zlen_nonneg uss) as Huss.
  cbn [concat] in *. rewrite fmap_app, concat_app in *. rewrite forallb_app in Hok.
  apply andb_true_iff in Hok as [Hok1 Hok].
  destruct (Hu p s c pk pre nc sub _ Hstk ltac:(lia) Hn Hcc Hok1 (facing_front _ _ _ _ Hf) Hpa)
    as (q1 & pa1 & pk1 & idxs & new1 & lk1 & Hrun1 & Hpa1 & Hidx & Hnew1 & Hlk1 & Hflat1 & Hread1).
  set (first1 := if per * c =? 0 then _ else _) in *. set (t2 := mk_tree _ _) in *.
  set (enc1 := concat (encode <$> us)) in *. set (enc2 := concat (encode <$> concat uss)) in *.
  fold (zlen enc1) in Hnew1, Hlk1.
  assert (forall done_, forallb (tidy false) us = true -> (0 < c -> forallb flat us = true) ->
    contiguous per c nc (tree_ p) ->
    all_read (view_bytes (buf_ p)) (tree_ p) (zlen pre + 1)
      (window (first_child nc) (per * c) (links (tree_ p))) done_ ->
    0 <= first1 /\ first1 + per * (c + 1) = zlen (links t2) /\
    all_read (view_bytes (buf_ p)) t2 (zlen pre + 1) (window first1 (per * (c + 1)) (links t2))
      (done_ ++ us)) as Hstep
    by (intros; apply (unit_window _ per c nc (tree_ p) pre sub new1 lk1 idxs); auto).
  destruct (decide (uss = [])) as [->|Hne].
  - change (zlen []) with 0 in *. rewrite (proj2 (Z.eqb_eq _ _)) in Hrun1 by lia.
    exists q1, pa1, new1, (lk1 ++ idxs), first1. subst enc2. cbn [concat fmap list_fmap].
    rewrite !app_nil_r. replace total with (c + 1) by lia. fold t2.
    split; [done|]. split; [done|]. split; [done|]. split; [rewrite zlen_app; lia|].
    intros done_ Hti Hfl Hcon Hdone.
    destruct (Hstep done_) as (Hf0 & Hend & Hall); [done|by eapply flat_front|done|done|].
    split; [|done]. apply win_in_end; nia.
  - rewrite (proj2 (Z.eqb_neq _ _)) in Hrun1
      by (destruct uss; [done|rewrite zlen_cons in *; pose proof (zlen_nonneg uss); lia]).
    set (p2 := landed p _ t2 _ pa1) in Hrun1.
    assert (facing p2 enc2 rest) as Hf2.
    { eapply facing_landed; [exact Hf| |]; cbn [t2 nodes links];
        rewrite ?Hn, !zlen_app, ?zlen_cons, ?zlen_app; lia. }
    destruct (IH p2 s (c + 1) pk1 pre (with_children first1 (per * (c + 1)) nc) (sub ++ new1) rest)
      as (q2 & pa2 & new2 & lk2 & first2 & Hrun2 & Hpa2 & Hnew2 & Hlk2 & Hread2); try done; [lia|lia|].
    exists (q1 + q2)%nat, pa2, (new1 ++ new2), ((lk1 ++ idxs) ++ lk2), first2.
    rewrite length_app. cbn [tree_ p2 landed t2 links] in Hrun2, Hread2.
    rewrite <- !app_assoc. split; [|split; [done|]].
    + eapply iter_n_trans; [exact Hrun1|]. rewrite Hrun2. unfold p2. by rewrite landed_landed, <- !app_assoc.
    + split; [rewrite !zlen_app; lia|]. split; [rewrite !zlen_app; lia|].
      intros done_ Hti Hfl Hcon Hdone. rewrite forallb_app in Hti. bool_prop.
      destruct (Hstep done_) as (Hf0 & Hend & Hall); [done|by eapply flat_front|done|done|].
      specialize (Hread2 (done_ ++ us)). rewrite <- !app_assoc in Hread2.
      apply Hread2; [done|by eapply flat_rest|by right|exact Hall].
Qed.

(** ** The header of a container *)

Definition agg_kind (k : kind) : bool :=
  match k with kind.array | kind.set | kind.push | kind.map => true | _ => false end.

Definition container_node (k : kind) (len first : Z) : raw_node :=
  with_children first 0 (with_i64 len (node_of k)).

(** The first frame of a container, and those that follow. *)
Definition container_frame (k : kind) (total c idx pk : Z) : frame :=
  if decide (k = kind.map) then key_frame total c idx pk else seq_frame k total c idx.

Section container_header.

Context (p : parser) (vf : frame) (s : list frame) (k : kind) (h : bytes) (n : Z) (rest : bytes).
Context (Hstk : stack_ p = vf :: s) (Hvf : state vf = frame_kind.value).
Context (Hk : agg_kind k = true) (Hcount : count_ok (limits_ p) k h n = true).
Context (Hf : facing p (encode_header k h) rest).

Let len := n / per_unit k.
Let nd := container_node k len (zlen (links (tree_ p))).
Let p1 := landed p (length (encode_header k h)) (tree_ p) (stack_ p) (pending_attrs_ p).

Lemma parse_value_container :
  parse_value p = ('(p2, started) ← start_container k len p1;
    match started with
    | Unexpected e => Ret (p2, Unexpected e)
    | Val st => Ret (p2, Val (Some st))
    end).
Proof.
  destruct Hf as [_ Hwf Hd _]. unfold count_ok in Hcount. bool_prop.
  unfold parse_value. rewrite Hstk, bool_decide_true by done. cbn [assert mbind run_bind].
  assert (exists d, data_bytes (buf_ p) = kind_to_prefix k :: d) as [d Hd'] by (rewrite Hd; by eexists).
  rewrite Hd', prefix_to_kind_to_prefix.
  assert (match k with
    | kind.attribute => parse_attribute p
    | kind.array | kind.map | kind.set | kind.push => parse_container k p
    | kind.null => parse_null p
    | kind.boolean => parse_boolean p
    | kind.bulk_string | kind.bulk_error | kind.verbatim_string => parse_bulk k p
    | _ => parse_line k p
    end = parse_container k p) as -> by (by destruct k).
  unfold parse_container. rewrite Hd, (header_read _ _ _ len) by done. cbn [lh_bytes lh_length].
  rewrite parser_consume_spec by (done || (rewrite Hd, length_app; lia)). cbn [mbind run_bind].
  unfold p1. by destruct p.
Qed.

Lemma container_len : 0 <= len <= max_resp_container_len (limits_ p) /\ per_unit k * len = n /\
  len * per_unit k <= u32_max /\ is_representable_length k len = true.
Proof.
  unfold count_ok in Hcount. fold len in Hcount. bool_prop.
  assert (0 < per_unit k) as Hpu by (by destruct k).
  pose proof (Z.div_mod n (per_unit k) ltac:(lia)) as Hdm. fold len in Hdm.
  assert (is_representable_length k len = true) as Hrep by done.
  unfold is_representable_length in Hrep. destruct (len <? 0) eqn:E; [done|]. bool_prop.
  split; [lia|]. split; [lia|]. split; [|done].
  destruct k; try done; bool_prop; unfold per_unit; change (u32_max / 2) with 2147483647 in *;
    unfold u32_max in *; lia.
Qed.

(** An empty container is complete. *)
Lemma empty_container_step :
  n = 0 -> parse_value p = finish_scalar (length (encode_header k h)) nd p.
Proof.
  intros Hn0. rewrite parse_value_container. destruct container_len as (Hl & Hpl & _ & Hrep).
  assert (len = 0) as Hl0 by (unfold len; rewrite Hn0; by destruct k).
  unfold start_container. cbn [landed limits_ p1]. rewrite Hl0 in *.
  destruct Hf as [_ Hwf Hd [Hr1 Hr2]].
  rewrite (proj2 (Z.ltb_ge 0 (-1))), (proj2 (Z.ltb_ge _ 0)) by lia. rewrite Hrep.
  unfold finish_scalar. rewrite parser_consume_spec by (done || (rewrite Hd, length_app; lia)).
  unfold nd, container_node. rewrite Hl0. cbn [mbind run_bind Z.eqb negb p1 landed tree_].
  rewrite u32_small by (pose proof (zlen_nonneg (links (tree_ p))); pose proof (zlen_nonneg (encode_header k h)); lia).
  unfold landed, set_buf. fold (advance (length (encode_header k h)) (buf_ p)).
  by destruct (push_node _ _) as [[]|].
Qed.

(** A non-empty one opens a frame and waits for its first value. *)
Lemma open_container_steps :
  0 < n -> exists pa', pa_count pa' = 0 /\
  iter_n parse_step 2 p = Ret (inl (landed p (length (encode_header k h))
    (mk_tree (nodes (tree_ p) ++ [attach_pending (pending_attrs_ p) nd]) (links (tree_ p)))
    (value_frame :: container_frame k len 0 (zlen (nodes (tree_ p))) 0 :: s) pa')).
Proof.
  intros Hn0. destruct container_len as (Hl & Hpl & Hu & Hrep).
  assert (0 < len) as Hl0 by (destruct k; simpl in *; lia).
  destruct Hf as [_ Hwf Hd [Hr1 Hr2]]. pose proof (zlen_nonneg (encode_header k h)).
  pose proof (zlen_nonneg (links (tree_ p))). pose proof (zlen_nonneg (nodes (tree_ p))).
  destruct (push_node_spec p1 nd) as (pa & Hpa0 & _ & Hpn); [cbn [p1 landed tree_]; lia|].
  set (t1 := mk_tree (nodes (tree_ p) ++ [attach_pending (pending_attrs_ p) nd]) (links (tree_ p))).
  set (cur := container_frame k len 0 (zlen (nodes (tree_ p))) 0).
  exists pa. split; [done|].
  apply (iter_n_trans parse_step 1 1 _ (landed p (length (encode_header k h)) t1 (cur :: s) pa)).
  - rewrite iter_n_1. unfold parse_step. rewrite Hstk, Hvf.
    rewrite parse_value_container. unfold start_container. cbn [p1 landed limits_ tree_].
    rewrite (proj2 (Z.ltb_ge len (-1))), (proj2 (Z.ltb_ge _ len)) by lia.
    rewrite (proj2 (Z.eqb_neq len (-1))), Hrep by lia. cbn [negb].
    rewrite (u32_small (zlen (links (tree_ p)))) by lia.
    change (with_children (zlen (links (tree_ p))) 0 (with_i64 len (node_of k))) with nd.
    change (mk_parser _ _ _ _ _ _ _) with p1. rewrite Hpn. cbn [mbind run_bind].
    rewrite (proj2 (Z.eqb_neq len 0)) by lia.
    rewrite (u32_small len) by (destruct k; simpl in *; lia).
    cbn [stack_ set_stack set_pending set_tree p1 landed]. rewrite Hstk. cbn [tail].
    subst cur. unfold container_frame, key_frame, seq_frame.
    case_decide as Hm; [subst k|]; reflexivity.
  - rewrite iter_n_1. unfold parse_step, landed at 1. cbn [stack_].
    assert (state cur <> frame_kind.value) as Hst
      by (subst cur; unfold container_frame; by case_decide).
    by destruct (state cur).
Qed.

End container_header.

(** ** Aggregates *)

Fixpoint chunk2 {A} (l : list A) : list (list A) :=
  match l with a :: b :: l' => [a; b] :: chunk2 l' | _ => [] end.

Definition units (k : kind) (l : list wire) : list (list wire) :=
  if decide (k = kind.map) then chunk2 l else (fun w => [w]) <$> l.

Lemma chunk2_spec {A} (l : list A) :
  zlen l mod 2 = 0 -> concat (chunk2 l) = l /\ 2 * zlen (chunk2 l) = zlen l.
Proof.
  induction l as [|a|a b l IH] using pairs_ind; [done|done|].
  rewrite !zlen_cons. intros Hm. destruct IH as [H1 H2].
  { rewrite <- Hm. replace (1 + (1 + zlen l)) with (zlen l + 1 * 2) by lia.
    by rewrite Z.mod_add by lia. }
  cbn [chunk2 concat]. rewrite H1, zlen_cons. split; [done|lia].
Qed.

Lemma singles_spec {A} (l : list A) :
  concat ((fun w => [w]) <$> l) = l /\ zlen ((fun w => [w]) <$> l) = zlen l.
Proof.
  split; [|unfold zlen; by rewrite length_fmap]. induction l as [|a l IH]; [done|].
  cbn [fmap list_fmap concat app]. f_equal. exact IH.
Qed.

Lemma units_spec k l :
  agg_kind k = true -> zlen l mod per_unit k = 0 ->
  concat (units k l) = l /\ per_unit k * zlen (units k l) = zlen l.
Proof.
  intros Hk Hm. unfold units. case_decide as E.
  - subst k. simpl in *. by apply chunk2_spec.
  - destruct (singles_spec l) as [H1 H2]. assert (per_unit k = 1) as -> by (by destruct k).
    split; [done|]. rewrite Z.mul_1_l. exact H2.
Qed.

Lemma units_tail k l :
  agg_kind k = true -> concat (tail (units k l)) = concat (units k (drop (Z.to_nat (per_unit k)) l)).
Proof.
  intros Hk. unfold units. case_decide as E.
  - subst k. simpl. by destruct l as [|a [|b l]].
  - destruct k; try done; simpl; by destruct l.
Qed.

Lemma units_claims k total l :
  agg_kind k = true -> per_unit k * total <= u32_max -> Forall value_claim l ->
  Forall (unit_claim (per_unit k) total (container_frame k total)) (units k l).
Proof.
  intros Hk Htot Hl. unfold units, container_frame. case_decide as E.
  - subst k. simpl in *. induction l as [|a|a b l IH] using pairs_ind;
      [constructor|constructor|]. cbn [chunk2].
    apply Forall_cons in Hl as [Ha Hl]. apply Forall_cons in Hl as [Hb Hl].
    constructor; [by apply map_unit|auto].
  - assert (per_unit k = 1 /\ seq_kind k) as [Hp Hseq]
      by (unfold seq_kind; destruct k; try done; auto).
    rewrite Hp in *.
    induction Hl as [|w l Hw _ IH]; [constructor|]. cbn [fmap list_fmap].
    constructor; [apply seq_unit; [done|lia|done]|done].
Qed.

Lemma flat_units k l :
  agg_kind k = true -> zlen l mod per_unit k = 0 ->
  forallb flat (drop (Z.to_nat (per_unit k)) l) = true ->
  forallb flat (concat (tail (units k l))) = true.
Proof.
  intros Hk Hm Hfl. rewrite units_tail by done.
  destruct (units_spec k (drop (Z.to_nat (per_unit k)) l) Hk) as [-> _]; [|done].
  destruct k; try done; simpl in *; try (by rewrite Z.mod_1_r).
  destruct l as [|a [|b l]]; simpl; try done. rewrite !zlen_cons in Hm.
  replace (1 + (1 + zlen l)) with (zlen l + 1 * 2) in Hm by lia. by rewrite Z.mod_add in Hm by lia.
Qed.

Lemma pending_as_agree mem t t' lo d pending pa a :
  agree lo t t' -> pending_as mem t lo d pending pa a -> pending_as mem t' lo d pending pa a.
Proof.
  intros Hag. pose proof Hag as [_ [lk Hlk]]. destruct pending; [|done]. cbn [pending_as].
  intros (Hp & Hev & Hw & ats & Hall & Hd & Ha). split; [done|]. split; [done|].
  rewrite Hlk, window_app by done. split; [by apply win_in_app|].
  exists ats. split; [by eapply all_read_agree|done].
Qed.

Lemma container_init mem k len first :
  agg_kind k = true -> 0 <= len ->
  init_value mem (container_node k len first) = Ret (message_of (empty_container k)).
Proof.
  intros Hk Hl. unfold init_value, container_node. cbn [node_type with_children with_i64 node_of i64].
  assert ((len =? -1) = false) as -> by (apply Z.eqb_neq; lia). by destruct k.
Qed.

Lemma value_claim_agg_empty k h : value_claim (Agg k h []).
Proof.
  intros p vf s rest Hstk Hvf Hok Hf. cbn [wf forallb] in Hok. bool_prop.
  assert (agg_kind k = true) as Hk by done.
  assert (encode (Agg k h []) = encode_header k h) as Henc by (cbn [encode fmap list_fmap concat]; by rewrite app_nil_r).
  pose proof Hf as Hf'. rewrite Henc in Hf'.
  change (zlen []) with 0 in *. assert (0 / per_unit k = 0) as Hz by (by destruct k).
  destruct (leaf_claim p vf s (Agg k h []) rest
    (container_node k (0 / per_unit k) (zlen (links (tree_ p)))) (empty_container k)) as
    (q & t' & pa' & idx & Hrun & Hpa & Hgr & Hidx & Hread); try done.
  - rewrite Henc. by eapply empty_container_step.
  - apply container_init; [done|]. rewrite Hz. lia.
  - by destruct k.
  - exists (aggregate_value k []). split; [|done]. by destruct k.
  - exists q, t', pa', idx. do 4 (split; [done|]). intros. by eapply Hread.
Qed.

Lemma units_nonempty k l : agg_kind k = true -> zlen l mod per_unit k = 0 -> l <> [] -> units k l <> [].
Proof.
  intros Hk Hmod Hl. unfold units. case_decide; [|by destruct l].
  destruct l as [|a [|b l']]; try done. subst k. rewrite zlen_cons in Hmod. done.
Qed.

(** A header is at least three bytes. *)
Lemma zlen_header k h : 3 <= zlen (encode_header k h).
Proof.
  unfold encode_header, crlf. rewrite zlen_cons, zlen_app, !zlen_cons, zlen_nil.
  pose proof (zlen_nonneg h). lia.
Qed.

Lemma value_claim_agg k h l : Forall value_claim l -> value_claim (Agg k h l).
Proof.
  intros Hl. destruct (decide (l = [])) as [->|Hne]; [apply value_claim_agg_empty|].
  intros p vf s rest Hstk Hvf Hok Hf. cbn [wf] in Hok. bool_prop.
  assert (agg_kind k = true) as Hk by done. rename H1 into Hcount, H0 into Hwl. clear H.
  cbn [encode] in *. set (enc := concat (encode <$> l)) in *.
  assert (0 < zlen l) as Hpos by (destruct l; [done|rewrite zlen_cons; pose proof (zlen_nonneg l); lia]).
  pose proof (facing_front _ _ _ _ Hf) as Hf1.
  destruct (container_len p k h (zlen l) _ Hk Hcount Hf1) as (Hlen & Hpl & Hu & Hrep).
  assert (zlen l mod per_unit k = 0) as Hmod by (unfold count_ok in Hcount; by bool_prop).
  destruct (open_container_steps p vf s k h (zlen l) _ Hstk Hvf Hk Hcount Hf1 Hpos)
    as (pa1 & Hpa1 & Hrun1).
  set (len := zlen l / per_unit k) in *.
  set (nd := container_node k len (zlen (links (tree_ p)))) in *.
  set (nc := attach_pending (pending_attrs_ p) nd) in *. set (p1 := landed p _ _ _ pa1) in *.
  destruct (units_spec k l Hk Hmod) as [Hcu Hzu].
  assert (facing p1 enc rest) as Hf2.
  { eapply facing_landed; [exact Hf| |]; cbn [nodes links]; rewrite ?zlen_app, ?zlen_cons, ?zlen_nil;
      pose proof (zlen_header k h); lia. }
  destruct (container_loop (per_unit k) len (container_frame k len) ltac:(by destruct k) ltac:(lia)
    (units k l) (units_claims k len l Hk ltac:(lia) Hl) p1 s 0 0 (nodes (tree_ p)) nc [] rest)
    as (q2 & pa2 & new & lk & first & Hrun2 & Hpa2 & Hnew & Hlk & Hread);
    rewrite ?Hcu; try done.
  { by apply units_nonempty. }
  { nia. }
  { unfold nc, attach_pending. rewrite Z.mul_0_r. by destruct (_ =? _). }
  rewrite Hcu in *. fold enc in Hrun2, Hnew, Hlk. cbv zeta in Hrun2, Hread.
  cbn [app] in Hrun2, Hread. cbn [p1 landed tree_ links] in Hrun2, Hread.
  set (t' := mk_tree _ (links (tree_ p) ++ lk)) in Hrun2, Hread.
  exists (2 + q2)%nat, t', pa2, (zlen (nodes (tree_ p))).
  split; [|split; [done|]].
  { eapply iter_n_trans; [exact Hrun1|]. rewrite Hrun2. unfold p1.
    by rewrite landed_landed, length_app. }
  assert (grows (tree_ p) t' (zlen (encode_header k h ++ enc)) false) as Hgr.
  { exists (with_children first (per_unit k * len) nc :: new), lk.
    rewrite zlen_app, !zlen_cons. pose proof (zlen_header k h).
    split; [done|]. split; [done|]. split; [lia|]. split; [lia|done]. }
  split; [destruct l; [done|exact Hgr]|].
  split; [subst t'; cbn [nodes]; rewrite zlen_app, zlen_cons; pose proof (zlen_nonneg new);
          pose proof (zlen_nonneg (nodes (tree_ p))); lia|].
  intros lo d pending a Hti Hlo Hpend. cbn [tidy] in Hti. bool_prop.
  destruct (Hread []) as [Hwin Hall]; try done.
  { by apply flat_units. }
  { by left. }
  { rewrite Z.mul_0_r. unfold window, slice. rewrite take_0. constructor. }
  cbn [app] in Hall.
  eapply (reads_as_node _ t' lo _ d pending (pending_attrs_ p) a nd l (empty_container k) _
    first (per_unit k * len)); try done.
  - subst t' nc. apply node_at_mid with (sub := new). done.
  - eapply pending_as_agree; [|exact Hpend]. by eapply agree_grows.
  - apply container_init; [done|lia].
  - intros Hm. cbn in Hm. rewrite Hpl. by subst k.
  - eapply all_read_lower; [|exact Hall]. lia.
  - intros ms Hms. exists (aggregate_value k (denote None <$> l)). split; [|done].
    by apply resolve_container.
Qed.

(** ** Attributes *)

Definition attr_frame (total c pk : Z) (has_key : bool) : frame :=
  mk_frame frame_kind.attribute kind.attribute total c 0 pk has_key.

Lemma attach_attr_key p n t total c pk g pa ki :
  attach_step (landed p n t (attr_frame total c pk false :: g) pa) ki =
  Ret (inl (landed p n t (value_frame :: attr_frame total c ki true :: g) pa)).
Proof. done. Qed.

Lemma attach_attr_entry p n t total c g pa ki vi :
  0 <= c < total -> total <= u32_max -> pa_count pa = 0 -> zlen (links t) <= u32_max ->
  attach_step (landed p n t (attr_frame total c ki true :: g) pa) vi =
  Ret (inl (landed p n (mk_tree (nodes t) (links t ++ [ki; vi]))
    (if c + 1 =? total then g else value_frame :: attr_frame total (c + 1) ki false :: g)
    (mk_pending (zlen (links t)) 2))).
Proof.
  intros Hc Htot Hpa Hlk. pose proof (zlen_nonneg (links t)).
  unfold attach_step, parser_attach.
  cbn [landed stack_ tree_ pending_attrs_ attach_to_parent attr_frame state container_type expected_
       produced_ node_index pending_key has_pending_key assert bool_decide mbind run_bind negb].
  unfold pending_push. cbn [pa_count pa_first push_link links]. rewrite Hpa. cbn [Z.eqb].
  rewrite (u32_small (zlen (links t))), (u32_small (c + 1)) by lia.
  change (u32 (0 + 1) =? 0) with false. change (u32 (u32 (0 + 1) + 1)) with 2. cbv iota.
  unfold push_link. cbn [nodes links]. rewrite <- app_assoc. cbn [app].
  by destruct (c + 1 =? total).
Qed.

(** Two links pushed together are the pending attribute. *)
Lemma pair_pending mem t ki vi wk wv lo :
  all_read mem t lo [ki; vi] [wk; wv] ->
  pending_as mem (mk_tree (nodes t) (links t ++ [ki; vi])) lo (list_depth [wk; wv]) true
    (mk_pending (zlen (links t)) 2) (Some (pairs (denote None <$> [wk; wv]))).
Proof.
  intros Hread. cbn [pending_as pa_count pa_first]. split; [lia|]. split; [done|].
  pose proof (zlen_nonneg (links t)). cbn [links]. split.
  { apply win_in_end; [lia|lia|]. rewrite zlen_app, !zlen_cons, zlen_nil. lia. }
  exists [wk; wv]. split; [|done]. replace 2 with (0 + zlen [ki; vi]) by done.
  rewrite window_extend by lia.
  assert (window (zlen (links t)) 0 (links t) = []) as -> by (unfold window, slice; by rewrite take_0).
  eapply all_read_agree; [|exact Hread]. split; [done|by exists [ki; vi]].
Qed.

(** The entries that are left of an attribute: when the last is read, it is
    pending, and the value it annotates comes next. *)
Lemma attr_loop total : total <= u32_max -> forall ws, Forall value_claim ws ->
  forall p g c pk rest,
  ws <> [] -> stack_ p = value_frame :: attr_frame total c pk false :: g -> 0 <= c ->
  2 * c + zlen ws = 2 * total -> forallb (wf (limits_ p)) ws = true ->
  facing p (concat (encode <$> ws)) rest ->
  exists q t' pa' new lk,
    iter_n parse_step q p = Ret (inl (landed p (length (concat (encode <$> ws))) t' g pa')) /\
    nodes t' = nodes (tree_ p) ++ new /\ links t' = links (tree_ p) ++ lk /\
    zlen new <= zlen (concat (encode <$> ws)) /\ zlen lk <= zlen (concat (encode <$> ws)) /\
    forall wk wv lo, ws = [wk; wv] -> pa_count (pending_attrs_ p) = 0 ->
      forallb (tidy false) ws = true -> lo <= zlen (nodes (tree_ p)) ->
      pending_as (view_bytes (buf_ p)) t' lo (list_depth ws) true pa'
        (Some (pairs (denote None <$> ws))).
Proof.
  intros Htot ws. induction ws as [|w0|wk wv ws IH] using pairs_ind;
    intros Hall p g c pk rest Hne Hstk Hc Hcount Hok Hf; [done| |].
  { rewrite zlen_cons, zlen_nil in Hcount. lia. }
  clear Hne. rewrite !zlen_cons in Hcount. pose proof (zlen_nonneg ws) as Hws.
  apply Forall_cons in Hall as [Hck Hall]. apply Forall_cons in Hall as [Hcv Hall].
  cbn [forallb] in Hok. apply andb_true_iff in Hok as [Hok1 Hok].
  apply andb_true_iff in Hok as [Hok2 Hok].
  change (concat (encode <$> wk :: wv :: ws)) with (encode wk ++ encode wv ++ concat (encode <$> ws)) in *.
  rewrite app_assoc in *. set (two := encode wk ++ encode wv) in *.
  set (enc := concat (encode <$> ws)) in *.
  destruct (pair_read wk wv p _ (fun ki => attr_frame total c ki true :: g) _ Hck Hcv Hstk
    Hok1 Hok2 (facing_front _ _ _ _ Hf)) as (q1 & t1 & pa1 & ki & vi & new1 & lk1 & Hrun1 & Hpa1 &
    Hn1 & Hl1 & Hnew1 & Hlk1 & _ & Hread1); [intros; apply attach_attr_key|].
  fold two in Hrun1, Hnew1, Hlk1.
  pose proof (fc_room _ _ _ Hf) as [Hr1 Hr2]. rewrite zlen_app in Hr1, Hr2.
  pose proof (zlen_nonneg enc) as Hz.
  rewrite attach_attr_entry in Hrun1 by (done || lia || (rewrite Hl1, zlen_app; lia)).
  set (t2 := mk_tree _ (links t1 ++ _)) in *.
  assert (links t2 = links (tree_ p) ++ lk1 ++ [ki; vi]) as Hl2
    by (subst t2; cbn [links]; by rewrite Hl1, <- app_assoc).
  destruct (decide (ws = [])) as [->|Hne].
  - change (zlen []) with 0 in *. rewrite (proj2 (Z.eqb_eq _ _)) in Hrun1 by lia.
    exists q1, t2, (mk_pending (zlen (links t1)) 2), new1, (lk1 ++ [ki; vi]).
    subst enc. cbn [fmap list_fmap concat]. rewrite app_nil_r. split; [done|]. split; [done|].
    split; [done|]. split; [done|]. split; [rewrite zlen_app, !zlen_cons, zlen_nil; lia|].
    intros wk' wv' lo [= <- <-] Hpa Hti Hlo. cbn [forallb] in Hti. bool_prop.
    apply pair_pending. by apply Hread1.
  - rewrite (proj2 (Z.eqb_neq _ _)) in Hrun1
      by (destruct ws; [done|rewrite zlen_cons in *; pose proof (zlen_nonneg ws); lia]).
    set (p2 := landed p _ t2 _ _) in Hrun1.
    assert (facing p2 enc rest) as Hf2.
    { eapply facing_landed; [exact Hf| |]; [cbn [t2 nodes]; rewrite Hn1, zlen_app; lia|].
      rewrite Hl2, !zlen_app, !zlen_cons, zlen_nil. lia. }
    destruct (IH Hall p2 g (c + 1) ki rest) as (q2 & t3 & pa3 & new2 & lk2 & Hrun2 & Hn3 & Hl3 &
      Hnew2 & Hlk2 & _); try done; [lia|lia|]. cbn [p2 landed tree_] in Hn3, Hl3.
    exists (q1 + q2)%nat, t3, pa3, (new1 ++ new2), (lk1 ++ [ki; vi] ++ lk2).
    split; [|split; [|split; [|split; [|split]]]].
    + eapply iter_n_trans; [exact Hrun1|]. fold enc in Hrun2. rewrite Hrun2. unfold p2.
      by rewrite landed_landed, length_app.
    + rewrite Hn3. subst t2. cbn [nodes]. by rewrite Hn1, app_assoc.
    + by rewrite Hl3, Hl2, <- !app_assoc.
    + rewrite !zlen_app. lia.
    + rewrite !zlen_app, !zlen_cons, zlen_nil. lia.
    + intros wk' wv' lo Heq. injection Heq as _ _ ->. done.
Qed.

Section attribute_header.

Context (p : parser) (vf : frame) (s : list frame) (h : bytes) (n : Z) (rest : bytes).
Context (Hstk : stack_ p = vf :: s) (Hvf : state vf = frame_kind.value).
Context (Hcount : count_ok (limits_ p) kind.attribute h n = true).
Context (Hf : facing p (encode_header kind.attribute h) rest).

Let hdr := length (encode_header kind.attribute h).

Lemma attr_len : 0 <= n / 2 <= u32_max / 2 /\ n / 2 <= max_resp_container_len (limits_ p) /\
  2 * (n / 2) = n /\ header_ok (limits_ p) h (n / 2) = true.
Proof.
  unfold count_ok in Hcount. cbn [per_unit] in Hcount. bool_prop.
  unfold is_representable_length in *. destruct (n / 2 <? 0) eqn:E; [done|]. bool_prop.
  pose proof (Z.div_mod n 2 ltac:(lia)). split; [lia|]. split; [done|]. split; [lia|done].
Qed.

Lemma parse_value_attribute :
  parse_value p =
  match start_attribute (n / 2) (landed p hdr (tree_ p) (stack_ p) (pending_attrs_ p)) with
  | (p2, Unexpected e) => Ret (p2, Unexpected e)
  | (p2, Val _) => Ret (p2, Val (Some continue_parsing))
  end.
Proof.
  destruct attr_len as (_ & _ & _ & Hh). destruct Hf as [_ Hwf Hd _].
  unfold parse_value. rewrite Hstk, bool_decide_true by done. cbn [assert mbind run_bind].
  assert (exists d, data_bytes (buf_ p) = kind_to_prefix kind.attribute :: d) as [d Hd']
    by (rewrite Hd; by eexists).
  rewrite Hd', prefix_to_kind_to_prefix. unfold parse_attribute.
  rewrite Hd, (header_read _ _ _ (n / 2)) by done. cbn [lh_bytes lh_length].
  rewrite parser_consume_spec by (done || (rewrite Hd, length_app; lia)). cbn [mbind run_bind].
  rewrite <- Hstk. unfold hdr. by destruct p.
Qed.

Lemma attribute_steps :
  exists q, iter_n parse_step q p = Ret (inl (landed p hdr (tree_ p)
    (if n =? 0 then vf :: s else value_frame :: attr_frame (n / 2) 0 0 false :: vf :: s)
    (pending_attrs_ p))).
Proof.
  destruct attr_len as (Hl & Hmax & Hn & _).
  assert (parse_step p = Ret (inl (landed p hdr (tree_ p)
    (if n =? 0 then vf :: s else attr_frame (n / 2) 0 0 false :: vf :: s) (pending_attrs_ p)))) as Hs.
  { unfold parse_step. rewrite Hstk, Hvf, parse_value_attribute. unfold start_attribute.
    cbn [landed limits_]. rewrite (proj2 (Z.ltb_ge (n / 2) 0)), (proj2 (Z.ltb_ge _ (n / 2))) by lia.
    destruct (n =? 0) eqn:E; bool_prop.
    - rewrite (proj2 (Z.eqb_eq (n / 2) 0)) by lia. cbn [mbind run_bind]. by rewrite Hstk.
    - rewrite (proj2 (Z.eqb_neq (n / 2) 0)) by lia. unfold is_representable_length.
      rewrite (proj2 (Z.ltb_ge (n / 2) 0)), (proj2 (Z.leb_le _ _)) by lia. cbn [negb].
      change (u32_max / 2) with 2147483647 in Hl.
      rewrite u32_small by (unfold u32_max; lia). cbn [mbind run_bind set_stack stack_]. by rewrite Hstk. }
  destruct (n =? 0) eqn:E.
  - exists 1%nat. by rewrite iter_n_1.
  - exists (1 + 1)%nat. eapply iter_n_trans; [by rewrite iter_n_1, Hs|]. by rewrite iter_n_1.
Qed.

End attribute_header.

Lemma tidy_attr pending h l w :
  tidy pending (Attr h l w) = true -> l <> [] ->
  exists k v, l = [k; v] /\ pending = false /\ forallb (tidy false) l = true /\ tidy true w = true.
Proof.
  intros H Hne. destruct l as [|k [|v [|]]]; try done. cbn [tidy] in H. bool_prop.
  exists k, v. cbn [forallb]. rewrite H2, H1. auto.
Qed.

(** The attributes before a value: they are read and pending. *)
Lemma attr_prefix h l w p vf s rest :
  let hdr := encode_header kind.attribute h in
  let enc := concat (encode <$> l) in
  Forall value_claim l -> stack_ p = vf :: s -> state vf = frame_kind.value ->
  count_ok (limits_ p) kind.attribute h (zlen l) = true -> forallb (wf (limits_ p)) l = true ->
  facing p (hdr ++ enc ++ encode w) rest ->
  exists q t1 pa1 new lk,
    iter_n parse_step q p = Ret (inl (landed p (length (hdr ++ enc)) t1 (vf :: s) pa1)) /\
    nodes t1 = nodes (tree_ p) ++ new /\ links t1 = links (tree_ p) ++ lk /\
    zlen new <= zlen enc /\ zlen lk <= zlen enc /\
    forall lo d pending a, tidy pending (Attr h l w) = true -> lo <= zlen (nodes (tree_ p)) ->
      pending_as (view_bytes (buf_ p)) (tree_ p) lo d pending (pending_attrs_ p) a ->
      exists pending' a' d', tidy pending' w = true /\ denote a' w = denote a (Attr h l w) /\
        (wdepth w + d' <= wdepth (Attr h l w) + d)%nat /\
        pending_as (view_bytes (buf_ p)) t1 lo d' pending' pa1 a'.
Proof.
  intros hdr enc Hl Hstk Hvf Hcount Hwl Hf.
  pose proof (facing_front _ _ _ _ Hf) as Hf1.
  destruct (attribute_steps p vf s h (zlen l) _ Hstk Hvf Hcount Hf1) as (q & Hrun). fold hdr in Hrun.
  destruct (decide (l = [])) as [->|Hne].
  - exists q, (tree_ p), (pending_attrs_ p), [], []. subst enc. cbn [fmap list_fmap concat].
    rewrite !app_nil_r. do 3 (split; [done|]). split; [done|]. split; [done|].
    intros lo d pending a Hti Hlo Hp. exists pending, a, d. cbn [tidy denote wdepth foldr] in *.
    split; [done|]. split; [done|]. split; [lia|done].
  - assert (0 < zlen l) as Hpos
      by (destruct l; [done|rewrite zlen_cons; pose proof (zlen_nonneg l); lia]).
    rewrite (proj2 (Z.eqb_neq _ _)) in Hrun by lia. set (p1 := landed p _ _ _ _) in Hrun.
    destruct (attr_len p h (zlen l) Hcount) as (Hr & _ & Hpl & _).
    assert (facing p1 enc (encode w ++ rest)) as Hf2.
    { eapply facing_landed; [|pose proof (zlen_nonneg hdr); lia|pose proof (zlen_nonneg hdr); lia].
      apply facing_front. by rewrite <- app_assoc. }
    change (u32_max / 2) with 2147483647 in Hr.
    destruct (attr_loop (zlen l / 2) ltac:(unfold u32_max; lia) l Hl p1 (vf :: s) 0 0 _ Hne eq_refl
      ltac:(lia) ltac:(lia) Hwl Hf2) as (q2 & t1 & pa1 & new & lk & Hrun2 & Hn & Hlk & Hnew & Hlk1 & Hread).
    exists (q + q2)%nat, t1, pa1, new, lk. split; [|do 4 (split; [done|])].
    + eapply iter_n_trans; [exact Hrun|]. fold enc in Hrun2. rewrite Hrun2. unfold p1.
      by rewrite landed_landed, length_app.
    + intros lo d pending a Hti Hlo Hp.
      destruct (tidy_attr _ _ _ _ Hti Hne) as (k & v & Heq & -> & Htl & Htw).
      exists true, (Some (pairs (denote None <$> l))), (list_depth l).
      split; [done|]. split; [subst l; done|]. split; [cbn [wdepth]; unfold list_depth; lia|].
      destruct Hp as [Hp0 _]. by eapply Hread.
Qed.

Lemma value_claim_attr h l w : Forall value_claim l -> value_claim w -> value_claim (Attr h l w).
Proof.
  intros Hl Hw p vf s rest Hstk Hvf Hok Hf. cbn [wf] in Hok. bool_prop.
  rename H into Hcount, H1 into Hwl, H0 into Hww. cbn [encode] in *.
  set (hdr := encode_header kind.attribute h) in *. set (enc := concat (encode <$> l)) in *.
  destruct (attr_prefix h l w p vf s rest Hl Hstk Hvf Hcount Hwl Hf)
    as (q1 & t1 & pa1 & new1 & lk1 & Hrun1 & Hn1 & Hl1 & Hnew1 & Hlk1 & Hpend1).
  fold hdr enc in Hrun1, Hnew1, Hlk1.
  assert (facing (landed p (length (hdr ++ enc)) t1 (vf :: s) pa1) (encode w) rest) as Hf2.
  { eapply facing_landed; [by rewrite <- app_assoc| |];
      rewrite ?Hn1, ?Hl1, !zlen_app; pose proof (zlen_nonneg hdr); lia. }
  destruct (Hw (landed p (length (hdr ++ enc)) t1 (vf :: s) pa1) vf s rest eq_refl Hvf Hww Hf2)
    as (q2 & t2 & pa2 & idx & Hrun2 & Hpa2 & (new2 & lk2 & Hn2 & Hl2 & Hnew2 & Hlk2 & _) & Hidx & Hread).
  cbn [landed tree_] in Hn2, Hl2, Hidx.
  exists (q1 + q2)%nat, t2, pa2, idx. split; [|split; [done|]].
  { eapply iter_n_trans; [exact Hrun1|]. rewrite Hrun2, landed_landed.
    by rewrite <- length_app, <- app_assoc. }
  pose proof (zlen_nonneg new1). rewrite Hn1, zlen_app in Hidx. split; [|split; [lia|]].
  { exists (new1 ++ new2), (lk1 ++ lk2). rewrite Hn2, Hl2, Hn1, Hl1, <- !app_assoc, !zlen_app.
    pose proof (zlen_nonneg hdr). split; [done|]. split; [done|]. split; [lia|]. split; [lia|done]. }
  intros lo d pending a Hti Hlo Hp.
  destruct (Hpend1 lo d pending a Hti Hlo Hp) as (pending' & a' & d' & Htw & Hden & Hd' & Hp').
  destruct (Hread lo d' pending' a' Htw) as (m & Hm & Hres); [cbn [landed tree_]; rewrite Hn1, zlen_app; lia|done|].
  exists m. split; [intros; apply Hm; lia|]. by rewrite <- Hden.
Qed.

Theorem every_value_claim w : value_claim w.
Proof.
  induction w using wire_ind'; [apply value_claim_leaf|by apply value_claim_agg|by apply value_claim_attr].
Qed.

(** ** [parse_one] and [parse_and_build] on a value *)

Lemma parse_loop_iter fuel p :
  parse_loop fuel p =
  (r ← iter_n parse_step fuel p;
   match r with inl _ => Fault out_of_fuel | inr res => Ret res end).
Proof.
  revert p. induction fuel as [|fuel IH]; intros p; [done|]. cbn [parse_loop iter_n].
  destruct (parse_step p) as [[p'|res]|]; [apply IH|done|done].
Qed.

(** A parser between two values. *)
Definition ready_for (p : parser) : Prop :=
  idle p /\ failed_ p = false /\ tree_ready_ p = false /\ buffer_wf (buf_ p) /\ small p.

Lemma ready_inv p : ready_for p -> parser_inv p.
Proof. intros (Hi & Hf & Hr & Hwf & _). split; [done|]. right. right. auto. Qed.

Section one_value.

Context (p : parser) (w : wire) (rest : bytes).
Context (Hp : ready_for p) (Hok : wf (limits_ p) w = true).
Context (Hd : data_bytes (buf_ p) = encode w ++ rest).

Lemma parse_one_value :
  exists t' pa' root,
    parse_one p = Ret (set_ready true (landed p (length (encode w)) t' [] pa'), Val (Some root)) /\
    (tidy false w = true -> reads_as (view_bytes (buf_ p)) t' 0 root 0 None w).
Proof.
  destruct Hp as (Hidle & Hf & Hr & Hwf & Hsm). pose proof Hidle as (Hs & Ht & Hpa).
  set (p1 := set_stack [value_frame] p).
  assert (facing p1 (encode w) rest) as Hfc.
  { split; [done|done|done|]. unfold room. cbn [p1 set_stack tree_]. rewrite Ht. cbn [tree_reset nodes links].
    unfold small, zlen in *. assert (length (data_bytes (buf_ p)) <= length (buffer_ (buf_ p)))%nat
      by (rewrite length_data_bytes by done; destruct Hwf as (? & ? & ?); lia).
    rewrite Hd, length_app in *. simpl. lia. }
  destruct (every_value_claim w p1 value_frame [] rest eq_refl eq_refl Hok Hfc)
    as (q & t' & pa' & root & Hrun & _ & _ & _ & Hread).
  exists t', pa', root. split.
  - unfold parse_one. rewrite Hr, Hf, Hs. fold p1.
    destruct (parse_loop_outcome (parse_fuel p1) p1 [] (idle_live p Hwf Hidle) Hsm Hf Hr)
      as (p' & res & Heq & _); [by apply turns_fuel|].
    rewrite Heq. rewrite parse_loop_iter in Heq.
    apply run_bind_Ret in Heq as ([|res'] & Hiter & [= ->]).
    assert (iter_n parse_step (parse_fuel p1 + q) p1 = Ret (inr (p', res))) as H1
      by (eapply iter_n_more; [exact Hiter|lia]).
    rewrite (iter_n_more _ q _ p1 (set_ready true (landed p (length (encode w)) t' [] pa'), Val (Some root)))
      in H1; [congruence|by rewrite Hrun|lia].
  - intros Hti. eapply Hread; [exact Hti|apply zlen_nonneg|]. split; [|done].
    cbn [p1 set_stack pending_attrs_]. by rewrite Hpa.
Qed.

(** The message of the value is built. *)
Lemma parse_and_build_value :
  tidy false w = true ->
  exists p', parse_and_build p = Ret (p', Val (Some (denote None w))) /\
    data_bytes (buf_ p') = rest.
Proof.
  intros Hti. destruct parse_one_value as (t' & pa' & root & Hone & Hread).
  destruct (Hread Hti) as (m & Hm & Hres). pose proof Hp as (Hidle & Hf & Hr & Hwf & Hsm).
  pose proof (views_kept_parse_one _ _ _ Hone) as [_ Hkept]. specialize (Hkept (idle_texts p Hidle)).
  destruct (parse_one_inv p (ready_inv p Hp) Hsm) as (p' & res & Heq & Hsame & Hinv & Hpr).
  rewrite Hone in Heq. injection Heq as <- <-.
  destruct (parsed_builds _ root (proj2 Hpr)) as (m' & bm & Hbuild & Hrd & _); try done.
  { apply Hinv. }
  assert (m' = m) as ->.
  { set (fuel := (length (nodes t') + wdepth w)%nat).
    assert (Ret m' = Ret m) as [=]; [|done].
    rewrite <- (Hrd fuel) by (cbn [set_ready landed tree_]; unfold zlen, fuel; lia).
    eapply read_from_read, Hm. unfold fuel. lia. }
  eexists. split.
  - unfold parse_and_build. rewrite Hone. cbn [mbind run_bind]. rewrite Hbuild. cbn [mbind run_bind].
    cbn [set_ready landed buf_]. change (view_bytes (advance (length (encode w)) (buf_ p))) with (view_bytes (buf_ p)).
    rewrite Hres. reflexivity.
  - cbn [set_ready landed buf_]. by eapply data_advance.
Qed.

End one_value.

(** ** A stream of values *)

(** The next [n] values: each is parsed, built, and its bytes reclaimed, as the
    reading side of the connection does. *)
Fixpoint read_values (n : nat) (p : parser) : run (parser * list (message bytes)) :=
  match n with
  | O => Ret (p, [])
  | S n' =>
    '(p1, r) ← parse_and_build p;
    match r with
    | Val (Some m) =>
      p2 ← reclaim p1;
      '(p3, ms) ← read_values n' p2;
      Ret (p3, m :: ms)
    | _ => Ret (p1, [])
    end
  end.

Lemma read_values_stream ws : forall p rest,
  ready_for p -> forallb (wf (limits_ p)) ws = true -> forallb (tidy false) ws = true ->
  data_bytes (buf_ p) = concat (encode <$> ws) ++ rest ->
  exists p', read_values (length ws) p = Ret (p', denote None <$> ws) /\
    data_bytes (buf_ p') = rest /\ ready_for p' /\ limits_ p' = limits_ p.
Proof.
  induction ws as [|w ws IH]; intros p rest Hp Hok Hti Hd; [by exists p|].
  cbn [forallb] in Hok, Hti. bool_prop.
  change (concat (encode <$> w :: ws)) with (encode w ++ concat (encode <$> ws)) in Hd.
  rewrite <- app_assoc in Hd.
  destruct (parse_and_build_value p w _ Hp ltac:(done) Hd ltac:(done)) as (p1 & Hone & Hrest).
  cbn [length read_values]. rewrite Hone. cbn [mbind run_bind].
  pose proof Hp as (Hidle & Hf & Hr & Hwf & Hsm).
  destruct (parse_and_build_inv p (ready_inv p Hp) Hsm (idle_texts p Hidle))
    as (p1' & r1 & Heq & Hsame & Hinv & _). rewrite Hone in Heq. injection Heq as <- <-.
  assert (failed_ p1 = false) as Hf1.
  { unfold parse_and_build in Hone. apply run_bind_Ret in Hone as ([p2 r2] & Ho & Hone).
    destruct (parse_one_inv p (ready_inv p Hp) Hsm) as (p3 & r3 & Ho' & _ & Hi & Hr3).
    rewrite Ho in Ho'. injection Ho' as <- <-. destruct r2 as [[root|]|]; try done.
    apply run_bind_Ret in Hone as (m & _ & Hone). apply run_bind_Ret in Hone as (bm & _ & [= <- _]).
    destruct (parse_one_value p w _ Hp ltac:(done) Hd) as (t' & pa' & rt & Ho2 & _).
    rewrite Ho in Ho2. injection Ho2 as -> _. exact Hf. }
  destruct (reclaim_inv p1 Hinv) as (p2 & Hrec & Hinv2 & Hd2 & Hf2 & Hlen & Hidle2 & Hr2).
  rewrite Hrec. cbn [mbind run_bind].
  assert (limits_ p2 = limits_ p) as Hlim.
  { unfold reclaim in Hrec. apply run_bind_Ret in Hrec as (b & _ & [= <-]). apply Hsame. }
  assert (ready_for p2) as Hp2.
  { split; [done|]. split; [congruence|]. split; [done|]. split; [apply Hinv2|].
    unfold small, zlen. rewrite Hlen. exact (small_same _ _ Hsame Hsm). }
  destruct (IH p2 rest Hp2) as (p3 & Hrv & Hd3 & Hp3 & Hl3); [by rewrite Hlim|done|congruence|].
  rewrite Hrv. cbn [mbind run_bind]. exists p3. split; [done|]. split; [done|]. split; [done|congruence].
Qed.
