(* ===== verification/ParserResume.v ===== *)
(** * Incremental parsing

    A value may arrive in pieces: [parse_one] asks for more bytes and is
    called again after the next read.  As long as the storage does not move,
    the second call continues as if all bytes had been there from the start. *)

From S2P Require Import Prelude Kind Errors Charconv Buffer Message Parser Builder ParserInv.
From S2P Require Import ParserSafety BuilderSpec ParserViews Wire WireParse.

(** ** More bytes in the same storage *)

Definition extend (bs : bytes) (b : buffer) : buffer :=
  mk_buffer (blit (write_pos_ b) bs (buffer_ b)) (storage_id b) (read_pos_ b)
    (write_pos_ b + length bs).

Definition fits (bs : bytes) (b : buffer) : Prop :=
  (write_pos_ b + length bs <= length (buffer_ b))%nat.

Definition extend_parser (bs : bytes) (p : parser) : parser := set_buf (extend bs (buf_ p)) p.

Section extend.

Context (bs : bytes).

Lemma feed_extend b m :
  buffer_wf b -> fits bs b -> m <= zlen (buffer_ b) - Z.of_nat (write_pos_ b) ->
  feed b m bs = Ret (extend bs b).
Proof.
  unfold fits. intros (Hr & Hw & Hl) Hfit Hm. unfold feed, prepare, ensure_writable.
  rewrite (proj2 (Nat.leb_le _ _)) by lia. cbn [assert mbind run_bind].
  destruct (buffer_ b) as [|c0 st] eqn:E; [simpl in Hl; lia|]. rewrite <- E in *.
  rewrite (proj2 (Z.leb_le _ _)) by lia. cbn [mbind run_bind]. unfold fill.
  rewrite (proj2 (Nat.leb_le _ _)) by lia. cbn [mbind run_bind]. unfold commit. cbn [write_pos_ buffer_].
  rewrite length_blit by lia. rewrite !(proj2 (Nat.leb_le _ _)) by lia. done.
Qed.

(** These hold also when the bytes do not fit: then [extend] is the buffer of a
    larger storage. *)
Lemma extend_wf b : buffer_wf b -> buffer_wf (extend bs b).
Proof.
  unfold buffer_wf, extend, blit. simpl. intros (? & ? & ?).
  rewrite !length_app, length_take, length_drop. lia.
Qed.

Lemma data_extend b : buffer_wf b -> data_bytes (extend bs b) = data_bytes b ++ bs.
Proof.
  unfold data_bytes, extend. simpl. intros (? & ? & ?).
  replace (write_pos_ b + length bs - read_pos_ b)%nat
    with ((write_pos_ b - read_pos_ b) + length bs)%nat by lia.
  rewrite slice_app. replace (read_pos_ b + (write_pos_ b - read_pos_ b))%nat
    with (write_pos_ b) by lia.
  rewrite slice_blit_before by lia. by rewrite slice_blit_at by lia.
Qed.

Lemma consume_extend b n b' :
  consume b n = Ret b' -> consume (extend bs b) n = Ret (extend bs b').
Proof.
  unfold consume, buf_size, extend. intros H. run_inv. bool_prop. simpl.
  rewrite (proj2 (Nat.leb_le _ _)) by lia. simpl.
  rewrite (proj2 (Nat.leb_le _ _)) by lia. done.
Qed.

Lemma substr_extend b off n :
  (off + n <= write_pos_ b - read_pos_ b)%nat ->
  substr (data (extend bs b)) off n = substr (data b) off n.
Proof. intros. unfold substr, data, extend. simpl. f_equal. lia. Qed.

(** ** The readers on more bytes *)

Lemma length_after_extend lims d r :
  d <> [] -> parse_length_after_type lims d = Val (Some r) ->
  parse_length_after_type lims (d ++ bs) = Val (Some r).
Proof.
  unfold parse_length_after_type. intros Hd H.
  destruct d as [|c d]; [done|]. rewrite drop_1_cons_app. change (drop 1 (c :: d)) with d in H.
  destruct (find_crlf d) as [pos|] eqn:E; [|by destruct (_ <? _)].
  rewrite (find_crlf_extend _ _ bs E). apply find_crlf_Some in E as (_ & Hlen & _).
  rewrite take_app_le by lia. done.
Qed.

Lemma push_node_extend nd p p' idx :
  push_node nd p = Ret (p', idx) ->
  push_node nd (extend_parser bs p) = Ret (extend_parser bs p', idx).
Proof.
  unfold push_node. cbn [extend_parser set_buf tree_ pending_attrs_]. intros H.
  apply run_bind_Ret in H as ([pa t'] & -> & [= <- <-]). done.
Qed.

Lemma parser_consume_extend n p p' :
  parser_consume n p = Ret p' -> parser_consume n (extend_parser bs p) = Ret (extend_parser bs p').
Proof.
  unfold parser_consume. intros H. apply run_bind_Ret in H as (b' & Hb & [= <-]).
  cbn [extend_parser set_buf buf_]. rewrite (consume_extend _ _ _ Hb). done.
Qed.

Lemma finish_scalar_extend n nd p p' r :
  finish_scalar n nd p = Ret (p', r) ->
  finish_scalar n nd (extend_parser bs p) = Ret (extend_parser bs p', r).
Proof.
  unfold finish_scalar. intros H. apply run_bind_Ret in H as (p1 & Hc & H).
  apply run_bind_Ret in H as ([p2 idx] & Hp & [= <- <-]).
  rewrite (parser_consume_extend _ _ _ Hc). cbn [mbind run_bind].
  rewrite (push_node_extend _ _ _ _ Hp). done.
Qed.

Lemma start_container_extend k len p p' st :
  start_container k len p = Ret (p', Val st) ->
  start_container k len (extend_parser bs p) = Ret (extend_parser bs p', Val st).
Proof.
  unfold start_container. cbn [extend_parser set_buf limits_ tree_ stack_].
  destruct (_ <? _); [done|]. destruct (_ <? _); [done|]. destruct (_ =? -1).
  { intros H. apply run_bind_Ret in H as ([p1 idx] & Hp & [= <- <-]).
    fold (extend_parser bs p). rewrite (push_node_extend _ _ _ _ Hp). done. }
  destruct (negb _); [done|]. intros H. apply run_bind_Ret in H as ([p1 idx] & Hp & H).
  fold (extend_parser bs p). rewrite (push_node_extend _ _ _ _ Hp). cbn [mbind run_bind].
  destruct (_ =? 0); by injection H as <- <-.
Qed.

Section value.

Context (p : parser) (Hwf : buffer_wf (buf_ p)).

Lemma byte_at_extend d i : (i < length d)%nat -> byte_at (d ++ bs) i = byte_at d i.
Proof. intros. unfold byte_at. by rewrite lookup_app_l. Qed.

Lemma slice_extend off n (d : bytes) : (off + n <= length d)%nat -> slice off n (d ++ bs) = slice off n d.
Proof.
  intros. unfold slice. rewrite drop_app_le by lia. rewrite take_app_le; [done|].
  rewrite length_drop. lia.
Qed.

Lemma parse_null_extend p' st :
  parse_null p = Ret (p', Val (Some st)) ->
  parse_null (extend_parser bs p) = Ret (extend_parser bs p', Val (Some st)).
Proof.
  unfold parse_null. cbn [extend_parser set_buf buf_]. rewrite data_extend by done. intros H.
  destruct (length (data_bytes (buf_ p)) <? 3)%nat eqn:E; [done|]. bool_prop.
  rewrite (proj2 (Nat.ltb_ge _ _)) by (rewrite length_app; lia).
  rewrite !byte_at_extend by lia. destruct (_ || _); [done|]. by apply finish_scalar_extend.
Qed.

Lemma parse_boolean_extend p' st :
  parse_boolean p = Ret (p', Val (Some st)) ->
  parse_boolean (extend_parser bs p) = Ret (extend_parser bs p', Val (Some st)).
Proof.
  unfold parse_boolean. cbn [extend_parser set_buf buf_]. rewrite data_extend by done. intros H.
  destruct (length (data_bytes (buf_ p)) <? 4)%nat eqn:E; [done|]. bool_prop.
  rewrite (proj2 (Nat.ltb_ge _ _)) by (rewrite length_app; lia).
  rewrite !byte_at_extend by lia. destruct (_ || _); [done|].
  destruct (bool_decide _); [by apply finish_scalar_extend|].
  destruct (bool_decide _); [by apply finish_scalar_extend|done].
Qed.

Lemma parse_line_extend k p' st :
  data_bytes (buf_ p) <> [] -> parse_line k p = Ret (p', Val (Some st)) ->
  parse_line k (extend_parser bs p) = Ret (extend_parser bs p', Val (Some st)).
Proof.
  intros Hne. unfold parse_line. cbn [extend_parser set_buf buf_ limits_].
  rewrite data_extend by done. destruct (data_bytes (buf_ p)) as [|c d] eqn:Ed; [done|].
  rewrite drop_1_cons_app. change (drop 1 (c :: d)) with d.
  destruct (find_crlf d) as [pos|] eqn:E; [|by destruct (_ <? _)].
  rewrite (find_crlf_extend _ _ bs E). apply find_crlf_Some in E as (_ & Hlen & _).
  rewrite take_app_le by lia.
  assert (length (c :: d) = write_pos_ (buf_ p) - read_pos_ (buf_ p))%nat as Hl
    by (by rewrite <- Ed, length_data_bytes). simpl in Hl.
  rewrite (line_view_eq (buf_ p)) by (done || (by rewrite Ed) || lia).
  rewrite (line_view_eq (extend bs (buf_ p))) by
    ((by apply extend_wf) || (by rewrite data_extend, Ed by done) || (rewrite length_app; lia)).
  rewrite substr_extend by lia.
  destruct (_ <? _); [done|]. destruct k; try done; try apply finish_scalar_extend.
  - destruct (parse_i64 _); [apply finish_scalar_extend|done].
  - destruct (parse_double _); [apply finish_scalar_extend|done].
Qed.

Lemma parse_bulk_extend k p' st :
  data_bytes (buf_ p) <> [] -> small p -> parse_bulk k p = Ret (p', Val (Some st)) ->
  parse_bulk k (extend_parser bs p) = Ret (extend_parser bs p', Val (Some st)).
Proof.
  intros Hne Hsm. unfold parse_bulk. cbn [extend_parser set_buf buf_ limits_].
  rewrite data_extend by done.
  destruct (parse_length_after_type (limits_ p) (data_bytes (buf_ p))) as [[lh|]|] eqn:E; [|done|done].
  rewrite (length_after_extend _ _ _ Hne E).
  pose proof (header_bytes_bound _ _ _ E ltac:(destruct (data_bytes (buf_ p)); [done|simpl; lia])) as Hh.
  pose proof (parse_length_range _ _ _ E) as Hr.
  destruct (lh_length lh <? -1) eqn:E1; [done|]. destruct (exceeds_i64_limit _ _); [done|].
  destruct (lh_length lh =? -1) eqn:E2; [apply finish_scalar_extend|]. bool_prop.
  assert (zlen (data_bytes (buf_ p)) <= u32_max) as Hdl.
  { unfold small in Hsm. unfold zlen in *. rewrite length_data_bytes by done.
    destruct Hwf as (? & ? & ?). lia. }
  rewrite bulk_need_exact by (unfold i64_max, u64_max, u32_max, zlen in *; lia).
  destruct (size_max <? _); [done|].
  destruct (zlen (data_bytes (buf_ p)) <? _) eqn:E3; [done|]. bool_prop.
  rewrite (proj2 (Z.ltb_ge _ _)) by (rewrite zlen_app; pose proof (zlen_nonneg bs); lia).
  rewrite !slice_extend by (unfold zlen in *; lia).
  rewrite substr_extend by (rewrite <- length_data_bytes by done; unfold zlen in *; lia).
  destruct (negb _); [done|]. destruct (_ && _); [done|]. apply finish_scalar_extend.
Qed.

Lemma parse_container_extend k p' st :
  data_bytes (buf_ p) <> [] -> parse_container k p = Ret (p', Val (Some st)) ->
  parse_container k (extend_parser bs p) = Ret (extend_parser bs p', Val (Some st)).
Proof.
  intros Hne. unfold parse_container. cbn [extend_parser set_buf buf_ limits_].
  rewrite data_extend by done.
  destruct (parse_length_after_type (limits_ p) (data_bytes (buf_ p))) as [[lh|]|] eqn:E; [|done|done].
  rewrite (length_after_extend _ _ _ Hne E). intros H.
  apply run_bind_Ret in H as (p1 & Hc & H). fold (extend_parser bs p).
  rewrite (parser_consume_extend _ _ _ Hc). cbn [mbind run_bind].
  apply run_bind_Ret in H as ([p2 r] & Hs & H). destruct r as [s|]; [|done].
  rewrite (start_container_extend _ _ _ _ _ Hs). by injection H as <- <-.
Qed.

Lemma parse_attribute_extend p' st :
  data_bytes (buf_ p) <> [] -> parse_attribute p = Ret (p', Val (Some st)) ->
  parse_attribute (extend_parser bs p) = Ret (extend_parser bs p', Val (Some st)).
Proof.
  intros Hne. unfold parse_attribute. cbn [extend_parser set_buf buf_ limits_].
  rewrite data_extend by done.
  destruct (parse_length_after_type (limits_ p) (data_bytes (buf_ p))) as [[lh|]|] eqn:E; [|done|done].
  rewrite (length_after_extend _ _ _ Hne E). intros H.
  apply run_bind_Ret in H as (p1 & Hc & H). fold (extend_parser bs p).
  rewrite (parser_consume_extend _ _ _ Hc). cbn [mbind run_bind].
  unfold start_attribute in *. cbn [extend_parser set_buf limits_].
  destruct (_ <? _); [done|]. destruct (_ <? _); [done|].
  destruct (_ =? 0); [by injection H as <- <-|]. destruct (negb _); [done|].
  by injection H as <- <-.
Qed.

Lemma parse_value_extend p' st :
  small p -> parse_value p = Ret (p', Val (Some st)) ->
  parse_value (extend_parser bs p) = Ret (extend_parser bs p', Val (Some st)).
Proof.
  intros Hsm. unfold parse_value. cbn [extend_parser set_buf buf_ stack_].
  destruct (assert _) as [u|]; [|done]. cbn [mbind run_bind].
  rewrite data_extend by done. destruct (data_bytes (buf_ p)) as [|c d] eqn:Ed; [done|].
  assert (data_bytes (buf_ p) <> []) as Hne by (by rewrite Ed). cbn [app].
  destruct (prefix_to_kind c) as [k|]; [|done]. fold (extend_parser bs p).
  destruct k; auto using parse_line_extend, parse_bulk_extend, parse_null_extend,
    parse_boolean_extend, parse_container_extend, parse_attribute_extend.
Qed.

End value.

End extend.

(** ** The loop on more bytes *)

Section resume.

Context (bs : bytes).

Lemma parser_attach_extend p idx p' r :
  parser_attach p idx = Ret (p', r) ->
  parser_attach (extend_parser bs p) idx = Ret (extend_parser bs p', r).
Proof.
  unfold parser_attach. cbn [extend_parser set_buf stack_ tree_ pending_attrs_]. intros H.
  apply run_bind_Ret in H as ([[[s t] pa] r'] & -> & [= <- <-]). done.
Qed.

Lemma parse_step_extend p p' :
  buffer_wf (buf_ p) -> small p -> parse_step p = Ret (inl p') ->
  parse_step (extend_parser bs p) = Ret (inl (extend_parser bs p')).
Proof.
  intros Hwf Hsm. unfold parse_step. cbn [extend_parser set_buf stack_].
  destruct (stack_ p) as [|f s] eqn:Hs; [done|]. destruct (state f); try (by intros [= <-]; rewrite <- ?Hs).
  fold (extend_parser bs p). intros H. apply run_bind_Ret in H as ([p1 r] & Hv & H).
  destruct r as [[st|]|]; try done.
  rewrite (parse_value_extend bs p Hwf p1 st Hsm Hv). cbn [mbind run_bind].
  destruct st as [|idx]; [by injection H as <-|].
  apply run_bind_Ret in H as ([p2 r2] & Ha & H).
  change (set_stack (tail (stack_ (extend_parser bs p1))) (extend_parser bs p1))
    with (extend_parser bs (set_stack (tail (stack_ p1)) p1)).
  rewrite (parser_attach_extend _ _ _ _ Ha). cbn [mbind run_bind].
  destruct r2 as [[|root]|]; try done. by injection H as <-.
Qed.

Lemma fits_same p p' : same_input p p' -> fits bs (buf_ p) -> fits bs (buf_ p').
Proof. unfold fits. intros (-> & _ & -> & _). done. Qed.

(** A call that needs more bytes has made some turns, which it also makes
    when the bytes are there. *)
Lemma parse_loop_none fuel : forall p closed p',
  live p closed -> small p -> failed_ p = false -> tree_ready_ p = false ->
  parse_loop fuel p = Ret (p', Val None) ->
  exists q, iter_n parse_step q (extend_parser bs p) = Ret (inl (extend_parser bs p')).
Proof.
  induction fuel as [|fuel IH]; intros p closed p' Hlive Hsm Hf Hr H; [done|].
  cbn [parse_loop] in H.
  destruct (parse_step_outcome p closed Hlive Hsm Hf Hr) as (x & Hx & Hout).
  rewrite Hx in H. cbn [mbind run_bind] in H. destruct x as [p1|[p1 res]].
  - destruct Hout as (Hsame & (cl & Hlive1) & Hf1 & Hr1 & _).
    destruct (IH p1 cl p' Hlive1 (small_same _ _ Hsame Hsm) Hf1 Hr1 H)
      as (q & Hq).
    exists (1 + q)%nat. eapply iter_n_trans; [|exact Hq]. rewrite iter_n_1.
    apply parse_step_extend; try done. apply Hlive.
  - injection H as -> ->. exists 0%nat. cbn [iter_n]. do 2 f_equal.
    unfold parse_step in Hx. pose proof (lv_shape _ _ Hlive) as Hsh.
    destruct (stack_ p) as [|f s] eqn:Hs; [done|].
    destruct (state f) eqn:Hst; try done.
    destruct (parse_value_outcome p closed Hlive Hsm) as (p2 & r & Hv & _ & _ & _ & _ & Hr2); [by eauto|].
    rewrite Hv in Hx. cbn [mbind run_bind] in Hx.
    destruct r as [[[|idx]|]|]; try done; [|by injection Hx as <-; rewrite Hr2].
    apply run_bind_Ret in Hx as ([p3 r3] & _ & Hx). by destruct r3 as [[|]|].
Qed.

(** Two runs of the loop through the same state have the same end. *)
Lemma parse_loop_join p p' q fuel fuel' x x' :
  iter_n parse_step q p = Ret (inl p') ->
  parse_loop fuel p = Ret x -> parse_loop fuel' p' = Ret x' -> x = x'.
Proof.
  rewrite !parse_loop_iter. intros Hq H H'.
  apply run_bind_Ret in H as ([|y] & H & [= ->]). apply run_bind_Ret in H' as ([|y'] & H' & [= ->]).
  pose proof (iter_n_trans _ q fuel' _ _ _ Hq H') as H2.
  pose proof (iter_n_more _ _ (fuel + (q + fuel')) _ _ H ltac:(lia)) as H3.
  pose proof (iter_n_more _ _ (fuel + (q + fuel')) _ _ H2 ltac:(lia)) as H4. congruence.
Qed.

Lemma extend_fed p : buffer_wf (buf_ p) -> fits bs (buf_ p) -> fed (buf_ p) bs (extend bs (buf_ p)).
Proof.
  intros Hwf Hfit. split; [by apply extend_wf|]. split; [by apply data_extend|].
  split; [done|]. split; [done|]. left. unfold fits in Hfit. destruct Hwf as (? & ? & ?).
  split; [done|]. split; [by apply length_blit|]. unfold extend, blit. cbn [buffer_].
  rewrite take_app_le, take_take, Nat.min_id by (rewrite length_take; lia). done.
Qed.

(** The parser that is ready to go on. *)
Definition started (p : parser) : parser :=
  match stack_ p with [] => set_stack [value_frame] p | _ => p end.

Lemma started_live p :
  parser_inv p -> failed_ p = false -> tree_ready_ p = false -> exists closed, live (started p) closed.
Proof.
  intros (Hwf & Hcase) Hf Hr. unfold started.
  destruct Hcase as [|[(_ & root & Hp & _)|(_ & _ & [Hidle|(cl & Hlive)])]]; [congruence|congruence| |].
  - pose proof Hidle as (-> & _). exists []. by apply idle_live.
  - pose proof (lv_shape _ _ Hlive). destruct (stack_ p) eqn:Hs; [done|]. eauto.
Qed.

Lemma parse_one_started p :
  failed_ p = false -> tree_ready_ p = false -> parse_one p = parse_loop (parse_fuel p) (started p).
Proof.
  intros Hf Hr. unfold parse_one, started. rewrite Hf, Hr. by destruct (stack_ p).
Qed.

Lemma parse_one_returns p :
  parser_inv p -> small p -> failed_ p = false -> tree_ready_ p = false ->
  exists x, parse_loop (parse_fuel p) (started p) = Ret x.
Proof.
  intros Hinv Hsm Hf Hr. rewrite <- parse_one_started by done.
  destruct (parse_one_inv p Hinv Hsm) as (p' & res & -> & _). eauto.
Qed.

Lemma parse_one_resume p p' :
  parser_inv p -> small p -> fits bs (buf_ p) -> parse_one p = Ret (p', Val None) ->
  parse_one (extend_parser bs p') = parse_one (extend_parser bs p).
Proof.
  intros Hinv Hsm Hfit H.
  assert (failed_ p = false /\ tree_ready_ p = false) as [Hf Hr].
  { unfold parse_one in H. destruct (tree_ready_ p); [done|]. by destruct (failed_ p). }
  destruct (parse_one_inv p Hinv Hsm) as (p2 & res & Heq & Hsame & Hinv' & Hrdy).
  rewrite H in Heq. injection Heq as <- <-.
  rewrite parse_one_started in H by done. destruct (started_live p Hinv Hf Hr) as (cl & Hlive).
  assert (small (started p) /\ failed_ (started p) = false /\
    tree_ready_ (started p) = false /\ extend_parser bs (started p) = started (extend_parser bs p))
    as (Hsm1 & Hf1 & Hr1 & Hext) by (unfold started; cbn; by destruct (stack_ p)).
  destruct (parse_loop_none _ _ cl p' Hlive Hsm1 Hf1 Hr1 H) as (q & Hq).
  destruct (parse_loop_outcome (parse_fuel p) (started p) cl Hlive Hsm1 Hf1 Hr1) as
    (p3 & res3 & Heq3 & Hs3 & Hwf3 & Hres3).
  { pose proof (turns_fuel (started p)) as Ht. unfold started, parse_fuel in *.
    destruct (stack_ p); apply Ht; apply Hinv. }
  rewrite H in Heq3. injection Heq3 as <- <-. destruct Hres3 as (Hf' & Hr' & cl' & Hlive').
  assert (started (extend_parser bs p') = extend_parser bs p') as Hst'.
  { unfold started. cbn [extend_parser set_buf stack_]. pose proof (lv_shape _ _ Hlive').
    by destruct (stack_ p'). }
  assert (forall x, parser_inv x -> fits bs (buf_ x) -> small x -> failed_ x = false -> tree_ready_ x = false ->
    exists y, parse_loop (parse_fuel (extend_parser bs x)) (started (extend_parser bs x)) = Ret y) as Hret.
  { intros x Hix Hfx Hsx Hfx' Hrx. apply parse_one_returns; try done.
    - pose proof (extend_fed x (proj1 Hix) Hfx) as Hfed. destruct Hix as (Hwx & Hcx).
      split; [apply Hfed|]. right. right. split; [done|]. split; [done|].
      destruct Hcx as [|[(_ & root & Hp & _)|(_ & _ & [?|(c & ?)])]]; [congruence|congruence|by left|].
      right. exists c. by eapply live_fed.
    - unfold small, extend_parser, extend, fits in *. cbn [set_buf buf_ buffer_]. unfold zlen.
      rewrite length_blit by lia. done. }
  rewrite !parse_one_started by done. rewrite Hst'.
  destruct (Hret p Hinv Hfit Hsm Hf Hr) as (y & Hy).
  destruct (Hret p' Hinv' (fits_same _ _ Hsame Hfit) (small_same _ _ Hsame Hsm) Hf' Hr') as (y' & Hy').
  rewrite Hst' in Hy'. rewrite Hy, Hy'. f_equal. symmetry.
  eapply (parse_loop_join (started (extend_parser bs p))); [|exact Hy|exact Hy'].
  rewrite <- Hext. exact Hq.
Qed.

End resume.
