(* ===== verification/ParserPrefix.v ===== *)
(** * Incomplete values

    The bytes of a value arrive in pieces, so [parse_one] mostly sees only the
    start of one.  On a strict prefix of a value it asks for more bytes: it
    neither reports a value nor an error.  The values are those whose lines
    stay below the limit [max_resp_line_bytes]: a line of exactly that many
    bytes is an error when the read ends between its CR and its LF, see
    [line_limit_depends_on_split].

    The proof runs the parser on the prefix beside a parser on the whole value
    that is one byte stricter about lines: what is an error on the prefix is
    an error of the stricter parser on the whole. *)

From S2P Require Import Prelude Kind Errors Charconv Buffer Message Parser Builder ParserInv.
From S2P Require Import ParserSafety BuilderSpec ParserViews Wire WireParse ParserResume.

(** ** Stricter limits *)

Definition set_limits (l : limits) (p : parser) : parser :=
  mk_parser (buf_ p) (tree_ p) (stack_ p) (failed_ p) (tree_ready_ p) (pending_attrs_ p) l.

(** Lines one byte shorter. *)
Definition tighten (l : limits) : limits :=
  mk_limits (max_resp_bulk_bytes l) (max_resp_container_len l) (max_resp_line_bytes l - 1).

Lemma header_ok_relax l h n : header_ok (tighten l) h n = true -> header_ok l h n = true.
Proof.
  unfold header_ok, tighten. cbn [max_resp_line_bytes]. intros H. bool_prop.
  rewrite !bool_decide_true by done. rewrite (proj2 (Z.leb_le _ _)) by lia. done.
Qed.

Lemma scalar_wf_relax l s : scalar_wf (tighten l) s = true -> scalar_wf l s = true.
Proof.
  destruct s as [k line| |b|k h payload|k h]; cbn [scalar_wf]; try done; intros H; bool_prop;
    cbn [tighten max_resp_line_bytes max_resp_bulk_bytes max_resp_container_len] in *;
    try (rewrite header_ok_relax by done); repeat (apply andb_true_iff; split); try done;
    rewrite ?bool_decide_true by done; solve [done | lia].
Qed.

Lemma count_ok_relax l k h n : count_ok (tighten l) k h n = true -> count_ok l k h n = true.
Proof.
  unfold count_ok. cbn [tighten max_resp_container_len]. intros H. bool_prop. rewrite header_ok_relax by done.
  by repeat (apply andb_true_iff; split; [|done || lia]).
Qed.

Lemma wf_relax l w : wf (tighten l) w = true -> wf l w = true.
Proof.
  assert (forall ws, Forall (fun w => wf (tighten l) w = true -> wf l w = true) ws ->
    forallb (wf (tighten l)) ws = true -> forallb (wf l) ws = true) as Hall.
  { intros ws. induction 1 as [|x ws Hx _ IH]; [done|]. cbn [forallb]. intros H. bool_prop. by rewrite Hx, IH. }
  induction w as [s|k h ws IH|h ws w IHl IH] using wire_ind'; cbn [wf]; [apply scalar_wf_relax| |]; intros H; bool_prop.
  - by rewrite count_ok_relax, Hall by done; apply andb_true_iff; split; [apply andb_true_iff|].
  - by rewrite count_ok_relax, Hall, IH.
Qed.

(** The result of a reader under stricter limits: the same, or an error. *)
Definition stricter (l : limits) (p' : parser) (x : expected (option step_index) protocol_errc)
    (r : run (parser * expected (option step_index) protocol_errc)) : Prop :=
  r = Ret (set_limits l p', x) \/ exists p'' e, r = Ret (p'', Unexpected e).

Lemma stricter_error l p' x p'' e : stricter l p' x (Ret (p'', Unexpected e)).
Proof. right. eauto. Qed.

#[local] Hint Resolve stricter_error : core.

Lemma finish_scalar_limits l n nd p p' r :
  finish_scalar n nd p = Ret (p', r) -> finish_scalar n nd (set_limits l p) = Ret (set_limits l p', r).
Proof.
  unfold finish_scalar, parser_consume, push_node. cbn [set_limits buf_ tree_ pending_attrs_].
  destruct (consume _ _) as [b|]; [|done]. cbn [mbind run_bind set_buf set_limits tree_ pending_attrs_].
  destruct (pending_attach _ _ _) as [[pa t]|]; [|done]. cbn [mbind run_bind]. by intros [= <- <-].
Qed.

Lemma length_tighten l d x :
  parse_length_after_type l d = x ->
  parse_length_after_type (tighten l) d = x \/ exists e, parse_length_after_type (tighten l) d = Unexpected e.
Proof.
  unfold parse_length_after_type. cbn [tighten max_resp_line_bytes]. intros <-.
  destruct (find_crlf _) as [pos|].
  - destruct (_ - 1 <? _) eqn:E1; [eauto|]. bool_prop. rewrite (proj2 (Z.ltb_ge _ _)) by lia. auto.
  - destruct (_ - 1 <? _) eqn:E1; [eauto|]. bool_prop. rewrite (proj2 (Z.ltb_ge _ _)) by lia. auto.
Qed.

Lemma start_container_limits l k len p p' r :
  l = tighten (limits_ p) -> start_container k len p = Ret (p', r) ->
  start_container k len (set_limits l p) = Ret (set_limits l p', r).
Proof.
  intros ->. unfold start_container, push_node. cbn [set_limits limits_ tree_ pending_attrs_ tighten max_resp_container_len].
  destruct (_ <? _); [by intros [= <- <-]|]. destruct (_ <? _); [by intros [= <- <-]|].
  destruct (_ =? -1).
  { destruct (pending_attach _ _ _) as [[pa t]|]; [|done]. cbn [mbind run_bind]. by intros [= <- <-]. }
  destruct (negb _); [by intros [= <- <-]|].
  destruct (pending_attach _ _ _) as [[pa t]|]; [|done]. cbn [mbind run_bind].
  destruct (_ =? 0); by intros [= <- <-].
Qed.

Section tighten.

Context (p p' : parser) (x : expected (option step_index) protocol_errc).

#[local] Abbreviation l := (tighten (limits_ p)).

Lemma parse_null_tighten : parse_null p = Ret (p', x) -> stricter l p' x (parse_null (set_limits l p)).
Proof.
  unfold parse_null. cbn [set_limits buf_]. intros H. destruct (_ <? _)%nat; [left; by injection H as <- <-|].
  destruct (_ || _); [done|]. left. by apply finish_scalar_limits.
Qed.

Lemma parse_boolean_tighten : parse_boolean p = Ret (p', x) -> stricter l p' x (parse_boolean (set_limits l p)).
Proof.
  unfold parse_boolean. cbn [set_limits buf_]. intros H. destruct (_ <? _)%nat; [left; by injection H as <- <-|].
  destruct (_ || _); [done|]. destruct (bool_decide _); [left; by apply finish_scalar_limits|].
  destruct (bool_decide _); [left; by apply finish_scalar_limits|done].
Qed.

Lemma parse_line_tighten k : parse_line k p = Ret (p', x) -> stricter l p' x (parse_line k (set_limits l p)).
Proof.
  unfold parse_line. cbn [set_limits buf_ limits_ tighten max_resp_line_bytes]. intros H.
  destruct (find_crlf _) as [pos|]; (destruct (_ - 1 <? _) eqn:E1; [done|]; bool_prop;
    rewrite (proj2 (Z.ltb_ge _ _)) in H by lia).
  - destruct k; try done; try (left; by apply finish_scalar_limits).
    + destruct (parse_i64 _); [left; by apply finish_scalar_limits|done].
    + destruct (parse_double _); [left; by apply finish_scalar_limits|done].
  - left. by injection H as <- <-.
Qed.

Lemma parse_bulk_tighten k : parse_bulk k p = Ret (p', x) -> stricter l p' x (parse_bulk k (set_limits l p)).
Proof.
  unfold parse_bulk. cbn [set_limits buf_ limits_]. intros H.
  destruct (length_tighten (limits_ p) (data_bytes (buf_ p)) _ eq_refl) as [->|[e ->]]; [|done].
  destruct (parse_length_after_type _ _) as [[lh|]|e]; [|left; by injection H as <- <-|done].
  destruct (_ <? -1); [done|]. cbn [tighten max_resp_bulk_bytes]. destruct (exceeds_i64_limit _ _); [done|].
  destruct (_ =? -1); [left; by apply finish_scalar_limits|]. destruct (size_max <? _); [done|].
  destruct (_ <? _); [left; by injection H as <- <-|]. destruct (negb _); [done|].
  destruct (_ && _); [done|]. left. by apply finish_scalar_limits.
Qed.

Lemma parse_container_tighten k :
  parse_container k p = Ret (p', x) -> stricter l p' x (parse_container k (set_limits l p)).
Proof.
  unfold parse_container, parser_consume. cbn [set_limits buf_ limits_]. intros H.
  destruct (length_tighten (limits_ p) (data_bytes (buf_ p)) _ eq_refl) as [->|[e ->]]; [|done].
  destruct (parse_length_after_type _ _) as [[lh|]|e]; [|left; by injection H as <- <-|done].
  destruct (consume _ _) as [b|]; [|done]. cbn [mbind run_bind] in *.
  apply run_bind_Ret in H as ([p2 r] & Hs & H).
  change (set_buf b (set_limits l p)) with (set_limits l (set_buf b p)).
  rewrite (start_container_limits l _ _ (set_buf b p) _ _ eq_refl Hs). cbn [mbind run_bind].
  destruct r as [s|e]; [|done]. left. by injection H as <- <-.
Qed.

Lemma parse_attribute_tighten :
  parse_attribute p = Ret (p', x) -> stricter l p' x (parse_attribute (set_limits l p)).
Proof.
  unfold parse_attribute, parser_consume. cbn [set_limits buf_ limits_]. intros H.
  destruct (length_tighten (limits_ p) (data_bytes (buf_ p)) _ eq_refl) as [->|[e ->]]; [|done].
  destruct (parse_length_after_type _ _) as [[lh|]|e]; [|left; by injection H as <- <-|done].
  destruct (consume _ _) as [b|]; [|done]. cbn [mbind run_bind] in *. unfold start_attribute in *.
  cbn [set_limits set_buf limits_ tighten max_resp_container_len] in *.
  destruct (_ <? 0); [done|]. destruct (_ <? _); [done|]. destruct (_ =? 0); [left; by injection H as <- <-|].
  destruct (negb _); [done|]. left. by injection H as <- <-.
Qed.

Lemma parse_value_tighten : parse_value p = Ret (p', x) -> stricter l p' x (parse_value (set_limits l p)).
Proof.
  unfold parse_value. cbn [set_limits buf_ stack_]. destruct (assert _) as [u|]; [|done]. cbn [mbind run_bind].
  destruct (data_bytes (buf_ p)) as [|c d]; [by intros [= <- <-]; left|].
  destruct (prefix_to_kind c) as [k|]; [|done]. fold (set_limits l p).
  destruct k; auto using parse_line_tighten, parse_bulk_tighten, parse_null_tighten,
    parse_boolean_tighten, parse_container_tighten, parse_attribute_tighten.
Qed.

End tighten.

(** ** Errors on a prefix *)

(** The first CR LF appears at the seam or behind it. *)
Lemma find_crlf_seam d bs pos :
  find_crlf d = None -> find_crlf (d ++ bs) = Some pos -> (length d <= pos + 1)%nat.
Proof.
  intros Hn Hs. destruct (decide (pos + 2 <= length d)%nat) as [Hle|]; [|lia]. exfalso.
  destruct (find_crlf_Some _ _ Hs) as (Heq & _ & Hno). rewrite take_app_le in Heq, Hno by lia.
  rewrite drop_app_le in Heq by lia. apply (f_equal (take (length d))) in Heq.
  rewrite take_app_length, !app_assoc, take_app_le in Heq.
  - rewrite take_ge in Heq; [|rewrite <- app_assoc, !length_app, length_take, length_drop; simpl; lia].
    rewrite Heq, <- app_assoc, find_crlf_app in Hn by done. discriminate Hn.
  - rewrite !length_app, length_take, length_drop. simpl. lia.
Qed.

Section errors.

Context (bs : bytes).

(** The parser on all the bytes, one byte stricter about lines. *)
Definition strict_whole (p : parser) : parser := set_limits (tighten (limits_ p)) (extend_parser bs p).

Definition is_error (r : run (parser * expected (option step_index) protocol_errc)) : Prop :=
  exists p' e, r = Ret (p', Unexpected e).

Lemma is_error_intro p e : is_error (Ret (p, Unexpected e)).
Proof. unfold is_error. eauto. Qed.

#[local] Hint Resolve is_error_intro : core.

Lemma length_error l d e :
  d <> [] -> parse_length_after_type l d = Unexpected e ->
  exists e', parse_length_after_type (tighten l) (d ++ bs) = Unexpected e'.
Proof.
  unfold parse_length_after_type. intros Hd H. destruct d as [|c d]; [done|]. rewrite drop_1_cons_app.
  change (drop 1 (c :: d)) with d in H. cbn [tighten max_resp_line_bytes].
  destruct (find_crlf d) as [pos|] eqn:E.
  - rewrite (find_crlf_extend _ _ bs E). apply find_crlf_Some in E as (_ & Hlen & _).
    rewrite take_app_le by lia. destruct (_ - 1 <? _) eqn:E1; [eauto|]. bool_prop.
    rewrite (proj2 (Z.ltb_ge _ _)) in H by lia. destruct (parse_i64 _); [done|eauto].
  - destruct (_ <? zlen d) eqn:E1; [|done]. bool_prop.
    destruct (find_crlf (d ++ bs)) as [pos|] eqn:E2.
    + apply find_crlf_seam in E2; [|done]. rewrite (proj2 (Z.ltb_lt _ _)) by (unfold zlen in *; lia). eauto.
    + rewrite (proj2 (Z.ltb_lt _ _)) by (rewrite zlen_app; pose proof (zlen_nonneg bs); lia). eauto.
Qed.

(** A header that was read is read, or is an error. *)
Lemma length_strict l d lh :
  d <> [] -> parse_length_after_type l d = Val (Some lh) ->
  parse_length_after_type (tighten l) (d ++ bs) = Val (Some lh) \/
  exists e, parse_length_after_type (tighten l) (d ++ bs) = Unexpected e.
Proof. intros Hd H. apply length_tighten. by apply length_after_extend. Qed.

Lemma finish_scalar_value n nd p p' e : finish_scalar n nd p <> Ret (p', Unexpected e).
Proof.
  unfold finish_scalar. intros H. apply run_bind_Ret in H as (p1 & _ & H).
  by apply run_bind_Ret in H as ([p2 idx] & _ & [=]).
Qed.

Context (p p' : parser) (e : protocol_errc) (Hwf : buffer_wf (buf_ p)).

Lemma parse_null_error : parse_null p = Ret (p', Unexpected e) -> is_error (parse_null (strict_whole p)).
Proof.
  unfold parse_null. cbn [strict_whole set_limits extend_parser set_buf buf_]. rewrite data_extend by done. intros H.
  destruct (length (data_bytes (buf_ p)) <? 3)%nat eqn:E; [done|]. bool_prop.
  rewrite (proj2 (Nat.ltb_ge _ _)) by (rewrite length_app; lia). rewrite !byte_at_extend by lia.
  destruct (_ || _); [done|]. by apply finish_scalar_value in H.
Qed.

Lemma parse_boolean_error : parse_boolean p = Ret (p', Unexpected e) -> is_error (parse_boolean (strict_whole p)).
Proof.
  unfold parse_boolean. cbn [strict_whole set_limits extend_parser set_buf buf_]. rewrite data_extend by done. intros H.
  destruct (length (data_bytes (buf_ p)) <? 4)%nat eqn:E; [done|]. bool_prop.
  rewrite (proj2 (Nat.ltb_ge _ _)) by (rewrite length_app; lia). rewrite !byte_at_extend by lia.
  destruct (_ || _); [done|]. destruct (bool_decide _); [by apply finish_scalar_value in H|].
  destruct (bool_decide _); [by apply finish_scalar_value in H|done].
Qed.

Lemma parse_line_error k :
  data_bytes (buf_ p) <> [] -> parse_line k p = Ret (p', Unexpected e) -> is_error (parse_line k (strict_whole p)).
Proof.
  intros Hne. unfold parse_line. cbn [strict_whole set_limits extend_parser set_buf buf_ limits_ tighten max_resp_line_bytes].
  rewrite data_extend by done. destruct (data_bytes (buf_ p)) as [|c d] eqn:Ed; [done|].
  rewrite drop_1_cons_app. change (drop 1 (c :: d)) with d. destruct (find_crlf d) as [pos|] eqn:E.
  - rewrite (find_crlf_extend _ _ bs E). apply find_crlf_Some in E as (_ & Hlen & _).
    rewrite take_app_le by lia. destruct (_ - 1 <? _) eqn:E1; [done|]. bool_prop.
    rewrite (proj2 (Z.ltb_ge _ _)) by lia. intros H.
    destruct k; try done; try (by apply finish_scalar_value in H).
    + destruct (parse_i64 _); [by apply finish_scalar_value in H|done].
    + destruct (parse_double _); [by apply finish_scalar_value in H|done].
  - destruct (_ <? zlen d) eqn:E1; [|done]. bool_prop. intros _.
    destruct (find_crlf (d ++ bs)) as [pos|] eqn:E2.
    + apply find_crlf_seam in E2; [|done]. by rewrite (proj2 (Z.ltb_lt _ _)) by (unfold zlen in *; lia).
    + by rewrite (proj2 (Z.ltb_lt _ _)) by (rewrite zlen_app; pose proof (zlen_nonneg bs); lia).
Qed.

Lemma parse_bulk_error k :
  data_bytes (buf_ p) <> [] -> small p -> parse_bulk k p = Ret (p', Unexpected e) ->
  is_error (parse_bulk k (strict_whole p)).
Proof.
  intros Hne Hsm. unfold parse_bulk. cbn [strict_whole set_limits extend_parser set_buf buf_ limits_].
  rewrite data_extend by done.
  destruct (parse_length_after_type (limits_ p) (data_bytes (buf_ p))) as [[lh|]|e1] eqn:E; [|done|].
  2: { intros _. by destruct (length_error _ _ _ Hne E) as [e2 ->]. }
  destruct (length_strict _ _ _ Hne E) as [->|[e2 ->]]; [|done].
  pose proof (header_bytes_bound _ _ _ E ltac:(destruct (data_bytes (buf_ p)); [done|simpl; lia])) as Hh.
  pose proof (parse_length_range _ _ _ E) as Hr. cbn [tighten max_resp_bulk_bytes].
  destruct (lh_length lh <? -1) eqn:E1; [done|]. destruct (exceeds_i64_limit _ _); [done|].
  destruct (lh_length lh =? -1) eqn:E2; [intros H; by apply finish_scalar_value in H|]. bool_prop.
  assert (zlen (data_bytes (buf_ p)) <= u32_max) as Hdl.
  { unfold small in Hsm. unfold zlen in *. rewrite length_data_bytes by done.
    destruct Hwf as (? & ? & ?). lia. }
  rewrite bulk_need_exact by (unfold i64_max, u64_max, u32_max, zlen in *; lia).
  destruct (size_max <? _); [done|].
  destruct (zlen (data_bytes (buf_ p)) <? _) eqn:E3; [done|]. bool_prop.
  rewrite (proj2 (Z.ltb_ge _ _)) by (rewrite zlen_app; pose proof (zlen_nonneg bs); lia).
  rewrite !slice_extend by (unfold zlen in *; lia).
  destruct (negb _); [done|]. destruct (_ && _); [done|]. intros H. by apply finish_scalar_value in H.
Qed.

Lemma start_container_error k len q q' :
  start_container k len q = Ret (q', Unexpected e) ->
  exists q'' e', start_container k len (strict_whole q) = Ret (q'', Unexpected e').
Proof.
  unfold start_container. cbn [strict_whole set_limits extend_parser set_buf limits_ tighten max_resp_container_len].
  destruct (_ <? _); [eauto|]. destruct (_ <? _); [eauto|]. destruct (_ =? -1); intros H.
  { by apply run_bind_Ret in H as ([p1 idx] & _ & [=]). }
  destruct (negb _); [eauto|]. apply run_bind_Ret in H as ([p1 idx] & _ & H). by destruct (_ =? 0).
Qed.

Lemma parse_container_error k :
  data_bytes (buf_ p) <> [] -> parse_container k p = Ret (p', Unexpected e) ->
  is_error (parse_container k (strict_whole p)).
Proof.
  intros Hne. unfold parse_container. cbn [strict_whole set_limits extend_parser set_buf buf_ limits_].
  rewrite data_extend by done.
  destruct (parse_length_after_type (limits_ p) (data_bytes (buf_ p))) as [[lh|]|e1] eqn:E; [|done|].
  2: { intros _. by destruct (length_error _ _ _ Hne E) as [e2 ->]. }
  destruct (length_strict _ _ _ Hne E) as [->|[e2 ->]]; [|done]. intros H.
  apply run_bind_Ret in H as (p1 & Hc & H). unfold parser_consume in *. apply run_bind_Ret in Hc as (b & Hb & [= <-]).
  change (buf_ (strict_whole p)) with (extend bs (buf_ p)). rewrite (consume_extend bs _ _ _ Hb). cbn [mbind run_bind].
  apply run_bind_Ret in H as ([p2 r] & Hs & H). destruct r as [s|e2]; [done|]. injection H as -> ->.
  destruct (start_container_error _ _ _ _ Hs) as (q & e3 & Hq).
  change (strict_whole (set_buf b p)) with (set_buf (extend bs b) (strict_whole p)) in Hq. rewrite Hq. apply is_error_intro.
Qed.

Lemma parse_attribute_error :
  data_bytes (buf_ p) <> [] -> parse_attribute p = Ret (p', Unexpected e) ->
  is_error (parse_attribute (strict_whole p)).
Proof.
  intros Hne. unfold parse_attribute. cbn [strict_whole set_limits extend_parser set_buf buf_ limits_].
  rewrite data_extend by done.
  destruct (parse_length_after_type (limits_ p) (data_bytes (buf_ p))) as [[lh|]|e1] eqn:E; [|done|].
  2: { intros _. by destruct (length_error _ _ _ Hne E) as [e2 ->]. }
  destruct (length_strict _ _ _ Hne E) as [->|[e2 ->]]; [|done]. intros H.
  apply run_bind_Ret in H as (p1 & Hc & H). unfold parser_consume in *. apply run_bind_Ret in Hc as (b & Hb & [= <-]).
  change (buf_ (strict_whole p)) with (extend bs (buf_ p)). rewrite (consume_extend bs _ _ _ Hb). cbn [mbind run_bind].
  unfold start_attribute in *. cbn [strict_whole set_buf set_limits limits_ tighten max_resp_container_len] in *.
  destruct (_ <? 0); [done|]. destruct (_ <? _); [done|]. destruct (_ =? 0); [done|]. by destruct (negb _).
Qed.

Lemma parse_value_error :
  small p -> parse_value p = Ret (p', Unexpected e) -> is_error (parse_value (strict_whole p)).
Proof.
  intros Hsm. unfold parse_value. cbn [strict_whole set_limits extend_parser set_buf buf_ stack_].
  destruct (assert _) as [u|]; [|done]. cbn [mbind run_bind].
  rewrite data_extend by done. destruct (data_bytes (buf_ p)) as [|c d] eqn:Ed; [done|].
  assert (data_bytes (buf_ p) <> []) as Hne by (by rewrite Ed). cbn [app].
  destruct (prefix_to_kind c) as [k|]; [|done]. fold (extend_parser bs p). fold (strict_whole p).
  destruct k; auto using parse_line_error, parse_bulk_error, parse_null_error,
    parse_boolean_error, parse_container_error, parse_attribute_error.
Qed.

End errors.

(** ** The loop *)

(** One reader on the prefix and on the whole: unless it asks for more bytes,
    the same or an error; and an error is an error. *)
Lemma parse_value_strict bs p p' x :
  buffer_wf (buf_ p) -> small p -> parse_value p = Ret (p', x) -> x <> Val None ->
  limits_ p' = limits_ p ->
  parse_value (strict_whole bs p) = Ret (strict_whole bs p', x) /\ (exists st, x = Val (Some st)) \/
  is_error (parse_value (strict_whole bs p)).
Proof.
  intros Hwf Hsm H Hx Hl. destruct x as [[st|]|e]; [|done|right; by eapply parse_value_error].
  pose proof (parse_value_extend bs p Hwf p' st Hsm H) as He.
  destruct (parse_value_tighten _ _ _ He) as [Ht|Ht]; [left|by right].
  unfold strict_whole. rewrite Hl. split; [exact Ht|]. eauto.
Qed.

Lemma asks_or_not {A E} (r : expected (option A) E) : r = Val None \/ r <> Val None.
Proof. destruct r as [[|]|]; [by right|by left|by right]. Qed.

Section prefix.

Context (bs : bytes).

#[local] Abbreviation whole := (strict_whole bs).

Definition step_error (p : parser) : Prop :=
  exists p' e, parse_step p = Ret (inr (p', Unexpected e)).

Lemma parser_attach_whole p idx p' r :
  parser_attach p idx = Ret (p', r) -> parser_attach (whole p) idx = Ret (whole p', r).
Proof.
  unfold parser_attach. cbn [strict_whole set_limits extend_parser set_buf stack_ tree_ pending_attrs_]. intros H.
  apply run_bind_Ret in H as ([[[s t] pa] r'] & -> & [= <- <-]). done.
Qed.

Lemma parse_step_whole p closed x :
  live p closed -> small p -> failed_ p = false -> tree_ready_ p = false -> parse_step p = Ret x ->
  match x with
  | inl p' => parse_step (whole p) = Ret (inl (whole p')) \/ step_error (whole p)
  | inr (_, Val None) => True
  | inr (p', Val (Some root)) => parse_step (whole p) = Ret (inr (whole p', Val (Some root))) \/ step_error (whole p)
  | inr (_, Unexpected _) => step_error (whole p)
  end.
Proof.
  intros Hlive Hsm Hf Hr H. pose proof (lv_shape _ _ Hlive) as Hsh. unfold step_error, parse_step in *.
  change (stack_ (whole p)) with (stack_ p). destruct (stack_ p) as [|f s] eqn:Hs; [done|].
  destruct (state f) eqn:Hst; try (injection H as <-; left; by rewrite <- Hs).
  destruct (parse_value_outcome p closed Hlive Hsm) as (p1 & r & Hv & _ & (_ & _ & _ & Hl & _) & _); [by eauto|].
  rewrite Hv in H. cbn [mbind run_bind] in H.
  destruct (asks_or_not r) as [->|Hn]; [by injection H as <-|].
  destruct (parse_value_strict bs p p1 r (lv_buffer _ _ Hlive) Hsm Hv Hn Hl) as [[Hw [st ->]]|(p2 & e & Hw)].
  - rewrite Hw. cbn [mbind run_bind]. destruct st as [|idx]; [injection H as <-; by left|].
    apply run_bind_Ret in H as ([p2 r2] & Ha & H). apply parser_attach_whole in Ha.
    change (set_stack (tail (stack_ (whole p1))) (whole p1)) with (whole (set_stack (tail (stack_ p1)) p1)).
    rewrite Ha. cbn [mbind run_bind]. destruct r2 as [[|root]|e]; injection H as <-; eauto.
  - rewrite Hw. cbn [mbind run_bind]. destruct x as [|[p3 [[|]|]]]; eauto.
Qed.

(** The loop on the prefix, when it does not ask for more, and on the whole. *)
Lemma parse_loop_whole fuel : forall p closed p' x,
  live p closed -> small p -> failed_ p = false -> tree_ready_ p = false ->
  parse_loop fuel p = Ret (p', x) -> x <> Val None ->
  exists p'' y, parse_loop fuel (whole p) = Ret (p'', y) /\
    ((exists e, y = Unexpected e) \/ p'' = whole p' /\ y = x).
Proof.
  induction fuel as [|fuel IH]; intros p closed p' x Hlive Hsm Hf Hr H Hx; [done|]. cbn [parse_loop] in *.
  destruct (parse_step_outcome p closed Hlive Hsm Hf Hr) as (z & Hz & Hout).
  pose proof (parse_step_whole p closed z Hlive Hsm Hf Hr Hz) as Hw. rewrite Hz in H. cbn [mbind run_bind] in H.
  assert (step_error (whole p) -> exists p'' y, (r ← parse_step (whole p);
    match r with inl p1 => parse_loop fuel p1 | inr res => Ret res end) = Ret (p'', y) /\
    ((exists e, y = Unexpected e) \/ p'' = whole p' /\ y = x)) as Herr.
  { intros (p1 & e & ->). exists p1, (Unexpected e). split; [done|]. left. eauto. }
  destruct z as [p1|[p1 r]].
  - destruct Hout as (Hsame & (cl & Hlive1) & Hf1 & Hr1 & _). destruct Hw as [Hw|Hw]; [|by apply Herr].
    rewrite Hw. cbn [mbind run_bind]. by eapply (IH p1 cl); [|eapply small_same| | | |].
  - injection H as -> ->. destruct x as [[root|]|e]; [|done|by apply Herr].
    destruct Hw as [Hw|Hw]; [|by apply Herr]. rewrite Hw. cbn [mbind run_bind]. eexists _, _. split; [done|]. by right.
Qed.

End prefix.

Lemma whole_ready bs p :
  ready_for p -> zlen (buffer_ (extend bs (buf_ p))) <= u32_max -> ready_for (strict_whole bs p).
Proof.
  intros (Hi & Hf & Hr & Hwf & Hsm) Hle. repeat (split; [done|]). split; [by apply extend_wf|exact Hle].
Qed.

(** On a strict prefix of a value [parse_one] asks for more bytes. *)
Lemma prefix_needs_more p w d rest :
  ready_for p -> wf (tighten (limits_ p)) w = true -> data_bytes (buf_ p) = d ->
  encode w = d ++ rest -> rest <> [] -> zlen (buffer_ (extend rest (buf_ p))) <= u32_max ->
  exists p', parse_one p = Ret (p', Val None).
Proof.
  intros Hp Hw Hd Henc Hrest Hle. pose proof Hp as (Hi & Hf & Hr & Hwf & Hsm).
  destruct (parse_one_inv p (ready_inv p Hp) Hsm) as (p' & x & Hone & Hsame & [(Hle' & _) _] & _).
  destruct (asks_or_not x) as [->|Hn]; [by eauto|exfalso].
  pose proof (whole_ready rest p Hp Hle) as Hq.
  destruct (parse_one_value (strict_whole rest p) w [] Hq Hw) as (t' & pa' & root & Hwhole & _).
  { change (buf_ (strict_whole rest p)) with (extend rest (buf_ p)). by rewrite data_extend, Hd, app_nil_r. }
  rewrite parse_one_started in Hone, Hwhole by done. pose proof Hi as (Hs & _).
  assert (live (started p) []) as Hlive by (unfold started; rewrite Hs; by apply idle_live).
  assert (small (started p) /\ failed_ (started p) = false /\ tree_ready_ (started p) = false /\
    strict_whole rest (started p) = started (strict_whole rest p)) as (H1 & H2 & H3 & H4)
    by (unfold started; change (stack_ (strict_whole rest p)) with (stack_ p); by rewrite Hs).
  destruct (parse_loop_whole rest _ _ _ _ _ Hlive H1 H2 H3 Hone Hn) as (p2 & y & Hloop & Hy).
  rewrite H4 in Hloop. pose proof (parse_loop_join _ _ 0 _ _ _ _ eq_refl Hwhole Hloop) as Heq.
  injection Heq as <- <-. destruct Hy as [[e [=]]|[Hp2 _]].
  apply (f_equal (fun z => read_pos_ (buf_ z))) in Hp2. cbn in Hp2.
  destruct Hsame as (_ & _ & Hwp & _ & Hrp). destruct Hwf as (Hrw & _). apply (f_equal length) in Henc, Hd.
  rewrite length_app in Henc. rewrite length_data_bytes in Hd by apply Hp.
  destruct rest; [done|]. simpl in Henc. lia.
Qed.
