(* ===== verification/ParserTheorems.v ===== *)
(** * What holds of the parser and the builder

    The properties of [resp3/impl/parser.ipp] and [resp3/builder.hpp], from the
    lemmas of the previous files, and the inputs on which the code departs
    from what its comments say. *)

From S2P Require Import Prelude Kind Errors Charconv Buffer Message Parser Builder ParserInv.
From S2P Require Import ParserSafety BuilderSpec ParserViews Wire WireParse ParserResume ParserPrefix.

(** ** Inputs for the witnesses *)

Definition simple (s : string) : wire := Leaf (SLine kind.simple_string (s2b s)).
Definition number (s : string) : wire := Leaf (SLine kind.integer (s2b s)).
Definition bulk (h s : string) : wire := Leaf (SBulk kind.bulk_string (s2b h) (s2b s)).

Definition sample : wire :=
  Attr (s2b "1") [simple "ttl"; number "3600"]
    (Agg kind.map (s2b "2")
       [simple "k"; Agg kind.array (s2b "2") [bulk "5" "hello"; number "-7"];
        Leaf (SBulk kind.verbatim_string (s2b "8") (s2b "txt:body")); Leaf SNull]).

(** A parser that has read [bs] into a small buffer. *)
Definition small_parser (cap : nat) (bs : bytes) : parser :=
  mk_parser (mk_buffer (bs ++ replicate cap zero) 0 0 (length bs)) tree_reset [] false false
    pending_reset default_limits.

Lemma small_parser_ready cap bs :
  bs <> [] -> zlen bs + Z.of_nat cap <= u32_max -> ready_for (small_parser cap bs).
Proof.
  intros Hne Hsz. split; [done|]. split; [done|]. split; [done|]. split.
  - unfold buffer_wf, small_parser. cbn [buf_ read_pos_ write_pos_ buffer_]. rewrite length_app.
    destruct bs; [done|]. simpl. lia.
  - unfold small, small_parser, zlen in *. cbn [buf_ buffer_].
    rewrite length_app, length_replicate. lia.
Qed.

Lemma reachable_start bs :
  zlen bs <= 4096 -> exists p, reachable default_limits p /\ data_bytes (buf_ p) = bs /\ idle p /\
    failed_ p = false /\ tree_ready_ p = false.
Proof.
  intros Hbs. destruct (parser_new_inv default_limits) as [[Hwf _] Hsm].
  destruct (feed_spec (buf_ (parser_new default_limits)) 4096 bs Hwf) as (b' & Hb & Hfed & Hst);
    [lia|done|done|].
  exists (set_buf b' (parser_new default_limits)). split.
  - eapply (reach_feed _ (parser_new default_limits) 4096 bs); [constructor|done| |].
    + rewrite parser_feed_buf, Hb. done.
    + destruct Hfed as (_ & _ & _ & _ & [(_ & Hlen & _)|Hid]).
      * unfold small in *. cbn [set_buf buf_]. unfold zlen in *. by rewrite Hlen.
      * exfalso. cut (storage_id b' = storage_id (buf_ (parser_new default_limits))); [lia|].
        destruct (decide (storage_id b' = storage_id (buf_ (parser_new default_limits)))); [done|].
        exfalso. apply Hst in n. revert n. unfold parser_new, buffer_new, zlen. cbn [buf_ buffer_ write_pos_].
        rewrite length_replicate. unfold default_capacity. simpl. lia.
  - destruct Hfed as (_ & Hd & _). split; [|done]. cbn [set_buf buf_]. by rewrite Hd.
Qed.

(** ** Safety *)

(** C9: whatever bytes arrive, and in whatever order a parser is fed, read,
    reclaimed and reset, [parse_one] returns: no assertion fails, no [.at()]
    throws, the loop ends; the internal error codes (invalid_state,
    invalid_map_pairs) never occur; the buffer's bytes stay as they were and
    the read position only moves forward, within the written bytes. *)
Theorem parse_one_safe lims p :
  reachable lims p ->
  exists p' res, parse_one p = Ret (p', res) /\
    (forall e, res = Unexpected e ->
       e <> protocol_errc.invalid_state /\ e <> protocol_errc.invalid_map_pairs) /\
    buffer_ (buf_ p') = buffer_ (buf_ p) /\ write_pos_ (buf_ p') = write_pos_ (buf_ p) /\
    (read_pos_ (buf_ p) <= read_pos_ (buf_ p') <= write_pos_ (buf_ p'))%nat.
Proof.
  intros Hr. destruct (reachable_inv lims p Hr) as (Hinv & Hsm & _).
  destruct (parse_one_inv p Hinv Hsm) as (p' & res & Heq & (Hb & _ & Hw & _ & Hrp) & Hinv' & Hres).
  exists p', res. split; [done|]. split.
  { intros e ->. split; intros ->; destruct Hres as [[] _]. }
  split; [done|]. split; [done|]. split; [done|]. apply Hinv'.
Qed.

Lemma parse_one_safe_witness :
  exists p, reachable default_limits p /\ data_bytes (buf_ p) = s2b "*2" ++ crlf ++ s2b ":x" ++ crlf /\
    exists p' res, parse_one p = Ret (p', res) /\ buffer_ (buf_ p') = buffer_ (buf_ p).
Proof.
  destruct (reachable_start (s2b "*2" ++ crlf ++ s2b ":x" ++ crlf)) as (p & Hp & Hd & _);
    [vm_compute; discriminate|].
  exists p. split; [exact Hp|]. split; [exact Hd|].
  destruct (parse_one_safe default_limits p Hp) as (p' & res & H & _ & Hb & _).
  exists p', res. split; [exact H|exact Hb].
Defined.

(** C28: a completed value whose text still lies in the current storage is
    always turned into a message: [build_message] meets no assertion, no bad
    index and no dangling view, and ends; so [parse_one] followed by
    [build_message] returns on every reachable parser with live text. *)
Theorem parse_and_build_safe lims p :
  reachable lims p -> texts_live p -> exists p' r, parse_and_build p = Ret (p', r) /\ texts_live p'.
Proof.
  intros Hr Hl. destruct (reachable_inv lims p Hr) as (Hinv & Hsm & _).
  destruct (parse_and_build_inv p Hinv Hsm Hl) as (p' & r & Heq & _ & _ & Hl' & _). eauto.
Qed.

Lemma parse_and_build_safe_witness :
  exists p, reachable default_limits p /\ texts_live p /\ data_bytes (buf_ p) = encode sample /\
    exists p' r, parse_and_build p = Ret (p', r) /\ texts_live p'.
Proof.
  destruct (reachable_start (encode sample)) as (p & Hp & Hd & Hi & _); [vm_compute; discriminate|].
  exists p. split; [exact Hp|]. split; [apply idle_texts, Hi|]. split; [exact Hd|].
  exact (parse_and_build_safe default_limits p Hp (idle_texts p Hi)).
Defined.

(** C27: the explicit-stack traversal of [build_message] computes the recursive
    reading of the tree: on the tree of every completed parse with live text,
    it returns the message [read] gives. *)
Theorem build_message_is_read lims p p' root :
  reachable lims p -> texts_live p -> parse_one p = Ret (p', Val (Some root)) ->
  exists m, build_message (view_bytes (buf_ p')) (tree_ p') root = Ret m /\
    read (view_bytes (buf_ p')) (tree_ p') (length (nodes (tree_ p'))) root = Ret m.
Proof.
  intros Hr Hl Hone. destruct (reachable_inv lims p Hr) as (Hinv & Hsm & _).
  destruct (parse_one_inv p Hinv Hsm) as (p2 & res & Heq & Hsame & Hinv' & Hres).
  rewrite Hone in Heq. injection Heq as <- <-.
  pose proof (views_kept_parse_one _ _ _ Hone) as [_ Hkept].
  destruct (parsed_builds p' root (proj2 Hres) (proj1 Hinv') (small_same _ _ Hsame Hsm) (Hkept Hl))
    as (m & _ & Hb & Hrd & _).
  exists m. split; [done|]. apply Hrd. unfold zlen. lia.
Qed.

Lemma build_message_is_read_witness :
  exists p p' root m, reachable default_limits p /\ parse_one p = Ret (p', Val (Some root)) /\
    build_message (view_bytes (buf_ p')) (tree_ p') root = Ret m.
Proof.
  destruct (reachable_start (encode sample)) as (p & Hp & Hd & Hi & Hf & Hr); [vm_compute; discriminate|].
  destruct (reachable_inv default_limits p Hp) as ((Hwf & _) & Hsm & Hlim).
  destruct (parse_one_value p sample []) as (t' & pa' & root & Hone & _).
  { split; [exact Hi|]. split; [exact Hf|]. split; [exact Hr|]. split; [exact Hwf|exact Hsm]. }
  { rewrite Hlim. vm_compute. reflexivity. }
  { rewrite app_nil_r. exact Hd. }
  destruct (build_message_is_read default_limits p _ root Hp (idle_texts p Hi) Hone) as (m & Hm & _).
  eexists p, _, root, m. split; [exact Hp|]. split; [exact Hone|exact Hm].
Defined.

(** ** Values on the wire *)

(** C10: framing. On a parser between two values whose unread bytes start with
    the encoding of any well-formed value (nested containers and attributes
    included), [parse_one] completes that value and leaves exactly the bytes
    behind it, so the next value starts at its first byte. *)
Theorem parse_one_frames p w rest :
  ready_for p -> wf (limits_ p) w = true -> data_bytes (buf_ p) = encode w ++ rest ->
  exists p' root, parse_one p = Ret (p', Val (Some root)) /\ tree_ready_ p' = true /\
    data_bytes (buf_ p') = rest.
Proof.
  intros Hp Hok Hd. destruct (parse_one_value p w rest Hp Hok Hd) as (t' & pa' & root & Heq & _).
  eexists _, root. split; [exact Heq|]. split; [done|]. cbn [set_ready landed buf_].
  eapply data_advance; [apply Hp|done].
Qed.

Lemma parse_one_frames_witness :
  let p := small_parser 8 (encode sample ++ s2b "+next") in
  exists p' root, parse_one p = Ret (p', Val (Some root)) /\ tree_ready_ p' = true /\
    data_bytes (buf_ p') = s2b "+next".
Proof.
  apply (parse_one_frames _ sample).
  - apply small_parser_ready; vm_compute; discriminate.
  - vm_compute. reflexivity.
  - vm_compute. reflexivity.
Defined.

(** C11: round trip. A well-formed value whose nested values come first (only
    the first element of an array and the first entry of a map have nested
    values of their own, attributes have one entry and are not stacked) is
    parsed and built into exactly the message it encodes, and the bytes
    behind it are left. *)
Theorem parse_and_build_roundtrip p w rest :
  ready_for p -> wf (limits_ p) w = true -> tidy false w = true ->
  data_bytes (buf_ p) = encode w ++ rest ->
  exists p', parse_and_build p = Ret (p', Val (Some (denote None w))) /\
    data_bytes (buf_ p') = rest.
Proof. intros. by apply parse_and_build_value. Qed.

Definition tidy_sample : wire :=
  Attr (s2b "1") [simple "ttl"; number "3600"]
    (Agg kind.array (s2b "3")
       [Agg kind.map (s2b "1") [simple "k"; Agg kind.set (s2b "2") [bulk "5" "hello"; number "-7"]];
        Leaf (SBulk kind.verbatim_string (s2b "8") (s2b "txt:body")); Leaf SNull]).

Lemma parse_and_build_roundtrip_witness :
  let p := small_parser 8 (encode tidy_sample ++ s2b "+next") in
  exists p', parse_and_build p = Ret (p', Val (Some (denote None tidy_sample))) /\
    data_bytes (buf_ p') = s2b "+next".
Proof.
  apply (parse_and_build_roundtrip _ tidy_sample).
  - apply small_parser_ready; vm_compute; discriminate.
  - vm_compute. reflexivity.
  - vm_compute. reflexivity.
  - vm_compute. reflexivity.
Defined.

(** C25: resumption. When [parse_one] asks for more bytes and the next read fits
    the storage (no growth), calling it again gives exactly the result of one
    call on all the bytes: how the bytes are split between reads does not
    matter. *)
Theorem parse_one_resumes lims p p' m bs p2 :
  reachable lims p -> parse_one p = Ret (p', Val None) ->
  m <= zlen (buffer_ (buf_ p)) - Z.of_nat (write_pos_ (buf_ p)) -> fits bs (buf_ p) ->
  parser_feed p' m bs = Ret p2 ->
  exists p3, parser_feed p m bs = Ret p3 /\ parse_one p2 = parse_one p3.
Proof.
  intros Hr Hone Hm Hfit Hfeed. destruct (reachable_inv lims p Hr) as (Hinv & Hsm & _).
  destruct (parse_one_inv p Hinv Hsm) as (p4 & res & Heq & Hsame & Hinv' & _).
  rewrite Hone in Heq. injection Heq as <- <-.
  pose proof Hsame as (Hb & _ & Hw & _). rewrite parser_feed_buf in Hfeed.
  rewrite feed_extend in Hfeed; [|apply Hinv'|by eapply fits_same|by rewrite Hb, Hw].
  injection Hfeed as <-. exists (extend_parser bs p). split.
  - rewrite parser_feed_buf, feed_extend; [done|apply Hinv|done|done].
  - by apply (parse_one_resume bs).
Qed.

Lemma parse_one_resumes_witness :
  exists p p' p2 p3, reachable default_limits p /\ parse_one p = Ret (p', Val None) /\
    parser_feed p' 5 (s2b "hello") = Ret p2 /\ parser_feed p 5 (s2b "hello") = Ret p3 /\
    parse_one p2 = parse_one p3.
Proof.
  destruct (parser_with default_limits (s2b "*2" ++ crlf ++ s2b "$12" ++ crlf)) as [p|] eqn:Ep;
    [|vm_compute in Ep; discriminate Ep].
  assert (reachable default_limits p) as Hp.
  { eapply reach_feed; [constructor| |exact Ep|]; [vm_compute; done|].
    vm_compute in Ep. injection Ep as <-. vm_compute. discriminate. }
  destruct (parse_one p) as [[p' [[r|]|e]]|] eqn:Eo;
    try (exfalso; vm_compute in Ep; injection Ep as <-; vm_compute in Eo; discriminate Eo).
  destruct (parser_feed p' 5 (s2b "hello")) as [p2|] eqn:Ef;
    [|exfalso; vm_compute in Ep; injection Ep as <-; vm_compute in Eo; injection Eo as <-;
      vm_compute in Ef; discriminate Ef].
  destruct (parse_one_resumes default_limits p p' 5 (s2b "hello") p2 Hp Eo) as (p3 & H3 & H4).
  - vm_compute in Ep. injection Ep as <-. vm_compute. discriminate.
  - vm_compute in Ep. injection Ep as <-. unfold fits. apply Nat.leb_le. vm_compute. reflexivity.
  - exact Ef.
  - exists p, p', p2, p3. split; [exact Hp|]. split; [exact Eo|]. split; [exact Ef|]. split; [exact H3|exact H4].
Defined.

(** C26: a strict prefix of a well-formed value, nested or not, is not an error,
    and no value: [parse_one] asks for more bytes, wherever the prefix ends,
    when the lines of the value stay below the limit (a line of exactly the
    limit may fail, see [line_limit_depends_on_split]). *)
Theorem prefix_asks_for_more p w d rest :
  ready_for p -> wf (tighten (limits_ p)) w = true -> data_bytes (buf_ p) = d ->
  encode w = d ++ rest -> rest <> [] -> zlen (encode w) + Z.of_nat (read_pos_ (buf_ p)) <= u32_max ->
  exists p', parse_one p = Ret (p', Val None).
Proof.
  intros Hp Hw Hd Henc Hne Hsz. apply (prefix_needs_more p w d rest); try done.
  pose proof Hp as (_ & _ & _ & Hwf & Hsm). unfold small in Hsm.
  apply (f_equal length) in Hd. rewrite length_data_bytes in Hd by done. pose proof Hwf as (? & ? & ?).
  apply (f_equal length) in Henc. rewrite length_app in Henc.
  unfold extend, blit, zlen in *. cbn [buffer_]. rewrite !length_app, length_take, length_drop. lia.
Qed.

Definition cut_value : wire :=
  Agg kind.array (s2b "2") [Leaf (SLine kind.integer (s2b "7")); Leaf (SBulk kind.bulk_string (s2b "5") (s2b "hello"))].

Lemma prefix_asks_for_more_witness :
  Forall (fun n => exists p', parse_one (small_parser 40 (take n (encode cut_value))) = Ret (p', Val None)) (seq 1 18).
Proof.
  apply Forall_forall. intros n [Hpos Hn]%elem_of_seq.
  apply (prefix_asks_for_more (small_parser 40 (take n (encode cut_value))) cut_value (take n (encode cut_value))
    (drop n (encode cut_value))).
  - apply small_parser_ready.
    + intros Hd. apply (f_equal length) in Hd. rewrite length_take in Hd. vm_compute (length (encode cut_value)) in Hd. simpl in Hd. lia.
    + unfold zlen. rewrite length_take. unfold u32_max. lia.
  - vm_compute. reflexivity.
  - unfold small_parser, data_bytes. cbn [buf_ read_pos_ write_pos_ buffer_]. unfold slice. by rewrite Nat.sub_0_r, drop_0, take_app_length.
  - by rewrite take_drop.
  - intros Hd. apply (f_equal length) in Hd. rewrite length_drop in Hd. vm_compute (length (encode cut_value)) in Hd. simpl in Hd. lia.
  - vm_compute. discriminate.
Defined.

Lemma find_crlf_cr line : find_crlf line = None -> find_crlf (line ++ [CR]) = None.
Proof.
  induction line as [|c line IH]; [done|]. destruct line as [|d line].
  - intros _. cbn [app]. rewrite find_crlf_cons, decide_False by (by intros [_ [=]]). done.
  - rewrite find_crlf_cons. cbn [app]. rewrite find_crlf_cons. case_decide; [done|]. intros Hn.
    cbn [app] in IH. rewrite IH; [done|]. by destruct (find_crlf (d :: line)).
Qed.

(** A line of exactly [max_resp_line_bytes] bytes: read at once it is accepted,
    but when the read ends between its CR and its LF, the CR counts as a byte of
    the line and the reply is a protocol error, which closes the connection.  So
    the limit depends on how the network cuts the bytes. *)
Theorem line_limit_depends_on_split p1 p2 line :
  ready_for p1 -> ready_for p2 -> limits_ p2 = limits_ p1 ->
  find_crlf line = None -> zlen line = max_resp_line_bytes (limits_ p1) ->
  data_bytes (buf_ p1) = "+"%char :: line ++ crlf -> data_bytes (buf_ p2) = "+"%char :: line ++ [CR] ->
  (exists p root, parse_one p1 = Ret (p, Val (Some root))) /\
  (exists p, parse_one p2 = Ret (p, Unexpected protocol_errc.invalid_length)).
Proof.
  intros Hp1 Hp2 Hl Hno Hlen Hd1 Hd2. split.
  - destruct (parse_one_value p1 (Leaf (SLine kind.simple_string line)) [] Hp1) as (t & pa & root & Hone & _); [|by rewrite app_nil_r|eauto].
    cbn [wf scalar_wf]. rewrite bool_decide_true, (proj2 (Z.leb_le _ _)) by (done || lia). done.
  - pose proof Hp2 as ((Hs & _) & Hf & Hr & _). unfold parse_one. rewrite Hr, Hf, Hs.
    destruct (parse_fuel (set_stack [value_frame] p2)) as [|f] eqn:Ef; [unfold parse_fuel in Ef; lia|]. cbn [parse_loop].
    unfold parse_step, parse_value. cbn [set_stack stack_ state value_frame buf_ assert mbind run_bind]. rewrite bool_decide_true by done.
    cbn [assert mbind run_bind]. rewrite Hd2. change (prefix_to_kind "+"%char) with (Some kind.simple_string). cbn [parse_line].
    unfold parse_line. cbn [set_stack buf_ limits_]. rewrite Hd2. change (drop 1 ("+"%char :: line ++ [CR])) with (line ++ [CR]).
    rewrite (find_crlf_cr line Hno), Hl, zlen_app, (proj2 (Z.ltb_lt _ _)) by (change (zlen [CR]) with 1; lia).
    cbn [mbind run_bind]. eauto.
Qed.

(** ** Errors and reuse *)

(** Any use of a parser but [reset]. *)
Inductive continues (p : parser) : parser -> Prop :=
| cont_here : continues p p
| cont_feed q m bs q' : continues p q -> parser_feed q m bs = Ret q' -> continues p q'
| cont_parse q q' res : continues p q -> parse_one q = Ret (q', res) -> continues p q'
| cont_reclaim q q' : continues p q -> reclaim q = Ret q' -> continues p q'.

Lemma continues_failed p q :
  failed_ p = true -> tree_ready_ p = false -> continues p q ->
  failed_ q = true /\ tree_ready_ q = false.
Proof.
  intros Hf Hr. induction 1 as [|q m bs q' _ [IHf IHr] Hq|q q' res _ [IHf IHr] Hq|q q' _ [IHf IHr] Hq];
    [done| | |].
  - rewrite parser_feed_buf in Hq. apply run_bind_Ret in Hq as (b & _ & [= <-]). done.
  - unfold parse_one in Hq. rewrite IHf, IHr in Hq. by injection Hq as <- _.
  - unfold reclaim in Hq. apply run_bind_Ret in Hq as (b & _ & [= <-]). done.
Qed.

(** C37: a protocol error is final: from the call that reports an error of the
    input on, every later [parse_one] reports [parser_failed] and changes
    nothing, whatever is read or reclaimed in between, until [reset]; after
    [reset] the parser is empty and usable again. *)
Theorem protocol_error_is_final lims p p' e q :
  reachable lims p -> tree_ready_ p = false -> parse_one p = Ret (p', Unexpected e) ->
  continues p' q ->
  parse_one q = Ret (q, Unexpected protocol_errc.parser_failed) /\
  ready_for (parser_reset p').
Proof.
  intros Hr Hrdy Hone Hcont. destruct (reachable_inv lims p Hr) as (Hinv & Hsm & _).
  destruct (parse_one_inv p Hinv Hsm) as (p2 & res & Heq & Hsame & Hinv' & Hres).
  rewrite Hone in Heq. injection Heq as <- <-.
  assert (tree_ready_ p' = false /\ failed_ p' = true) as [Hr' Hf'].
  { destruct (failed_ p) eqn:Ef.
    - unfold parse_one in Hone. rewrite Hrdy, Ef in Hone. by injection Hone as <- _.
    - destruct e; try congruence; by destruct Hres as (_ & ? & ?). }
  destruct (continues_failed p' q Hf' Hr' Hcont) as [Hfq Hrq]. split.
  - unfold parse_one. by rewrite Hfq, Hrq.
  - destruct (reset_inv p' Hinv') as ((Hwf & _) & Hi & Hf & _).
    split; [done|]. split; [done|]. split; [done|]. split; [done|].
    exact (small_same _ _ Hsame Hsm).
Qed.

Lemma protocol_error_is_final_witness :
  exists p p' q, reachable default_limits p /\
    parse_one p = Ret (p', Unexpected protocol_errc.invalid_integer) /\ reclaim p' = Ret q /\
    parse_one q = Ret (q, Unexpected protocol_errc.parser_failed) /\ ready_for (parser_reset p').
Proof.
  destruct (parser_with default_limits (s2b ":1x" ++ crlf)) as [p|] eqn:Ep;
    [|vm_compute in Ep; discriminate Ep].
  assert (reachable default_limits p) as Hp.
  { eapply reach_feed; [constructor| |exact Ep|]; [vm_compute; done|].
    vm_compute in Ep. injection Ep as <-. vm_compute. discriminate. }
  destruct (parse_one p) as [[p' r]|] eqn:Eo;
    [|exfalso; vm_compute in Ep; injection Ep as <-; vm_compute in Eo; discriminate Eo].
  assert (r = Unexpected protocol_errc.invalid_integer /\ tree_ready_ p = false) as [-> Hrdy].
  { vm_compute in Ep. injection Ep as <-. vm_compute in Eo. injection Eo as _ <-. split; reflexivity. }
  destruct (reclaim p') as [q|] eqn:Eq;
    [|exfalso; vm_compute in Ep; injection Ep as <-; vm_compute in Eo; injection Eo as <-;
      vm_compute in Eq; discriminate Eq].
  exists p, p', q. split; [exact Hp|]. split; [exact Eo|]. split; [exact Eq|].
  apply (protocol_error_is_final default_limits p p' protocol_errc.invalid_integer q Hp Hrdy Eo).
  eapply cont_reclaim; [apply cont_here|exact Eq].
Defined.

(** [reclaim] on any reachable parser returns, keeps the unread bytes and
    the failure flag, and leaves no tree, no stack and no pending attributes:
    the next [parse_one] starts a new value at the first unread byte. *)
Theorem reclaim_keeps_unread lims p :
  reachable lims p ->
  exists p', reclaim p = Ret p' /\ data_bytes (buf_ p') = data_bytes (buf_ p) /\
    read_pos_ (buf_ p') = 0%nat /\ failed_ p' = failed_ p /\ idle p' /\ tree_ready_ p' = false.
Proof.
  intros Hr. destruct (reachable_inv lims p Hr) as (Hinv & _).
  destruct (reclaim_inv p Hinv) as (p' & Heq & _ & Hd & Hf & _ & Hi & Hrd).
  exists p'. split; [done|]. split; [done|]. split; [|done].
  unfold reclaim in Heq. apply run_bind_Ret in Heq as (b & Hb & [= <-]). cbn [buf_].
  destruct (compact_spec (buf_ p) (proj1 Hinv)) as (b' & Hb' & _ & _ & H0 & _). congruence.
Qed.

Lemma reclaim_keeps_unread_witness :
  exists p p', reachable default_limits p /\ data_bytes (buf_ p) = s2b "+a" /\ reclaim p = Ret p' /\
    data_bytes (buf_ p') = data_bytes (buf_ p).
Proof.
  destruct (reachable_start (s2b "+a")) as (p & Hp & Hd & _); [vm_compute; discriminate|].
  destruct (reclaim_keeps_unread default_limits p Hp) as (p' & H & Hd' & _).
  exists p, p'. split; [exact Hp|]. split; [exact Hd|]. split; [exact H|exact Hd'].
Defined.

(** ** Where the code departs from its comments *)

Definition parse_bytes (bs : bytes) : run (expected (option (message bytes)) protocol_errc) :=
  p ← parser_with default_limits bs;
  '(_, r) ← parse_and_build p;
  Ret r.

Definition int_msg (z : Z) : message bytes := message_of (resp3.integer z).
Definition str_msg (s : string) : message bytes := message_of (resp3.simple_string (s2b s)).

(** The children of a container are not always the values of the reply:
    the array [1, [2, 3]] is parsed as [1, 2].  [first_child] and
    [child_count] name a window of consecutive links, but the links of the
    inner array were pushed in between. *)
Theorem nested_array_is_misread :
  let w := Agg kind.array (s2b "2") [number "1"; Agg kind.array (s2b "2") [number "2"; number "3"]] in
  denote None w = message_of (resp3.array [int_msg 1; message_of (resp3.array [int_msg 2; int_msg 3])]) /\
  parse_bytes (encode w) = Ret (Val (Some (message_of (resp3.array [int_msg 1; int_msg 2])))).
Proof. split; vm_compute; reflexivity. Qed.

(** Attributes apply to the next node, not to the next completed value: of
    the attributes {a: 1, b: 2} of the value x, the first entry is attached to
    the key b, and x keeps only {b: 2}. *)
Theorem attributes_are_misplaced :
  let w := Attr (s2b "2") [simple "a"; number "1"; simple "b"; number "2"] (simple "x") in
  denote None w = mk_message (resp3.simple_string (s2b "x"))
    (Some [(str_msg "a", int_msg 1); (str_msg "b", int_msg 2)]) /\
  parse_bytes (encode w) = Ret (Val (Some (mk_message (resp3.simple_string (s2b "x"))
    (Some [(mk_message (resp3.simple_string (s2b "b")) (Some [(str_msg "a", int_msg 1)]),
            int_msg 2)])))).
Proof. split; vm_compute; reflexivity. Qed.

(** A value that is completed after the storage grew is read through
    dangling views: with the default buffer and [prepare()], an array whose
    first element arrived in the first read and whose second arrives in the
    second read cannot be built. *)
Theorem growth_leaves_dangling_views :
  (p0 ← parser_feed (parser_new default_limits) prepare_default
          (s2b "*2" ++ crlf ++ s2b "$5" ++ crlf ++ s2b "hello" ++ crlf);
   '(p1, r1) ← parse_one p0;
   _ ← assert (match r1 with Val None => true | _ => false end);
   p2 ← parser_feed p1 prepare_default (s2b "+x" ++ crlf);
   '(_, r2) ← parse_and_build p2;
   Ret r2) = Fault dangling_view.
Proof. vm_compute. reflexivity. Qed.
