(* ===== verification/Request.v ===== *)
(** * Requests ([include/rediscoro/request.hpp])

    The request builder: commands are appended to the wire buffer as RESP3
    arrays of bulk strings.  The theorems read a request's bytes back with
    the library's own parser. *)

From S2P Require Import Prelude Kind Errors Charconv Buffer Message Parser Builder ParserInv.
From S2P Require Import ParserSafety BuilderSpec ParserViews Wire WireParse ParserResume.

(** [class request]. *)
Record request : Set := mk_request { wire_ : bytes; command_count_ : Z }.

#[export] Instance request_eq_dec : EqDecision request.
Proof. solve_decision. Defined.

(** [request()]. *)
Definition request_new : request := mk_request [] 0.

Definition reply_count (r : request) : Z := command_count_ r.
Definition command_count (r : request) : Z := command_count_ r.
Definition request_empty (r : request) : bool := command_count_ r =? 0.

(** [clear()]. *)
Definition request_clear (r : request) : request := mk_request [] 0.

(** [wire_.append(s)] and [command_count_ += 1]. *)
Definition append (s : bytes) (r : request) : request := mk_request (wire_ r ++ s) (command_count_ r).
Definition count_command (r : request) : request := mk_request (wire_ r) (u64 (command_count_ r + 1)).

(** [append_unsigned(v)]: a 32-byte buffer. *)
Definition append_unsigned (v : Z) (r : request) : run request :=
  match to_chars 32 v with
  | Some s => Ret (append s r)
  | None => Fault assert_failed
  end.

(** [append_command_header(argc)]. *)
Definition append_command_header (argc : Z) (r : request) : run request :=
  r1 ← append_unsigned argc (append [kind_to_prefix kind.array] r);
  Ret (append crlf r1).

(** [append_bulk_string(sv)]. *)
Definition append_bulk_string (sv : bytes) (r : request) : run request :=
  r1 ← append_unsigned (zlen sv) (append [kind_to_prefix kind.bulk_string] r);
  Ret (append crlf (append sv (append crlf r1))).

(** The loop over the arguments. *)
Fixpoint append_bulk_strings (argv : list bytes) (r : request) : run request :=
  match argv with
  | [] => Ret r
  | sv :: argv' => r1 ← append_bulk_string sv r; append_bulk_strings argv' r1
  end.

(** [push(argv)], for the initializer list and the span. *)
Definition push_argv (argv : list bytes) (r : request) : run request :=
  r1 ← append_command_header (zlen argv) r;
  r2 ← append_bulk_strings argv r1;
  Ret (count_command r2).

(** [push(cmd)]. *)
Definition push_cmd (cmd : bytes) (r : request) : run request :=
  r1 ← append_command_header 1 r;
  r2 ← append_bulk_string cmd r1;
  Ret (count_command r2).

(** The argument types of the variadic [push]. *)
Inductive arg : Set :=
| arg_string (sv : bytes)
| arg_cstr (s : option bytes)
| arg_int (v : Z).

(** [append_arg(...)]: a null pointer is the empty string, an integer is
    printed into a 64-byte buffer. *)
Definition append_arg (a : arg) (r : request) : run request :=
  match a with
  | arg_string sv => append_bulk_string sv r
  | arg_cstr s => append_bulk_string (default [] s) r
  | arg_int v =>
    match to_chars 64 v with
    | Some s => append_bulk_string s r
    | None => Fault assert_failed
    end
  end.

Fixpoint append_args (args : list arg) (r : request) : run request :=
  match args with
  | [] => Ret r
  | a :: args' => r1 ← append_arg a r; append_args args' r1
  end.

(** [push(cmd, args...)]. *)
Definition push_args (cmd : bytes) (args : list arg) (r : request) : run request :=
  r1 ← append_command_header (1 + zlen args) r;
  r2 ← append_bulk_string cmd r1;
  r3 ← append_args args r2;
  Ret (count_command r3).

(** [request(cmd)], [request(argv)] and [request(cmd, args...)]. *)
Definition request_of_cmd (cmd : bytes) : run request := push_cmd cmd request_new.
Definition request_of_argv (argv : list bytes) : run request := push_argv argv request_new.
Definition request_of_args (cmd : bytes) (args : list arg) : run request := push_args cmd args request_new.

(** ** What a command looks like on the wire *)

Definition arg_bytes (a : arg) : bytes :=
  match a with
  | arg_string sv => sv
  | arg_cstr s => default [] s
  | arg_int v => print_Z v
  end.

Definition bulk_wire (sv : bytes) : wire := Leaf (SBulk kind.bulk_string (print_Z (zlen sv)) sv).
Definition command_wire (argv : list bytes) : wire :=
  Agg kind.array (print_Z (zlen argv)) (bulk_wire <$> argv).

(** The sizes a machine can hold. *)
Definition sizes_fit (argv : list bytes) : Prop :=
  zlen argv <= u64_max /\ Forall (fun sv => zlen sv <= u64_max) argv.

Definition arg_fits (a : arg) : Prop :=
  match a with arg_int v => i64_min <= v <= u64_max | _ => zlen (arg_bytes a) <= u64_max end.

Lemma append_unsigned_spec v r :
  0 <= v <= u64_max -> append_unsigned v r = Ret (append (print_Z v) r).
Proof.
  intros Hv. unfold append_unsigned.
  by rewrite to_chars_fits by (lia || (unfold i64_min in *; lia)).
Qed.

Lemma append_append s1 s2 r : append s2 (append s1 r) = append (s1 ++ s2) r.
Proof. unfold append. cbn [wire_ command_count_]. by rewrite app_assoc. Qed.

Lemma append_header_spec n r :
  0 <= n <= u64_max ->
  append_command_header n r = Ret (append (encode_header kind.array (print_Z n)) r).
Proof.
  intros Hn. unfold append_command_header. rewrite append_unsigned_spec by done.
  cbn [mbind run_bind]. by rewrite !append_append.
Qed.

Lemma append_bulk_spec sv r :
  zlen sv <= u64_max -> append_bulk_string sv r = Ret (append (encode (bulk_wire sv)) r).
Proof.
  intros Hn. unfold append_bulk_string. pose proof (zlen_nonneg sv).
  rewrite append_unsigned_spec by done. cbn [mbind run_bind]. by rewrite !append_append.
Qed.

Lemma append_bulks_spec argv r :
  Forall (fun sv => zlen sv <= u64_max) argv ->
  append_bulk_strings argv r = Ret (append (concat (encode <$> (bulk_wire <$> argv))) r).
Proof.
  intros H. revert r. induction H as [|sv argv Hsv _ IH]; intros r.
  - cbn. unfold append. rewrite app_nil_r. by destruct r.
  - cbn [append_bulk_strings]. rewrite append_bulk_spec by done. cbn [mbind run_bind].
    rewrite IH, append_append. done.
Qed.

(** [push(argv)] appends the encoding of the command. *)
Lemma push_argv_spec argv r :
  sizes_fit argv -> push_argv argv r = Ret (count_command (append (encode (command_wire argv)) r)).
Proof.
  intros [Hn Hall]. unfold push_argv. pose proof (zlen_nonneg argv).
  rewrite append_header_spec by done. cbn [mbind run_bind].
  rewrite append_bulks_spec by done. cbn [mbind run_bind]. by rewrite append_append.
Qed.

Lemma append_args_spec args r :
  Forall arg_fits args -> Forall (fun a => zlen (arg_bytes a) <= u64_max) args ->
  append_args args r = Ret (append (concat (encode <$> (bulk_wire <$> (arg_bytes <$> args)))) r).
Proof.
  intros H1 H2. revert r H2. induction H1 as [|a args Ha _ IH]; intros r H2.
  - cbn. unfold append. rewrite app_nil_r. by destruct r.
  - apply Forall_cons in H2 as [Ha2 H2]. cbn [append_args].
    assert (append_arg a r = Ret (append (encode (bulk_wire (arg_bytes a))) r)) as ->.
    { destruct a as [sv|s|v]; cbn [append_arg arg_bytes arg_fits] in *; try (by apply append_bulk_spec).
      rewrite to_chars_fits by lia. by apply append_bulk_spec. }
    cbn [mbind run_bind]. rewrite IH by done. by rewrite append_append.
Qed.

Lemma push_args_spec cmd args r :
  zlen cmd <= u64_max -> 1 + zlen args <= u64_max ->
  Forall arg_fits args -> Forall (fun a => zlen (arg_bytes a) <= u64_max) args ->
  push_args cmd args r =
  Ret (count_command (append (encode (command_wire (cmd :: (arg_bytes <$> args)))) r)).
Proof.
  intros Hc Hn Ha Hb. unfold push_args. pose proof (zlen_nonneg args).
  rewrite append_header_spec by lia. cbn [mbind run_bind].
  rewrite append_bulk_spec by done. cbn [mbind run_bind].
  rewrite append_args_spec by done. cbn [mbind run_bind]. rewrite !append_append.
  do 3 f_equal. unfold command_wire. cbn [encode]. rewrite zlen_cons.
  unfold zlen at 2. rewrite length_fmap. fold (zlen args). done.
Qed.

(** ** Reading a request back *)

(** No CR in a printed number. *)
Lemma dec_digits_no_cr fuel n acc : CR ∉ acc -> CR ∉ dec_digits fuel n acc.
Proof.
  revert n acc. induction fuel as [|fuel IH]; intros n acc Hacc; [done|]. cbn [dec_digits].
  assert (CR ∉ digit_char (n mod 10) :: acc) as H'.
  { apply not_elem_of_cons. split; [|done]. intros E.
    pose proof (Z.mod_pos_bound n 10 ltac:(lia)) as Hb.
    pose proof (digit_digit_char (n mod 10) ltac:(lia)) as Hd. by rewrite <- E in Hd. }
  destruct (n / 10 =? 0); [done|]. by apply IH.
Qed.

Lemma print_Z_no_cr v : CR ∉ print_Z v.
Proof.
  assert (forall n, CR ∉ dec_of_Z n) as H by (intros; apply dec_digits_no_cr; apply not_elem_of_nil).
  unfold print_Z. destruct (v <? 0); [|apply H]. apply not_elem_of_cons. split; [done|apply H].
Qed.

Lemma find_crlf_no_cr s : CR ∉ s -> find_crlf s = None.
Proof.
  induction s as [|c s IH]; [done|]. intros H. apply not_elem_of_cons in H as [Hc Hs].
  destruct s as [|d s]; [done|]. rewrite find_crlf_cons, decide_False by (intros [-> _]; done).
  by rewrite (IH Hs).
Qed.

(** The command is within the limits of a parser. *)
Definition command_ok (lims : limits) (argv : list bytes) : bool :=
  (20 <=? max_resp_line_bytes lims) &&
  (zlen argv <=? Z.min (max_resp_container_len lims) u32_max) &&
  forallb (fun sv => zlen sv <=? Z.min (max_resp_bulk_bytes lims) i64_max) argv.

Lemma header_ok_print lims n :
  20 <= max_resp_line_bytes lims -> 0 <= n <= i64_max -> header_ok lims (print_Z n) n = true.
Proof.
  intros Hl Hn. unfold header_ok. rewrite !andb_true_iff. split; [split|].
  - apply bool_decide_eq_true. apply find_crlf_no_cr, print_Z_no_cr.
  - apply Z.leb_le. etransitivity; [|exact Hl]. unfold print_Z.
    rewrite (proj2 (Z.ltb_ge _ _)) by lia. unfold zlen.
    enough (length (dec_of_Z n) <= 20)%nat by lia. apply length_dec_of_Z; [|lia].
    change (10 ^ Z.of_nat 20) with 100000000000000000000. unfold i64_max in Hn. lia.
  - apply bool_decide_eq_true. apply parse_i64_print. unfold i64_min. lia.
Qed.

Lemma command_wire_wf lims argv :
  command_ok lims argv = true -> wf lims (command_wire argv) = true /\ tidy false (command_wire argv) = true.
Proof.
  unfold command_ok. intros H. bool_prop. unfold command_wire. pose proof (zlen_nonneg argv) as Hz.
  assert (zlen (bulk_wire <$> argv) = zlen argv) as Hlen by (unfold zlen; by rewrite length_fmap).
  assert (forall l, forallb flat (bulk_wire <$> l) = true /\ forallb (tidy false) (bulk_wire <$> l) = true) as Hft.
  { intros l. induction l as [|sv l [IH1 IH2]]; [done|]. by cbn. }
  split.
  - cbn [wf]. rewrite Hlen. rewrite !andb_true_iff. split; [split; [done|]|].
    + unfold count_ok. cbn [per_unit]. rewrite Z.div_1_r, Z.mod_1_r, !andb_true_iff.
      unfold u32_max in *. split; [split; [split; [|done]|]|].
      * apply header_ok_print; [lia|unfold i64_max; lia].
      * apply Z.leb_le. lia.
      * unfold is_representable_length. rewrite (proj2 (Z.ltb_ge _ _)) by lia.
        apply Z.leb_le. unfold u32_max. lia.
    + clear Hlen. induction argv as [|sv argv IH]; [done|]. cbn [forallb] in *. bool_prop.
      rewrite zlen_cons in *. pose proof (zlen_nonneg argv). pose proof (zlen_nonneg sv).
      cbn [fmap list_fmap forallb]. fold (bulk_wire <$> argv). rewrite IH; try done; [|lia].
      rewrite andb_true_r. cbn [bulk_wire wf scalar_wf]. rewrite !andb_true_iff, header_ok_print by lia.
      split; [split; [done|]|done]. apply Z.leb_le. lia.
  - cbn [tidy per_unit]. rewrite (proj2 (Hft argv)). cbn [andb].
    change (Z.to_nat 1) with 1%nat. destruct argv; [done|]. apply Hft.
Qed.

Lemma command_denotes argv :
  denote None (command_wire argv) =
  message_of (resp3.array ((fun sv => message_of (resp3.bulk_string sv)) <$> argv)).
Proof.
  unfold command_wire. cbn [denote aggregate_value]. unfold message_of. do 2 f_equal.
  induction argv as [|sv argv IH]; [done|]. cbn [fmap list_fmap]. f_equal. exact IH.
Qed.

(** A pipeline of commands. *)
Fixpoint push_commands (cmds : list (list bytes)) (r : request) : run request :=
  match cmds with
  | [] => Ret r
  | argv :: cmds' => r1 ← push_argv argv r; push_commands cmds' r1
  end.

Lemma push_commands_spec cmds r :
  Forall sizes_fit cmds -> 0 <= command_count_ r -> command_count_ r + zlen cmds <= u64_max ->
  push_commands cmds r =
  Ret (mk_request (wire_ r ++ concat (encode <$> (command_wire <$> cmds)))
         (command_count_ r + zlen cmds)).
Proof.
  intros H. revert r. induction H as [|argv cmds Ha _ IH]; intros r H0 Hc.
  - cbn. rewrite app_nil_r, Z.add_0_r. by destruct r.
  - rewrite zlen_cons in Hc. pose proof (zlen_nonneg cmds). cbn [push_commands].
    rewrite push_argv_spec by done. cbn [mbind run_bind].
    rewrite IH; cbn [count_command append wire_ command_count_]; rewrite u64_small by lia; try lia.
    rewrite zlen_cons. cbn [fmap list_fmap concat]. rewrite <- app_assoc. do 2 f_equal. lia.
Qed.

Lemma command_ok_sizes lims argv :
  max_resp_bulk_bytes lims <= u64_max -> command_ok lims argv = true -> sizes_fit argv.
Proof.
  unfold command_ok, sizes_fit. intros Hb H. bool_prop.
  split; [unfold u32_max, u64_max in *; lia|].
  induction argv as [|sv argv IH]; [constructor|]. cbn [forallb] in *. bool_prop.
  rewrite zlen_cons in *. pose proof (zlen_nonneg argv). constructor; [lia|]. apply IH; [|done].
  apply Z.leb_le. lia.
Qed.

(** C32: a pipelined request is read back by a RESP3 parser as its commands, in
    order: building never fails an assertion, [reply_count] is the number of
    commands, and parsing the wire bytes gives, for each command, the array of
    its arguments as bulk strings, whatever bytes the arguments hold; the bytes
    behind the request are left. *)
Theorem request_roundtrip p cmds rest :
  ready_for p -> max_resp_bulk_bytes (limits_ p) <= u64_max ->
  forallb (command_ok (limits_ p)) cmds = true -> zlen cmds <= u64_max ->
  exists r, push_commands cmds request_new = Ret r /\ reply_count r = zlen cmds /\
    (data_bytes (buf_ p) = wire_ r ++ rest ->
     exists p', read_values (length cmds) p = Ret (p',
         (fun argv => message_of (resp3.array ((fun sv => message_of (resp3.bulk_string sv)) <$> argv)))
           <$> cmds) /\ data_bytes (buf_ p') = rest).
Proof.
  intros Hp Hb Hok Hn.
  assert (Forall sizes_fit cmds /\ forallb (wf (limits_ p)) (command_wire <$> cmds) = true /\
    forallb (tidy false) (command_wire <$> cmds) = true) as (Hs & Hw & Ht).
  { clear Hn. induction cmds as [|argv cmds IH]; [by repeat split|]. cbn [forallb] in Hok. bool_prop.
    destruct (command_wire_wf (limits_ p) argv) as [Hw1 Ht1]; [done|].
    destruct IH as (IH1 & IH2 & IH3); [done|]. cbn [fmap list_fmap forallb].
    rewrite Hw1, Ht1. split; [constructor; [by eapply command_ok_sizes|done]|]. done. }
  eexists. split; [by apply push_commands_spec|]. split; [done|]. cbn [wire_ request_new app].
  intros Hd. destruct (read_values_stream (command_wire <$> cmds) p rest Hp Hw Ht Hd) as (p' & Hrv & Hr & _).
  exists p'. split; [|done]. rewrite length_fmap in Hrv. rewrite Hrv. do 2 f_equal.
  rewrite <- list_fmap_compose. apply list_fmap_ext. intros i argv _. apply command_denotes.
Qed.

Definition sample_commands : list (list bytes) :=
  [[s2b "SET"; s2b "k"; CR :: LF :: s2b "*1"]; [s2b "GET"; s2b "k"]].

Lemma request_roundtrip_witness :
  exists r p p', push_commands sample_commands request_new = Ret r /\
    data_bytes (buf_ p) = wire_ r ++ s2b "+" /\
    read_values 2 p = Ret (p',
      (fun argv => message_of (resp3.array ((fun sv => message_of (resp3.bulk_string sv)) <$> argv)))
        <$> sample_commands).
Proof.
  set (bs := encode (command_wire [s2b "SET"; s2b "k"; CR :: LF :: s2b "*1"]) ++
             encode (command_wire [s2b "GET"; s2b "k"]) ++ s2b "+").
  set (p := mk_parser (mk_buffer bs 0 0 (length bs)) tree_reset [] false false pending_reset default_limits).
  destruct (request_roundtrip p sample_commands (s2b "+")) as (r & Hr & _ & Hread).
  - split; [done|]. split; [done|]. split; [done|]. split; [|vm_compute; discriminate].
    unfold buffer_wf. vm_compute. lia.
  - vm_compute. discriminate.
  - vm_compute. reflexivity.
  - vm_compute. discriminate.
  - assert (data_bytes (buf_ p) = wire_ r ++ s2b "+") as Hd
      by (vm_compute in Hr; injection Hr as <-; vm_compute; reflexivity).
    destruct (Hread Hd) as (p' & Hp' & _). exists r, p, p'. split; [exact Hr|]. split; [exact Hd|exact Hp'].
Defined.

(** The ways to append a command agree: the variadic [push] with strings,
    C strings and integers appends the command of the printed arguments, and
    [push(cmd)] that of one token; a request grows by exactly that command. *)
Theorem push_variants_agree cmd args r :
  zlen cmd <= u64_max -> 1 + zlen args <= u64_max ->
  Forall arg_fits args -> Forall (fun a => zlen (arg_bytes a) <= u64_max) args ->
  push_args cmd args r = push_argv (cmd :: (arg_bytes <$> args)) r /\
  push_cmd cmd r = push_argv [cmd] r.
Proof.
  intros Hc Hn Ha Hb. split.
  - rewrite push_args_spec, push_argv_spec; [done| |done|done|done|done].
    split; [rewrite zlen_cons; unfold zlen in *; rewrite length_fmap; lia|].
    constructor; [done|]. by apply Forall_fmap.
  - unfold push_cmd, push_argv. change (zlen [cmd]) with 1. destruct (append_command_header 1 r); [|done].
    cbn [mbind run_bind append_bulk_strings]. by destruct (append_bulk_string cmd a).
Qed.

Lemma push_variants_agree_witness :
  push_args (s2b "EXPIRE") [arg_string (s2b "k"); arg_int (-60); arg_cstr None] request_new =
  push_argv [s2b "EXPIRE"; s2b "k"; s2b "-60"; []] request_new.
Proof.
  apply (push_variants_agree (s2b "EXPIRE") [arg_string (s2b "k"); arg_int (-60); arg_cstr None] request_new).
  - vm_compute. discriminate.
  - vm_compute. discriminate.
  - repeat constructor; vm_compute; discriminate.
  - repeat constructor; vm_compute; discriminate.
Defined.
