(* ===== verification/RingQueue.v ===== *)
(** * The ring queue ([detail/ring_queue.hpp])

    A FIFO queue in a growable ring of uninitialised slots, and the interface
    ([Fifo]) the pipeline uses it through.  A slot is [Some x] while an object
    lives in it: constructing over a live object, or reading or destroying a
    slot without one, is a fault. *)

From S2P Require Import Prelude.

(** ** The interface: a queue with its laws *)

Class Fifo (Q : Type -> Type) : Type := {
  q_new : forall {A}, Q A;
  q_size : forall {A}, Q A -> nat;
  q_front : forall {A}, Q A -> run A;
  q_set_front : forall {A}, A -> Q A -> run (Q A);
  q_pop : forall {A}, Q A -> run (Q A);
  q_push : forall {A}, A -> Q A -> run (Q A);
  q_elems : forall {A}, Q A -> list A -> Prop;
  q_new_elems : forall {A}, q_elems (@q_new A) [];
  q_size_elems : forall {A} (q : Q A) l, q_elems q l -> q_size q = length l;
  q_front_elems : forall {A} (q : Q A) x l, q_elems q (x :: l) -> q_front q = Ret x;
  q_set_front_elems : forall {A} (q : Q A) x y l, q_elems q (x :: l) ->
    exists q', q_set_front y q = Ret q' /\ q_elems q' (y :: l);
  q_pop_elems : forall {A} (q : Q A) x l, q_elems q (x :: l) ->
    exists q', q_pop q = Ret q' /\ q_elems q' l;
  q_push_elems : forall {A} (q : Q A) x l, q_elems q l ->
    exists q', q_push x q = Ret q' /\ q_elems q' (l ++ [x]);
}.

(** [empty()]. *)
Definition q_empty {Q} `{Fifo Q} {A} (q : Q A) : bool := (q_size q =? 0)%nat.

Lemma q_empty_elems {Q} `{Fifo Q} {A} (q : Q A) l :
  q_elems q l -> q_empty q = true <-> l = [].
Proof.
  intros Hq. unfold q_empty. rewrite (q_size_elems q l Hq). destruct l; simpl; [done|].
  split; [discriminate|done].
Qed.

(** The laws determine the elements. *)
Lemma q_elems_unique {Q} `{Fifo Q} {A} l1 : forall (q : Q A) l2, q_elems q l1 -> q_elems q l2 -> l1 = l2.
Proof.
  induction l1 as [|x l1 IH]; intros q l2 H1 H2; pose proof (q_size_elems q _ H1) as Hn;
    rewrite (q_size_elems q _ H2) in Hn; destruct l2 as [|y l2]; try done.
  pose proof (q_front_elems q _ _ H1) as Hf. rewrite (q_front_elems q _ _ H2) in Hf. injection Hf as ->. f_equal.
  destruct (q_pop_elems q _ _ H1) as (q1 & Hp1 & E1). destruct (q_pop_elems q _ _ H2) as (q2 & Hp2 & E2).
  rewrite Hp1 in Hp2. injection Hp2 as <-. by apply (IH q1).
Qed.

(** ** The implementation *)

Section ring_queue.

Context {T : Type}.

(** [class ring_queue]: [cap_] is the number of slots. *)
Record ring_queue : Type := mk_ring { data_ : list (option T); head_ : nat; size_ : nat }.

Definition cap_ (q : ring_queue) : nat := length (data_ q).

(** [ring_queue()]. *)
Definition ring_new : ring_queue := mk_ring [] 0 0.

Definition ring_empty (q : ring_queue) : bool := (size_ q =? 0)%nat.

(** [data_[i]] of a live object. *)
Definition slot (q : ring_queue) (i : nat) : run T :=
  o ← or_fault out_of_range (data_ q !! i);
  or_fault object_lifetime o.

(** [front()]. *)
Definition ring_front (q : ring_queue) : run T :=
  _ ← assert (0 <? size_ q)%nat;
  slot q (head_ q).

(** A write through the reference [front()] returns. *)
Definition ring_set_front (x : T) (q : ring_queue) : run ring_queue :=
  _ ← ring_front q;
  Ret (mk_ring (<[head_ q := Some x]> (data_ q)) (head_ q) (size_ q)).

(** [pop_front()]. *)
Definition pop_front (q : ring_queue) : run ring_queue :=
  _ ← assert (0 <? size_ q)%nat;
  _ ← assert (0 <? cap_ q)%nat;
  _ ← slot q (head_ q);
  let d := <[head_ q := None]> (data_ q) in
  let h := ((head_ q + 1) mod cap_ q)%nat in
  let s := (size_ q - 1)%nat in
  Ret (mk_ring d (if (s =? 0)%nat then 0%nat else h) s).

(** [at(i)]. *)
Definition ring_at (q : ring_queue) (i : nat) : run T :=
  _ ← assert (i <? size_ q)%nat;
  slot q ((head_ q + i) mod cap_ q).

(** The doubling loop of [ensure_capacity]; [need] turns are enough. *)
Fixpoint double_until (fuel new_cap need : nat) : run nat :=
  if (new_cap <? need)%nat then
    match fuel with
    | O => Fault out_of_fuel
    | S fuel' => double_until fuel' (new_cap * 2) need
    end
  else Ret new_cap.

(** [ensure_capacity(need)]: the objects move to a new ring, starting at 0. *)
Definition ensure_capacity (need : nat) (q : ring_queue) : run ring_queue :=
  if (need <=? cap_ q)%nat then Ret q
  else
    new_cap ← double_until need (Nat.max 8 (cap_ q)) need;
    moved ← mapM (ring_at q) (seq 0 (size_ q));
    Ret (mk_ring ((Some <$> moved) ++ replicate (new_cap - size_ q) None) 0 (size_ q)).

(** [emplace_back(args...)], [push_back(v)]. *)
Definition emplace_back (x : T) (q : ring_queue) : run ring_queue :=
  q1 ← ensure_capacity (size_ q + 1) q;
  let idx := ((head_ q1 + size_ q1) mod cap_ q1)%nat in
  o ← or_fault out_of_range (data_ q1 !! idx);
  _ ← match o with None => Ret tt | Some _ => Fault object_lifetime end;
  Ret (mk_ring (<[idx := Some x]> (data_ q1)) (head_ q1) (size_ q1 + 1)).

(** [clear()]: the loop runs [size_] times. *)
Fixpoint clear_loop (fuel : nat) (q : ring_queue) : run ring_queue :=
  if (0 <? size_ q)%nat then
    match fuel with
    | O => Fault out_of_fuel
    | S fuel' => q1 ← pop_front q; clear_loop fuel' q1
    end
  else Ret q.

Definition ring_clear (q : ring_queue) : run ring_queue :=
  q1 ← clear_loop (size_ q) q;
  Ret (mk_ring (data_ q1) 0 (size_ q1)).

(** [ring_queue(ring_queue&&)]: the new queue and what is left of the old. *)
Definition move_construct (other : ring_queue) : ring_queue * ring_queue := (other, ring_new).

(** [~ring_queue()] up to the storage it gives back, and
    [clear_and_deallocate()]; storage is [nullptr] when there are no slots. *)
Definition ring_destroy (q : ring_queue) : run unit :=
  _ ← ring_clear q;
  Ret tt.

Definition clear_and_deallocate (q : ring_queue) : run ring_queue :=
  q1 ← ring_clear q;
  Ret (match data_ q1 with [] => q1 | _ => mk_ring [] 0 (size_ q1) end).

(** [steal_storage(other)]. *)
Definition steal_storage (q other : ring_queue) : ring_queue * ring_queue := (other, ring_new).

(** What [operator=] asks of the allocator type: [None] when allocators cannot
    be compared, otherwise whether the two are equal. *)
Record alloc_traits : Set := mk_alloc_traits {
  propagate_on_container_move_assignment : bool;
  is_always_equal : bool;
  allocators_equal : option bool;
}.

(** [std::allocator]. *)
Definition std_allocator : alloc_traits := mk_alloc_traits true true (Some true).

(** [can_steal_storage_from(other)]. *)
Definition can_steal_storage_from (a : alloc_traits) : bool :=
  if is_always_equal a then true
  else match allocators_equal a with Some b => b | None => false end.

(** The loop that moves the elements one by one. *)
Fixpoint move_elements (fuel : nat) (q other : ring_queue) : run (ring_queue * ring_queue) :=
  if ring_empty other then Ret (q, other)
  else
    match fuel with
    | O => Fault out_of_fuel
    | S fuel' =>
      x ← ring_front other;
      q1 ← emplace_back x q;
      other1 ← pop_front other;
      move_elements fuel' q1 other1
    end.

(** [operator=(ring_queue&&)] of two queues, and of a queue and itself. *)
Definition move_assign (a : alloc_traits) (q other : ring_queue) : run (ring_queue * ring_queue) :=
  if propagate_on_container_move_assignment a || can_steal_storage_from a then
    q1 ← clear_and_deallocate q;
    Ret (steal_storage q1 other)
  else
    q1 ← ring_clear q;
    move_elements (size_ other) q1 other.

Definition move_assign_self (q : ring_queue) : ring_queue := q.

(** ** Refinement of the list of its elements *)

(** Slot [(head_ + i) % cap_] holds element [i], and is raw beyond the last. *)
Record repr (q : ring_queue) (l : list T) : Prop := {
  rp_size : size_ q = length l;
  rp_fits : (length l <= cap_ q)%nat;
  rp_head : (head_ q < cap_ q)%nat \/ (cap_ q = 0%nat /\ head_ q = 0%nat);
  rp_slots : forall i, (i < cap_ q)%nat ->
    data_ q !! ((head_ q + i) mod cap_ q)%nat = Some (l !! i);
}.

Lemma repr_new : repr ring_new [].
Proof. split; [done|done|by right|]. intros i Hi. unfold cap_ in Hi. simpl in Hi. lia. Qed.

(** The slot of an index, without the remainder. *)
Lemma mod_wrap h i c :
  (h < c)%nat -> (i < c)%nat -> ((h + i) mod c = if h + i <? c then h + i else h + i - c)%nat.
Proof.
  intros Hh Hi. destruct (h + i <? c)%nat eqn:E; bool_prop; [by apply Nat.mod_small|].
  replace (h + i)%nat with ((h + i - c) + 1 * c)%nat by lia.
  rewrite Nat.Div0.mod_add. rewrite Nat.mod_small; lia.
Qed.

Lemma mod_wrap_inj h i j c :
  (h < c)%nat -> (i < c)%nat -> (j < c)%nat -> ((h + i) mod c = (h + j) mod c)%nat -> i = j.
Proof.
  intros Hh Hi Hj. rewrite !mod_wrap by done.
  destruct (h + i <? c)%nat eqn:E1, (h + j <? c)%nat eqn:E2; bool_prop; lia.
Qed.

Lemma slot_repr q l i x :
  repr q l -> l !! i = Some x -> slot q ((head_ q + i) mod cap_ q) = Ret x.
Proof.
  intros Hr Hi. pose proof (lookup_lt_Some _ _ _ Hi) as Hlt. pose proof (rp_fits _ _ Hr).
  unfold slot. rewrite (rp_slots _ _ Hr i), Hi by lia. done.
Qed.

Lemma front_slot q x l : repr q (x :: l) -> slot q (head_ q) = Ret x /\ (head_ q < cap_ q)%nat.
Proof.
  intros Hr. pose proof (rp_fits _ _ Hr) as Hf. simpl in Hf.
  assert (head_ q < cap_ q)%nat as Hh by (destruct (rp_head _ _ Hr) as [|[? _]]; lia).
  split; [|done]. pose proof (slot_repr q (x :: l) 0 x Hr eq_refl) as Hs.
  by rewrite Nat.add_0_r, Nat.mod_small in Hs.
Qed.

Lemma ring_front_repr q x l : repr q (x :: l) -> ring_front q = Ret x.
Proof.
  intros Hr. unfold ring_front. rewrite (rp_size _ _ Hr). simpl. by apply (front_slot q x l).
Qed.

Lemma ring_set_front_repr q x y l :
  repr q (x :: l) -> exists q', ring_set_front y q = Ret q' /\ repr q' (y :: l).
Proof.
  intros Hr. unfold ring_set_front. rewrite (ring_front_repr q x l Hr). cbn [mbind run_bind].
  destruct (front_slot q x l Hr) as [_ Hh]. eexists. split; [done|].
  destruct Hr as [Hsz Hf Hhd Hsl]. unfold cap_ in *. split; cbn [data_ head_ size_] in *;
    unfold cap_; cbn [data_]; rewrite ?length_insert; try done.
  intros i Hi. destruct i as [|i].
  - rewrite Nat.add_0_r, Nat.mod_small by done. by apply list_lookup_insert_eq.
  - rewrite list_lookup_insert_ne; [by apply Hsl|]. intros E.
    assert (0 = S i)%nat; [|lia]. apply (mod_wrap_inj (head_ q) _ _ (length (data_ q))); try lia.
    by rewrite Nat.add_0_r, (Nat.mod_small (head_ q)).
Qed.

Lemma pop_front_repr q x l :
  repr q (x :: l) -> exists q', pop_front q = Ret q' /\ repr q' l.
Proof.
  intros Hr. destruct (front_slot q x l Hr) as [Hslot Hh]. unfold pop_front.
  rewrite (rp_size _ _ Hr). cbn [length].
  rewrite !(proj2 (Nat.ltb_lt 0 _)) by lia. cbn [assert mbind run_bind].
  rewrite Hslot. cbn [mbind run_bind]. eexists. split; [done|].
  destruct Hr as [Hsz Hf Hhd Hsl]. simpl in Hf. set (c := cap_ q) in *.
  assert (length (<[head_ q:=None]> (data_ q)) = c) as Hc by (by rewrite length_insert).
  replace (S (length l) - 1)%nat with (length l) by lia.
  assert (forall i, (i < c)%nat ->
    <[head_ q:=None]> (data_ q) !! ((head_ q + (i + 1)) mod c)%nat = Some (l !! i)) as Hslots.
  { intros i Hi. destruct (decide (i + 1 = c)%nat) as [Hlast|Hne].
    - rewrite Hlast. replace (head_ q + c)%nat with (head_ q + 1 * c)%nat by lia.
      rewrite Nat.Div0.mod_add, Nat.mod_small by lia.
      rewrite list_lookup_insert_eq by done. f_equal. symmetry. apply lookup_ge_None. lia.
    - rewrite list_lookup_insert_ne.
      + rewrite Hsl by lia. by rewrite Nat.add_1_r.
      + intros E. assert (0 = i + 1)%nat; [|lia].
        apply (mod_wrap_inj (head_ q) _ _ c); try lia. by rewrite Nat.add_0_r, (Nat.mod_small (head_ q)). }
  split; cbn [data_ head_ size_]; unfold cap_; cbn [data_]; rewrite ?Hc.
  - done.
  - lia.
  - left. destruct (length l =? 0)%nat; [lia|]. apply Nat.mod_upper_bound. lia.
  - intros i Hi. destruct (length l =? 0)%nat eqn:E; bool_prop.
    + destruct l; [|done]. rewrite Nat.add_0_l, Nat.mod_small by done.
      assert (exists j, (j < c)%nat /\ ((head_ q + (j + 1)) mod c = i)%nat) as (j & Hj & <-).
      { exists ((i + 2 * c - head_ q - 1) mod c)%nat. split; [apply Nat.mod_upper_bound; lia|].
        replace (head_ q + ((i + 2 * c - head_ q - 1) mod c + 1))%nat
          with ((i + 2 * c - head_ q - 1) mod c + (head_ q + 1))%nat by lia.
        rewrite Nat.Div0.add_mod_idemp_l.
        replace (i + 2 * c - head_ q - 1 + (head_ q + 1))%nat with (i + 2 * c)%nat by lia.
        rewrite Nat.Div0.mod_add. by apply Nat.mod_small. }
      by rewrite Hslots.
    + rewrite Nat.Div0.add_mod_idemp_l. rewrite <- (Hslots i Hi). do 2 f_equal. lia.
Qed.

(** ** Growth *)

Lemma double_until_spec fuel c need :
  (need <= c + fuel)%nat -> (0 < c)%nat ->
  exists k, double_until fuel c need = Ret k /\ (need <= k)%nat /\ (c <= k)%nat.
Proof.
  revert c. induction fuel as [|fuel IH]; intros c Hle Hc; cbn [double_until].
  - rewrite (proj2 (Nat.ltb_ge _ _)) by lia. exists c. split; [done|]. lia.
  - split_if; [|exists c; split; [done|]; lia].
    destruct (IH (c * 2)%nat ltac:(lia) ltac:(lia)) as (k & Hk & ? & ?). exists k. split; [done|]. lia.
Qed.

Lemma mapM_at q l : repr q l -> mapM (ring_at q) (seq 0 (length l)) = Ret l.
Proof.
  intros Hr.
  assert (forall k i, drop i l = k -> mapM (ring_at q) (seq i (length k)) = Ret k) as H.
  { induction k as [|x k IH]; intros i Hk; [done|]. cbn [length seq]. simpl.
    assert (l !! i = Some x) as Hi.
    { rewrite <- (Nat.add_0_r i), <- lookup_drop, Hk. done. }
    assert (ring_at q i = Ret x) as ->.
    { unfold ring_at. rewrite (rp_size _ _ Hr).
      rewrite (proj2 (Nat.ltb_lt _ _)) by (by eapply lookup_lt_Some).
      cbn [assert mbind run_bind]. by eapply slot_repr. }
    cbn [mbind run_bind]. rewrite IH; [done|].
    rewrite <- Nat.add_1_r, <- drop_drop, Hk. done. }
  exact (H l 0%nat eq_refl).
Qed.

Lemma ensure_capacity_repr q l need :
  repr q l -> exists q', ensure_capacity need q = Ret q' /\ repr q' l /\ (need <= cap_ q')%nat.
Proof.
  intros Hr. unfold ensure_capacity.
  destruct (need <=? cap_ q)%nat eqn:E; bool_prop; [by exists q|].
  destruct (double_until_spec need (Nat.max 8 (cap_ q)) need) as (k & -> & Hk & Hck); [lia|lia|].
  cbn [mbind run_bind]. rewrite (rp_size _ _ Hr), (mapM_at q l Hr). cbn [mbind run_bind].
  pose proof (rp_fits _ _ Hr) as Hf.
  assert (length ((Some <$> l) ++ replicate (k - length l) None) = k) as Hlen
    by (rewrite length_app, length_fmap, length_replicate; lia).
  eexists. split; [done|]. split; [|unfold cap_; cbn [data_]; by rewrite Hlen].
  split; unfold cap_; cbn [data_ head_ size_]; rewrite ?Hlen; [done|lia|left; lia|].
  intros i Hi. rewrite Nat.add_0_l, Nat.mod_small by done.
  destruct (decide (i < length l)%nat) as [Hlt|Hge].
  - rewrite lookup_app_l by (by rewrite length_fmap). rewrite list_lookup_fmap.
    destruct (lookup_lt_is_Some_2 l i Hlt) as [x ->]. done.
  - rewrite lookup_app_r, length_fmap by (rewrite length_fmap; lia).
    rewrite lookup_replicate_2 by lia. f_equal. symmetry. apply lookup_ge_None. lia.
Qed.

Lemma emplace_back_repr q x l :
  repr q l -> exists q', emplace_back x q = Ret q' /\ repr q' (l ++ [x]).
Proof.
  intros Hr. unfold emplace_back.
  destruct (ensure_capacity_repr q l (size_ q + 1) Hr) as (q1 & -> & Hr1 & Hcap).
  cbn [mbind run_bind]. rewrite (rp_size _ _ Hr) in Hcap.
  pose proof (rp_size _ _ Hr1) as Hs1. rewrite Hs1.
  assert (head_ q1 < cap_ q1)%nat as Hh by (destruct (rp_head _ _ Hr1) as [|[? _]]; lia).
  rewrite (rp_slots _ _ Hr1) by lia. cbn [or_fault mbind run_bind].
  rewrite (lookup_ge_None_2 l) by lia. cbn [mbind run_bind]. eexists. split; [done|].
  set (idx := ((head_ q1 + length l) mod cap_ q1)%nat). set (c := cap_ q1) in *.
  assert (length (<[idx:=Some x]> (data_ q1)) = c) as Hc by (by rewrite length_insert).
  split; unfold cap_; cbn [data_ head_ size_]; rewrite ?Hc, ?length_app; simpl; [lia|lia|by left|].
  intros i Hi. destruct (decide (i = length l)) as [->|Hne].
  - fold idx. rewrite list_lookup_insert_eq by (change (length (data_ q1)) with c; apply Nat.mod_upper_bound; lia).
    by rewrite lookup_app_r, Nat.sub_diag by lia.
  - rewrite list_lookup_insert_ne.
    + rewrite (rp_slots _ _ Hr1) by done. f_equal.
      destruct (decide (i < length l)%nat).
      * by rewrite lookup_app_l.
      * rewrite !lookup_ge_None_2; [done|rewrite length_app; simpl; lia|lia].
    + intros E. apply Hne. symmetry. apply (mod_wrap_inj (head_ q1) _ _ c); try done. lia.
Qed.

Lemma clear_loop_repr fuel q l :
  repr q l -> (length l <= fuel)%nat -> exists q', clear_loop fuel q = Ret q' /\ repr q' [].
Proof.
  revert q l. induction fuel as [|fuel IH]; intros q l Hr Hf; cbn [clear_loop]; rewrite (rp_size _ _ Hr).
  - destruct l; [|simpl in Hf; lia]. by exists q.
  - destruct l as [|x l]; [by exists q|]. cbn [length Nat.ltb Nat.leb].
    destruct (pop_front_repr q x l Hr) as (q1 & -> & Hr1). cbn [mbind run_bind].
    apply (IH q1 l Hr1). simpl in Hf. lia.
Qed.

Lemma ring_clear_repr q l : repr q l -> exists q', ring_clear q = Ret q' /\ repr q' [].
Proof.
  intros Hr. unfold ring_clear.
  destruct (clear_loop_repr (size_ q) q l Hr) as (q1 & -> & Hr1); [by rewrite (rp_size _ _ Hr)|].
  cbn [mbind run_bind]. eexists. split; [done|]. destruct Hr1 as [Hs Hf Hh Hsl].
  unfold cap_ in *. split; cbn [data_ head_ size_]; unfold cap_; cbn [data_]; [done|done| |].
  - destruct Hh as [Hh|[Hh _]]; [left; lia|by right].
  - intros i Hi. rewrite Nat.add_0_l, Nat.mod_small by done. set (c := length (data_ q1)) in *.
    assert (head_ q1 < c)%nat as Hh' by (destruct Hh as [|[? _]]; lia).
    specialize (Hsl ((i + c - head_ q1) mod c)%nat ltac:(apply Nat.mod_upper_bound; lia)).
    rewrite Nat.Div0.add_mod_idemp_r in Hsl.
    replace (head_ q1 + (i + c - head_ q1))%nat with (i + 1 * c)%nat in Hsl by lia.
    rewrite Nat.Div0.mod_add, Nat.mod_small in Hsl by done. exact Hsl.
Qed.

Lemma move_elements_repr fuel : forall q l other k,
  repr q l -> repr other k -> (length k <= fuel)%nat ->
  exists q' other', move_elements fuel q other = Ret (q', other') /\ repr q' (l ++ k) /\ repr other' [].
Proof.
  induction fuel as [|fuel IH]; intros q l other [|x k] Hq Ho Hf; cbn [move_elements]; unfold ring_empty;
    rewrite (rp_size _ _ Ho); cbn [length Nat.eqb] in *; try lia; [exists q, other; by rewrite app_nil_r..|].
  rewrite (ring_front_repr _ _ _ Ho). cbn [mbind run_bind].
  destruct (emplace_back_repr q x l Hq) as (q1 & -> & Hq1). cbn [mbind run_bind].
  destruct (pop_front_repr other x k Ho) as (o1 & -> & Ho1). cbn [mbind run_bind].
  destruct (IH q1 _ o1 k Hq1 Ho1) as (q' & o' & Hm & Hq' & Ho'); [lia|].
  exists q', o'. by rewrite <- app_assoc in Hq'.
Qed.

Lemma move_assign_repr a q l other k :
  repr q l -> repr other k ->
  exists q' other', move_assign a q other = Ret (q', other') /\ repr q' k /\ repr other' [].
Proof.
  intros Hq Ho. unfold move_assign, clear_and_deallocate. destruct (ring_clear_repr q l Hq) as (q1 & -> & Hq1).
  cbn [mbind run_bind]. destruct (_ || _).
  - exists other, ring_new. split; [done|]. split; [done|apply repr_new].
  - apply (move_elements_repr (size_ other) q1 [] other k Hq1 Ho). by rewrite (rp_size _ _ Ho).
Qed.

End ring_queue.

Arguments ring_queue : clear implicits.

(** The ring queue provides the interface. *)
#[export] Instance ring_queue_fifo : Fifo ring_queue := {
  q_new := @ring_new;
  q_size := @size_;
  q_front := @ring_front;
  q_set_front := @ring_set_front;
  q_pop := @pop_front;
  q_push := @emplace_back;
  q_elems := @repr;
  q_new_elems := @repr_new;
  q_size_elems := @rp_size;
  q_front_elems := @ring_front_repr;
  q_set_front_elems := @ring_set_front_repr;
  q_pop_elems := @pop_front_repr;
  q_push_elems := @emplace_back_repr;
}.

(** ** Refinement of a list, operation by operation *)

Inductive queue_op (A : Type) : Type :=
| op_push (x : A)
| op_pop
| op_set_front (x : A)
| op_clear
| op_move_assign (a : alloc_traits) (xs : list A)
| op_self_assign.
Arguments op_push {A} x.
Arguments op_pop {A}.
Arguments op_set_front {A} x.
Arguments op_clear {A}.
Arguments op_move_assign {A} a xs.
Arguments op_self_assign {A}.

(** On the specification: [None] is a call the contract excludes. *)
Definition list_op {A} (op : queue_op A) (l : list A) : option (list A) :=
  match op, l with
  | op_push x, _ => Some (l ++ [x])
  | op_pop, _ :: l' => Some l'
  | op_set_front x, _ :: l' => Some (x :: l')
  | op_clear, _ => Some []
  | op_move_assign _ xs, _ => Some xs
  | op_self_assign, _ => Some l
  | _, [] => None
  end.

Fixpoint push_all {A} (xs : list A) (q : ring_queue A) : run (ring_queue A) :=
  match xs with [] => Ret q | x :: xs' => q1 ← emplace_back x q; push_all xs' q1 end.

Definition ring_op {A} (op : queue_op A) (q : ring_queue A) : run (ring_queue A) :=
  match op with
  | op_push x => emplace_back x q
  | op_pop => pop_front q
  | op_set_front x => ring_set_front x q
  | op_clear => ring_clear q
  | op_move_assign a xs =>
    other ← push_all xs ring_new;
    '(q', _) ← move_assign a q other;
    Ret q'
  | op_self_assign => Ret (move_assign_self q)
  end.

Lemma push_all_repr {A} (xs : list A) q l :
  repr q l -> exists q', push_all xs q = Ret q' /\ repr q' (l ++ xs).
Proof.
  revert q l. induction xs as [|x xs IH]; intros q l Hr; [exists q; by rewrite app_nil_r|].
  cbn [push_all]. destruct (emplace_back_repr q x l Hr) as (q1 & -> & Hr1). cbn [mbind run_bind].
  destruct (IH q1 _ Hr1) as (q2 & H2 & Hr2). exists q2. by rewrite <- app_assoc in Hr2.
Qed.

Lemma ring_op_refines {A} (op : queue_op A) q l :
  repr q l ->
  match list_op op l with
  | Some l' => exists q', ring_op op q = Ret q' /\ repr q' l'
  | None => ring_op op q = Fault assert_failed
  end.
Proof.
  intros Hr. destruct op as [x| |x| |a xs|]; cbn [list_op ring_op].
  - by apply emplace_back_repr.
  - destruct l as [|y l]; [|by eapply pop_front_repr].
    unfold pop_front. by rewrite (rp_size _ _ Hr).
  - destruct l as [|y l]; [|by eapply ring_set_front_repr].
    unfold ring_set_front, ring_front. by rewrite (rp_size _ _ Hr).
  - by eapply ring_clear_repr.
  - destruct (push_all_repr xs ring_new [] repr_new) as (q1 & -> & Hr1). cbn [mbind run_bind].
    destruct (move_assign_repr a q l q1 xs Hr Hr1) as (q2 & o2 & -> & Hr2 & _). by exists q2.
  - by exists q.
Qed.

Fixpoint run_list {A} (ops : list (queue_op A)) (l : list A) : option (list A) :=
  match ops with [] => Some l | op :: ops' => l' ← list_op op l; run_list ops' l' end.

Fixpoint run_ring {A} (ops : list (queue_op A)) (q : ring_queue A) : run (ring_queue A) :=
  match ops with [] => Ret q | op :: ops' => q' ← ring_op op q; run_ring ops' q' end.

Lemma run_ring_refines {A} (ops : list (queue_op A)) : forall q l,
  repr q l ->
  match run_list ops l with
  | Some l' => exists q', run_ring ops q = Ret q' /\ repr q' l'
  | None => run_ring ops q = Fault assert_failed
  end.
Proof.
  induction ops as [|op ops IH]; intros q l Hr; [by exists q|]. cbn [run_list run_ring].
  pose proof (ring_op_refines op q l Hr) as Hop. destruct (list_op op l) as [l1|].
  - destruct Hop as (q1 & -> & Hr1). exact (IH q1 l1 Hr1).
  - by rewrite Hop.
Qed.

(** C33: the ring queue is a FIFO list: after any sequence of pushes, pops,
    writes to the front, clears and move assignments (with any allocator, so
    by taking over the storage or element by element), it holds the elements of
    the list specification in order (its size, and its front), it never touches
    a slot without an object, and only a pop or a write on an empty queue fails
    an assertion. *)
Theorem ring_queue_is_fifo {A} (ops : list (queue_op A)) :
  match run_list ops [] with
  | Some l =>
    exists q, run_ring ops ring_new = Ret q /\ size_ q = length l /\
      ring_front q = match l with x :: _ => Ret x | [] => Fault assert_failed end /\
      mapM (ring_at q) (seq 0 (length l)) = Ret l
  | None => run_ring ops (@ring_new A) = Fault assert_failed
  end.
Proof.
  pose proof (run_ring_refines ops ring_new [] repr_new) as H.
  destruct (run_list ops []) as [l|]; [|done]. destruct H as (q & Hq & Hr).
  exists q. split; [done|]. split; [apply (rp_size _ _ Hr)|]. split; [|by apply mapM_at].
  destruct l as [|x l]; [|by eapply ring_front_repr].
  unfold ring_front. by rewrite (rp_size _ _ Hr).
Qed.

Example ring_queue_wraps :
  run_list ([op_push 1; op_push 2; op_pop] ++ (op_push <$> seqZ 3 9) ++ [op_pop; op_set_front 0]) [] =
  Some (0 :: seqZ 4 8).
Proof. vm_compute. reflexivity. Qed.
