(* ===== verification/Adapter.v ===== *)
(** * Adapters ([include/rediscoro/adapter/*.hpp])

    Turning a RESP3 message into a C++ value.  [adapt<T>] dispatches on the
    type at compile time; the types are the codes [ty], their values [cval],
    and [adapt] is a function on the code. *)

From S2P Require Import Prelude Kind Errors Charconv Message.
From Stdlib Require Import SpecFloat.

(** ** Errors ([adapter/error.hpp]) *)

(** [using path_element = std::variant<path_index, path_key, path_field>]. *)
Inductive path_element : Set :=
| path_index (index : Z)
| path_key (key : bytes)
| path_field (field : bytes).

(** [struct error]. *)
Record adapter_error : Set := mk_adapter_error {
  ae_kind : adapter_errc;
  actual_type : kind;
  expected_types : list kind;
  path : list path_element;
  expected_size : option Z;
  got_size : option Z;
  cached_message : option bytes;
}.

(** [prepend_path(el)]: the cached text is dropped. *)
Definition prepend_path (el : path_element) (e : adapter_error) : adapter_error :=
  mk_adapter_error (ae_kind e) (actual_type e) (expected_types e) (el :: path e)
    (expected_size e) (got_size e) None.

Definition make_type_mismatch (actual : kind) (expected : list kind) : adapter_error :=
  mk_adapter_error adapter_errc.type_mismatch actual expected [] None None None.
Definition make_unexpected_null (expected : list kind) : adapter_error :=
  mk_adapter_error adapter_errc.unexpected_null kind.null expected [] None None None.
Definition make_value_out_of_range (k : kind) : adapter_error :=
  mk_adapter_error adapter_errc.value_out_of_range k [k] [] None None None.
Definition make_duplicate_key : adapter_error :=
  mk_adapter_error adapter_errc.duplicate_key kind.map [kind.map] [] None None None.
Definition make_size_mismatch (actual : kind) (expected got : Z) : adapter_error :=
  mk_adapter_error adapter_errc.size_mismatch actual [] [] (Some expected) (Some got) None.

(** The lambdas of [format_message]. *)
Definition type_to_string (k : kind) : bytes := s2b (kind_name k).

Definition path_element_string (el : path_element) : bytes :=
  match el with
  | path_index i => s2b "[" ++ print_Z i ++ s2b "]"
  | path_key k => "["%char :: ascii_of_nat 34 :: k ++ [ascii_of_nat 34; "]"%char]
  | path_field f => s2b "." ++ f
  end.

Definition path_to_string (p : list path_element) : bytes :=
  foldl (fun out el => out ++ path_element_string el) (s2b "$") p.

(** The loop that joins the expected types. *)
Fixpoint join_types (first : bool) (l : list kind) : bytes :=
  match l with
  | [] => []
  | k :: l' => (if first then [] else s2b ", ") ++ type_to_string k ++ join_types false l'
  end.

(** [error::format_message(e)]. *)
Definition format_message (e : adapter_error) : bytes :=
  let p := path_to_string (path e) in
  match ae_kind e with
  | adapter_errc.type_mismatch =>
    match expected_types e with
    | [] => p ++ s2b ": expected <?>, got " ++ type_to_string (actual_type e)
    | [k] => p ++ s2b ": expected " ++ type_to_string k ++ s2b ", got " ++
             type_to_string (actual_type e)
    | l => p ++ s2b ": expected (" ++ (s2b "any of: " ++ join_types true l) ++ s2b "), got " ++
           type_to_string (actual_type e)
    end
  | adapter_errc.unexpected_null =>
    match expected_types e with
    | [k] => p ++ s2b ": unexpected null (expected " ++ type_to_string k ++ s2b ")"
    | [] => p ++ s2b ": unexpected null"
    | l => p ++ s2b ": unexpected null (expected " ++ (s2b "any of: " ++ join_types true l) ++ s2b ")"
    end
  | adapter_errc.value_out_of_range =>
    match expected_types e with
    | [k] => p ++ s2b ": value out of range for " ++ type_to_string k
    | _ => p ++ s2b ": value out of range"
    end
  | adapter_errc.duplicate_key => p ++ s2b ": duplicate key"
  | adapter_errc.size_mismatch =>
    match expected_size e, got_size e with
    | Some n, Some m => p ++ s2b ": size mismatch (expected " ++ print_Z n ++ s2b ", got " ++
                        print_Z m ++ s2b ")"
    | _, _ => p ++ s2b ": size mismatch"
    end
  end.

(** [error::to_string()]: the text is formatted once and kept. *)
Definition error_to_string (e : adapter_error) : bytes * adapter_error :=
  match cached_message e with
  | Some s => (s, e)
  | None =>
    let s := format_message e in
    (s, mk_adapter_error (ae_kind e) (actual_type e) (expected_types e) (path e)
          (expected_size e) (got_size e) (Some s))
  end.

(** ** Target types and their values *)

(** The types [adapt] accepts; [TInt] is an integral type with its
    [std::numeric_limits].  [TDouble] is [double]: for [float] and [long double]
    the final [static_cast] of the value is not modelled. *)
Inductive ty : Set :=
| TIgnore
| TString
| TInt (signed : bool) (bits : Z)
| TBool
| TDouble
| TOptional (t : ty)
| TArray (t : ty) (n : nat)
| TSequence (t : ty)
| TMap (k v : ty).

#[local] Unset Elimination Schemes.
Inductive cval : Set :=
| VIgnore
| VString (s : bytes)
| VInt (z : Z)
| VBool (b : bool)
| VDouble (d : double)
| VOptional (o : option cval)
| VArray (l : list cval)
| VSequence (l : list cval)
| VMap (l : list (cval * cval)).
#[local] Set Elimination Schemes.

Definition int_min (signed : bool) (bits : Z) : Z := if signed then - 2 ^ (bits - 1) else 0.
Definition int_max (signed : bool) (bits : Z) : Z :=
  if signed then 2 ^ (bits - 1) - 1 else 2 ^ bits - 1.

(** [==] on keys. *)
Fixpoint cval_eqb (a b : cval) : bool :=
  let list_eqb := fix go (l k : list cval) : bool :=
    match l, k with
    | [], [] => true
    | x :: l', y :: k' => cval_eqb x y && go l' k'
    | _, _ => false
    end in
  let pair_eqb := fix go (l k : list (cval * cval)) : bool :=
    match l, k with
    | [], [] => true
    | (x1, x2) :: l', (y1, y2) :: k' => cval_eqb x1 y1 && cval_eqb x2 y2 && go l' k'
    | _, _ => false
    end in
  match a, b with
  | VIgnore, VIgnore => true
  | VString s, VString s' => bool_decide (s = s')
  | VInt z, VInt z' => z =? z'
  | VBool x, VBool y => Bool.eqb x y
  | VDouble d, VDouble d' => SFeqb d d'
  | VOptional None, VOptional None => true
  | VOptional (Some x), VOptional (Some y) => cval_eqb x y
  | VArray l, VArray k => list_eqb l k
  | VSequence l, VSequence k => list_eqb l k
  | VMap l, VMap k => pair_eqb l k
  | _, _ => false
  end.

(** ** The adapters *)

Abbreviation adapted := (expected cval adapter_error).

Definition string_kinds : list kind := [kind.simple_string; kind.bulk_string; kind.verbatim_string].

(** [adapt_scalar<std::string>]. *)
Definition adapt_string (m : message bytes) : adapted :=
  match value m with
  | resp3.null _ => Unexpected (make_unexpected_null string_kinds)
  | resp3.simple_string s => Val (VString s)
  | resp3.bulk_string s => Val (VString s)
  | resp3.verbatim_string _ s => Val (VString s)
  | _ => Unexpected (make_type_mismatch (get_kind m) string_kinds)
  end.

(** [adapt_scalar] of an integral type. *)
Definition adapt_int (signed : bool) (bits : Z) (m : message bytes) : adapted :=
  match value m with
  | resp3.null _ => Unexpected (make_unexpected_null [kind.integer])
  | resp3.integer v =>
    if signed then
      if bits <? 64 then
        if (v <? int_min signed bits) || (int_max signed bits <? v) then
          Unexpected (make_value_out_of_range kind.integer)
        else Val (VInt v)
      else Val (VInt v)
    else
      if v <? 0 then Unexpected (make_value_out_of_range kind.integer)
      else
        let uv := u64 v in
        if bits <? 64 then
          if int_max signed bits <? uv then Unexpected (make_value_out_of_range kind.integer)
          else Val (VInt uv)
        else Val (VInt uv)
  | _ => Unexpected (make_type_mismatch (get_kind m) [kind.integer])
  end.

(** [adapt_scalar<bool>], [adapt_scalar<double>]. *)
Definition adapt_bool (m : message bytes) : adapted :=
  match value m with
  | resp3.null _ => Unexpected (make_unexpected_null [kind.boolean])
  | resp3.boolean b => Val (VBool b)
  | _ => Unexpected (make_type_mismatch (get_kind m) [kind.boolean])
  end.

Definition adapt_double (m : message bytes) : adapted :=
  match value m with
  | resp3.null _ => Unexpected (make_unexpected_null [kind.double_number])
  | resp3.double_number d => Val (VDouble d)
  | _ => Unexpected (make_type_mismatch (get_kind m) [kind.double_number])
  end.

(** [adapt_ignore]. *)
Definition adapt_ignore (m : message bytes) : adapted := Val VIgnore.

(** [adapt_optional]. *)
Definition adapt_optional (inner : message bytes -> adapted) (m : message bytes) : adapted :=
  match value m with
  | resp3.null _ => Val (VOptional None)
  | _ =>
    match inner m with
    | Unexpected e => Unexpected e
    | Val v => Val (VOptional (Some v))
    end
  end.

(** The loop of [adapt_std_array] and of [adapt_sequence]. *)
Fixpoint adapt_elements (elem : message bytes -> adapted) (i : Z) (l : list (message bytes)) :
    expected (list cval) adapter_error :=
  match l with
  | [] => Val []
  | m :: l' =>
    match elem m with
    | Unexpected e => Unexpected (prepend_path (path_index i) e)
    | Val v =>
      match adapt_elements elem (i + 1) l' with
      | Unexpected e => Unexpected e
      | Val vs => Val (v :: vs)
      end
    end
  end.

(** [adapt_std_array]. *)
Definition adapt_std_array (elem : message bytes -> adapted) (n : nat) (m : message bytes) : adapted :=
  match value m with
  | resp3.array elems =>
    if negb (length elems =? n)%nat then
      Unexpected (make_size_mismatch (get_kind m) (Z.of_nat n) (zlen elems))
    else
      match adapt_elements elem 0 elems with
      | Unexpected e => Unexpected e
      | Val vs => Val (VArray vs)
      end
  | _ => Unexpected (make_type_mismatch (get_kind m) [kind.array])
  end.

(** [adapt_sequence]. *)
Definition adapt_sequence (elem : message bytes -> adapted) (m : message bytes) : adapted :=
  match value m with
  | resp3.array elems | resp3.set elems | resp3.push elems =>
    match adapt_elements elem 0 elems with
    | Unexpected e => Unexpected e
    | Val vs => Val (VSequence vs)
    end
  | _ => Unexpected (make_type_mismatch (get_kind m) [kind.array; kind.set; kind.push])
  end.

Definition is_string_ty (t : ty) : bool := match t with TString => true | _ => false end.

(** The path of a failed key, and of a failed or duplicate entry: the key
    itself when it is a string. *)
Definition key_path (i : Z) (e : adapter_error) : adapter_error :=
  prepend_path (path_index i) (prepend_path (path_field (s2b "key")) e).
Definition entry_path (string_key : bool) (field : string) (i : Z) (key : cval) (e : adapter_error) :
    adapter_error :=
  match string_key, key with
  | true, VString s => prepend_path (path_key s) e
  | _, _ => prepend_path (path_index i) (prepend_path (path_field (s2b field)) e)
  end.

(** [out.contains(key)]: keys are compared with [==], as an unordered map does;
    [std::map] uses [<], which differs on keys that hold a NaN. *)
Definition has_key (out : list (cval * cval)) (key : cval) : bool :=
  existsb (fun kv => cval_eqb kv.1 key) out.

(** The loop of [adapt_map]: [emplace] cannot fail after the test for
    duplicates. *)
Fixpoint adapt_entries (string_key : bool) (fk fv : message bytes -> adapted) (i : Z)
    (out : list (cval * cval)) (l : list (message bytes * message bytes)) :
    expected (list (cval * cval)) adapter_error :=
  match l with
  | [] => Val out
  | (km, vm) :: l' =>
    match fk km with
    | Unexpected e => Unexpected (key_path i e)
    | Val key =>
      if has_key out key then Unexpected (entry_path string_key "key" i key make_duplicate_key)
      else
        match fv vm with
        | Unexpected e => Unexpected (entry_path string_key "value" i key e)
        | Val v => adapt_entries string_key fk fv (i + 1) (out ++ [(key, v)]) l'
        end
    end
  end.

(** [adapt_map]. *)
Definition adapt_map (string_key : bool) (fk fv : message bytes -> adapted) (m : message bytes) :
    adapted :=
  match value m with
  | resp3.map entries =>
    match adapt_entries string_key fk fv 0 [] entries with
    | Unexpected e => Unexpected e
    | Val l => Val (VMap l)
    end
  | _ => Unexpected (make_type_mismatch (get_kind m) [kind.map])
  end.

(** [adapt<T>(msg)]. *)
Fixpoint adapt (t : ty) (m : message bytes) : adapted :=
  match t with
  | TIgnore => adapt_ignore m
  | TOptional t' => adapt_optional (adapt t') m
  | TArray t' n => adapt_std_array (adapt t') n m
  | TSequence t' => adapt_sequence (adapt t') m
  | TMap k v => adapt_map (is_string_ty k) (adapt k) (adapt v) m
  | TString => adapt_string m
  | TInt s b => adapt_int s b m
  | TBool => adapt_bool m
  | TDouble => adapt_double m
  end.

(** ** Typing of adapted values *)

(** The integral types have at most 64 bits. *)
Fixpoint wf_ty (t : ty) : Prop :=
  match t with
  | TInt _ bits => 1 <= bits <= 64
  | TOptional t' | TArray t' _ | TSequence t' => wf_ty t'
  | TMap k v => wf_ty k /\ wf_ty v
  | _ => True
  end.

(** The integers of a message are 64-bit integers. *)
Fixpoint ints_ok (m : message bytes) : Prop :=
  match m with
  | mk_message v _ =>
    match v with
    | resp3.integer z => i64_min <= z <= i64_max
    | resp3.array l | resp3.set l | resp3.push l => foldr (fun x P => ints_ok x /\ P) True l
    | resp3.map l => foldr (fun kv P => (ints_ok kv.1 /\ ints_ok kv.2) /\ P) True l
    | _ => True
    end
  end.

Definition keys_distinct (l : list (cval * cval)) : Prop :=
  forall i j kv kv', l !! i = Some kv -> l !! j = Some kv' -> (i < j)%nat -> cval_eqb kv.1 kv'.1 = false.

Fixpoint has_type (t : ty) (v : cval) {struct t} : Prop :=
  match t, v with
  | TIgnore, VIgnore => True
  | TString, VString _ => True
  | TInt s b, VInt z => int_min s b <= z <= int_max s b
  | TBool, VBool _ => True
  | TDouble, VDouble _ => True
  | TOptional t', VOptional o => match o with Some x => has_type t' x | None => True end
  | TArray t' n, VArray l => length l = n /\ Forall (has_type t') l
  | TSequence t', VSequence l => Forall (has_type t') l
  | TMap k w, VMap l =>
    Forall (fun kv => has_type k kv.1 /\ has_type w kv.2) l /\ keys_distinct l
  | _, _ => False
  end.

Lemma int_bounds bits : 1 <= bits <= 64 ->
  (bits < 64 -> 2 ^ bits <= 2 ^ 63) /\ 2 ^ bits = 2 * 2 ^ (bits - 1) /\ 0 < 2 ^ (bits - 1).
Proof.
  intros Hb. split; [intros; apply Z.pow_le_mono_r; lia|]. split; [|apply Z.pow_pos_nonneg; lia].
  rewrite <- Z.pow_succ_r by lia. f_equal. lia.
Qed.

(** The exact behaviour on integers: the value when the type can hold it. *)
Lemma adapt_int_spec s bits z a :
  1 <= bits <= 64 -> i64_min <= z <= i64_max ->
  adapt_int s bits (mk_message (resp3.integer z) a) =
  if (int_min s bits <=? z) && (z <=? int_max s bits) then Val (VInt z)
  else Unexpected (make_value_out_of_range kind.integer).
Proof.
  intros Hb Hz. destruct (int_bounds bits Hb) as (H63 & Hpow & Hpos).
  unfold adapt_int, int_min, int_max. cbn [value]. unfold i64_min, i64_max in Hz.
  destruct s.
  - destruct (bits <? 64) eqn:E; bool_prop.
    + destruct (z <? - 2 ^ (bits - 1)) eqn:E1, (2 ^ (bits - 1) - 1 <? z) eqn:E2,
        (- 2 ^ (bits - 1) <=? z) eqn:E3, (z <=? 2 ^ (bits - 1) - 1) eqn:E4; bool_prop; simpl; try lia; done.
    + assert (bits = 64) as -> by lia. change (2 ^ (64 - 1)) with 9223372036854775808 in *.
      rewrite !(proj2 (Z.leb_le _ _)) by lia. done.
  - destruct (z <? 0) eqn:E0; bool_prop.
    + rewrite (proj2 (Z.leb_gt 0 z)) by lia. done.
    + rewrite u64_small by (unfold u64_max; lia). rewrite (proj2 (Z.leb_le 0 z)) by lia. cbn [andb].
      destruct (bits <? 64) eqn:E; bool_prop.
      * destruct (2 ^ bits - 1 <? z) eqn:E1, (z <=? 2 ^ bits - 1) eqn:E2; bool_prop; try lia; done.
      * assert (bits = 64) as -> by lia. rewrite (proj2 (Z.leb_le _ _)); [done|].
        change (2 ^ 64) with 18446744073709551616. lia.
Qed.

Lemma adapt_elements_typed elem (P : cval -> Prop) l : forall i vs,
  (forall m v, m ∈ l -> elem m = Val v -> P v) -> adapt_elements elem i l = Val vs ->
  length vs = length l /\ Forall P vs.
Proof.
  induction l as [|m l IH]; intros i vs Hel H; cbn [adapt_elements] in H; [by injection H as <-|].
  destruct (elem m) as [v|] eqn:Ev; [|done]. destruct (adapt_elements elem (i + 1) l) as [vs'|] eqn:E; [|done].
  injection H as <-. destruct (IH (i + 1) vs') as [Hlen Hall]; [intros; eapply Hel; [by right|done]|done|].
  simpl. split; [by f_equal|]. constructor; [|done]. eapply Hel; [by left|done].
Qed.

Lemma has_key_false out key :
  has_key out key = false -> Forall (fun kv => cval_eqb kv.1 key = false) out.
Proof.
  unfold has_key. induction out as [|kv out IH]; simpl; [by constructor|]. intros H.
  apply orb_false_iff in H as [H1 H2]. constructor; auto.
Qed.

Lemma keys_distinct_snoc out key v :
  keys_distinct out -> has_key out key = false -> keys_distinct (out ++ [(key, v)]).
Proof.
  intros Hd Hk i j kv kv' Hi Hj Hlt. apply has_key_false in Hk.
  apply lookup_app_Some in Hj as [Hj|[Hge Hj]].
  - apply lookup_app_Some in Hi as [Hi|[Hge _]]; [by eapply Hd|].
    apply lookup_lt_Some in Hj. lia.
  - apply list_lookup_singleton_Some in Hj as [Hj0 <-].
    apply lookup_app_Some in Hi as [Hi|[Hge' Hi]]; [by eapply (Forall_lookup_1 _ _ _ _ Hk)|lia].
Qed.

Lemma adapt_entries_typed sk fk fv (Pk Pv : cval -> Prop) l : forall i out res,
  (forall km vm, (km, vm) ∈ l -> (forall v, fk km = Val v -> Pk v) /\ (forall v, fv vm = Val v -> Pv v)) ->
  Forall (fun kv => Pk kv.1 /\ Pv kv.2) out -> keys_distinct out ->
  adapt_entries sk fk fv i out l = Val res ->
  Forall (fun kv => Pk kv.1 /\ Pv kv.2) res /\ keys_distinct res.
Proof.
  induction l as [|[km vm] l IH]; intros i out res Hel Hout Hd H; cbn [adapt_entries] in H;
    [by injection H as <-|].
  destruct (fk km) as [key|] eqn:Ek; [|done]. destruct (has_key out key) eqn:Eh; [done|].
  destruct (fv vm) as [v|] eqn:Ev; [|done].
  destruct (Hel km vm) as [Hk Hv]; [by left|].
  eapply IH; [| | |exact H].
  - intros. apply Hel. by right.
  - apply Forall_app. split; [done|]. constructor; [|constructor]. simpl. auto.
  - by apply keys_distinct_snoc.
Qed.

Lemma ints_ok_elem l m : foldr (fun x P => ints_ok x /\ P) True l -> m ∈ l -> ints_ok m.
Proof.
  induction l as [|x l IH]; simpl; [by intros _ ?%elem_of_nil|].
  intros [Hx Hl] [->|Hm]%elem_of_cons; auto.
Qed.

Lemma ints_ok_entry l km vm :
  foldr (fun kv P => (ints_ok kv.1 /\ ints_ok kv.2) /\ P) True l -> (km, vm) ∈ l ->
  ints_ok km /\ ints_ok vm.
Proof.
  induction l as [|x l IH]; simpl; [by intros _ ?%elem_of_nil|].
  intros [Hx Hl] [<-|Hm]%elem_of_cons; auto.
Qed.

Lemma adapt_has_type t : forall m v,
  wf_ty t -> ints_ok m -> adapt t m = Val v -> has_type t v.
Proof.
  induction t as [| |s b| | |t IH|t IH n|t IH|k IHk w IHw]; intros m v Hwf Hm H; cbn [adapt wf_ty] in *.
  - by injection H as <-.
  - unfold adapt_string in H. by destruct (value m); simplify_eq.
  - destruct m as [mv a]. destruct mv; try done. cbn [ints_ok] in Hm.
    rewrite adapt_int_spec in H by done. destruct (_ && _) eqn:E; [|done]. bool_prop. by injection H as <-.
  - unfold adapt_bool in H. by destruct (value m); simplify_eq.
  - unfold adapt_double in H. by destruct (value m); simplify_eq.
  - unfold adapt_optional in H.
    assert (forall x, adapt t m = Val x -> has_type (TOptional t) (VOptional (Some x))) as Hs
      by (intros; cbn [has_type]; eauto).
    destruct (value m); try (by injection H as <-);
      (destruct (adapt t m) as [x|]; [injection H as <-; by apply Hs|done]).
  - unfold adapt_std_array in H. destruct m as [mv a]. destruct mv; try done. cbn [value] in H.
    destruct (negb _) eqn:En; [done|]. bool_prop.
    destruct (adapt_elements _ _ _) as [vs|] eqn:E; [|done]. injection H as <-.
    destruct (adapt_elements_typed (adapt t) (has_type t) _ _ _ (fun m' v' Hin => IH m' v' Hwf (ints_ok_elem _ _ Hm Hin)) E).
    cbn [has_type]. split; [congruence|done].
  - unfold adapt_sequence in H. destruct m as [mv a]. destruct mv; try done; cbn [value] in H;
      (destruct (adapt_elements _ _ _) as [vs|] eqn:E; [|done]); injection H as <-;
      by destruct (adapt_elements_typed (adapt t) (has_type t) _ _ _ (fun m' v' Hin => IH m' v' Hwf (ints_ok_elem _ _ Hm Hin)) E).
  - unfold adapt_map in H. destruct m as [mv a]. destruct mv; try done. cbn [value] in H.
    destruct (adapt_entries _ _ _ _ _ _) as [l|] eqn:E; [|done]. injection H as <-. destruct Hwf as [Hwk Hww].
    eapply (adapt_entries_typed _ _ _ (has_type k) (has_type w)); [| | |exact E].
    + intros km vm Hin. destruct (ints_ok_entry _ _ _ Hm Hin). split; intros; eauto.
    + constructor.
    + by intros i j kv kv' Hi.
Qed.

(** ** Where an error points *)

(** The text of a string message. *)
Definition string_text (m : message bytes) : option bytes :=
  match value m with
  | resp3.simple_string s | resp3.bulk_string s | resp3.verbatim_string _ s => Some s
  | _ => None
  end.

(** The first value under a string key. *)
Definition find_entry (s : bytes) (l : list (message bytes * message bytes)) : option (message bytes) :=
  snd <$> List.find (fun kv => bool_decide (string_text kv.1 = Some s)) l.

(** Walk a path from a message to one of its parts. *)
Fixpoint follow (p : list path_element) (m : message bytes) {struct p} : option (message bytes) :=
  match p with
  | [] => Some m
  | path_index i :: p' =>
    match value m with
    | resp3.array l | resp3.set l | resp3.push l => x ← l !! Z.to_nat i; follow p' x
    | resp3.map l =>
      kv ← l !! Z.to_nat i;
      match p' with
      | path_field f :: p'' =>
        if bool_decide (f = s2b "key") then follow p'' kv.1
        else if bool_decide (f = s2b "value") then follow p'' kv.2 else None
      | _ => None
      end
    | _ => None
    end
  | path_key s :: p' =>
    match value m with
    | resp3.map l => x ← find_entry s l; follow p' x
    | _ => None
    end
  | path_field _ :: _ => None
  end.

(** The last elements of the path of a duplicate key: the key itself when it
    is a string, the field of the entry otherwise. *)
Definition names_key (kt : ty) (j : nat) (key : cval) (rest : list path_element) : Prop :=
  match kt, key with
  | TString, VString s => rest = [path_key s]
  | _, _ => rest = [path_index (Z.of_nat j); path_field (s2b "key")]
  end.

(** Entry [j] of a map has the key of an earlier entry, read at type [kt]. *)
Definition key_repeated (kt : ty) (l : list (message bytes * message bytes)) (j : nat) (key : cval) : Prop :=
  exists i km vm km' vm' key', (i < j)%nat /\ l !! i = Some (km', vm') /\ l !! j = Some (km, vm) /\
    adapt kt km' = Val key' /\ adapt kt km = Val key /\ cval_eqb key' key = true.

(** What is wrong with the part [x] of the message: it has the kind the error
    reports, and for a duplicate key it is a map with such an entry, which
    [rest] names. *)
Definition blamed (e : adapter_error) (rest : list path_element) (x : message bytes) : Prop :=
  get_kind x = actual_type e /\
  if bool_decide (ae_kind e = adapter_errc.duplicate_key)
  then exists kt l j key, value x = resp3.map l /\ key_repeated kt l j key /\ names_key kt j key rest
  else rest = [].

(** The path of the error leads to the part to blame. *)
Definition located (e : adapter_error) (m : message bytes) : Prop :=
  exists q rest x, path e = q ++ rest /\ follow q m = Some x /\ blamed e rest x.

Definition locates (m : message bytes) (r : adapted) : Prop :=
  forall e, r = Unexpected e -> located e m.

Lemma located_here e m :
  path e = [] -> actual_type e = get_kind m -> ae_kind e <> adapter_errc.duplicate_key -> located e m.
Proof. intros Hp Ha Hk. exists [], [], m. unfold blamed. by rewrite bool_decide_false. Qed.

(** A longer path to the same part. *)
Lemma located_under e' e m m' q0 :
  located e' m' -> path e = q0 ++ path e' -> ae_kind e = ae_kind e' -> actual_type e = actual_type e' ->
  (forall q, follow (q0 ++ q) m = follow q m') -> located e m.
Proof.
  intros (q & rest & x & Hp & Hx & Hb) Hpe Hk Ha Hf. exists (q0 ++ q), rest, x.
  split; [by rewrite Hpe, Hp, app_assoc|]. split; [by rewrite Hf|]. unfold blamed. by rewrite Hk, Ha.
Qed.

Lemma locates_scalar (f : message bytes -> adapted) m :
  (forall e, f m = Unexpected e ->
    path e = [] /\ actual_type e = get_kind m /\ ae_kind e <> adapter_errc.duplicate_key) -> locates m (f m).
Proof. intros H e He. destruct (H e He) as (Hp & Ha & Hk). by apply located_here. Qed.

Lemma adapt_elements_locates elem l0 l : forall i e,
  (forall m, m ∈ l -> locates m (elem m)) -> drop i l0 = l ->
  adapt_elements elem (Z.of_nat i) l = Unexpected e ->
  exists j m e', l0 !! j = Some m /\ e = prepend_path (path_index (Z.of_nat j)) e' /\ located e' m.
Proof.
  induction l as [|m l IH]; intros i e Hel Hd H; cbn [adapt_elements] in H; [done|].
  assert (l0 !! i = Some m) as Hi by (rewrite <- (Nat.add_0_r i), <- lookup_drop, Hd; done).
  destruct (elem m) as [v|e'] eqn:Ev.
  - destruct (adapt_elements elem (Z.of_nat i + 1) l) as [vs|e'] eqn:E; [done|]. injection H as <-.
    replace (Z.of_nat i + 1) with (Z.of_nat (S i)) in E by lia.
    eapply (IH (S i)); [intros; apply Hel; by right| |exact E].
    rewrite <- Nat.add_1_r, <- drop_drop, Hd. done.
  - injection H as <-. exists i, m, e'. split; [done|]. split; [done|].
    eapply Hel; [by left|exact Ev].
Qed.

Lemma locates_elements elem l a (mk : list (message bytes) -> value_type bytes (message bytes)) (w : list cval -> cval) :
  (mk = resp3.array \/ mk = resp3.set \/ mk = resp3.push) ->
  (forall m, m ∈ l -> locates m (elem m)) ->
  locates (mk_message (mk l) a)
    (match adapt_elements elem 0 l with Unexpected e => Unexpected e | Val vs => Val (w vs) end).
Proof.
  intros Hmk Hel e H. destruct (adapt_elements elem 0 l) as [|e'] eqn:E; [done|]. injection H as ->.
  destruct (adapt_elements_locates elem l l 0 e Hel eq_refl E) as (j & m & e' & Hj & -> & Hl).
  apply (located_under e' _ _ m [path_index (Z.of_nat j)] Hl); try done. intros q. cbn [app follow value].
  destruct Hmk as [->|[->| ->]]; cbn [value]; rewrite Nat2Z.id, Hj; done.
Qed.

(** The entries before [i] have string keys other than [s]. *)
Lemma find_entry_at l i km vm s :
  l !! i = Some (km, vm) -> string_text km = Some s ->
  (forall j kv, (j < i)%nat -> l !! j = Some kv -> string_text kv.1 <> Some s) ->
  find_entry s l = Some vm.
Proof.
  revert i. induction l as [|kv l IH]; intros i Hi Hs Hb; [done|]. unfold find_entry. simpl.
  destruct i as [|i].
  - injection Hi as ->. simpl. by rewrite bool_decide_true.
  - rewrite bool_decide_false; [|apply (Hb 0%nat kv); [lia|done]].
    apply (IH i); [done|done|]. intros j kv' Hj Hl. apply (Hb (S j)); [lia|done].
Qed.

Lemma adapt_string_text m v : adapt_string m = Val v -> exists s, v = VString s /\ string_text m = Some s.
Proof. unfold adapt_string, string_text. destruct (value m); intros H; simplify_eq; eauto. Qed.

Lemma has_key_string out s s' v :
  has_key out (VString s) = false -> (VString s', v) ∈ out -> s' <> s.
Proof.
  intros H Hin ->. apply has_key_false in H. rewrite Forall_forall in H. specialize (H _ Hin).
  simpl in H. by rewrite bool_decide_true in H.
Qed.

(** What the loop of [adapt_map] has done before entry [i]: [out] holds one
    entry for each, with its key. *)
Definition seen (kt : ty) (l0 : list (message bytes * message bytes)) (i : nat) (out : list (cval * cval)) : Prop :=
  length out = i /\
  forall j kv, out !! j = Some kv -> exists km vm, l0 !! j = Some (km, vm) /\ adapt kt km = Val kv.1.

Lemma seen_next kt l0 i out km vm key v :
  seen kt l0 i out -> l0 !! i = Some (km, vm) -> adapt kt km = Val key -> seen kt l0 (S i) (out ++ [(key, v)]).
Proof.
  intros [Hlen Hs] Hi Hk. split; [rewrite length_app; simpl; lia|]. intros j kv.
  rewrite lookup_app_Some, list_lookup_singleton_Some. intros [H|(H1 & H2 & <-)]; [by apply Hs|].
  assert (j = i) as -> by lia. eauto.
Qed.

Lemma seen_repeated kt l0 i out km vm key :
  seen kt l0 i out -> l0 !! i = Some (km, vm) -> adapt kt km = Val key -> has_key out key = true ->
  key_repeated kt l0 i key.
Proof.
  intros [Hlen Hs] Hi Hk Hh. apply existsb_exists in Hh as (kv & Hin & He).
  apply list_elem_of_In, list_elem_of_lookup in Hin as [j Hj].
  destruct (Hs j kv Hj) as (km' & vm' & Hl & Ha). apply lookup_lt_Some in Hj.
  exists j, km, vm, km', vm', kv.1. split; [lia|done].
Qed.

(** With string keys, a new key is none of the earlier ones. *)
Lemma seen_fresh l0 i out s :
  seen TString l0 i out -> has_key out (VString s) = false ->
  forall j kv, (j < i)%nat -> l0 !! j = Some kv -> string_text kv.1 <> Some s.
Proof.
  intros [Hlen Hs] Hh j kv Hj Hl Ht. destruct (lookup_lt_is_Some_2 out j) as [[k v] Ho]; [lia|].
  destruct (Hs j _ Ho) as (km & vm & Hl' & Ha). rewrite Hl in Hl'. injection Hl' as ->.
  destruct (adapt_string_text _ _ Ha) as (s' & Hk & Ht'). cbn [fst] in *. simplify_eq.
  eapply has_key_string; [exact Hh|by eapply list_elem_of_lookup_2|done].
Qed.

Lemma entry_path_same sk field i key e :
  ae_kind (entry_path sk field i key e) = ae_kind e /\ actual_type (entry_path sk field i key e) = actual_type e.
Proof. unfold entry_path. by destruct sk, key. Qed.

Lemma duplicate_located kt l0 a i out km vm key :
  seen kt l0 i out -> l0 !! i = Some (km, vm) -> adapt kt km = Val key -> has_key out key = true ->
  located (entry_path (is_string_ty kt) "key" (Z.of_nat i) key make_duplicate_key) (mk_message (resp3.map l0) a).
Proof.
  intros Hs Hi Hk Hh. pose proof (seen_repeated _ _ _ _ _ _ _ Hs Hi Hk Hh) as Hr.
  destruct (entry_path_same (is_string_ty kt) "key" (Z.of_nat i) key make_duplicate_key) as [Hek Hea].
  exists [], (path (entry_path (is_string_ty kt) "key" (Z.of_nat i) key make_duplicate_key)), (mk_message (resp3.map l0) a).
  split; [done|]. split; [done|]. unfold blamed. rewrite Hek, Hea. split; [done|]. cbn [ae_kind make_duplicate_key].
  rewrite bool_decide_true by done. exists kt, l0, i, key. split; [done|]. split; [done|].
  unfold names_key, entry_path. by destruct kt, key.
Qed.

Lemma adapt_entries_locates kt fv l0 a l : forall i out e,
  (forall km vm, (km, vm) ∈ l -> locates km (adapt kt km) /\ locates vm (fv vm)) -> drop i l0 = l ->
  seen kt l0 i out ->
  adapt_entries (is_string_ty kt) (adapt kt) fv (Z.of_nat i) out l = Unexpected e ->
  located e (mk_message (resp3.map l0) a).
Proof.
  induction l as [|[km vm] l IH]; intros i out e Hel Hd Hseen H; cbn [adapt_entries] in H; [done|].
  assert (l0 !! i = Some (km, vm)) as Hi by (rewrite <- (Nat.add_0_r i), <- lookup_drop, Hd; done).
  destruct (Hel km vm) as [Hlk Hlv]; [by left|].
  destruct (adapt kt km) as [key|e'] eqn:Ek.
  2: { injection H as <-. eapply (located_under e' _ _ km [_; _]); [by apply Hlk|done..|].
       intros q. cbn [app follow value]. rewrite Nat2Z.id, Hi. done. }
  destruct (has_key out key) eqn:Eh; [injection H as <-; by eapply duplicate_located|].
  destruct (fv vm) as [v|e'] eqn:Ev.
  - replace (Z.of_nat i + 1) with (Z.of_nat (S i)) in H by lia.
    eapply (IH (S i)); [intros; apply Hel; by right| | |exact H].
    + rewrite <- Nat.add_1_r, <- drop_drop, Hd. done.
    + by eapply seen_next.
  - injection H as <-. specialize (Hlv e' eq_refl).
    assert (located (prepend_path (path_index (Z.of_nat i)) (prepend_path (path_field (s2b "value")) e'))
      (mk_message (resp3.map l0) a)) as Hgen.
    { eapply (located_under e' _ _ vm [_; _]); [done..|]. intros q. cbn [app follow value]. rewrite Nat2Z.id, Hi. done. }
    unfold entry_path. destruct kt; cbn [is_string_ty]; try exact Hgen. cbn [adapt] in Ek.
    destruct (adapt_string_text _ _ Ek) as (s & -> & Hs). eapply (located_under e' _ _ vm [_]); [done..|].
    intros q. cbn [app follow value]. by rewrite (find_entry_at l0 i km vm s Hi Hs (seen_fresh _ _ _ _ Hseen Eh)).
Qed.

Lemma adapt_locates t : forall m, locates m (adapt t m).
Proof.
  induction t as [| |sg b| | |t IH|t IH n|t IH|k IHk w IHw]; intros m; cbn [adapt].
  - done.
  - apply locates_scalar. unfold adapt_string, get_kind. intros e H.
    destruct (value m); simplify_eq; done.
  - apply locates_scalar. unfold adapt_int, get_kind. intros e H.
    destruct (value m); repeat case_match; simplify_eq; done.
  - apply locates_scalar. unfold adapt_bool, get_kind. intros e H.
    destruct (value m); simplify_eq; done.
  - apply locates_scalar. unfold adapt_double, get_kind. intros e H.
    destruct (value m); simplify_eq; done.
  - intros e H. unfold adapt_optional in H.
    destruct (value m); try done; (destruct (adapt t m) as [|e'] eqn:E; [done|]; injection H as ->; by eapply IH).
  - destruct m as [mv a]. unfold adapt_std_array.
    destruct mv; try (intros e H; injection H as <-; by apply located_here).
    cbn [value]. destruct (negb _); [intros e H; injection H as <-; by apply located_here|].
    apply (locates_elements (adapt t) _ a resp3.array VArray); auto.
  - destruct m as [mv a]. unfold adapt_sequence.
    destruct mv; try (intros e H; injection H as <-; by apply located_here); cbn [value].
    + apply (locates_elements (adapt t) _ a resp3.array VSequence); auto.
    + apply (locates_elements (adapt t) _ a resp3.set VSequence); auto.
    + apply (locates_elements (adapt t) _ a resp3.push VSequence); auto.
  - destruct m as [mv a]. unfold adapt_map.
    destruct mv; try (intros e H; injection H as <-; by apply located_here); cbn [value].
    intros e H. destruct (adapt_entries _ _ _ _ _ _) as [|e'] eqn:E; [done|]. injection H as ->.
    eapply (adapt_entries_locates k _ _ _ _ 0 [] e); [| | |exact E]; auto. by split.
Qed.

(** ** The message that stands for a value *)

Fixpoint to_message (v : cval) : message bytes :=
  mk_message
    match v with
    | VIgnore => resp3.null kind.null
    | VString s => resp3.bulk_string s
    | VInt z => resp3.integer z
    | VBool b => resp3.boolean b
    | VDouble d => resp3.double_number d
    | VOptional None => resp3.null kind.null
    | VOptional (Some x) => value (to_message x)
    | VArray l | VSequence l => resp3.array (map to_message l)
    | VMap l => resp3.map (map (fun kv => (to_message kv.1, to_message kv.2)) l)
    end None.

(** Types whose values a message determines: an optional does not hold
    another optional (null would be ambiguous) and [ignore_t] is not nested. *)
Fixpoint plain_ty (t : ty) : bool :=
  match t with
  | TIgnore => false
  | TOptional (TOptional _) => false
  | TOptional t' | TArray t' _ | TSequence t' => plain_ty t'
  | TMap k v => plain_ty k && plain_ty v
  | _ => true
  end.

Lemma adapt_elements_map elem l : forall i,
  Forall (fun v => elem (to_message v) = Val v) l ->
  adapt_elements elem i (map to_message l) = Val l.
Proof.
  induction l as [|v l IH]; intros i Hl; [done|]. apply Forall_cons in Hl as [Hv Hl].
  cbn [map adapt_elements]. by rewrite Hv, IH.
Qed.

Lemma has_key_prefix out kv l :
  keys_distinct (out ++ kv :: l) -> has_key out kv.1 = false.
Proof.
  intros Hd. destruct (has_key out kv.1) eqn:E; [exfalso|done].
  apply existsb_exists in E as (x & Hx & Heq). apply list_elem_of_In, list_elem_of_lookup in Hx as [i Hi].
  rewrite (Hd i (length out) x kv) in Heq; [done| | |].
  - by apply lookup_app_l_Some.
  - by rewrite lookup_app_r, Nat.sub_diag by lia.
  - by eapply lookup_lt_Some.
Qed.

Lemma adapt_entries_map sk fk fv l : forall i out,
  Forall (fun kv => fk (to_message kv.1) = Val kv.1 /\ fv (to_message kv.2) = Val kv.2) l ->
  keys_distinct (out ++ l) ->
  adapt_entries sk fk fv i out (map (fun kv => (to_message kv.1, to_message kv.2)) l) = Val (out ++ l).
Proof.
  induction l as [|[k v] l IH]; intros i out Hl Hd; cbn [map adapt_entries]; [by rewrite app_nil_r|].
  apply Forall_cons in Hl as [[Hk Hv] Hl]. cbn [fst snd] in *. rewrite Hk.
  pose proof (has_key_prefix _ _ _ Hd) as Hno. cbn [fst] in Hno. rewrite Hno, Hv, IH; [by rewrite <- app_assoc|done|by rewrite <- app_assoc].
Qed.

Lemma to_message_not_null t v src :
  plain_ty t = true -> match t with TOptional _ => False | _ => True end -> has_type t v ->
  value (to_message v) <> resp3.null src.
Proof. by destruct t, v. Qed.

Lemma adapt_to_message t : forall v,
  wf_ty t -> plain_ty t = true -> has_type t v -> ints_ok (to_message v) -> adapt t (to_message v) = Val v.
Proof.
  induction t as [| |sg b| | |t IH|t IH n|t IH|k IHk w IHw]; intros v Hwf Hp Hv Hi;
    destruct v; try done; cbn [adapt].
  - cbn [to_message ints_ok has_type wf_ty] in *. unfold to_message. rewrite adapt_int_spec by done.
    by rewrite !(proj2 (Z.leb_le _ _)) by lia.
  - destruct o as [x|]; [|done]. cbn [has_type] in Hv.
    assert (plain_ty t = true /\ match t with TOptional _ => False | _ => True end) as [Hp' Hno]
      by (by destruct t).
    assert (to_message (VOptional (Some x)) = to_message x) as Hx
      by (cbn [to_message]; destruct x as [| | | | |[]| | |]; done).
    rewrite Hx in *. unfold adapt_optional.
    pose proof (fun src => to_message_not_null t x src Hp' Hno Hv) as Hnn.
    rewrite (IH x) by done. destruct (value (to_message x)); try done. by destruct (Hnn source).
  - destruct Hv as [Hlen Hall]. cbn [to_message ints_ok] in *. unfold adapt_std_array. cbn [value].
    rewrite length_map, (proj2 (Nat.eqb_eq _ _)) by done. cbn [negb].
    rewrite adapt_elements_map; [done|]. rewrite Forall_forall in *. intros x Hx.
    apply IH; auto. eapply ints_ok_elem; [exact Hi|]. by apply list_elem_of_fmap_2.
  - cbn [has_type to_message ints_ok] in *. unfold adapt_sequence. cbn [value].
    rewrite adapt_elements_map; [done|]. rewrite Forall_forall in *. intros x Hx.
    apply IH; auto. eapply ints_ok_elem; [exact Hi|]. by apply list_elem_of_fmap_2.
  - destruct Hv as [Hall Hd]. cbn [to_message ints_ok plain_ty wf_ty] in *. bool_prop. destruct Hwf.
    unfold adapt_map. cbn [value]. rewrite (adapt_entries_map _ _ _ _ 0 []); [done| |done].
    rewrite Forall_forall in *. intros [x y] Hx. destruct (Hall _ Hx).
    apply (list_elem_of_fmap_2 (fun kv => (to_message kv.1, to_message kv.2))) in Hx.
    apply (ints_ok_entry _ _ _ Hi) in Hx as [Hi1 Hi2]. cbn [fst snd] in *. auto.
Qed.

(** ** Theorems *)

(** C34: a successful adaptation yields a value of the requested type: integers
    within the limits of the integral type, arrays of exactly [N] elements,
    maps without duplicate keys, all the way down. *)
Theorem adapt_typed t m v :
  wf_ty t -> ints_ok m -> adapt t m = Val v -> has_type t v.
Proof. apply adapt_has_type. Qed.

Definition sample_ty : ty := TMap TString (TSequence (TOptional (TInt false 8))).

Definition sample_message (last : value_type bytes (message bytes)) : message bytes :=
  mk_message (resp3.map
    [(mk_message (resp3.simple_string (s2b "a")) None,
      mk_message (resp3.array [mk_message (resp3.integer 255) None; default_message]) None);
     (mk_message (resp3.bulk_string (s2b "b")) None,
      mk_message (resp3.set [mk_message last None]) None)]) None.

Definition sample_value : cval :=
  VMap [(VString (s2b "a"), VSequence [VOptional (Some (VInt 255)); VOptional None]);
        (VString (s2b "b"), VSequence [VOptional (Some (VInt 7))])].

Lemma adapt_typed_witness :
  adapt sample_ty (sample_message (resp3.integer 7)) = Val sample_value /\ has_type sample_ty sample_value.
Proof.
  split; [reflexivity|].
  apply (adapt_typed sample_ty (sample_message (resp3.integer 7)) sample_value);
    [vm_compute; repeat split; congruence|vm_compute; repeat split; congruence|reflexivity].
Defined.

(** C35: the error of a failed adaptation points at its cause.  Walking its
    path (indices, map keys, key/value fields) from the message reaches a part
    of it, and the error's actual type is the kind of that part.  The path of a
    duplicate key reaches in the same way a map, of which some entry, read at
    the key type, has the key of an earlier one, and then names that entry: by
    its key when keys are strings, by its index and the field "key" otherwise. *)
Theorem adapt_error_path t m e :
  adapt t m = Unexpected e ->
  (ae_kind e <> adapter_errc.duplicate_key ->
    exists x, follow (path e) m = Some x /\ get_kind x = actual_type e) /\
  (ae_kind e = adapter_errc.duplicate_key ->
    exists q rest x kt l j key, path e = q ++ rest /\ follow q m = Some x /\ get_kind x = actual_type e /\
      value x = resp3.map l /\ key_repeated kt l j key /\ names_key kt j key rest).
Proof.
  intros H. destruct (adapt_locates t m e H) as (q & rest & x & Hp & Hx & Hk & Hb). split; intros He.
  - rewrite bool_decide_false in Hb by done. subst rest. rewrite app_nil_r in Hp. rewrite Hp. eauto.
  - rewrite bool_decide_true in Hb by done. destruct Hb as (kt & l & j & key & Hv & Hr & Hn).
    exists q, rest, x, kt, l, j, key. done.
Qed.

(** Two entries of an inner map have the same key. *)
Definition twice_message : message bytes :=
  mk_message (resp3.array [mk_message (resp3.map
    [(mk_message (resp3.integer 1) None, mk_message (resp3.boolean true) None);
     (mk_message (resp3.integer 1) None, mk_message (resp3.boolean false) None)]) None]) None.

Lemma adapt_error_path_witness :
  (exists e x, adapt sample_ty (sample_message (resp3.integer 256)) = Unexpected e /\
    path e = [path_key (s2b "b"); path_index 0] /\
    follow (path e) (sample_message (resp3.integer 256)) = Some x /\ get_kind x = actual_type e) /\
  (exists e q rest x kt l j key, adapt (TSequence (TMap (TInt true 64) TBool)) twice_message = Unexpected e /\
    path e = [path_index 0; path_index 1; path_field (s2b "key")] /\
    path e = q ++ rest /\ follow q twice_message = Some x /\
    value x = resp3.map l /\ key_repeated kt l j key /\ names_key kt j key rest).
Proof.
  split.
  - eexists. destruct (adapt_error_path sample_ty (sample_message (resp3.integer 256)) _ eq_refl) as [Hl _].
    destruct Hl as (x & Hx & Hk); [discriminate|].
    exists x. split; [reflexivity|]. split; [reflexivity|]. split; [exact Hx|exact Hk].
  - eexists. destruct (adapt_error_path (TSequence (TMap (TInt true 64) TBool)) twice_message _ eq_refl) as [_ Hl].
    destruct Hl as (q & rest & x & kt & l & j & key & Hp & Hq & _ & Hv & Hr & Hn); [reflexivity|].
    exists q, rest, x, kt, l, j, key. split; [reflexivity|]. split; [reflexivity|]. split; [exact Hp|].
    split; [exact Hq|]. split; [exact Hv|]. split; [exact Hr|exact Hn].
Defined.

(** C36: adapting the message that stands for a value gives the value back, for
    every type without nested optionals. *)
Theorem adapt_roundtrip t v :
  wf_ty t -> plain_ty t = true -> has_type t v -> ints_ok (to_message v) ->
  adapt t (to_message v) = Val v.
Proof. apply adapt_to_message. Qed.

Lemma adapt_roundtrip_witness : adapt sample_ty (to_message sample_value) = Val sample_value.
Proof.
  apply (adapt_roundtrip sample_ty sample_value);
    [vm_compute; repeat split; congruence|reflexivity| |vm_compute; repeat split; congruence].
  split; [repeat constructor; vm_compute; congruence|].
  intros [|[|i]] [|[|j]] kv kv' Hi Hj Hlt; try lia; try discriminate.
  injection Hi as <-. injection Hj as <-. reflexivity.
Defined.
