(* ===== verification/ResponseSink.v ===== *)
(** * Response sinks ([tracing.hpp], [response.hpp], [detail/response_sink.hpp],
    [detail/response_builder.hpp], [detail/pending_response.hpp])

    A sink collects the replies of one request.  [ResponseSink] is what the
    pipeline may rely on; [pending_response] and [pending_dynamic_response]
    implement it, each from a builder ([Builder]). *)

From S2P Require Import Prelude Kind Errors Message Adapter.

(** ** Tracing ([tracing.hpp]) *)

Module request_kind.

(** [enum class request_kind]. *)
Inductive request_kind : Set := user | handshake.

End request_kind.

Abbreviation request_kind := request_kind.request_kind.

Definition request_kind_to_string (k : request_kind) : string :=
  match k with
  | request_kind.user => "user"
  | request_kind.handshake => "handshake"
  end%string.

(** [struct request_trace_info]. *)
Record request_trace_info : Set := mk_trace_info {
  info_id : Z;
  info_kind : request_kind;
  info_command_count : Z;
  info_wire_bytes : Z;
}.

(** [struct request_trace_finish]; durations are in nanoseconds. *)
Record request_trace_finish : Set := mk_trace_finish {
  fin_info : request_trace_info;
  duration : Z;
  fin_ok_count : Z;
  fin_error_count : Z;
  fin_primary_error : error_code;
  fin_primary_error_detail : bytes;
}.

(** [struct request_trace_hooks]: which callbacks are set. *)
Record request_trace_hooks : Set := mk_trace_hooks { on_start : bool; on_finish : bool }.

Definition no_trace_hooks : request_trace_hooks := mk_trace_hooks false false.
Definition trace_hooks_enabled (h : request_trace_hooks) : bool := on_start h || on_finish h.

(** ** Slots ([response.hpp]) *)

(** [response_slot<T>], with the type erased. *)
Abbreviation response_slot := (expected cval error_info).

(** What the pipeline delivers: [deliver(msg)] or [deliver_error(err)]. *)
Inductive reply : Type :=
| reply_message (m : message bytes)
| reply_error (e : error_info).

(** [slot_from_message<T>(msg)]. *)
Definition slot_from_message (t : ty) (msg : message bytes) : response_slot :=
  match value msg with
  | resp3.simple_error s =>
    Unexpected (mk_error_info (make_server_error_code server_errc.redis_error) s)
  | resp3.bulk_error s =>
    Unexpected (mk_error_info (make_server_error_code server_errc.redis_error) s)
  | _ =>
    match adapt t msg with
    | Unexpected e =>
      Unexpected (mk_error_info (make_adapter_error_code (ae_kind e)) (error_to_string e).1)
    | Val v => Val v
    end
  end.

(** [slot_from_error<T>(err)]. *)
Definition slot_from_error (err : error_info) : response_slot := Unexpected err.

(** The slot a reply ends up in. *)
Definition slot_of (t : ty) (r : reply) : response_slot :=
  match r with
  | reply_message m => slot_from_message t m
  | reply_error e => slot_from_error e
  end.

(** ** Builders ([detail/response_builder.hpp]) *)

(** What [pending_response] asks of a builder: [accept] stores one slot,
    [done] tells when all are there, [take_results] hands them over. *)
Class Builder (B : Type) : Type := {
  b_count : B -> nat;
  accept : reply -> B -> run B;
  done_ : B -> bool;
  take_results : B -> run (list response_slot);
  b_wf : B -> Prop;
  b_types : B -> list ty;
  b_slots : B -> list response_slot;
  b_count_types : forall b, b_wf b -> b_count b = length (b_types b);
  b_bound : forall b, b_wf b -> (length (b_slots b) <= length (b_types b))%nat;
  b_done : forall b, b_wf b -> done_ b = (length (b_slots b) =? length (b_types b))%nat;
  b_accept : forall b t r, b_wf b -> b_types b !! length (b_slots b) = Some t ->
    exists b', accept r b = Ret b' /\ b_wf b' /\ b_types b' = b_types b /\
      b_slots b' = b_slots b ++ [slot_of t r];
  b_take : forall b, b_wf b -> length (b_slots b) = length (b_types b) ->
    take_results b = Ret (b_slots b);
}.

(** [response_builder<Ts...>]: [types] stands for the parameter pack and
    selects the entries of the dispatch tables. *)
Record response_builder : Type := mk_response_builder {
  rb_types : list ty;
  next_index_ : nat;
  rb_results_ : list (option response_slot);
}.

Definition response_builder_new (types : list ty) : response_builder :=
  mk_response_builder types 0 (replicate (length types) None).

Definition rb_done (b : response_builder) : bool := (next_index_ b =? length (rb_types b))%nat.

(** [set_slot<I>(slot)]. *)
Definition set_slot (i : nat) (s : response_slot) (b : response_builder) : run response_builder :=
  opt ← or_fault out_of_range (rb_results_ b !! i);
  _ ← assert (negb (bool_decide (is_Some opt)));
  Ret (mk_response_builder (rb_types b) (next_index_ b) (<[i := Some s]> (rb_results_ b))).

(** [set_from_message<I>(msg)] and [set_error<I>(err)], which the entries
    [msg_dispatch<I>] and [err_dispatch<I>] of the dispatch tables call. *)
Definition set_from_message (i : nat) (msg : message bytes) (b : response_builder) :
    run response_builder :=
  t ← or_fault out_of_range (rb_types b !! i);
  set_slot i (slot_from_message t msg) b.

Definition set_error (i : nat) (err : error_info) (b : response_builder) : run response_builder :=
  _ ← or_fault out_of_range (rb_types b !! i);
  set_slot i (Unexpected err) b.

(** [msg_dispatch_table()] and [err_dispatch_table()]: one entry per type. *)
Definition msg_dispatch_table (types : list ty) :
    list (message bytes -> response_builder -> run response_builder) :=
  set_from_message <$> seq 0 (length types).

Definition err_dispatch_table (types : list ty) :
    list (error_info -> response_builder -> run response_builder) :=
  set_error <$> seq 0 (length types).

(** [accept(msg)] and [accept(err)]. *)
Definition rb_accept_message (msg : message bytes) (b : response_builder) : run response_builder :=
  _ ← assert (next_index_ b <? length (rb_types b))%nat;
  f ← or_fault out_of_range (msg_dispatch_table (rb_types b) !! next_index_ b);
  b1 ← f msg b;
  Ret (mk_response_builder (rb_types b1) (next_index_ b1 + 1) (rb_results_ b1)).

Definition rb_accept_error (err : error_info) (b : response_builder) : run response_builder :=
  _ ← assert (next_index_ b <? length (rb_types b))%nat;
  f ← or_fault out_of_range (err_dispatch_table (rb_types b) !! next_index_ b);
  b1 ← f err b;
  Ret (mk_response_builder (rb_types b1) (next_index_ b1 + 1) (rb_results_ b1)).

Definition rb_accept (r : reply) (b : response_builder) : run response_builder :=
  match r with
  | reply_message m => rb_accept_message m b
  | reply_error e => rb_accept_error e b
  end.

(** [take_results()]; [take_slots] is its overload on the indices. *)
Definition take_slots (results : list (option response_slot)) : run (list response_slot) :=
  _ ← assert (forallb (fun o => bool_decide (is_Some o)) results);
  mapM (or_fault bad_variant_access) results.

Definition rb_take_results (b : response_builder) : run (list response_slot) :=
  _ ← assert (rb_done b);
  take_slots (rb_results_ b).

(** [dynamic_response_builder<T>]. *)
Record dynamic_response_builder : Type := mk_dynamic_builder {
  db_type : ty;
  expected_ : nat;
  db_results_ : list response_slot;
}.

Definition dynamic_response_builder_new (t : ty) (expected_count : nat) : dynamic_response_builder :=
  mk_dynamic_builder t expected_count [].

Definition db_done (b : dynamic_response_builder) : bool := (length (db_results_ b) =? expected_ b)%nat.

Definition db_accept_message (msg : message bytes) (b : dynamic_response_builder) :
    run dynamic_response_builder :=
  _ ← assert (length (db_results_ b) <? expected_ b)%nat;
  Ret (mk_dynamic_builder (db_type b) (expected_ b)
         (db_results_ b ++ [slot_from_message (db_type b) msg])).

Definition db_accept_error (err : error_info) (b : dynamic_response_builder) :
    run dynamic_response_builder :=
  _ ← assert (length (db_results_ b) <? expected_ b)%nat;
  Ret (mk_dynamic_builder (db_type b) (expected_ b) (db_results_ b ++ [slot_from_error err])).

Definition db_accept (r : reply) (b : dynamic_response_builder) : run dynamic_response_builder :=
  match r with
  | reply_message m => db_accept_message m b
  | reply_error e => db_accept_error e b
  end.

Definition db_take_results (b : dynamic_response_builder) : run (list response_slot) :=
  _ ← assert (db_done b);
  Ret (db_results_ b).

(** ** The two builders implement the interface *)

(** The slots filled so far, in order, and then the empty ones. *)
Definition rb_filled (b : response_builder) (slots : list response_slot) : Prop :=
  next_index_ b = length slots /\ (length slots <= length (rb_types b))%nat /\
  rb_results_ b = (Some <$> slots) ++ replicate (length (rb_types b) - length slots) None.

Definition rb_slots (b : response_builder) : list response_slot := omap id (rb_results_ b).

Lemma omap_filled (slots : list response_slot) n :
  omap id ((Some <$> slots) ++ replicate n None) = slots.
Proof. induction slots as [|s l IH]; simpl; [by induction n|]. f_equal. exact IH. Qed.

Lemma rb_filled_slots b slots : rb_filled b slots -> rb_slots b = slots.
Proof. intros (_ & _ & Hr). unfold rb_slots. rewrite Hr. apply omap_filled. Qed.

Lemma set_slot_filled b slots s :
  rb_filled b slots -> (length slots < length (rb_types b))%nat ->
  exists b1, set_slot (next_index_ b) s b = Ret b1 /\ rb_types b1 = rb_types b /\
    next_index_ b1 = length slots /\
    rb_filled (mk_response_builder (rb_types b1) (next_index_ b1 + 1) (rb_results_ b1)) (slots ++ [s]).
Proof.
  intros (Hn & Hle & Hr) Hlt.
  assert (rb_results_ b = (Some <$> slots) ++ None :: replicate (length (rb_types b) - S (length slots)) None) as Hr'.
  { rewrite Hr. f_equal. destruct (length (rb_types b) - length slots)%nat as [|n] eqn:E; [lia|].
    replace (length (rb_types b) - S (length slots))%nat with n by lia. done. }
  unfold set_slot. rewrite Hr', Hn.
  rewrite lookup_app_r by (by rewrite length_fmap). rewrite length_fmap, Nat.sub_diag. simpl.
  eexists. split; [done|]. split; [done|]. split; [done|]. repeat split; cbn [rb_types next_index_ rb_results_].
  - rewrite length_app. done.
  - rewrite length_app. simpl. lia.
  - rewrite insert_app_r_alt by (by rewrite length_fmap). rewrite length_fmap, Nat.sub_diag. simpl.
    rewrite fmap_app, <- app_assoc, length_app. simpl. do 2 f_equal. f_equal. lia.
Qed.

Lemma rb_accept_filled b slots t r :
  rb_filled b slots -> rb_types b !! length slots = Some t ->
  exists b', rb_accept r b = Ret b' /\ rb_types b' = rb_types b /\ rb_filled b' (slots ++ [slot_of t r]).
Proof.
  intros Hf Ht. pose proof (lookup_lt_Some _ _ _ Ht) as Hlt.
  assert (next_index_ b = length slots) as Hn by apply Hf.
  destruct (set_slot_filled b slots (slot_of t r) Hf Hlt) as (b1 & Hs & Htys & Hn1 & Hf1).
  rewrite Hn in Hs. eexists. split; [|split; [|exact Hf1]; exact Htys].
  destruct r as [m|e]; cbn [rb_accept slot_of] in *; unfold rb_accept_message, rb_accept_error,
    msg_dispatch_table, err_dispatch_table;
    rewrite Hn, (proj2 (Nat.ltb_lt _ _) Hlt), list_lookup_fmap, lookup_seq_lt by done;
    cbn [assert fmap option_fmap option_map or_fault mbind run_bind]; unfold set_from_message, set_error;
    rewrite Nat.add_0_l, Ht; cbn [or_fault mbind run_bind]; unfold slot_from_error in Hs; by rewrite Hs.
Qed.

Lemma rb_take_filled b slots :
  rb_filled b slots -> length slots = length (rb_types b) -> rb_take_results b = Ret slots.
Proof.
  intros (Hn & _ & Hr) Hlen. unfold rb_take_results, take_slots, rb_done.
  rewrite Hn, Hlen, Nat.eqb_refl. cbn [assert mbind run_bind].
  rewrite Hr, Hlen, Nat.sub_diag, app_nil_r.
  replace (forallb _ (Some <$> slots)) with true by (clear; induction slots; simpl; auto).
  cbn [assert mbind run_bind]. clear. induction slots as [|s l IH]; [done|].
  change (mapM _ _) with (s' ← mapM (or_fault bad_variant_access) (Some <$> l); Ret (s :: s')). by rewrite IH.
Qed.

#[export] Program Instance response_builder_builder : Builder response_builder := {|
  b_count b := length (rb_types b);
  accept := rb_accept;
  done_ := rb_done;
  take_results := rb_take_results;
  b_wf b := rb_filled b (rb_slots b);
  b_types := rb_types;
  b_slots := rb_slots;
|}.
Next Obligation. done. Qed.
Next Obligation. intros b (_ & Hle & _). done. Qed.
Next Obligation. intros b (Hn & _ & _). unfold rb_done. by rewrite Hn. Qed.
Next Obligation.
  intros b t r Hf Ht. destruct (rb_accept_filled b _ t r Hf Ht) as (b' & Ha & Htys & Hf').
  exists b'. rewrite (rb_filled_slots _ _ Hf'). done.
Qed.
Next Obligation. intros b Hf Hlen. by apply rb_take_filled. Qed.

#[export] Program Instance dynamic_builder_builder : Builder dynamic_response_builder := {|
  b_count := expected_;
  accept := db_accept;
  done_ := db_done;
  take_results := db_take_results;
  b_wf b := (length (db_results_ b) <= expected_ b)%nat;
  b_types b := replicate (expected_ b) (db_type b);
  b_slots := db_results_;
|}.
Next Obligation. intros. cbn. by rewrite length_replicate. Qed.
Next Obligation. intros. cbn. by rewrite length_replicate. Qed.
Next Obligation. intros. cbn. by rewrite length_replicate. Qed.
Next Obligation.
  intros b t r Hwf Ht. apply lookup_replicate in Ht as [-> Hlt].
  destruct r; cbn [db_accept]; unfold db_accept_message, db_accept_error;
    rewrite (proj2 (Nat.ltb_lt _ _) Hlt); eexists; (split; [done|]); cbn [db_results_ expected_ db_type];
    rewrite length_app; simpl; (split; [lia|done]).
Qed.
Next Obligation.
  intros b Hwf Hlen. cbn in Hlen. rewrite length_replicate in Hlen. unfold db_take_results, db_done.
  by rewrite Hlen, Nat.eqb_refl.
Qed.

Lemma response_builder_new_wf types :
  b_wf (response_builder_new types) /\ b_types (response_builder_new types) = types /\
  b_slots (response_builder_new types) = [].
Proof.
  assert (rb_filled (response_builder_new types) []) as Hf.
  { split; [done|]. split; [simpl; lia|]. cbn. by rewrite Nat.sub_0_r. }
  pose proof (rb_filled_slots _ _ Hf) as Hs. cbn [b_wf b_types b_slots response_builder_builder].
  rewrite Hs. done.
Qed.

(** ** The sink interface ([detail/response_sink.hpp]) *)

(** The virtual functions, and what every sink promises: it accepts exactly
    [expected_replies] replies, stores them in order, and is complete when the
    last one is there. *)
Class ResponseSink (S : Type) : Type := {
  expected_replies : S -> nat;
  is_complete : S -> bool;
  do_deliver : Z -> message bytes -> S -> run S;
  do_deliver_error : Z -> error_info -> S -> run S;
  sink_wf : S -> Prop;
  sink_types : S -> list ty;
  sink_slots : S -> list response_slot;
  sink_result : S -> option (list response_slot);
  sink_expected : forall s, sink_wf s -> expected_replies s = length (sink_types s);
  sink_bound : forall s, sink_wf s -> (length (sink_slots s) <= length (sink_types s))%nat;
  sink_complete : forall s, sink_wf s ->
    is_complete s = (length (sink_slots s) =? length (sink_types s))%nat;
  sink_result_eq : forall s, sink_wf s ->
    sink_result s = if is_complete s then Some (sink_slots s) else None;
  sink_do_deliver : forall now r s t, sink_wf s -> sink_types s !! length (sink_slots s) = Some t ->
    exists s', match r with
               | reply_message m => do_deliver now m s
               | reply_error e => do_deliver_error now e s
               end = Ret s' /\ sink_wf s' /\ sink_types s' = sink_types s /\
      sink_slots s' = sink_slots s ++ [slot_of t r];
}.

Section response_sink.

Context {S : Type} `{ResponseSink S}.

(** [deliver(msg)] and [deliver_error(err)]. *)
Definition deliver (now : Z) (msg : message bytes) (s : S) : run S :=
  _ ← assert (negb (is_complete s));
  if is_complete s then Ret s else do_deliver now msg s.

Definition deliver_error (now : Z) (err : error_info) (s : S) : run S :=
  _ ← assert (negb (is_complete s));
  if is_complete s then Ret s else do_deliver_error now err s.

(** [fail_all(err)]: one turn per missing reply. *)
Fixpoint fail_loop (fuel : nat) (now : Z) (err : error_info) (s : S) : run S :=
  if is_complete s then Ret s
  else
    match fuel with
    | O => Fault out_of_fuel
    | Datatypes.S fuel' => s1 ← deliver_error now err s; fail_loop fuel' now err s1
    end.

Definition fail_all (now : Z) (err : error_info) (s : S) : run S :=
  fail_loop (Datatypes.S (expected_replies s)) now err s.

(** The replies still missing. *)
Definition missing (s : S) : nat := (length (sink_types s) - length (sink_slots s))%nat.

Lemma missing_complete s : sink_wf s -> is_complete s = true <-> missing s = 0%nat.
Proof.
  intros Hs. unfold missing. rewrite sink_complete by done. rewrite Nat.eqb_eq.
  pose proof (sink_bound s Hs). lia.
Qed.

Lemma incomplete_next s :
  sink_wf s -> is_complete s = false -> exists t, sink_types s !! length (sink_slots s) = Some t.
Proof.
  intros Hs Hc. rewrite sink_complete in Hc by done. bool_prop. pose proof (sink_bound s Hs).
  apply lookup_lt_is_Some. lia.
Qed.

(** One delivery, of either sort. *)
Definition deliver_reply (now : Z) (r : reply) (s : S) : run S :=
  match r with
  | reply_message m => deliver now m s
  | reply_error e => deliver_error now e s
  end.

(** A sink after a delivery: one more slot. *)
Definition delivered (r : reply) (s s' : S) : Prop :=
  sink_wf s' /\ sink_types s' = sink_types s /\
  exists t, sink_types s !! length (sink_slots s) = Some t /\
    sink_slots s' = sink_slots s ++ [slot_of t r].

Lemma deliver_reply_spec now r s :
  sink_wf s -> is_complete s = false -> exists s', deliver_reply now r s = Ret s' /\ delivered r s s'.
Proof.
  intros Hs Hc. destruct (incomplete_next s Hs Hc) as [t Ht].
  destruct (sink_do_deliver now r s t Hs Ht) as (s' & Hd & Hwf & Hty & Hsl).
  exists s'. split; [|by split; [|split; [|exists t]]].
  destruct r; cbn [deliver_reply]; unfold deliver, deliver_error; rewrite Hc; exact Hd.
Qed.

Lemma delivered_missing r s s' : delivered r s s' -> missing s = Datatypes.S (missing s').
Proof.
  intros (_ & Hty & t & Ht & Hsl). unfold missing. rewrite Hty, Hsl, length_app. simpl.
  apply lookup_lt_Some in Ht. lia.
Qed.

Lemma fail_loop_spec now err : forall fuel s,
  sink_wf s -> (missing s <= fuel)%nat ->
  exists s', fail_loop fuel now err s = Ret s' /\ sink_wf s' /\ sink_types s' = sink_types s /\
    sink_slots s' = sink_slots s ++ replicate (missing s) (slot_from_error err).
Proof.
  induction fuel as [|fuel IH]; intros s Hs Hm; cbn [fail_loop];
    (destruct (is_complete s) eqn:Hc;
      [exists s; rewrite (proj1 (missing_complete s Hs) Hc); by rewrite app_nil_r|]).
  - exfalso. assert (missing s = 0%nat) as Hz by lia. apply missing_complete in Hz; congruence.
  - destruct (deliver_reply_spec now (reply_error err) s Hs Hc) as (s1 & Hd & Hdel).
    cbn [deliver_reply] in Hd. rewrite Hd. cbn [mbind run_bind].
    pose proof (delivered_missing _ _ _ Hdel) as Hmiss. destruct Hdel as (Hs1 & Hty & t & Ht & Hsl).
    destruct (IH s1 Hs1) as (s2 & Hf & Hs2 & Hty2 & Hsl2); [lia|].
    exists s2. split; [done|]. split; [done|]. split; [congruence|].
    rewrite Hsl2, Hsl, Hmiss, <- app_assoc. done.
Qed.

Lemma fail_all_spec now err s :
  sink_wf s -> exists s', fail_all now err s = Ret s' /\ sink_wf s' /\ is_complete s' = true /\
    sink_types s' = sink_types s /\
    sink_slots s' = sink_slots s ++ replicate (missing s) (slot_from_error err).
Proof.
  intros Hs. destruct (fail_loop_spec now err (Datatypes.S (expected_replies s)) s Hs) as (s' & Hf & Hs' & Hty & Hsl).
  { rewrite sink_expected by done. unfold missing. lia. }
  exists s'. split; [done|]. split; [done|]. split; [|done].
  apply missing_complete; [done|]. unfold missing. rewrite Hty, Hsl, length_app, length_replicate.
  pose proof (sink_bound s Hs). unfold missing. lia.
Qed.

End response_sink.

(** ** The trace context of a sink *)

(** The trace members of [response_sink]; [finish_events] are the calls of
    [hooks.on_finish], whose exceptions the code swallows. *)
Record trace_context : Set := mk_trace_context {
  trace_hooks_ : request_trace_hooks;
  trace_info_ : request_trace_info;
  trace_start_ : Z;
  trace_enabled_ : bool;
  trace_finished_ : bool;
  finish_events : list request_trace_finish;
}.

Definition no_trace_context : trace_context :=
  mk_trace_context no_trace_hooks (mk_trace_info 0 request_kind.user 0 0) 0 false false [].

(** [set_trace_context(hooks, info, start)]. *)
Definition set_trace_context (hooks : request_trace_hooks) (info : request_trace_info) (start : Z)
    (c : trace_context) : trace_context :=
  mk_trace_context hooks info start (trace_hooks_enabled hooks) false (finish_events c).

(** [struct trace_summary]. *)
Record trace_summary : Set := mk_trace_summary {
  ok_count : Z;
  error_count : Z;
  primary_error : error_code;
  primary_error_detail : bytes;
}.

(** [try_mark_trace_finished()]. *)
Definition try_mark_trace_finished (c : trace_context) : bool * trace_context :=
  if negb (trace_enabled_ c) then (false, c)
  else if trace_finished_ c then (false, c)
  else (true, mk_trace_context (trace_hooks_ c) (trace_info_ c) (trace_start_ c)
                (trace_enabled_ c) true (finish_events c)).

(** [emit_trace_finish(summary)]. *)
Definition emit_trace_finish (now : Z) (s : trace_summary) (c : trace_context) : trace_context :=
  if negb (trace_enabled_ c) then c
  else if negb (on_finish (trace_hooks_ c)) then c
  else
    let (marked, c1) := try_mark_trace_finished c in
    if negb marked then c1
    else
      let evt := mk_trace_finish (trace_info_ c1) (now - trace_start_ c1) (ok_count s) (error_count s)
                   (primary_error s) (primary_error_detail s) in
      mk_trace_context (trace_hooks_ c1) (trace_info_ c1) (trace_start_ c1) (trace_enabled_ c1)
        (trace_finished_ c1) (finish_events c1 ++ [evt]).

(** [summarize(r)]: one step of [visit_slot], and the fold over the slots. *)
Definition visit_slot (acc : trace_summary * bool) (s : response_slot) : trace_summary * bool :=
  let (out, primary_set) := acc in
  match s with
  | Val _ => (mk_trace_summary (ok_count out + 1) (error_count out) (primary_error out)
                (primary_error_detail out), primary_set)
  | Unexpected e =>
    if primary_set then
      (mk_trace_summary (ok_count out) (error_count out + 1) (primary_error out)
         (primary_error_detail out), true)
    else (mk_trace_summary (ok_count out) (error_count out + 1) (code e) (detail e), true)
  end.

Definition summarize (slots : list response_slot) : trace_summary :=
  (foldl visit_slot (mk_trace_summary 0 0 no_error [], false) slots).1.

(** ** [pending_response] and [pending_dynamic_response] *)

Section pending.

Context {B : Type} `{Builder B}.

(** [event_] is an [iocoro::condition_event]; the model counts its
    notifications. *)
Record pending : Type := mk_pending {
  trace_ : trace_context;
  notified : nat;
  builder_ : B;
  result_ : option (list response_slot);
}.

Definition pending_new (b : B) : pending := mk_pending no_trace_context 0 b None.

Definition pending_expected_replies (s : pending) : nat := b_count (builder_ s).
Definition pending_is_complete (s : pending) : bool := bool_decide (is_Some (result_ s)).

Definition pending_set_trace (hooks : request_trace_hooks) (info : request_trace_info) (start : Z)
    (s : pending) : pending :=
  mk_pending (set_trace_context hooks info start (trace_ s)) (notified s) (builder_ s) (result_ s).

(** [do_deliver(msg)] and [do_deliver_error(err)] after the builder took the
    reply. *)
Definition finish_if_done (now : Z) (s : pending) : run pending :=
  if done_ (builder_ s) then
    r ← take_results (builder_ s);
    Ret (mk_pending (emit_trace_finish now (summarize r) (trace_ s)) (notified s + 1) (builder_ s) (Some r))
  else Ret s.

Definition pending_do_deliver (now : Z) (r : reply) (s : pending) : run pending :=
  _ ← assert (negb (pending_is_complete s));
  if pending_is_complete s then Ret s
  else
    b ← accept r (builder_ s);
    finish_if_done now (mk_pending (trace_ s) (notified s) b (result_ s)).

(** [wait()], once the event was notified. *)
Definition wait_result (s : pending) : run (list response_slot) :=
  _ ← assert (pending_is_complete s);
  or_fault bad_variant_access (result_ s).

(** The result is there exactly when the builder is done, and the waiter was
    notified exactly then. *)
Definition pending_wf (s : pending) : Prop :=
  b_wf (builder_ s) /\ b_types (builder_ s) <> [] /\
  result_ s = (if done_ (builder_ s) then Some (b_slots (builder_ s)) else None) /\
  notified s = (if done_ (builder_ s) then 1 else 0)%nat.

Lemma pending_complete s : pending_wf s -> pending_is_complete s = done_ (builder_ s).
Proof. intros (_ & _ & Hr & _). unfold pending_is_complete. rewrite Hr. by destruct (done_ _). Qed.

Lemma pending_do_deliver_spec now r s t :
  pending_wf s -> b_types (builder_ s) !! length (b_slots (builder_ s)) = Some t ->
  exists s', pending_do_deliver now r s = Ret s' /\ pending_wf s' /\
    b_types (builder_ s') = b_types (builder_ s) /\
    b_slots (builder_ s') = b_slots (builder_ s) ++ [slot_of t r] /\
    trace_ s' = if done_ (builder_ s')
                then emit_trace_finish now (summarize (b_slots (builder_ s'))) (trace_ s)
                else trace_ s.
Proof.
  intros Hwf Ht. pose proof (pending_complete s Hwf) as Hc. destruct Hwf as (Hb & Hne & Hr & Hn).
  assert (done_ (builder_ s) = false) as Hd.
  { rewrite b_done by done. apply Nat.eqb_neq. apply lookup_lt_Some in Ht. lia. }
  destruct (b_accept (builder_ s) t r Hb Ht) as (b' & Ha & Hb' & Hty & Hsl).
  rewrite Hd in *. unfold pending_do_deliver, finish_if_done. rewrite Hc. cbn [negb assert mbind run_bind].
  rewrite Ha. cbn [mbind run_bind builder_ trace_ notified result_].
  destruct (done_ b') eqn:Hd'.
  - rewrite b_take; [|done|by rewrite b_done in Hd' by done; bool_prop]. cbn [mbind run_bind].
    eexists. split; [done|]. unfold pending_wf. cbn [builder_ result_ notified trace_].
    rewrite Hd', Hn, Hty. done.
  - eexists. split; [done|]. unfold pending_wf. cbn [builder_ result_ notified trace_].
    rewrite Hd', Hty. done.
Qed.

#[export] Program Instance pending_sink : ResponseSink pending := {|
  expected_replies := pending_expected_replies;
  is_complete := pending_is_complete;
  do_deliver now m s := pending_do_deliver now (reply_message m) s;
  do_deliver_error now e s := pending_do_deliver now (reply_error e) s;
  sink_wf := pending_wf;
  sink_types s := b_types (builder_ s);
  sink_slots s := b_slots (builder_ s);
  sink_result := result_;
|}.
Next Obligation. intros s Hs. apply b_count_types, Hs. Qed.
Next Obligation. intros s Hs. apply b_bound, Hs. Qed.
Next Obligation. intros s Hs. cbn. rewrite pending_complete by done. apply b_done, Hs. Qed.
Next Obligation. intros s Hs. rewrite pending_complete by done. apply Hs. Qed.
Next Obligation.
  intros now r s t Hs Ht. destruct (pending_do_deliver_spec now r s t Hs Ht) as (s' & Hd & Hwf & Hty & Hsl & _).
  exists s'. split; [by destruct r|done].
Qed.

End pending.
Arguments pending : clear implicits.

(** ** A whole conversation with a sink *)

(** The replies of a request, each with the time of its delivery. *)
Fixpoint deliver_all {S} `{ResponseSink S} (rs : list (Z * reply)) (s : S) : run S :=
  match rs with
  | [] => Ret s
  | (now, r) :: rs' => s1 ← deliver_reply now r s; deliver_all rs' s1
  end.

Lemma zip_with_drop_cons (types : list ty) i t (r : reply) rs :
  types !! i = Some t ->
  zip_with slot_of (drop i types) (r :: rs) = slot_of t r :: zip_with slot_of (drop (i + 1) types) rs.
Proof. intros Ht. rewrite (drop_S types t i Ht), Nat.add_1_r. done. Qed.

Lemma deliver_all_spec {S} `{ResponseSink S} rs : forall s : S,
  sink_wf s -> (length rs <= missing s)%nat ->
  exists s', deliver_all rs s = Ret s' /\ sink_wf s' /\ sink_types s' = sink_types s /\
    sink_slots s' = sink_slots s ++ zip_with slot_of (drop (length (sink_slots s)) (sink_types s)) (snd <$> rs).
Proof.
  induction rs as [|[now r] rs IH]; intros s Hs Hlen; cbn [deliver_all].
  { exists s. split; [done|]. split; [done|]. split; [done|]. by rewrite fmap_nil, zip_with_nil_r, app_nil_r. }
  cbn [length] in Hlen. destruct (is_complete s) eqn:Hc; [apply missing_complete in Hc; [lia|done]|].
  destruct (deliver_reply_spec now r s Hs Hc) as (s1 & Hd & Hdel).
  pose proof (delivered_missing _ _ _ Hdel). destruct Hdel as (Hs1 & Hty & t & Ht & Hsl).
  rewrite Hd. cbn [mbind run_bind]. destruct (IH s1) as (s' & Hd' & Hs' & Hty' & Hsl'); [done|lia|].
  exists s'. split; [done|]. split; [done|]. split; [congruence|].
  rewrite Hsl', Hsl, Hty, length_app, fmap_cons. cbn [snd length].
  rewrite (zip_with_drop_cons _ _ _ _ _ Ht), <- app_assoc. done.
Qed.

Section conversation.

Context {B : Type} `{Builder B}.

(** The sink interface of a pending response. *)
Lemma pending_sink_wf (s : pending B) : pending_wf s -> sink_wf s.
Proof. done. Qed.

(** The trace context changes only with the last missing reply. *)
Lemma deliver_reply_trace now r (s s' : pending B) :
  pending_wf s -> is_complete s = false -> deliver_reply now r s = Ret s' ->
  trace_ s' = if is_complete s' then emit_trace_finish now (summarize (sink_slots s')) (trace_ s)
              else trace_ s.
Proof.
  intros Hs Hc Hd. destruct (incomplete_next s (pending_sink_wf s Hs) Hc) as [t Ht].
  destruct (pending_do_deliver_spec now r s t Hs Ht) as (s1 & Hd1 & Hwf & _ & _ & Htr).
  assert (deliver_reply now r s = Ret s1) as Heq
    by (destruct r; cbn [deliver_reply]; unfold deliver, deliver_error; rewrite Hc; exact Hd1).
  rewrite Heq in Hd. injection Hd as <-. cbn [is_complete pending_sink]. by rewrite pending_complete.
Qed.

Lemma deliver_all_trace rs : forall s s' : pending B,
  pending_wf s -> rs <> [] -> length rs = missing s -> deliver_all rs s = Ret s' ->
  exists now, last (fst <$> rs) = Some now /\
    trace_ s' = emit_trace_finish now (summarize (sink_slots s')) (trace_ s).
Proof.
  induction rs as [|[now r] rs IH]; intros s s' Hs Hne Hlen Hd; [done|].
  cbn [length] in Hlen. destruct (is_complete s) eqn:Hc; [apply (missing_complete s (pending_sink_wf s Hs)) in Hc; lia|].
  destruct (deliver_reply_spec now r s (pending_sink_wf s Hs) Hc) as (s1 & Hd1 & Hdel).
  pose proof (delivered_missing _ _ _ Hdel) as Hmiss. destruct Hdel as (Hs1 & _).
  pose proof (deliver_reply_trace now r s s1 Hs Hc Hd1) as Htr.
  cbn [deliver_all] in Hd. rewrite Hd1 in Hd. cbn [mbind run_bind] in Hd.
  pose proof (missing_complete s1 (pending_sink_wf s1 Hs1)) as Hmc.
  destruct rs as [|x rs].
  - injection Hd as <-. cbn [length] in Hlen. rewrite (proj2 Hmc) in Htr by lia. by exists now.
  - destruct (is_complete s1) eqn:Hc1; [exfalso; rewrite (proj1 Hmc) in Hmiss by done; simpl in Hlen; lia|].
    destruct (IH s1 s') as (n & Hl & Ht); [done|done|cbn [length] in *; lia|done|].
    exists n. split; [exact Hl|]. by rewrite Ht, Htr.
Qed.

Lemma pending_new_wf b :
  b_wf b -> b_slots b = [] -> b_types b <> [] -> pending_wf (pending_new b).
Proof.
  intros Hb Hsl Hne. assert (done_ b = false) as Hd.
  { rewrite b_done, Hsl by done. by destruct (b_types b). }
  unfold pending_wf. cbn [pending_new builder_ result_ notified]. by rewrite Hd.
Qed.

Lemma pending_set_trace_wf hooks info start (s : pending B) :
  pending_wf s -> pending_wf (pending_set_trace hooks info start s).
Proof. done. Qed.

End conversation.

(** ** The summary of a finished request *)

Definition count (f : response_slot -> bool) (l : list response_slot) : Z := zlen (List.filter f l).

Lemma count_cons f s l : count f (s :: l) = (if f s then 1 else 0) + count f l.
Proof. unfold count. simpl. destruct (f s); [apply zlen_cons|done]. Qed.

Definition is_error_slot (s : response_slot) : bool := negb (has_value s).

Definition first_error (slots : list response_slot) : error_info :=
  match List.find is_error_slot slots with
  | Some (Unexpected e) => e
  | _ => mk_error_info no_error []
  end.

Lemma visit_slots_set slots : forall acc,
  exists out, foldl visit_slot (acc, true) slots = (out, true) /\
    ok_count out = ok_count acc + count has_value slots /\
    error_count out = error_count acc + count is_error_slot slots /\
    primary_error out = primary_error acc /\ primary_error_detail out = primary_error_detail acc.
Proof.
  induction slots as [|[v|e] l IH]; intros acc; cbn [foldl].
  - exists acc. unfold count, zlen; cbn; repeat split; lia.
  - edestruct IH as (out & Hf & Ho & He & Hp & Hd). cbn [visit_slot]. rewrite Hf. exists out.
    rewrite !count_cons. cbn [has_value is_error_slot negb].
    cbn [ok_count error_count] in *. repeat split; try done; lia.
  - edestruct IH as (out & Hf & Ho & He & Hp & Hd). cbn [visit_slot]. rewrite Hf. exists out.
    rewrite !count_cons. cbn [has_value is_error_slot negb].
    cbn [ok_count error_count] in *. repeat split; try done; lia.
Qed.

Lemma summarize_spec slots :
  ok_count (summarize slots) = count has_value slots /\
  error_count (summarize slots) = count is_error_slot slots /\
  primary_error (summarize slots) = code (first_error slots) /\
  primary_error_detail (summarize slots) = detail (first_error slots).
Proof.
  unfold summarize.
  assert (forall n, let out := (foldl visit_slot (mk_trace_summary n 0 no_error [], false) slots).1 in
    ok_count out = n + count has_value slots /\
    error_count out = count is_error_slot slots /\
    primary_error out = code (first_error slots) /\
    primary_error_detail out = detail (first_error slots)) as Hgen; [|exact (Hgen 0)].
  induction slots as [|[v|e] l IH]; intros n; cbn [foldl visit_slot].
  - unfold count, zlen; cbn; repeat split; lia.
  - rewrite !count_cons. cbn [has_value is_error_slot negb].
    destruct (IH (n + 1)) as (H1 & H2).
    cbn [ok_count error_count primary_error primary_error_detail] in *. split; [lia|exact H2].
  - rewrite !count_cons. cbn [has_value is_error_slot negb].
    destruct (visit_slots_set l (mk_trace_summary n 1 (code e) (detail e))) as (out & Hf & Ho & He & Hp & Hd).
    cbn [ok_count error_count primary_error primary_error_detail] in *. change (0 + 1) with 1. rewrite Hf.
    cbn [fst]. repeat split; try done; lia.
Qed.

Lemma emit_trace_finish_fresh now sum hooks info start c :
  finish_events c = [] ->
  finish_events (emit_trace_finish now sum (set_trace_context hooks info start c)) =
  if on_finish hooks then
    [mk_trace_finish info (now - start) (ok_count sum) (error_count sum) (primary_error sum)
       (primary_error_detail sum)]
  else [].
Proof.
  intros Hc. unfold emit_trace_finish, try_mark_trace_finished, set_trace_context, trace_hooks_enabled.
  destruct hooks as [[] []]; cbn; by rewrite Hc.
Qed.

(** ** Theorems *)

(** The finish event of a request whose replies ended in [slots]. *)
Definition finish_event (info : request_trace_info) (start now : Z) (slots : list response_slot) :
    request_trace_finish :=
  mk_trace_finish info (now - start) (count has_value slots) (count is_error_slot slots)
    (code (first_error slots)) (detail (first_error slots)).

(** C29: a pending response takes exactly the replies of its request: after as
    many deliveries (messages and errors, at any times) as it has slots, its
    result holds, in order, the value of each message at the type of its slot
    or the error; the waiter was notified exactly once and is given that
    result; and the trace callback, when one is set, was called exactly once,
    with the counts of successes and errors and the first error. *)
Theorem pending_response_collects {B} `{Builder B} (b : B) hooks info start rs :
  b_wf b -> b_slots b = [] -> b_types b <> [] -> length rs = length (b_types b) ->
  let slots := zip_with slot_of (b_types b) (snd <$> rs) in
  exists s now,
    deliver_all rs (pending_set_trace hooks info start (pending_new b)) = Ret s /\
    result_ s = Some slots /\ wait_result s = Ret slots /\ notified s = 1%nat /\
    last (fst <$> rs) = Some now /\
    finish_events (trace_ s) = if on_finish hooks then [finish_event info start now slots] else [].
Proof.
  intros Hb Hsl Hne Hlen slots. set (s0 := pending_set_trace hooks info start (pending_new b)).
  assert (pending_wf s0) as Hs0 by (by apply pending_set_trace_wf, pending_new_wf).
  assert (length rs = missing s0) as Hm by (unfold missing; simpl; rewrite Hsl; simpl; lia).
  destruct (deliver_all_spec rs s0 (pending_sink_wf s0 Hs0)) as (s & Hd & Hs & Hty & Hslots); [lia|].
  destruct (deliver_all_trace rs s0 s Hs0) as (now & Hnow & Htr); [by destruct rs, (b_types b)|done|done|].
  assert (b_slots (builder_ s) = slots) as Hslots'.
  { revert Hslots. cbn. by rewrite Hsl. }
  assert (done_ (builder_ s) = true) as Hdone.
  { rewrite b_done by apply Hs. apply Nat.eqb_eq. rewrite Hslots'. cbn in Hty. rewrite Hty.
    unfold slots. rewrite length_zip_with_l_eq; [done|]. by rewrite length_fmap. }
  destruct Hs as (_ & _ & Hres & Hnot). rewrite Hdone in Hres, Hnot. rewrite Hslots' in Hres.
  exists s, now. split; [done|]. split; [done|]. split.
  { unfold wait_result, pending_is_complete. by rewrite Hres. }
  split; [done|]. split; [done|]. rewrite Htr. unfold s0. cbn [pending_set_trace pending_new trace_].
  rewrite emit_trace_finish_fresh by done. cbn [sink_slots pending_sink]. rewrite Hslots'.
  destruct (summarize_spec slots) as (H1 & H2 & H3 & H4). by rewrite H1, H2, H3, H4.
Qed.

Definition sample_replies : list (Z * reply) :=
  [(5, reply_message (mk_message (resp3.integer 300) None));
   (8, reply_message (mk_message (resp3.bulk_string (s2b "v")) None));
   (9, reply_message (mk_message (resp3.simple_error (s2b "ERR")) None))].

Lemma pending_response_collects_witness :
  exists s now,
    deliver_all sample_replies
      (pending_set_trace (mk_trace_hooks false true) (mk_trace_info 1 request_kind.user 3 60) 2
         (pending_new (response_builder_new [TInt false 8; TString; TIgnore]))) = Ret s /\
    notified s = 1%nat /\
    finish_events (trace_ s) =
      [finish_event (mk_trace_info 1 request_kind.user 3 60) 2 now
         (zip_with slot_of [TInt false 8; TString; TIgnore] (snd <$> sample_replies))] /\
    now = 9.
Proof.
  destruct (pending_response_collects (response_builder_new [TInt false 8; TString; TIgnore])
    (mk_trace_hooks false true) (mk_trace_info 1 request_kind.user 3 60) 2 sample_replies)
    as (s & now & Hd & _ & _ & Hn & Hl & Hf);
    [apply response_builder_new_wf|reflexivity|discriminate|reflexivity|].
  exists s, now. split; [exact Hd|]. split; [exact Hn|]. split; [exact Hf|].
  injection Hl as <-. reflexivity.
Defined.

(** C38: [fail_all] returns on every sink that expects at least one reply,
    however many of its replies were already delivered: the sink is complete,
    what was delivered stays and every missing reply is the error.  On the
    sink of a dynamic request without commands, which expects none, it stops
    at an assertion. *)
Theorem fail_all_completes {S} `{ResponseSink S} now err (s : S) :
  (sink_wf s ->
    exists s', fail_all now err s = Ret s' /\ sink_wf s' /\ is_complete s' = true /\
      sink_result s' = Some (sink_slots s ++ replicate (missing s) (Unexpected err))) /\
  (forall t, fail_all now err (pending_new (dynamic_response_builder_new t 0)) = Fault assert_failed).
Proof.
  split; [|reflexivity].
  intros Hs. destruct (fail_all_spec now err s Hs) as (s' & Hf & Hs' & Hc & _ & Hsl).
  exists s'. split; [done|]. split; [done|]. split; [done|]. by rewrite sink_result_eq, Hc, Hsl.
Qed.

Lemma fail_all_completes_witness :
  exists s s' : pending dynamic_response_builder,
    deliver_all (take 1 sample_replies) (pending_new (dynamic_response_builder_new (TInt true 64) 3)) = Ret s /\
    fail_all 10 (client_error client_errc.connection_lost) s = Ret s' /\
    sink_result s' = Some ([Val (VInt 300)] ++
      replicate 2 (Unexpected (client_error client_errc.connection_lost))).
Proof.
  eexists _. destruct (fail_all_completes 10 (client_error client_errc.connection_lost)
    (mk_pending no_trace_context 0 (mk_dynamic_builder (TInt true 64) 3 [Val (VInt 300)]) None)) as [Hall _].
  destruct Hall as (s' & Hf & _ & _ & Hr).
  - split; [simpl; lia|]. split; [discriminate|]. split; reflexivity.
  - exists s'. split; [reflexivity|]. split; [exact Hf|exact Hr].
Defined.
