(* ===== verification/Response.v ===== *)
(** * Responses ([response.hpp], [pending_dynamic_response] of
    [detail/pending_response.hpp])

    What a caller gets: the slots of a fixed or of a dynamic response.  The
    two sorts of pending response are written out twice in the code; here the
    dynamic one is modelled on its own and proved to behave as the generic
    [pending] of [ResponseSink], with the dynamic builder. *)

From S2P Require Import Prelude Errors Message Adapter ResponseSink.

(** ** [response<Ts...>] *)

Record response : Type := mk_response {
  response_types : list ty;
  response_results : list response_slot;
}.

(** [size()], [empty()], [get<I>()], [unpack()]. *)
Definition response_size (r : response) : nat := length (response_types r).
Definition response_empty (r : response) : bool := (response_size r =? 0)%nat.

Definition response_get (i : nat) (r : response) : run response_slot :=
  or_fault out_of_range (response_results r !! i).

Definition response_unpack (r : response) : run (list response_slot) :=
  mapM (fun i => response_get i r) (seq 0 (response_size r)).

(** [response_builder::take_results()] makes the response. *)
Definition take_response (b : response_builder) : run response :=
  slots ← rb_take_results b;
  Ret (mk_response (rb_types b) slots).

(** ** [dynamic_response<T>] *)

Record dynamic_response : Type := mk_dynamic_response { dynamic_results : list response_slot }.

(** [dynamic_response()], [size()], [empty()]. *)
Definition dynamic_response_new : dynamic_response := mk_dynamic_response [].
Definition dynamic_size (r : dynamic_response) : nat := length (dynamic_results r).
Definition dynamic_empty (r : dynamic_response) : bool := (dynamic_size r =? 0)%nat.

(** [operator[](i)]: undefined behaviour out of range; [at(i)] throws
    [std::out_of_range] there. *)
Definition dynamic_index (i : nat) (r : dynamic_response) : run response_slot :=
  or_fault out_of_range (dynamic_results r !! i).

Definition dynamic_at (i : nat) (r : dynamic_response) : expected response_slot unit :=
  match dynamic_results r !! i with Some s => Val s | None => Unexpected tt end.

(** ** [pending_dynamic_response<T>] *)

Abbreviation pending_dynamic_response := (pending dynamic_response_builder).

(** [pending_dynamic_response(expected_count)], [expected_replies()],
    [is_complete()]. *)
Definition pending_dynamic_new (t : ty) (expected_count : nat) : pending_dynamic_response :=
  pending_new (dynamic_response_builder_new t expected_count).

Definition dynamic_expected_replies (s : pending_dynamic_response) : nat := expected_ (builder_ s).
Definition dynamic_is_complete (s : pending_dynamic_response) : bool := bool_decide (is_Some (result_ s)).

(** The loop of [emit_trace_finish_if_needed(r)], from index [i], with [n]
    turns to go. *)
Fixpoint trace_loop (n i : nat) (r : dynamic_response) (acc : trace_summary * bool) :
    run (trace_summary * bool) :=
  match n with
  | O => Ret acc
  | S n' =>
    slot ← dynamic_index i r;
    let (out, primary_set) := acc in
    trace_loop n' (i + 1) r
      match slot with
      | Val _ =>
        (mk_trace_summary (ok_count out + 1) (error_count out) (primary_error out) (primary_error_detail out),
         primary_set)
      | Unexpected e =>
        if negb primary_set
        then (mk_trace_summary (ok_count out) (error_count out + 1) (code e) (detail e), true)
        else (mk_trace_summary (ok_count out) (error_count out + 1) (primary_error out)
                (primary_error_detail out), primary_set)
      end
  end.

Definition dynamic_emit_trace (now : Z) (r : dynamic_response) (c : trace_context) : run trace_context :=
  acc ← trace_loop (dynamic_size r) 0 r (mk_trace_summary 0 0 no_error [], false);
  Ret (emit_trace_finish now acc.1 c).

(** The end of [do_deliver] and of [do_deliver_error]. *)
Definition dynamic_finish (now : Z) (s : pending_dynamic_response) : run pending_dynamic_response :=
  if db_done (builder_ s) then
    slots ← db_take_results (builder_ s);
    tr ← dynamic_emit_trace now (mk_dynamic_response slots) (trace_ s);
    Ret (mk_pending tr (notified s + 1) (builder_ s) (Some slots))
  else Ret s.

Definition dynamic_do_deliver (now : Z) (msg : message bytes) (s : pending_dynamic_response) :
    run pending_dynamic_response :=
  _ ← assert (negb (dynamic_is_complete s));
  if dynamic_is_complete s then Ret s
  else
    b ← db_accept_message msg (builder_ s);
    dynamic_finish now (mk_pending (trace_ s) (notified s) b (result_ s)).

Definition dynamic_do_deliver_error (now : Z) (err : error_info) (s : pending_dynamic_response) :
    run pending_dynamic_response :=
  _ ← assert (negb (dynamic_is_complete s));
  if dynamic_is_complete s then Ret s
  else
    b ← db_accept_error err (builder_ s);
    dynamic_finish now (mk_pending (trace_ s) (notified s) b (result_ s)).

(** [wait()], once the event was notified. *)
Definition dynamic_wait (s : pending_dynamic_response) : run dynamic_response :=
  _ ← assert (dynamic_is_complete s);
  slots ← or_fault bad_variant_access (result_ s);
  Ret (mk_dynamic_response slots).

(** ** The two classes are one *)

(** The loop is the fold that [pending_response] makes. *)
Lemma trace_loop_fold n : forall i r acc,
  (i + n = dynamic_size r)%nat ->
  trace_loop n i r acc = Ret (foldl visit_slot acc (drop i (dynamic_results r))).
Proof.
  induction n as [|n IH]; intros i r [out primary_set] Hn; cbn [trace_loop]; unfold dynamic_size in Hn.
  { rewrite drop_ge by lia. done. }
  destruct (lookup_lt_is_Some_2 (dynamic_results r) i) as [slot Hs]; [lia|].
  unfold dynamic_index. rewrite Hs. cbn [or_fault mbind run_bind].
  rewrite IH by (unfold dynamic_size; lia). rewrite (drop_S _ _ _ Hs), Nat.add_1_r. cbn [foldl visit_slot].
  by destruct slot, primary_set.
Qed.

Lemma dynamic_finish_eq now s : dynamic_finish now s = finish_if_done now s.
Proof.
  unfold dynamic_finish, finish_if_done, dynamic_emit_trace. cbn [done_ take_results dynamic_builder_builder].
  destruct (db_done (builder_ s)); [|done]. destruct (db_take_results (builder_ s)) as [slots|]; [|done].
  cbn [mbind run_bind]. by rewrite trace_loop_fold.
Qed.

(** A finished response has one slot per type, in order. *)
Lemma unpack_results r :
  length (response_results r) = response_size r -> response_unpack r = Ret (response_results r).
Proof.
  intros Hl. unfold response_unpack. rewrite <- Hl. unfold response_get. generalize (response_results r) as l.
  clear. intros l.
  assert (forall k n, (k + n = length l)%nat -> mapM (fun i => or_fault out_of_range (l !! i)) (seq k n) = Ret (drop k l)) as H.
  { intros k n. revert k. induction n as [|n IH]; intros k Hk; [by rewrite drop_ge by lia|].
    destruct (lookup_lt_is_Some_2 l k) as [x Hx]; [lia|]. cbn [seq mapM]. rewrite Hx. cbn [or_fault mbind run_bind].
    rewrite IH by lia. cbn [mbind run_bind]. by rewrite (drop_S _ _ _ Hx). }
  by rewrite (H 0%nat) by done.
Qed.

(** ** Theorems *)

(** C30: the two pending responses behave alike: every operation of
    [pending_dynamic_response], with its own loop over the slots for the trace
    summary, does what the generic pending response does with a dynamic
    builder, assertions included; and [wait] hands out exactly the slots. *)
Theorem dynamic_is_pending now msg err (s : pending_dynamic_response) :
  dynamic_do_deliver now msg s = do_deliver now msg s /\
  dynamic_do_deliver_error now err s = do_deliver_error now err s /\
  dynamic_is_complete s = is_complete s /\ dynamic_expected_replies s = expected_replies s /\
  dynamic_wait s = (slots ← wait_result s; Ret (mk_dynamic_response slots)).
Proof.
  cbn [do_deliver do_deliver_error is_complete expected_replies pending_sink].
  unfold dynamic_do_deliver, dynamic_do_deliver_error, pending_do_deliver, dynamic_wait, wait_result,
    pending_is_complete, dynamic_is_complete. cbn [accept dynamic_builder_builder db_accept].
  split; [|split; [|split; [done|split; [done|by destruct (result_ s)]]]].
  - destruct (bool_decide _); [done|]. destruct (db_accept_message msg (builder_ s)); [|done].
    apply dynamic_finish_eq.
  - destruct (bool_decide _); [done|]. destruct (db_accept_error err (builder_ s)); [|done].
    apply dynamic_finish_eq.
Qed.
