(* ===== verification/Pipeline.v ===== *)
(** * The pipeline ([detail/pipeline.hpp], [impl/pipeline.ipp])

    The scheduler between requests and replies.  The model is written against
    the interfaces [Fifo] (its two queues) and [ResponseSink] (the sinks,
    shared with the waiting coroutines: a [shared_ptr] is an address in a
    store of sinks).  The abstract specification is a stream of bytes to write
    and a list of reply slots to fill, both in the order of the requests. *)

From S2P Require Import Prelude Kind Errors Message Adapter Request RingQueue ResponseSink.

(** [time_point]: nanoseconds; [time_point::max()]. *)
Definition time_max : Z := i64_max.

(** [struct pipeline::limits]. *)
Record pipeline_limits : Set := mk_pipeline_limits {
  max_requests : Z;
  max_pending_write_bytes : Z;
}.

Definition default_pipeline_limits : pipeline_limits :=
  mk_pipeline_limits 16384 (64 * 1024 * 1024).

(** [std::shared_ptr<response_sink>]. *)
Abbreviation sink_ptr := (option nat).

(** [struct pending_item]. *)
Record pending_item : Set := mk_pending_item {
  req : request;
  pi_sink : sink_ptr;
  written : Z;
  pi_deadline : Z;
}.

(** [struct awaiting_item]. *)
Record awaiting_item : Set := mk_awaiting_item { ai_sink : sink_ptr; ai_deadline : Z }.

Definition wire_size (r : request) : Z := zlen (wire_ r).

Section pipeline.

Context {Q : Type -> Type} `{Fifo Q} {S : Type} `{ResponseSink S}.

Abbreviation store := (gmap nat S).

(** [class pipeline]. *)
Record pipeline : Type := mk_pipeline {
  pending_write_ : Q pending_item;
  awaiting_read_ : Q awaiting_item;
  limits_ : pipeline_limits;
  pending_write_bytes_ : Z;
}.

(** [pipeline(lims)]. *)
Definition pipeline_new (lims : pipeline_limits) : pipeline := mk_pipeline q_new q_new lims 0.

(** [pending_count()], [pending_write_bytes()]. *)
Definition pending_count (p : pipeline) : Z :=
  Z.of_nat (q_size (pending_write_ p)) + Z.of_nat (q_size (awaiting_read_ p)).

Definition has_pending_write (p : pipeline) : bool := negb (q_empty (pending_write_ p)).
Definition has_pending_read (p : pipeline) : bool := negb (q_empty (awaiting_read_ p)).

(** Access through a sink pointer: null is caught by the assertions. *)
Definition deref (h : store) (ptr : sink_ptr) : run (nat * S) :=
  _ ← assert (bool_decide (is_Some ptr));
  a ← or_fault object_lifetime ptr;
  s ← or_fault object_lifetime (h !! a);
  Ret (a, s).

(** [push(req, sink, deadline)]. *)
Definition push (r : request) (sink : sink_ptr) (deadline : Z) (h : store) (p : pipeline) :
    run (pipeline * bool) :=
  as_ ← deref h sink;
  _ ← assert (reply_count r =? Z.of_nat (expected_replies as_.2));
  let wire_bytes := wire_size r in
  if max_requests (limits_ p) <=? pending_count p then Ret (p, false)
  else if (max_pending_write_bytes (limits_ p) <? wire_bytes) ||
          (u64 (max_pending_write_bytes (limits_ p) - wire_bytes) <? pending_write_bytes_ p) then
    Ret (p, false)
  else
    q ← q_push (Q:=Q) (mk_pending_item r sink 0 deadline) (pending_write_ p);
    Ret (mk_pipeline q (awaiting_read_ p) (limits_ p) (u64 (pending_write_bytes_ p + wire_bytes)), true).

(** [push(req, sink)]. *)
Definition push_no_deadline (r : request) (sink : sink_ptr) (h : store) (p : pipeline) :
    run (pipeline * bool) :=
  push r sink time_max h p.

(** [next_write_buffer()]. *)
Definition next_write_buffer (p : pipeline) : run bytes :=
  _ ← assert (negb (q_empty (pending_write_ p)));
  front ← q_front (Q:=Q) (pending_write_ p);
  let wire := wire_ (req front) in
  _ ← assert (written front <=? zlen wire);
  Ret (drop (Z.to_nat (written front)) wire).

(** [on_write_done(n)]: the sink pointer moves to the awaiting queue. *)
Definition on_write_done (n : Z) (p : pipeline) : run pipeline :=
  _ ← assert (negb (q_empty (pending_write_ p)));
  front ← q_front (Q:=Q) (pending_write_ p);
  let wire := wire_ (req front) in
  _ ← assert (written front <=? zlen wire);
  _ ← assert (n <=? zlen wire - written front);
  _ ← assert (n <=? pending_write_bytes_ p);
  let front1 := mk_pending_item (req front) (pi_sink front) (u64 (written front + n)) (pi_deadline front) in
  pw ← q_set_front (Q:=Q) front1 (pending_write_ p);
  let bytes_ := u64 (pending_write_bytes_ p - n) in
  if written front1 =? zlen wire then
    aw ← q_push (Q:=Q) (mk_awaiting_item (pi_sink front1) (pi_deadline front1)) (awaiting_read_ p);
    pw1 ← q_set_front (Q:=Q) (mk_pending_item (req front1) None (written front1) (pi_deadline front1)) pw;
    pw2 ← q_pop (Q:=Q) pw1;
    Ret (mk_pipeline pw2 aw (limits_ p) bytes_)
  else Ret (mk_pipeline pw (awaiting_read_ p) (limits_ p) bytes_).

(** [on_message(msg)] and [on_error(err)], up to the delivery. *)
Definition on_reply (deliver_ : S -> run S) (h : store) (p : pipeline) : run (store * pipeline) :=
  _ ← assert (negb (q_empty (awaiting_read_ p)));
  front ← q_front (Q:=Q) (awaiting_read_ p);
  as_ ← deref h (ai_sink front);
  s1 ← deliver_ as_.2;
  let h1 := <[as_.1 := s1]> h in
  if is_complete s1 then
    aw ← q_pop (Q:=Q) (awaiting_read_ p);
    Ret (h1, mk_pipeline (pending_write_ p) aw (limits_ p) (pending_write_bytes_ p))
  else Ret (h1, p).

Definition on_message (now : Z) (msg : message bytes) (h : store) (p : pipeline) :
    run (store * pipeline) :=
  on_reply (deliver now msg) h p.

Definition on_error (now : Z) (err : error_info) (h : store) (p : pipeline) :
    run (store * pipeline) :=
  on_reply (deliver_error now err) h p.

(** A loop of [clear_all], one turn per element: the two loops differ in the
    type of the items. *)
Fixpoint fail_queue {A} (sink_of : A -> sink_ptr) (fuel : nat) (now : Z) (err : error_info)
    (h : store) (q : Q A) : run (store * Q A) :=
  if q_empty q then Ret (h, q)
  else
    match fuel with
    | O => Fault out_of_fuel
    | Datatypes.S fuel' =>
      front ← q_front (Q:=Q) q;
      as_ ← deref h (sink_of front);
      s1 ← fail_all now err as_.2;
      q1 ← q_pop (Q:=Q) q;
      fail_queue sink_of fuel' now err (<[as_.1 := s1]> h) q1
    end.

(** [clear_all(err)]. *)
Definition clear_all (now : Z) (err : error_info) (h : store) (p : pipeline) :
    run (store * pipeline) :=
  hp ← fail_queue pi_sink (q_size (pending_write_ p)) now err h (pending_write_ p);
  ha ← fail_queue ai_sink (q_size (awaiting_read_ p)) now err hp.1 (awaiting_read_ p);
  Ret (ha.1, mk_pipeline hp.2 ha.2 (limits_ p) 0).

(** [next_deadline()]. *)
Definition next_deadline (p : pipeline) : run Z :=
  a ← (if negb (q_empty (pending_write_ p))
       then f ← q_front (Q:=Q) (pending_write_ p); Ret (pi_deadline f) else Ret time_max);
  b ← (if negb (q_empty (awaiting_read_ p))
       then f ← q_front (Q:=Q) (awaiting_read_ p); Ret (ai_deadline f) else Ret time_max);
  Ret (Z.min a b).

(** [has_expired()], at the time [now]. *)
Definition has_expired (now : Z) (p : pipeline) : run bool :=
  d ← next_deadline p;
  Ret (negb (d =? time_max) && (d <=? now)).

(** ** The state behind the queues *)

(** The bytes not yet written. *)
Definition unsent_item (it : pending_item) : bytes := drop (Z.to_nat (written it)) (wire_ (req it)).
Definition unsent (pend : list pending_item) : bytes := concat (unsent_item <$> pend).

(** The sinks in the order their replies arrive. *)
Definition ptrs (pend : list pending_item) (await : list awaiting_item) : list sink_ptr :=
  (ai_sink <$> await) ++ (pi_sink <$> pend).

Definition ptr_ok (h : store) (ptr : sink_ptr) : Prop :=
  exists a s, ptr = Some a /\ h !! a = Some s /\ sink_wf s /\ is_complete s = false.

Definition item_ok (it : pending_item) : Prop :=
  0 <= written it <= wire_size (req it) /\ wire_size (req it) <= u64_max.

Record inv (h : store) (p : pipeline) (pend : list pending_item) (await : list awaiting_item) : Prop := {
  inv_pend : q_elems (pending_write_ p) pend;
  inv_await : q_elems (awaiting_read_ p) await;
  inv_limits : 0 <= max_pending_write_bytes (limits_ p) <= u64_max;
  inv_bytes : pending_write_bytes_ p = zlen (unsent pend);
  inv_bound : zlen (unsent pend) <= max_pending_write_bytes (limits_ p);
  inv_items : Forall item_ok pend;
  inv_ptrs : Forall (ptr_ok h) (ptrs pend await);
  inv_nodup : NoDup (ptrs pend await);
}.

Lemma inv_new h lims :
  0 <= max_pending_write_bytes lims <= u64_max -> inv h (pipeline_new lims) [] [].
Proof.
  intros Hl. constructor; [apply q_new_elems|apply q_new_elems|done|done|apply Hl|constructor..].
Qed.

Lemma deref_ok h ptr : ptr_ok h ptr ->
  exists a s, ptr = Some a /\ h !! a = Some s /\ sink_wf s /\ is_complete s = false /\ deref h ptr = Ret (a, s).
Proof.
  intros (a & s & -> & Hs & Hwf & Hc). exists a, s. repeat split; try done.
  unfold deref. cbn [bool_decide assert mbind run_bind]. rewrite bool_decide_true by eauto. simpl. by rewrite Hs.
Qed.

Lemma unsent_cons it pend : unsent (it :: pend) = unsent_item it ++ unsent pend.
Proof. done. Qed.

Lemma unsent_app pend1 pend2 : unsent (pend1 ++ pend2) = unsent pend1 ++ unsent pend2.
Proof. unfold unsent. by rewrite fmap_app, concat_app. Qed.

Lemma zlen_unsent_item it : item_ok it -> zlen (unsent_item it) = wire_size (req it) - written it.
Proof. intros [Hw _]. unfold unsent_item, wire_size, zlen in *. rewrite length_drop. lia. Qed.

Lemma pending_count_eq h p pend await :
  inv h p pend await -> pending_count p = zlen pend + zlen await.
Proof.
  intros Hi. unfold pending_count. by rewrite (q_size_elems _ _ (inv_pend _ _ _ _ Hi)),
    (q_size_elems _ _ (inv_await _ _ _ _ Hi)).
Qed.

Lemma ptrs_push pend await it : ptrs (pend ++ [it]) await = ptrs pend await ++ [pi_sink it].
Proof. unfold ptrs. by rewrite fmap_app, app_assoc. Qed.

(** ** [push] *)

(** The limits that [push] checks. *)
Definition has_room (r : request) (p : pipeline) : bool :=
  (pending_count p <? max_requests (limits_ p)) &&
  (pending_write_bytes_ p + wire_size r <=? max_pending_write_bytes (limits_ p)).

Lemma push_inv h p pend await r a s dl :
  inv h p pend await -> h !! a = Some s -> sink_wf s -> is_complete s = false ->
  Some a ∉ ptrs pend await -> reply_count r = Z.of_nat (length (sink_types s)) ->
  exists p', push r (Some a) dl h p = Ret (p', has_room r p) /\
    if has_room r p then inv h p' (pend ++ [mk_pending_item r (Some a) 0 dl]) await /\ limits_ p' = limits_ p
    else p' = p.
Proof.
  intros Hi Hs Hwf Hc Hfresh Hcnt.
  destruct (deref_ok h (Some a)) as (a' & s' & [= <-] & Hs' & _ & _ & Hd); [by exists a, s|].
  rewrite Hs in Hs'. injection Hs' as <-. pose proof (inv_limits _ _ _ _ Hi) as Hl.
  pose proof (inv_bytes _ _ _ _ Hi) as Hb. pose proof (inv_bound _ _ _ _ Hi) as Hbd.
  assert (0 <= wire_size r) as Hw by apply zlen_nonneg. pose proof (zlen_nonneg (unsent pend)) as Hu.
  unfold push, has_room. rewrite Hd. cbn [mbind run_bind fst snd].
  rewrite sink_expected, Hcnt, Z.eqb_refl by done. cbn [assert mbind run_bind].
  destruct (max_requests (limits_ p) <=? pending_count p) eqn:E1; bool_prop.
  { rewrite (proj2 (Z.ltb_ge _ _)) by lia. by exists p. }
  rewrite (proj2 (Z.ltb_lt (pending_count p) _)) by lia. cbn [andb].
  destruct (max_pending_write_bytes (limits_ p) <? wire_size r) eqn:E2; bool_prop.
  { rewrite (proj2 (Z.leb_gt _ _)) by lia. by exists p. }
  rewrite u64_small by lia. cbn [orb].
  destruct (max_pending_write_bytes (limits_ p) - wire_size r <? pending_write_bytes_ p) eqn:E3; bool_prop.
  { rewrite (proj2 (Z.leb_gt _ _)) by lia. by exists p. }
  rewrite (proj2 (Z.leb_le _ _)) by lia.
  destruct (q_push_elems _ (mk_pending_item r (Some a) 0 dl) _ (inv_pend _ _ _ _ Hi)) as (q & Hq & Hel).
  rewrite Hq. cbn [mbind run_bind]. rewrite u64_small by lia. eexists. split; [done|]. split; [|done].
  assert (zlen (unsent (pend ++ [mk_pending_item r (Some a) 0 dl])) = zlen (unsent pend) + wire_size r) as Hun.
  { rewrite unsent_app, unsent_cons, zlen_app. unfold unsent. cbn. by rewrite app_nil_r. }
  constructor; cbn [pending_write_ awaiting_read_ limits_ pending_write_bytes_]; try rewrite Hun; try lia.
  - done.
  - apply Hi.
  - apply Forall_app. split; [apply Hi|]. constructor; [|done]. split; cbn [written req]; lia.
  - rewrite ptrs_push. apply Forall_app. split; [apply Hi|]. constructor; [by exists a, s|done].
  - rewrite ptrs_push. apply NoDup_app. split; [apply Hi|]. split; [|apply NoDup_singleton].
    intros x Hx ->%list_elem_of_singleton. done.
Qed.

(** ** Writing *)

Lemma front_empty {A} (q : Q A) x l : q_elems q (x :: l) -> q_empty q = false.
Proof.
  intros Hq. destruct (q_empty q) eqn:E; [|done]. by apply (q_empty_elems q _ Hq) in E.
Qed.

Lemma next_write_buffer_eq h p it pend await :
  inv h p (it :: pend) await -> next_write_buffer p = Ret (unsent_item it).
Proof.
  intros Hi. pose proof (inv_pend _ _ _ _ Hi) as Hq. unfold next_write_buffer.
  rewrite (front_empty _ _ _ Hq), (q_front_elems _ _ _ Hq). cbn [negb assert mbind run_bind].
  pose proof (inv_items _ _ _ _ Hi) as [[Hw _] _]%Forall_cons. unfold wire_size in Hw.
  by rewrite (proj2 (Z.leb_le _ _)) by lia.
Qed.

(** The item after [n] of its bytes were written. *)
Definition advance (n : Z) (it : pending_item) : pending_item :=
  mk_pending_item (req it) (pi_sink it) (written it + n) (pi_deadline it).

Lemma unsent_advance n it :
  0 <= written it -> 0 <= n -> unsent_item (advance n it) = drop (Z.to_nat n) (unsent_item it).
Proof. intros. unfold unsent_item, advance. cbn [written req]. rewrite drop_drop. f_equal. lia. Qed.

Lemma ptrs_move it pend await :
  ptrs pend (await ++ [mk_awaiting_item (pi_sink it) (pi_deadline it)]) = ptrs (it :: pend) await.
Proof. unfold ptrs. by rewrite fmap_app, <- app_assoc. Qed.

Lemma on_write_done_inv h p it pend await n :
  inv h p (it :: pend) await -> 0 <= n <= zlen (unsent_item it) ->
  exists p', on_write_done n p = Ret p' /\ limits_ p' = limits_ p /\
    if written it + n =? wire_size (req it)
    then inv h p' pend (await ++ [mk_awaiting_item (pi_sink it) (pi_deadline it)])
    else inv h p' (advance n it :: pend) await.
Proof.
  intros Hi Hn. pose proof (inv_pend _ _ _ _ Hi) as Hq.
  pose proof (inv_items _ _ _ _ Hi) as [Hit Hits]%Forall_cons.
  pose proof (zlen_unsent_item it Hit) as Hz. destruct Hit as [Hw Hmax].
  pose proof (inv_bytes _ _ _ _ Hi) as Hb. pose proof (inv_bound _ _ _ _ Hi) as Hbd.
  pose proof (inv_limits _ _ _ _ Hi) as Hl. pose proof (zlen_nonneg (unsent pend)) as Hnn.
  rewrite unsent_cons, zlen_app in Hb, Hbd. unfold wire_size in *.
  assert (zlen (unsent (advance n it :: pend)) = pending_write_bytes_ p - n) as Hun.
  { rewrite unsent_cons, zlen_app, zlen_unsent_item; unfold item_ok, wire_size; cbn [advance written req]; lia. }
  unfold on_write_done. rewrite (front_empty _ _ _ Hq), (q_front_elems _ _ _ Hq).
  cbn [negb assert mbind run_bind written req pi_sink pi_deadline].
  rewrite !(proj2 (Z.leb_le _ _)) by lia. cbn [assert mbind run_bind]. rewrite !u64_small by lia.
  destruct (q_set_front_elems _ _ (advance n it) _ Hq) as (q1 & Hq1 & Hel1).
  unfold advance in Hq1. rewrite Hq1. cbn [mbind run_bind].
  destruct (written it + n =? zlen (wire_ (req it))) eqn:E; bool_prop.
  - destruct (q_push_elems _ (mk_awaiting_item (pi_sink it) (pi_deadline it)) _ (inv_await _ _ _ _ Hi))
      as (aw & Haw & Hela).
    destruct (q_set_front_elems _ _ (mk_pending_item (req it) None (written it + n) (pi_deadline it)) _ Hel1)
      as (q2 & Hq2 & Hel2).
    destruct (q_pop_elems _ _ _ Hel2) as (q3 & Hq3 & Hel3).
    rewrite Haw. cbn [mbind run_bind]. rewrite Hq2. cbn [mbind run_bind]. rewrite Hq3. cbn [mbind run_bind].
    eexists. split; [done|]. split; [done|].
    constructor; cbn [pending_write_ awaiting_read_ limits_ pending_write_bytes_]; try rewrite ptrs_move;
      try (apply Hi); try done; lia.
  - eexists. split; [done|]. split; [done|].
    constructor; cbn [pending_write_ awaiting_read_ limits_ pending_write_bytes_]; try rewrite Hun;
      try (apply Hi); try done; try lia.
    constructor; [|done]. split; unfold wire_size; cbn [advance written req]; lia.
Qed.

(** ** Replies *)

Lemma ptr_ok_other h a s ptr : ptr_ok h ptr -> ptr <> Some a -> ptr_ok (<[a := s]> h) ptr.
Proof.
  intros (b & sb & -> & Hb & Hwf & Hc) Hne. exists b, sb.
  rewrite lookup_insert_ne by congruence. done.
Qed.

Lemma ptrs_ok_other h a s l : Forall (ptr_ok h) l -> Some a ∉ l -> Forall (ptr_ok (<[a := s]> h)) l.
Proof.
  rewrite !Forall_forall. intros Hl Ha ptr Hp. apply ptr_ok_other; [by apply Hl|]. by intros ->.
Qed.

Lemma on_reply_inv now r h p pend ai await :
  inv h p pend (ai :: await) ->
  exists a s s' p', ai_sink ai = Some a /\ h !! a = Some s /\ sink_wf s /\ delivered r s s' /\
    on_reply (deliver_reply now r) h p = Ret (<[a := s']> h, p') /\ limits_ p' = limits_ p /\
    inv (<[a := s']> h) p' pend (if is_complete s' then await else ai :: await).
Proof.
  intros Hi. pose proof (inv_await _ _ _ _ Hi) as Hq.
  pose proof (inv_ptrs _ _ _ _ Hi) as Hok. pose proof (inv_nodup _ _ _ _ Hi) as Hnd.
  change (ptrs pend (ai :: await)) with (ai_sink ai :: ptrs pend await) in Hok, Hnd.
  apply Forall_cons in Hok as [Hai Hok]. apply NoDup_cons in Hnd as [Hfresh Hnd].
  destruct (deref_ok h _ Hai) as (a & s & Ha & Hs & Hwf & Hc & Hd). rewrite Ha in Hfresh.
  destruct (deliver_reply_spec now r s Hwf Hc) as (s' & Hdel & Hdd).
  pose proof (ptrs_ok_other h a s' _ Hok Hfresh) as Hok'.
  unfold on_reply. rewrite (front_empty _ _ _ Hq), (q_front_elems _ _ _ Hq).
  cbn [negb assert mbind run_bind]. rewrite Hd. cbn [mbind run_bind fst snd]. rewrite Hdel.
  cbn [mbind run_bind]. destruct (is_complete s') eqn:Hc'.
  - destruct (q_pop_elems _ _ _ Hq) as (aw & Hpop & Hel). rewrite Hpop. cbn [mbind run_bind].
    exists a, s, s'. eexists. rewrite Hc'. repeat (split; [done|]). constructor; try done; apply Hi.
  - exists a, s, s', p. rewrite Hc'. repeat (split; [done|]). constructor; try apply Hi.
    + change (ptrs pend (ai :: await)) with (ai_sink ai :: ptrs pend await). constructor; [|done].
      exists a, s'. rewrite lookup_insert_eq. split; [done|]. split; [done|]. split; [apply Hdd|done].
Qed.

(** ** [clear_all] *)

(** Every sink of [l] got the error for each missing reply; the others are
    as they were. *)
Definition failed (err : error_info) (l : list sink_ptr) (h h' : store) : Prop :=
  (forall a, Some a ∈ l -> exists s s', h !! a = Some s /\ h' !! a = Some s' /\ sink_wf s' /\
     is_complete s' = true /\ sink_types s' = sink_types s /\
     sink_slots s' = sink_slots s ++ replicate (missing s) (slot_from_error err)) /\
  (forall a, Some a ∉ l -> h' !! a = h !! a).

Lemma failed_nil err h : failed err [] h h.
Proof. split; [|done]. intros a Ha. by apply elem_of_nil in Ha. Qed.

Lemma failed_app err l1 l2 h h1 h2 :
  failed err l1 h h1 -> failed err l2 h1 h2 -> (forall x, x ∈ l1 -> x ∉ l2) ->
  failed err (l1 ++ l2) h h2.
Proof.
  intros [H1 F1] [H2 F2] Hdisj. split.
  - intros a [Ha|Ha]%elem_of_app.
    + rewrite (F2 a) by auto. auto.
    + rewrite <- (F1 a); [auto|]. intros Ha'. by eapply Hdisj.
  - intros a Ha. rewrite elem_of_app in Ha. rewrite F2, F1; tauto.
Qed.

Lemma failed_ptrs_ok err l k h h' :
  failed err l h h' -> Forall (ptr_ok h) k -> (forall x, x ∈ l -> x ∉ k) -> Forall (ptr_ok h') k.
Proof.
  intros [_ F] Hk Hdisj. rewrite Forall_forall in *. intros x Hx.
  destruct (Hk x Hx) as (a & s & -> & Hs & Hok). exists a, s. rewrite F; [done|].
  intros Ha. by eapply Hdisj.
Qed.

Lemma fail_queue_spec {A} (sink_of : A -> sink_ptr) now err l : forall h (q : Q A),
  q_elems q l -> Forall (ptr_ok h) (sink_of <$> l) -> NoDup (sink_of <$> l) ->
  exists h' q', fail_queue sink_of (length l) now err h q = Ret (h', q') /\ q_elems q' [] /\
    failed err (sink_of <$> l) h h'.
Proof.
  induction l as [|x l IH]; intros h q Hq Hok Hnd.
  { exists h, q. cbn [fail_queue length]. rewrite (proj2 (q_empty_elems q [] Hq)) by done.
    split; [done|]. split; [done|]. apply failed_nil. }
  rewrite fmap_cons in *. apply Forall_cons in Hok as [Hx Hok]. apply NoDup_cons in Hnd as [Hfresh Hnd].
  destruct (deref_ok h _ Hx) as (a & s & Ha & Hs & Hwf & Hc & Hd).
  destruct (fail_all_spec now err s Hwf) as (s' & Hf & Hwf' & Hc' & Hty & Hsl).
  destruct (q_pop_elems _ _ _ Hq) as (q1 & Hpop & Hel). rewrite Ha in Hfresh.
  destruct (IH (<[a := s']> h) q1 Hel) as (h' & q' & Hrun & Hq' & Hfail);
    [by apply ptrs_ok_other|done|].
  exists h', q'. cbn [fail_queue length]. rewrite (front_empty _ _ _ Hq), (q_front_elems _ _ _ Hq).
  cbn [mbind run_bind]. rewrite Hd. cbn [mbind run_bind fst snd]. rewrite Hf. cbn [mbind run_bind].
  rewrite Hpop. cbn [mbind run_bind]. split; [done|]. split; [done|].
  rewrite Ha. apply (failed_app err [Some a] (sink_of <$> l) h (<[a := s']> h) h'); [|done|].
  - split.
    + intros b Hb. apply list_elem_of_singleton in Hb. injection Hb as ->. exists s, s'.
      rewrite lookup_insert_eq. done.
    + intros b Hb. rewrite lookup_insert_ne; [done|]. intros ->. apply Hb. by apply list_elem_of_singleton.
  - intros y ->%list_elem_of_singleton. done.
Qed.

Lemma clear_all_inv now err h p pend await :
  inv h p pend await ->
  exists h' p', clear_all now err h p = Ret (h', p') /\ limits_ p' = limits_ p /\ inv h' p' [] [] /\
    failed err (ptrs pend await) h h'.
Proof.
  intros Hi. pose proof (inv_ptrs _ _ _ _ Hi) as [Hoka Hokp]%Forall_app.
  pose proof (inv_nodup _ _ _ _ Hi) as (Hnda & Hdisj & Hndp)%NoDup_app.
  destruct (fail_queue_spec pi_sink now err pend h _ (inv_pend _ _ _ _ Hi) Hokp Hndp)
    as (h1 & q1 & Hrun1 & Hq1 & Hf1).
  assert (forall x, x ∈ pi_sink <$> pend -> x ∉ ai_sink <$> await) as Hdisj'
    by (intros x Hx Hx'; by eapply Hdisj).
  destruct (fail_queue_spec ai_sink now err await h1 _ (inv_await _ _ _ _ Hi)
    (failed_ptrs_ok _ _ _ _ _ Hf1 Hoka Hdisj') Hnda) as (h2 & q2 & Hrun2 & Hq2 & Hf2).
  exists h2. eexists. unfold clear_all.
  rewrite (q_size_elems _ _ (inv_pend _ _ _ _ Hi)), (q_size_elems _ _ (inv_await _ _ _ _ Hi)), Hrun1.
  cbn [mbind run_bind fst snd]. rewrite Hrun2. cbn [mbind run_bind fst snd].
  split; [done|]. split; [done|]. split.
  - constructor; [exact Hq1|exact Hq2|apply (inv_limits _ _ _ _ Hi)|done|apply (inv_limits _ _ _ _ Hi)|constructor..].
  - assert (failed err ((pi_sink <$> pend) ++ (ai_sink <$> await)) h h2) as [Ha Hb]
      by (by eapply failed_app).
    unfold ptrs. split; intros a; [intros Hin; apply Ha|intros Hin; apply Hb];
      rewrite elem_of_app in *; tauto.
Qed.

End pipeline.
