(* ===== verification/PipelineSpec.v ===== *)
(** * What the pipeline promises

    The histories of a pipeline (every sequence of its operations a
    connection may make), and the specification they refine: one stream of
    bytes, one list of reply slots, both in the order of the requests. *)

From S2P Require Import Prelude Kind Errors Message Adapter Request RingQueue ResponseSink.
From S2P Require Import Pipeline.
From Stdlib Require Import Sorted.

(** What happened so far: the wire bytes of the accepted requests and the
    bytes written; the reply slots [(sink, index)] of the accepted requests in
    order, and the replies delivered (after [clear_all], the errors); the
    deadlines of the accepted requests. *)
Record history : Type := mk_history {
  accepted_bytes : bytes;
  written_bytes : bytes;
  reply_slots : list (nat * nat);
  replies : list reply;
  accepted_deadlines : list Z;
}.

Definition history_new : history := mk_history [] [] [] [] [].

Definition after_push (a : nat) (r : request) (n : nat) (dl : Z) (hs : history) : history :=
  mk_history (accepted_bytes hs ++ wire_ r) (written_bytes hs)
    (reply_slots hs ++ (pair a <$> seq 0 n)) (replies hs) (accepted_deadlines hs ++ [dl]).

Definition after_write (bs : bytes) (hs : history) : history :=
  mk_history (accepted_bytes hs) (written_bytes hs ++ bs) (reply_slots hs) (replies hs)
    (accepted_deadlines hs).

Definition after_reply (r : reply) (hs : history) : history :=
  mk_history (accepted_bytes hs) (written_bytes hs) (reply_slots hs) (replies hs ++ [r])
    (accepted_deadlines hs).

(** [clear_all]: the unwritten bytes are dropped, the missing replies are
    errors. *)
Definition after_clear (err : error_info) (hs : history) : history :=
  mk_history (written_bytes hs) (written_bytes hs) (reply_slots hs)
    (replies hs ++ replicate (length (reply_slots hs) - length (replies hs)) (reply_error err))
    (accepted_deadlines hs).

Definition limits_ok (lims : pipeline_limits) : Prop :=
  0 <= max_requests lims /\ 0 <= max_pending_write_bytes lims <= u64_max.

Section history.

Context {Q : Type -> Type} `{Fifo Q} {S : Type} `{ResponseSink S}.

Abbreviation store := (gmap nat S).
Abbreviation pipe := (pipeline (Q:=Q)).

(** Every slot of the sink that is filled holds an error. *)
Definition no_value (s : S) : Prop := forall i v, sink_slots s !! i <> Some (Val v).

(** The histories: a request comes with a fresh sink, a write reports part of
    the buffer it was given, a reply arrives when one is awaited; besides, the
    owner may keep sinks without a value in the store, and change of a sink what
    has nothing to do with its replies (its trace context). *)
Inductive runs (lims : pipeline_limits) : history -> store -> pipe -> Prop :=
| runs_new :
    runs lims history_new ∅ (pipeline_new lims)
| runs_push hs h p a s r dl p' :
    runs lims hs h p ->
    h !! a = None -> sink_wf s -> sink_slots s = [] -> is_complete s = false ->
    reply_count r = Z.of_nat (length (sink_types s)) ->
    push r (Some a) dl (<[a := s]> h) p = Ret (p', true) ->
    runs lims (after_push a r (length (sink_types s)) dl hs) (<[a := s]> h) p'
| runs_refused hs h p a s r dl p' :
    runs lims hs h p ->
    h !! a = None -> sink_wf s -> sink_slots s = [] -> is_complete s = false ->
    reply_count r = Z.of_nat (length (sink_types s)) ->
    push r (Some a) dl (<[a := s]> h) p = Ret (p', false) ->
    runs lims hs (<[a := s]> h) p'
| runs_write hs h p buf n p' :
    runs lims hs h p ->
    has_pending_write p = true -> next_write_buffer p = Ret buf -> 0 <= n <= zlen buf ->
    on_write_done n p = Ret p' ->
    runs lims (after_write (take (Z.to_nat n) buf) hs) h p'
| runs_reply hs h p now r h' p' :
    runs lims hs h p ->
    has_pending_read p = true ->
    match r with
    | reply_message m => on_message now m h p
    | reply_error e => on_error now e h p
    end = Ret (h', p') ->
    runs lims (after_reply r hs) h' p'
| runs_clear hs h p now err h' p' :
    runs lims hs h p ->
    clear_all now err h p = Ret (h', p') ->
    runs lims (after_clear err hs) h' p'
| runs_store hs h p a s :
    runs lims hs h p -> h !! a = None -> no_value s -> runs lims hs (<[a := s]> h) p
| runs_retag hs h p a s s' :
    runs lims hs h p -> h !! a = Some s -> sink_wf s -> sink_wf s' ->
    sink_types s' = sink_types s -> sink_slots s' = sink_slots s ->
    runs lims hs (<[a := s']> h) p.

(** ** The slots waiting for a reply *)

Definition open_slots (h : store) (ptr : sink_ptr) : list (nat * nat) :=
  match ptr with
  | Some a =>
    match h !! a with
    | Some s => pair a <$> seq (length (sink_slots s)) (missing s)
    | None => []
    end
  | None => []
  end.

Definition outstanding (h : store) (l : list sink_ptr) : list (nat * nat) :=
  concat (open_slots h <$> l).

Lemma outstanding_app h l k : outstanding h (l ++ k) = outstanding h l ++ outstanding h k.
Proof. unfold outstanding. by rewrite fmap_app, concat_app. Qed.

Lemma outstanding_cons h x l : outstanding h (x :: l) = open_slots h x ++ outstanding h l.
Proof. done. Qed.

Lemma outstanding_other h a s l : Some a ∉ l -> outstanding (<[a := s]> h) l = outstanding h l.
Proof.
  induction l as [|x l IH]; intros Ha; [done|]. apply not_elem_of_cons in Ha as [Hx Hl].
  rewrite !outstanding_cons, IH by done. f_equal. destruct x as [b|]; [|done]. simpl.
  by rewrite lookup_insert_ne by congruence.
Qed.

Lemma open_slots_delivered r h a s s' :
  h !! a = Some s -> delivered r s s' ->
  open_slots h (Some a) = (a, length (sink_slots s)) :: open_slots (<[a := s']> h) (Some a).
Proof.
  intros Hs Hd. pose proof (delivered_missing _ _ _ Hd) as Hm. destruct Hd as (_ & _ & t & _ & Hsl).
  simpl. rewrite Hs, lookup_insert_eq, Hm, Hsl, length_app. simpl. by rewrite Nat.add_1_r.
Qed.

Lemma open_slots_complete h a s :
  h !! a = Some s -> sink_wf s -> is_complete s = true -> open_slots h (Some a) = [].
Proof. intros Hs Hwf Hc. simpl. by rewrite Hs, (proj1 (missing_complete s Hwf) Hc). Qed.

Lemma elem_of_outstanding h a i l :
  (a, i) ∈ outstanding h l ->
  Some a ∈ l /\ exists s, h !! a = Some s /\ (length (sink_slots s) <= i < length (sink_slots s) + missing s)%nat.
Proof.
  induction l as [|x l IH]; [by intros ?%elem_of_nil|].
  rewrite outstanding_cons. intros [Hx|Hl]%elem_of_app.
  - destruct x as [b|]; [|by apply elem_of_nil in Hx]. simpl in Hx.
    destruct (h !! b) as [s|] eqn:Hs; [|by apply elem_of_nil in Hx].
    apply list_elem_of_fmap in Hx as (j & [= -> ->] & Hj). apply elem_of_seq in Hj.
    split; [by left|]. by exists s.
  - destruct (IH Hl). split; [by right|done].
Qed.

(** ** The link between a history and a state *)

Definition deadlines (pend : list pending_item) (await : list awaiting_item) : list Z :=
  (ai_deadline <$> await) ++ (pi_deadline <$> pend).

(** Slot [(a, i)] holds the reply. *)
Definition holds (h : store) (x : nat * nat) (r : reply) : Prop :=
  exists s t, h !! x.1 = Some s /\ sink_types s !! x.2 = Some t /\
    sink_slots s !! x.2 = Some (slot_of t r).

Record linked (lims : pipeline_limits) (hs : history) (h : store) (p : pipe)
    (pend : list pending_item) (await : list awaiting_item) : Prop := {
  lk_inv : inv h p pend await;
  lk_limits : limits_ p = lims;
  lk_bytes : written_bytes hs ++ unsent pend = accepted_bytes hs;
  lk_open : drop (length (replies hs)) (reply_slots hs) = outstanding h (ptrs pend await);
  lk_len : (length (replies hs) <= length (reply_slots hs))%nat;
  lk_holds : Forall2 (holds h) (take (length (replies hs)) (reply_slots hs)) (replies hs);
  lk_count : zlen pend + zlen await <= max_requests lims;
  lk_dl : exists old, accepted_deadlines hs = old ++ deadlines pend await;
}.

Lemma linked_new lims : limits_ok lims -> linked lims history_new ∅ (pipeline_new lims) [] [].
Proof.
  intros [Hr Hl]. constructor; [by apply inv_new|done|done|done|done|constructor|exact Hr|by exists []].
Qed.

Lemma holds_mono (h h' : store) x r :
  holds h x r ->
  (forall s, h !! x.1 = Some s -> exists s', h' !! x.1 = Some s' /\ sink_types s' = sink_types s /\
     exists more, sink_slots s' = sink_slots s ++ more) ->
  holds h' x r.
Proof.
  intros (s & t & Hs & Ht & Hr) Hm. destruct (Hm s Hs) as (s' & Hs' & Hty & more & Hsl).
  exists s', t. rewrite Hty, Hsl. split; [done|]. split; [done|]. by apply lookup_app_l_Some.
Qed.

Lemma holds_fresh (h : store) a s l rs :
  h !! a = None -> Forall2 (holds h) l rs -> Forall2 (holds (<[a := s]> h)) l rs.
Proof.
  intros Ha Hf. eapply Forall2_impl; [exact Hf|]. intros x r Hx. eapply holds_mono; [exact Hx|].
  intros s0 Hs0. exists s0. rewrite lookup_insert_ne by congruence. split; [done|]. split; [done|].
  exists []. by rewrite app_nil_r.
Qed.

Lemma fresh_ptr (h : store) a l : h !! a = None -> Forall (ptr_ok h) l -> Some a ∉ l.
Proof.
  intros Ha Hl Hin. rewrite Forall_forall in Hl. destruct (Hl _ Hin) as (b & s & [= <-] & Hs & _).
  congruence.
Qed.

(** A new sink in the store does not touch the pipeline. *)
Lemma linked_store lims hs h p pend await a s :
  linked lims hs h p pend await -> h !! a = None -> linked lims hs (<[a := s]> h) p pend await.
Proof.
  intros [[Hq1 Hq2 Hl Hb Hbd Hit Hok Hnd] H1 H2 H3 H4 H5 H6 H7] Ha.
  pose proof (fresh_ptr h a _ Ha Hok) as Hfr.
  constructor; try done.
  - constructor; try done. by apply ptrs_ok_other.
  - by rewrite outstanding_other.
  - by apply holds_fresh.
Qed.

(** A sink that looks the same to the pipeline. *)
Lemma linked_retag lims hs h p pend await a s s' :
  linked lims hs h p pend await -> h !! a = Some s -> sink_wf s -> sink_wf s' ->
  sink_types s' = sink_types s -> sink_slots s' = sink_slots s ->
  linked lims hs (<[a := s']> h) p pend await.
Proof.
  intros [[Hq1 Hq2 Hl Hb Hbd Hit Hok Hnd] H1 H2 H3 H4 H5 H6 H7] Ha Hwf Hwf' Hty Hsl.
  assert (is_complete s' = is_complete s) as Hc by (rewrite !sink_complete, Hty, Hsl by done; done).
  constructor; try done.
  - constructor; try done. eapply Forall_impl; [exact Hok|]. intros ptr (b & s0 & -> & Hs0 & Hwf0 & Hc0).
    destruct (decide (a = b)) as [<-|Hne]; [|exists b, s0; by rewrite lookup_insert_ne].
    exists a, s'. rewrite lookup_insert_eq. rewrite Ha in Hs0. injection Hs0 as <-. by rewrite Hc.
  - rewrite H3. unfold outstanding. f_equal. apply list_fmap_ext. intros i ptr _. unfold open_slots.
    destruct ptr as [b|]; [|done]. destruct (decide (a = b)) as [<-|Hne]; [|by rewrite lookup_insert_ne].
    rewrite lookup_insert_eq, Ha. unfold missing. by rewrite Hty, Hsl.
  - eapply Forall2_impl; [exact H5|]. intros x r Hx. eapply holds_mono; [exact Hx|]. intros s0 Hs0.
    destruct (decide (a = x.1)) as [E|Hne].
    + rewrite <- E in Hs0 |- *. rewrite Ha in Hs0. injection Hs0 as <-. exists s'. rewrite lookup_insert_eq. split; [done|]. split; [done|].
      exists []. by rewrite app_nil_r.
    + exists s0. rewrite lookup_insert_ne by done. split; [done|]. split; [done|]. exists []. by rewrite app_nil_r.
Qed.

(** ** Every operation keeps the link *)

Lemma linked_push lims hs h p pend await a s r dl p' :
  linked lims hs h p pend await ->
  h !! a = None -> sink_wf s -> sink_slots s = [] -> is_complete s = false ->
  reply_count r = Z.of_nat (length (sink_types s)) ->
  push r (Some a) dl (<[a := s]> h) p = Ret (p', true) ->
  linked lims (after_push a r (length (sink_types s)) dl hs) (<[a := s]> h) p'
    (pend ++ [mk_pending_item r (Some a) 0 dl]) await.
Proof.
  intros Hlk Ha Hwf Hsl Hc Hcnt Hp.
  pose proof (fresh_ptr h a _ Ha (inv_ptrs _ _ _ _ (lk_inv _ _ _ _ _ _ Hlk))) as Hfr.
  apply (linked_store _ _ _ _ _ _ a s) in Hlk; [|done].
  destruct (push_inv _ _ _ _ r a s dl (lk_inv _ _ _ _ _ _ Hlk) (lookup_insert_eq _ _ _) Hwf Hc Hfr Hcnt)
    as (p1 & Hp1 & Hres).
  rewrite Hp in Hp1. injection Hp1 as <- Hroom. rewrite <- Hroom in Hres. destruct Hres as [Hi Hl].
  pose proof (pending_count_eq _ _ _ _ (lk_inv _ _ _ _ _ _ Hlk)) as Hpc.
  destruct Hlk as [_ H1 H2 H3 H4 H5 H6 [old H7]].
  symmetry in Hroom. apply andb_true_iff in Hroom as [Hroom _]. bool_prop.
  constructor; cbn [accepted_bytes written_bytes reply_slots replies accepted_deadlines after_push].
  - done.
  - congruence.
  - rewrite unsent_app, app_assoc, H2. unfold unsent, unsent_item. cbn. by rewrite app_nil_r.
  - rewrite drop_app_le, H3, ptrs_push, outstanding_app by done. f_equal. unfold outstanding.
    cbn [fmap list_fmap concat open_slots pi_sink]. rewrite lookup_insert_eq. unfold missing.
    rewrite Hsl, app_nil_r. cbn [length]. by rewrite Nat.sub_0_r.
  - rewrite length_app. lia.
  - by rewrite take_app_le.
  - rewrite zlen_app, zlen_cons, zlen_nil. rewrite <- H1. lia.
  - exists old. unfold deadlines in *. by rewrite H7, fmap_app, !app_assoc.
Qed.

Lemma linked_refused lims hs h p pend await a s r dl p' :
  linked lims hs h p pend await ->
  h !! a = None -> sink_wf s -> is_complete s = false ->
  reply_count r = Z.of_nat (length (sink_types s)) ->
  push r (Some a) dl (<[a := s]> h) p = Ret (p', false) ->
  linked lims hs (<[a := s]> h) p' pend await.
Proof.
  intros Hlk Ha Hwf Hc Hcnt Hp.
  pose proof (fresh_ptr h a _ Ha (inv_ptrs _ _ _ _ (lk_inv _ _ _ _ _ _ Hlk))) as Hfr.
  apply (linked_store _ _ _ _ _ _ a s) in Hlk; [|done].
  destruct (push_inv _ _ _ _ r a s dl (lk_inv _ _ _ _ _ _ Hlk) (lookup_insert_eq _ _ _) Hwf Hc Hfr Hcnt)
    as (p1 & Hp1 & Hres).
  rewrite Hp in Hp1. injection Hp1 as <- Hroom. rewrite <- Hroom in Hres. by subst.
Qed.

Lemma has_pending_write_front h p pend await :
  inv h p pend await -> has_pending_write p = true -> exists it pend', pend = it :: pend'.
Proof.
  intros Hi Hp. destruct pend as [|it pend']; [|eauto]. exfalso. unfold has_pending_write in Hp.
  rewrite (proj2 (q_empty_elems _ _ (inv_pend _ _ _ _ Hi))) in Hp; done.
Qed.

Lemma has_pending_read_front h p pend await :
  inv h p pend await -> has_pending_read p = true -> exists ai await', await = ai :: await'.
Proof.
  intros Hi Hp. destruct await as [|ai await']; [|eauto]. exfalso. unfold has_pending_read in Hp.
  rewrite (proj2 (q_empty_elems _ _ (inv_await _ _ _ _ Hi))) in Hp; done.
Qed.

Lemma linked_write lims hs h p pend await buf n p' :
  linked lims hs h p pend await ->
  has_pending_write p = true -> next_write_buffer p = Ret buf -> 0 <= n <= zlen buf ->
  on_write_done n p = Ret p' ->
  exists pend' await', linked lims (after_write (take (Z.to_nat n) buf) hs) h p' pend' await'.
Proof.
  intros Hlk Hp Hbuf Hn Hw. pose proof (lk_inv _ _ _ _ _ _ Hlk) as Hi.
  destruct (has_pending_write_front _ _ _ _ Hi Hp) as (it & pend' & ->).
  rewrite (next_write_buffer_eq _ _ _ _ _ Hi) in Hbuf. injection Hbuf as <-.
  destruct (on_write_done_inv _ _ _ _ _ n Hi Hn) as (p1 & Hw1 & Hl1 & Hres).
  rewrite Hw in Hw1. injection Hw1 as <-.
  pose proof (inv_items _ _ _ _ Hi) as [[Hit Hmax] _]%Forall_cons.
  destruct Hlk as [_ H1 H2 H3 H4 H5 H6 [old H7]]. rewrite unsent_cons in H2.
  destruct (written it + n =? wire_size (req it)) eqn:E; bool_prop.
  - eexists _, _. constructor; cbn [accepted_bytes written_bytes reply_slots replies accepted_deadlines after_write];
      try exact Hres; try done; try congruence.
    + rewrite take_ge, <- app_assoc by (unfold unsent_item, wire_size, zlen in *; rewrite length_drop; lia).
      done.
    + by rewrite ptrs_move.
    + clear - H6. zlen_lia.
    + exists old. rewrite H7. unfold deadlines. by rewrite fmap_app, <- app_assoc.
  - eexists _, _. constructor; cbn [accepted_bytes written_bytes reply_slots replies accepted_deadlines after_write];
      try exact Hres; try done; try congruence.
    + rewrite unsent_cons, unsent_advance by lia. rewrite <- app_assoc, (app_assoc (take _ _)), take_drop. done.
    + by exists old.
Qed.

Lemma drop_cons_inv {A} n (l : list A) x k :
  drop n l = x :: k -> l !! n = Some x /\ drop (Datatypes.S n) l = k /\ take (Datatypes.S n) l = take n l ++ [x].
Proof.
  intros Hd. assert (l !! n = Some x) as Hx by (rewrite <- (Nat.add_0_r n), <- lookup_drop, Hd; done).
  split; [done|]. split; [|by apply take_S_r]. rewrite <- Nat.add_1_r, <- drop_drop, Hd. done.
Qed.

Lemma holds_delivered (h : store) a s s' r l rs :
  h !! a = Some s -> delivered r s s' ->
  Forall2 (holds h) l rs ->
  Forall2 (holds (<[a := s']> h)) (l ++ [(a, length (sink_slots s))]) (rs ++ [r]).
Proof.
  intros Hs (_ & Hty & t & Ht & Hsl) Hf. apply Forall2_app.
  - eapply Forall2_impl; [exact Hf|]. intros x r' Hx. eapply holds_mono; [exact Hx|].
    intros s0 Hs0. destruct (decide (x.1 = a)) as [Heq|].
    + rewrite Heq in *. rewrite Hs in Hs0. injection Hs0 as <-. exists s'. rewrite lookup_insert_eq. eauto.
    + exists s0. rewrite lookup_insert_ne by done. split; [done|]. split; [done|]. exists []. by rewrite app_nil_r.
  - constructor; [|constructor]. exists s', t. cbn [fst snd]. rewrite lookup_insert_eq, Hty, Hsl.
    split; [done|]. split; [done|]. by rewrite lookup_app_r, Nat.sub_diag by lia.
Qed.

Lemma linked_reply lims hs h p pend await now r h' p' :
  linked lims hs h p pend await -> has_pending_read p = true ->
  on_reply (deliver_reply now r) h p = Ret (h', p') ->
  exists await', linked lims (after_reply r hs) h' p' pend await'.
Proof.
  intros Hlk Hp Hr. pose proof (lk_inv _ _ _ _ _ _ Hlk) as Hi.
  destruct (has_pending_read_front _ _ _ _ Hi Hp) as (ai & await' & ->).
  destruct (on_reply_inv now r _ _ _ _ _ Hi) as (a & s & s' & p1 & Ha & Hs & Hwf & Hd & Hr1 & Hl1 & Hi1).
  rewrite Hr in Hr1. injection Hr1 as -> <-.
  pose proof (inv_nodup _ _ _ _ Hi) as Hnd. change (ptrs pend (ai :: await')) with (ai_sink ai :: ptrs pend await') in Hnd.
  apply NoDup_cons in Hnd as [Hfr _]. rewrite Ha in Hfr.
  destruct Hlk as [_ H1 H2 H3 H4 H5 H6 [old H7]].
  change (ptrs pend (ai :: await')) with (ai_sink ai :: ptrs pend await') in H3.
  rewrite outstanding_cons, Ha, (open_slots_delivered r h a s s' Hs Hd) in H3.
  destruct (drop_cons_inv _ _ _ _ H3) as (Hat & Hrest & Htake). apply lookup_lt_Some in Hat.
  assert (linked lims (after_reply r hs) (<[a := s']> h) p' pend (if is_complete s' then await' else ai :: await'))
    as Hres; [|eauto].
  constructor; cbn [accepted_bytes written_bytes reply_slots replies accepted_deadlines after_reply];
    rewrite ?length_app; cbn [length]; rewrite ?Nat.add_1_r; try done; try congruence.
  - rewrite Hrest. destruct (is_complete s') eqn:Hc.
    + rewrite (open_slots_complete _ a s'), outstanding_other; try done; [by rewrite lookup_insert_eq|apply Hd].
    + change (ptrs pend (ai :: await')) with (ai_sink ai :: ptrs pend await').
      rewrite outstanding_cons, Ha, outstanding_other by done. done.
  - rewrite Htake. by apply (holds_delivered h a s s' r).
  - destruct (is_complete s'); zlen_lia.
  - destruct (is_complete s'); [|by exists old]. exists (old ++ [ai_deadline ai]). rewrite H7.
    unfold deadlines. rewrite fmap_cons, <- app_assoc. done.
Qed.

(** The slots that [clear_all] fills. *)
Lemma holds_failed err (h h' : store) l x :
  failed err l h h' -> x ∈ outstanding h l -> holds h' x (reply_error err).
Proof.
  intros [Hf _] Hx. destruct x as [a i]. destruct (elem_of_outstanding h a i l Hx) as (Ha & s & Hs & Hi).
  destruct (Hf a Ha) as (s0 & s' & Hs0 & Hs' & Hwf' & _ & Hty & Hsl). rewrite Hs in Hs0. injection Hs0 as <-.
  assert (i < length (sink_types s'))%nat as Hlt.
  { pose proof (sink_bound s' Hwf') as Hb. rewrite Hsl, length_app, length_replicate in Hb. lia. }
  destruct (lookup_lt_is_Some_2 (sink_types s') i Hlt) as [t Ht].
  exists s', t. cbn [fst snd]. split; [done|]. split; [done|].
  rewrite Hsl, lookup_app_r by lia. apply lookup_replicate. split; [done|lia].
Qed.

Lemma holds_failed_before err (h h' : store) l k rs :
  failed err l h h' -> Forall2 (holds h) k rs -> Forall2 (holds h') k rs.
Proof.
  intros [Hf Ho] Hk. eapply Forall2_impl; [exact Hk|]. intros x r Hx. eapply holds_mono; [exact Hx|].
  intros s Hs. destruct (decide (Some x.1 ∈ l)) as [Hin|Hout].
  - destruct (Hf _ Hin) as (s0 & s' & Hs0 & Hs' & _ & _ & Hty & Hsl). rewrite Hs in Hs0. injection Hs0 as <-.
    exists s'. eauto.
  - exists s. rewrite Ho by done. split; [done|]. split; [done|]. exists []. by rewrite app_nil_r.
Qed.

Lemma linked_clear lims hs h p pend await now err h' p' :
  limits_ok lims -> linked lims hs h p pend await -> clear_all now err h p = Ret (h', p') ->
  linked lims (after_clear err hs) h' p' [] [].
Proof.
  intros Hok Hlk Hc. pose proof (lk_inv _ _ _ _ _ _ Hlk) as Hi.
  destruct (clear_all_inv now err _ _ _ _ Hi) as (h1 & p1 & Hc1 & Hl1 & Hi1 & Hf).
  rewrite Hc in Hc1. injection Hc1 as <- <-. destruct Hlk as [_ H1 H2 H3 H4 H5 H6 [old H7]].
  set (m := length (replies hs)) in *. set (n := length (reply_slots hs)) in *.
  constructor; cbn [accepted_bytes written_bytes reply_slots replies accepted_deadlines after_clear];
    rewrite ?length_app, ?length_replicate; fold m n; try replace (m + (n - m))%nat with n by lia; try done.
  - congruence.
  - by rewrite app_nil_r.
  - by rewrite drop_ge.
  - rewrite take_ge by done. rewrite <- (take_drop m (reply_slots hs)). apply Forall2_app.
    + by eapply holds_failed_before.
    + assert (length (drop m (reply_slots hs)) = (n - m)%nat) as Hlen by apply length_drop.
      rewrite <- Hlen. rewrite H3. apply Forall2_same_length_lookup_2; [by rewrite length_replicate|].
      intros i x r Hx [-> _]%lookup_replicate. eapply holds_failed; [exact Hf|].
      by eapply list_elem_of_lookup_2.
  - destruct Hok. unfold zlen. simpl. lia.
  - exists (old ++ deadlines pend await). rewrite H7. unfold deadlines at 2. simpl. by rewrite app_nil_r.
Qed.

Lemma runs_linked lims hs h p :
  limits_ok lims -> runs lims hs h p -> exists pend await, linked lims hs h p pend await.
Proof.
  intros Hok. induction 1 as [|hs h p a s r dl p' _ (pend & await & IH)|hs h p a s r dl p' _ (pend & await & IH)
    |hs h p buf n p' _ (pend & await & IH)|hs h p now r h' p' _ (pend & await & IH)
    |hs h p now err h' p' _ (pend & await & IH)|hs h p a s _ (pend & await & IH)
    |hs h p a s s' _ (pend & await & IH)].
  - exists [], []. by apply linked_new.
  - eexists _, _. by eapply linked_push.
  - eexists _, _. by eapply linked_refused.
  - by eapply linked_write.
  - exists pend. eapply linked_reply; [done|done|]. by destruct r.
  - eexists _, _. by eapply linked_clear.
  - eexists _, _. by eapply linked_store.
  - eexists _, _. by eapply linked_retag.
Qed.

(** Slot [(a, i)] is one of those that got a reply. *)
Definition replied (hs : history) (x : nat * nat) : Prop :=
  exists k r, reply_slots hs !! k = Some x /\ replies hs !! k = Some r.

Lemma replied_extend hs hs' x more more' :
  reply_slots hs' = reply_slots hs ++ more -> replies hs' = replies hs ++ more' -> replied hs x -> replied hs' x.
Proof. intros Hs Hr (k & r & Hk & Hkr). exists k, r. rewrite Hs, Hr. split; by apply lookup_app_l_Some. Qed.

Lemma slots_insert_value (h : store) a s b s' i v :
  no_value s -> <[a := s]> h !! b = Some s' -> sink_slots s' !! i = Some (Val v) -> h !! b = Some s'.
Proof.
  intros Hs Hb Hv. destruct (decide (b = a)) as [->|]; [|by rewrite lookup_insert_ne in Hb].
  rewrite lookup_insert_eq in Hb. injection Hb as <-. by destruct (Hs i v).
Qed.

Lemma no_slots_no_value s : sink_slots s = [] -> no_value s.
Proof. intros Hs i v. by rewrite Hs, lookup_nil. Qed.

Lemma replied_reply lims hs h p pend await now r h' p' :
  linked lims hs h p pend await -> has_pending_read p = true ->
  on_reply (deliver_reply now r) h p = Ret (h', p') ->
  exists a s s', h !! a = Some s /\ h' = <[a := s']> h /\ delivered r s s' /\
    replied (after_reply r hs) (a, length (sink_slots s)).
Proof.
  intros Hlk Hp Hr. pose proof (lk_inv _ _ _ _ _ _ Hlk) as Hi.
  destruct (has_pending_read_front _ _ _ _ Hi Hp) as (ai & await' & ->).
  destruct (on_reply_inv now r _ _ _ _ _ Hi) as (a & s & s' & p1 & Ha & Hs & Hwf & Hd & Hr1 & _ & _).
  rewrite Hr in Hr1. injection Hr1 as -> <-. exists a, s, s'. split; [done|]. split; [done|]. split; [done|].
  pose proof (lk_open _ _ _ _ _ _ Hlk) as H3.
  change (ptrs pend (ai :: await')) with (ai_sink ai :: ptrs pend await') in H3.
  rewrite outstanding_cons, Ha, (open_slots_delivered r h a s s' Hs Hd) in H3.
  destruct (drop_cons_inv _ _ _ _ H3) as (Hat & _). exists (length (replies hs)), r. split; [exact Hat|].
  cbn [replies after_reply]. by rewrite lookup_app_r, Nat.sub_diag by lia.
Qed.

(** A value in any sink came as the reply to its slot. *)
Lemma runs_values lims hs h p :
  limits_ok lims -> runs lims hs h p ->
  forall a s i v, h !! a = Some s -> sink_slots s !! i = Some (Val v) -> replied hs (a, i).
Proof.
  intros Hok. induction 1 as [|hs h p a s r dl p' Hr IH Ha Hwf Hsl|hs h p a s r dl p' Hr IH Ha Hwf Hsl
    |hs h p buf n p' Hr IH|hs h p now r h' p' Hr IH Hp Hm|hs h p now err h' p' Hr IH Hc|hs h p a s Hr IH Ha Hnv
    |hs h p a s s' Hr IH Hs Hwf Hwf' Hty Hsl]; intros b s1 i v Hb Hv.
  - by rewrite lookup_empty in Hb.
  - eapply (replied_extend hs _ _ _ []); [done|by rewrite app_nil_r|].
    eapply IH; [|exact Hv]. eapply slots_insert_value; [by apply no_slots_no_value|exact Hb|exact Hv].
  - eapply IH; [|exact Hv]. eapply slots_insert_value; [by apply no_slots_no_value|exact Hb|exact Hv].
  - by eapply IH.
  - destruct (runs_linked _ _ _ _ Hok Hr) as (pend & await & Hlk).
    destruct (replied_reply lims hs h p pend await now r h' p' Hlk Hp) as (a & s & s' & Hs & -> & Hd & Hrep); [by destruct r|].
    assert (forall x, replied hs x -> replied (after_reply r hs) x) as Hmono.
    { intros x. eapply (replied_extend hs _ _ []); [by rewrite app_nil_r|done]. }
    destruct (decide (b = a)) as [->|Hne]; [|rewrite lookup_insert_ne in Hb by done; eauto].
    rewrite lookup_insert_eq in Hb. injection Hb as <-. destruct Hd as (_ & _ & t & _ & Hsl). rewrite Hsl in Hv.
    apply lookup_app_Some in Hv as [Hv|[Hle [Hi _]%list_lookup_singleton_Some]]; [eauto|].
    replace i with (length (sink_slots s)) by lia. done.
  - eapply (replied_extend hs _ _ []); [by rewrite app_nil_r|done|].
    destruct (runs_linked _ _ _ _ Hok Hr) as (pend & await & Hlk).
    destruct (clear_all_inv now err _ _ _ _ (lk_inv _ _ _ _ _ _ Hlk)) as (h1 & p1 & Hc1 & _ & _ & Hf & Ho).
    rewrite Hc in Hc1. injection Hc1 as <- <-. destruct (decide (Some b ∈ ptrs pend await)) as [Hin|Hout].
    + destruct (Hf _ Hin) as (s0 & s' & Hs0 & Hs' & _ & _ & _ & Hsl). rewrite Hb in Hs'. injection Hs' as <-.
      rewrite Hsl in Hv. apply lookup_app_Some in Hv as [Hv|[_ [Hv _]%lookup_replicate]]; [by eapply IH|done].
    + rewrite Ho in Hb by done. by eapply IH.
  - eapply IH; [|exact Hv]. by eapply slots_insert_value.
  - destruct (decide (b = a)) as [->|Hne]; [|rewrite lookup_insert_ne in Hb by done; by eapply IH].
    rewrite lookup_insert_eq in Hb. injection Hb as <-. eapply IH; [exact Hs|]. by rewrite <- Hsl.
Qed.

End history.

(** ** Deadlines *)

Section deadlines.

Context {Q : Type -> Type} `{Fifo Q} {S : Type} `{ResponseSink S}.

Definition earliest (l : list Z) : Z := foldr Z.min time_max l.

Lemma earliest_sorted x l :
  StronglySorted Z.le (x :: l) -> Forall (fun d => d <= time_max) (x :: l) -> earliest (x :: l) = x.
Proof.
  revert x. induction l as [|y l IH]; intros x Hs Hm.
  - apply Forall_cons in Hm as [Hx _]. cbn. lia.
  - inversion Hs as [|? ? Hs' Hall]; subst. apply Forall_cons in Hall as [Hxy _].
    apply Forall_cons in Hm as [_ Hm]. change (earliest (x :: y :: l)) with (Z.min x (earliest (y :: l))).
    rewrite (IH y Hs' Hm). lia.
Qed.

Lemma StronglySorted_app_r (l k : list Z) : StronglySorted Z.le (l ++ k) -> StronglySorted Z.le k.
Proof. induction l as [|x l IH]; [done|]. intros Hs. inversion Hs; auto. Qed.

Lemma next_deadline_eq (h : gmap nat S) (p : pipeline (Q:=Q)) pend await :
  inv h p pend await ->
  next_deadline p = Ret (Z.min (default time_max (pi_deadline <$> head pend))
                           (default time_max (ai_deadline <$> head await))).
Proof.
  intros Hi. pose proof (inv_pend _ _ _ _ Hi) as Hp. pose proof (inv_await _ _ _ _ Hi) as Ha.
  unfold next_deadline.
  destruct pend as [|it pend];
    [rewrite (proj2 (q_empty_elems _ _ Hp)) by done|rewrite (front_empty _ _ _ Hp), (q_front_elems _ _ _ Hp)];
  (destruct await as [|ai await];
    [rewrite (proj2 (q_empty_elems _ _ Ha)) by done|rewrite (front_empty _ _ _ Ha), (q_front_elems _ _ _ Ha)]);
  done.
Qed.

Lemma next_deadline_sorted (h : gmap nat S) (p : pipeline (Q:=Q)) pend await :
  inv h p pend await -> StronglySorted Z.le (deadlines pend await) ->
  Forall (fun d => d <= time_max) (deadlines pend await) ->
  next_deadline p = Ret (earliest (deadlines pend await)).
Proof.
  intros Hi Hs Hm. rewrite (next_deadline_eq _ _ _ _ Hi). f_equal.
  destruct await as [|ai await], pend as [|it pend]; unfold deadlines in *; cbn [fmap list_fmap app] in *.
  - done.
  - rewrite earliest_sorted by done. apply Forall_cons in Hm as [Hx _]. cbn. lia.
  - rewrite earliest_sorted by done. apply Forall_cons in Hm as [Hx _]. cbn. lia.
  - rewrite earliest_sorted by done. inversion Hs as [|? ? _ Hall]; subst. cbn.
    rewrite Forall_app, Forall_cons in Hall. lia.
Qed.

Lemma earliest_le l d : earliest l <= d <-> time_max <= d \/ exists x, x ∈ l /\ x <= d.
Proof.
  induction l as [|y l IH]; cbn [earliest foldr].
  - split; [auto|]. intros [Hd|(x & Hx%elem_of_nil & _)]; done.
  - rewrite Z.min_le_iff. unfold earliest in IH. rewrite IH. split.
    + intros [Hy|[Hd|(x & Hx & Hle)]]; [right; exists y; split; [by left|done]|by left|].
      right. exists x. split; [by right|done].
    + intros [Hd|(x & [->|Hx]%elem_of_cons & Hle)]; [by right; left|by left|right; right; eauto].
Qed.

End deadlines.

(** ** Theorems *)

Section theorems.

Context {Q : Type -> Type} `{Fifo Q} {S : Type} `{ResponseSink S}.

(** C1: replies reach requests in order.  In every history of a pipeline (any
    interleaving of pushes, partial writes, replies and clears, with any
    queue and any sinks that keep their contracts), the reply received [k]-th
    fills the [k]-th slot in the order the requests were accepted, read at
    the type of that slot. *)
Theorem pipeline_fifo lims hs (h : gmap nat S) (p : pipeline (Q:=Q)) :
  limits_ok lims -> runs lims hs h p ->
  (length (replies hs) <= length (reply_slots hs))%nat /\
  forall k r, replies hs !! k = Some r ->
    exists a i s t, reply_slots hs !! k = Some (a, i) /\ h !! a = Some s /\
      sink_types s !! i = Some t /\ sink_slots s !! i = Some (slot_of t r).
Proof.
  intros Hok Hr. destruct (runs_linked lims hs h p Hok Hr) as (pend & await & Hlk).
  split; [apply Hlk|]. intros k r Hk.
  destruct (Forall2_lookup_r _ _ _ _ _ (lk_holds _ _ _ _ _ _ Hlk) Hk) as ([a i] & Hx & s & t & Hs & Ht & Hsl).
  apply lookup_take_Some in Hx as [Hx _]. exists a, i, s, t. done.
Qed.

(** C14: bytes go out in order and are accounted for.  In every history the
    bytes written are a prefix of the wire bytes of the accepted requests in
    order, [pending_write_bytes] is exactly what is left of them, and neither
    it nor the number of pending requests exceeds its limit. *)
Theorem pipeline_bytes lims hs (h : gmap nat S) (p : pipeline (Q:=Q)) :
  limits_ok lims -> runs lims hs h p ->
  exists rest, accepted_bytes hs = written_bytes hs ++ rest /\
    pending_write_bytes_ p = zlen rest /\
    pending_write_bytes_ p <= max_pending_write_bytes lims /\
    pending_count p <= max_requests lims.
Proof.
  intros Hok Hr. destruct (runs_linked lims hs h p Hok Hr) as (pend & await & Hlk).
  pose proof (lk_inv _ _ _ _ _ _ Hlk) as Hi. exists (unsent pend).
  split; [symmetry; apply Hlk|]. split; [apply Hi|].
  rewrite (inv_bytes _ _ _ _ Hi), (pending_count_eq _ _ _ _ Hi), <- (lk_limits _ _ _ _ _ _ Hlk).
  split; [apply Hi|]. rewrite (lk_limits _ _ _ _ _ _ Hlk). apply Hlk.
Qed.

(** C13: the preconditions in the comments are enough when every accepted
    request has at least one command, that is when its sink expects at least
    one reply (see [sink_wf]; the comments do not ask for it).  In every such
    history: with a pending write the next buffer exists and any part of it can
    be reported as written; with a pending read a message or an error can be
    dispatched; [clear_all] and [next_deadline] always return; a request with a
    fresh sink is accepted exactly when it fits the limits.  No assertion fails
    and no loop runs forever. *)
Theorem pipeline_never_faults lims hs (h : gmap nat S) (p : pipeline (Q:=Q)) :
  limits_ok lims -> runs lims hs h p ->
  (has_pending_write p = true ->
     exists buf, next_write_buffer p = Ret buf /\
       forall n, 0 <= n <= zlen buf -> exists p', on_write_done n p = Ret p') /\
  (has_pending_read p = true -> forall now,
     (forall m, exists hp, on_message now m h p = Ret hp) /\
     (forall e, exists hp, on_error now e h p = Ret hp)) /\
  (forall now err, exists hp, clear_all now err h p = Ret hp) /\
  (exists d, next_deadline p = Ret d) /\
  (forall a s r dl, h !! a = None -> sink_wf s -> is_complete s = false ->
     reply_count r = Z.of_nat (length (sink_types s)) ->
     exists p', push r (Some a) dl (<[a := s]> h) p = Ret (p', has_room r p)).
Proof.
  intros Hok Hr. destruct (runs_linked lims hs h p Hok Hr) as (pend & await & Hlk).
  pose proof (lk_inv _ _ _ _ _ _ Hlk) as Hi. split; [|split; [|split; [|split]]].
  - intros Hp. destruct (has_pending_write_front _ _ _ _ Hi Hp) as (it & pend' & ->).
    exists (unsent_item it). split; [by eapply next_write_buffer_eq|]. intros n Hn.
    destruct (on_write_done_inv _ _ _ _ _ n Hi Hn) as (p' & Hw & _). by exists p'.
  - intros Hp now. destruct (has_pending_read_front _ _ _ _ Hi Hp) as (ai & await' & ->).
    split; intros x.
    + destruct (on_reply_inv now (reply_message x) _ _ _ _ _ Hi) as (? & ? & ? & ? & _ & _ & _ & _ & Hd & _). eauto.
    + destruct (on_reply_inv now (reply_error x) _ _ _ _ _ Hi) as (? & ? & ? & ? & _ & _ & _ & _ & Hd & _). eauto.
  - intros now err. destruct (clear_all_inv now err _ _ _ _ Hi) as (h' & p' & Hc & _). eauto.
  - rewrite (next_deadline_eq _ _ _ _ Hi). eauto.
  - intros a s r dl Ha Hwf Hc Hcnt.
    pose proof (fresh_ptr h a _ Ha (inv_ptrs _ _ _ _ Hi)) as Hfr.
    pose proof (lk_inv _ _ _ _ _ _ (linked_store _ _ _ _ _ _ a s Hlk Ha)) as Hi'.
    destruct (push_inv _ _ _ _ r a s dl Hi' (lookup_insert_eq _ _ _) Hwf Hc Hfr Hcnt) as (p' & Hp & _).
    eauto.
Qed.

(** C12: [clear_all] leaves nothing pending and nobody waiting.  In every
    history whose accepted requests have at least one command (their sinks
    expect at least one reply), it returns with empty queues, no byte owed, and
    every slot of every request ever accepted holding a reply, the ones that
    were missing the error given; replies delivered earlier are not
    overwritten.  (The sink of a dynamic request without commands makes it
    assert, see [fail_all_completes].) *)
Theorem clear_all_completes lims hs (h : gmap nat S) (p : pipeline (Q:=Q)) now err :
  limits_ok lims -> runs lims hs h p ->
  exists h' p', clear_all now err h p = Ret (h', p') /\
    has_pending_write p' = false /\ has_pending_read p' = false /\ pending_write_bytes_ p' = 0 /\
    Forall2 (holds h') (reply_slots hs)
      (replies hs ++ replicate (length (reply_slots hs) - length (replies hs)) (reply_error err)).
Proof.
  intros Hok Hr. destruct (runs_linked lims hs h p Hok Hr) as (pend & await & Hlk).
  destruct (clear_all_inv now err _ _ _ _ (lk_inv _ _ _ _ _ _ Hlk)) as (h' & p' & Hc & _ & Hi & _).
  exists h', p'. pose proof (linked_clear _ _ _ _ _ _ now err h' p' Hok Hlk Hc) as Hlk'.
  split; [done|]. unfold has_pending_write, has_pending_read.
  rewrite (proj2 (q_empty_elems _ _ (inv_pend _ _ _ _ Hi))), (proj2 (q_empty_elems _ _ (inv_await _ _ _ _ Hi))) by done.
  split; [done|]. split; [done|]. split; [apply Hi|].
  pose proof (lk_holds _ _ _ _ _ _ Hlk') as Hh. pose proof (lk_len _ _ _ _ _ _ Hlk) as Hlen.
  cbn [after_clear reply_slots replies] in Hh. rewrite take_ge in Hh; [done|].
  rewrite length_app, length_replicate. lia.
Qed.


End theorems.

(** ** A history with the ring queue and pending responses *)

Abbreviation dyn_sink := (pending dynamic_response_builder).
Abbreviation ring_pipeline := (pipeline (Q := @ring_queue)).

Definition small_limits : pipeline_limits := mk_pipeline_limits 2 100.

Definition ping2 : request := mk_request (s2b "PINGPING") 2.
Definition get1 : request := mk_request (s2b "GET") 1.

Definition fresh_sink (n : nat) : dyn_sink := pending_new (dynamic_response_builder_new TString n).

Definition pong : reply := reply_message (mk_message (resp3.simple_string (s2b "PONG")) None).

Lemma fresh_sink_ok n : (0 < n)%nat ->
  sink_wf (fresh_sink n) /\ sink_slots (fresh_sink n) = [] /\ is_complete (fresh_sink n) = false.
Proof.
  intros Hn. split; [|done]. apply pending_new_wf; [simpl; lia|done|]. destruct n; [lia|done].
Qed.

(** Two requests, the first written in two parts, one of its two replies
    received; a third request does not fit. *)
Definition sample_history : history :=
  mk_history (s2b "PINGPINGGET") (s2b "PINGPING") [(0, 0); (0, 1); (1, 0)]%nat [pong] [10; 20].

Definition sample_state : run (gmap nat dyn_sink * ring_pipeline) :=
  let h := <[1%nat := fresh_sink 1]> (<[0%nat := fresh_sink 2]> ∅) in
  p1 ← push ping2 (Some 0%nat) 10 (<[0%nat := fresh_sink 2]> ∅) (pipeline_new small_limits);
  p2 ← push get1 (Some 1%nat) 20 h p1.1;
  p3 ← on_write_done 3 p2.1;
  p4 ← on_write_done 5 p3;
  on_reply (deliver_reply 7 pong) h p4.

Lemma sample_runs :
  exists (h : gmap nat dyn_sink) (p : ring_pipeline),
    sample_state = Ret (h, p) /\ runs small_limits sample_history h p /\ limits_ok small_limits /\
    h !! 2%nat = None.
Proof.
  destruct (fresh_sink_ok 1) as (Hw1 & Hs1 & Hc1); [lia|]. destruct (fresh_sink_ok 2) as (Hw2 & Hs2 & Hc2); [lia|].
  eexists _, _. split; [vm_compute; reflexivity|]. split; [|split; [vm_compute; split; [|split]; congruence|reflexivity]].
  change sample_history with
    (after_reply pong (after_write (take 5 (s2b "GPING")) (after_write (take 3 (s2b "PINGPING"))
       (after_push 1 get1 (length (sink_types (fresh_sink 1))) 20
         (after_push 0 ping2 (length (sink_types (fresh_sink 2))) 10 history_new))))).
  eapply (runs_reply _ _ (<[1%nat := fresh_sink 1]> (<[0%nat := fresh_sink 2]> ∅)) _ 7 pong).
  - eapply (runs_write _ _ _ _ (s2b "GPING") 5).
    + eapply (runs_write _ _ _ _ (s2b "PINGPING") 3).
      * eapply (runs_push _ _ (<[0%nat := fresh_sink 2]> ∅) _ 1 (fresh_sink 1) get1 20);
          [eapply (runs_push _ _ ∅ _ 0 (fresh_sink 2) ping2 10); [constructor|done..|vm_compute; reflexivity]
          |done..|vm_compute; reflexivity].
      * vm_compute. reflexivity.
      * vm_compute. reflexivity.
      * vm_compute. split; congruence.
      * vm_compute. reflexivity.
    + vm_compute. reflexivity.
    + vm_compute. reflexivity.
    + vm_compute. split; congruence.
    + vm_compute. reflexivity.
  - vm_compute. reflexivity.
  - vm_compute. reflexivity.
Qed.

Lemma pipeline_fifo_witness :
  exists (h : gmap nat dyn_sink) (p : ring_pipeline) s,
    sample_state = Ret (h, p) /\ h !! 0%nat = Some s /\
    sink_slots s !! 0%nat = Some (Val (VString (s2b "PONG"))).
Proof.
  destruct sample_runs as (h & p & Hst & Hr & Hok & _).
  destruct (pipeline_fifo small_limits sample_history h p Hok Hr) as [_ Hk].
  destruct (Hk 0%nat pong eq_refl) as (a & i & s & t & Hx & Hs & Ht & Hsl).
  injection Hx as <- <-. exists h, p, s. split; [exact Hst|]. split; [exact Hs|].
  vm_compute in Hst. injection Hst as <- _. vm_compute in Hs. injection Hs as <-.
  vm_compute in Ht. injection Ht as <-. exact Hsl.
Defined.

Lemma pipeline_bytes_witness :
  exists (h : gmap nat dyn_sink) (p : ring_pipeline) rest,
    sample_state = Ret (h, p) /\ s2b "PINGPINGGET" = s2b "PINGPING" ++ rest /\
    pending_write_bytes_ p = zlen rest.
Proof.
  destruct sample_runs as (h & p & Hst & Hr & Hok & _).
  destruct (pipeline_bytes small_limits sample_history h p Hok Hr) as (rest & Hb & Hz & _).
  exists h, p, rest. split; [exact Hst|]. split; [exact Hb|exact Hz].
Defined.

Lemma pipeline_never_faults_witness :
  exists (h : gmap nat dyn_sink) (p : ring_pipeline) p',
    sample_state = Ret (h, p) /\
    push get1 (Some 2%nat) 30 (<[2%nat := fresh_sink 1]> h) p = Ret (p', false).
Proof.
  destruct sample_runs as (h & p & Hst & Hr & Hok & Hf).
  destruct (pipeline_never_faults small_limits sample_history h p Hok Hr) as (_ & _ & _ & _ & Hp).
  destruct (fresh_sink_ok 1) as (Hw & _ & Hc); [lia|].
  destruct (Hp 2%nat (fresh_sink 1) get1 30 Hf Hw Hc eq_refl) as [p' Hp'].
  exists h, p, p'. split; [exact Hst|]. rewrite Hp'. vm_compute in Hst. injection Hst as _ <-. reflexivity.
Defined.

Lemma clear_all_completes_witness :
  exists (h h' : gmap nat dyn_sink) (p p' : ring_pipeline),
    sample_state = Ret (h, p) /\
    clear_all 9 (client_error client_errc.connection_lost) h p = Ret (h', p') /\
    has_pending_read p' = false.
Proof.
  destruct sample_runs as (h & p & Hst & Hr & Hok & _).
  destruct (clear_all_completes small_limits sample_history h p 9 (client_error client_errc.connection_lost) Hok Hr)
    as (h' & p' & Hc & _ & Hrd & _).
  exists h, h', p, p'. split; [exact Hst|]. split; [exact Hc|exact Hrd].
Defined.


(** The comment on [next_deadline] ("earliest deadline among all pending
    requests") holds only for nondecreasing deadlines: after a request without
    a deadline, one with deadline 5 is not seen, and has not expired at time
    100. *)
Theorem next_deadline_looks_at_fronts :
  exists p : ring_pipeline,
    (let h := <[1%nat := fresh_sink 1]> (<[0%nat := fresh_sink 1]> ∅) in
     p1 ← push_no_deadline get1 (Some 0%nat) h (pipeline_new default_pipeline_limits);
     p2 ← push get1 (Some 1%nat) 5 h p1.1; Ret p2.1) = Ret p /\
    next_deadline p = Ret time_max /\ has_expired 100 p = Ret false.
Proof. eexists. split; [vm_compute; reflexivity|]. split; vm_compute; reflexivity. Qed.
