(* ===== verification/Config.v ===== *)
(** * Configuration and the reconnection policy ([config.hpp],
    [sanitize_reconnection_policy] of [impl/connection/core.ipp],
    [calculate_reconnect_delay] of [impl/connection/reconnect.ipp]) *)

From S2P Require Import Prelude Charconv Parser ResponseSink Pipeline.
From Stdlib Require Import SpecFloat.

(** [struct reconnection_policy]; delays in milliseconds. *)
Record reconnection_policy : Set := mk_policy {
  enabled : bool;
  immediate_attempts : Z;
  initial_delay : Z;
  max_delay : Z;
  backoff_factor : double;
  jitter_ratio : double;
}.

(** The double nearest to an integer, and some constants. *)
Definition double_of_Z (z : Z) : double := binary_normalize prec emax z 0 false.

Definition d_zero : double := S754_zero false.
Definition d_one : double := double_of_Z 1.
Definition d_two : double := double_of_Z 2.

(** [struct config]: [client_limits] is the limits of the parser and of the
    pipeline; timeouts are in milliseconds; of the hooks, which are set. *)
Record config : Set := mk_config {
  host : bytes;
  port : Z;
  username : bytes;
  password : bytes;
  database : Z;
  client_name : bytes;
  resolve_timeout : option Z;
  connect_timeout : option Z;
  request_timeout : option Z;
  no_delay : bool;
  keep_alive : bool;
  resp_limits : limits;
  queue_limits : pipeline_limits;
  reconnection : reconnection_policy;
  trace_hooks : request_trace_hooks;
  connection_hooks : bool;
}.

(** The default values: 0.2 is the nearest double. *)
Definition default_policy : reconnection_policy :=
  mk_policy true 5 100 30000 d_two (S754_finite false 7205759403792794 (-55)).

Definition default_config : config :=
  mk_config (s2b "localhost") 6379 [] [] 0 [] (Some 5000) (Some 5000) (Some 5000) true true
    default_limits default_pipeline_limits default_policy no_trace_hooks false.

(** [std::isfinite]. *)
Definition isfinite (d : double) : bool :=
  match d with S754_zero _ | S754_finite _ _ _ => true | _ => false end.

(** [sanitize_reconnection_policy(policy)]. *)
Definition sanitize_reconnection_policy (p : reconnection_policy) : reconnection_policy :=
  let immediate := if immediate_attempts p <? 0 then 0 else immediate_attempts p in
  let initial := if initial_delay p <? 0 then 0 else initial_delay p in
  let max0 := if max_delay p <? 0 then 0 else max_delay p in
  let max1 := if max0 <? initial then initial else max0 in
  let factor :=
    if negb (isfinite (backoff_factor p)) || SFleb (backoff_factor p) d_one then d_two
    else backoff_factor p in
  let jitter :=
    if negb (isfinite (jitter_ratio p)) || SFltb (jitter_ratio p) d_zero then d_zero
    else if SFltb d_one (jitter_ratio p) then d_one
    else jitter_ratio p in
  mk_policy (enabled p) immediate initial max1 factor jitter.

(** What the rest of the code relies on. *)
Definition policy_ok (p : reconnection_policy) : Prop :=
  0 <= immediate_attempts p /\ 0 <= initial_delay p <= max_delay p /\
  isfinite (backoff_factor p) = true /\ SFltb d_one (backoff_factor p) = true /\
  isfinite (jitter_ratio p) = true /\
  SFleb d_zero (jitter_ratio p) = true /\ SFleb (jitter_ratio p) d_one = true.

(** ** The delay before an attempt *)

(** [std::clamp(v, lo, hi)]. *)
Definition clamp (v lo hi : double) : double :=
  if SFltb v lo then lo else if SFltb hi v then hi else v.

(** [std::llround(d)]: half away from zero; [unspecified] is the result of a
    domain error. *)
Definition llround (unspecified : double -> Z) (d : double) : Z :=
  match d with
  | S754_zero _ => 0
  | S754_finite s m e =>
    let v := if 0 <=? e then Zpos m * 2 ^ e else (Zpos m + 2 ^ (- e - 1)) / 2 ^ (- e) in
    let r := if s then - v else v in
    if in_i64 r then r else unspecified d
  | _ => unspecified d
  end.

(** One turn of the generator: the 64-bit xorshift of [jitter_state]. *)
Definition jitter_next (reconnect_count generation jitter_state : Z) : Z :=
  let s1 := Z.lxor jitter_state (u64 (Z.shiftl (u64 reconnect_count) 1)) in
  let s2 := Z.lxor s1 (u64 (Z.shiftl generation 17)) in
  let s3 := Z.lxor s2 (Z.shiftr s2 12) in
  let s4 := Z.lxor s3 (u64 (Z.shiftl s3 25)) in
  Z.lxor s4 (Z.shiftr s4 27).

(** [0x4d595df4d0f33173ULL]. *)
Definition jitter_seed : Z := 5573589319906701683.

Definition jitter_unit (jitter_state : Z) : double :=
  SFmul prec emax (double_of_Z (Z.shiftr (u64 (jitter_state * 2685821657736338717)) 11))
    (S754_finite false 4503599627370496 (-105)).

(** [calculate_reconnect_delay()]: the delay and the next jitter state.
    [pow] is [std::pow]. *)
Definition calculate_reconnect_delay (pow : double -> double -> double) (unspecified : double -> Z)
    (p : reconnection_policy) (reconnect_count generation jitter_state : Z) : Z * Z :=
  if reconnect_count <? immediate_attempts p then (0, jitter_state)
  else
    let backoff_index := reconnect_count - immediate_attempts p in
    let min_delay_ms := double_of_Z (initial_delay p) in
    let max_delay_ms := double_of_Z (max_delay p) in
    let factor := pow (backoff_factor p) (double_of_Z backoff_index) in
    let delay_ms := SFmul prec emax min_delay_ms factor in
    let bounded := clamp delay_ms min_delay_ms max_delay_ms in
    let '(bounded1, state1) :=
      if SFltb d_zero bounded && SFltb d_zero (jitter_ratio p) then
        let state1 := jitter_next reconnect_count generation jitter_state in
        let scale :=
          SFadd prec emax (SFsub prec emax d_one (jitter_ratio p))
            (SFmul prec emax (SFmul prec emax d_two (jitter_ratio p)) (jitter_unit state1)) in
        (clamp (SFmul prec emax bounded scale) min_delay_ms max_delay_ms, state1)
      else (bounded, jitter_state) in
    let out := llround unspecified bounded1 in
    (if out <=? 0 then 0 else out, state1).

(** [std::pow] on these arguments, for evaluation: repeated multiplication,
    exact for powers of two. *)
Definition pow_by_mult (b : double) (n : nat) : double := Nat.iter n (SFmul prec emax b) d_one.

Definition sample_pow (b x : double) : double :=
  pow_by_mult b (Z.to_nat (llround (fun _ => 0) x)).

Definition no_jitter (p : reconnection_policy) : reconnection_policy :=
  mk_policy (enabled p) (immediate_attempts p) (initial_delay p) (max_delay p) (backoff_factor p) d_zero.

Example backoff_sequence :
  map (fun n => (calculate_reconnect_delay sample_pow (fun _ => 0) (no_jitter default_policy) n 1 jitter_seed).1)
    [0; 4; 5; 6; 7; 13; 14; 60] = [0; 0; 100; 200; 400; 25600; 30000; 30000].
Proof. vm_compute. reflexivity. Qed.

Example jittered_sequence :
  map (fun n => (calculate_reconnect_delay sample_pow (fun _ => 0) default_policy n 1 jitter_seed).1)
    [4; 5; 6; 7; 14] = [0; 118; 199; 467; 28878].
Proof. vm_compute. reflexivity. Qed.

(** ** Comparing doubles *)

Lemma SFcompare_swap x y : SFcompare y x = CompOpp <$> SFcompare x y.
Proof.
  destruct x as [|[]| |[] m1 e1], y as [|[]| |[] m2 e2]; try done; cbn [SFcompare fmap option_fmap option_map];
    f_equal; rewrite (Z.compare_antisym e1 e2); destruct (e1 ?= e2); try done; cbn [CompOpp];
    change (Pos.compare_cont Eq) with Pos.compare; by rewrite (Pos.compare_antisym m1 m2), ?CompOpp_involutive.
Qed.

Lemma SFcompare_not_nan x y : x <> S754_nan -> y <> S754_nan -> is_Some (SFcompare x y).
Proof. destruct x as [|[]| |[] m1 e1], y as [|[]| |[] m2 e2]; try done; intros; eexists; done. Qed.

(** Without NaN, [<] and [<=] are total. *)
Lemma SFltb_leb x y : x <> S754_nan -> y <> S754_nan -> SFltb x y = negb (SFleb y x).
Proof.
  intros Hx Hy. destruct (SFcompare_not_nan x y Hx Hy) as [c Hc].
  unfold SFltb, SFleb. rewrite (SFcompare_swap x y), Hc. by destruct c.
Qed.

Lemma SFltb_SFleb x y : SFltb x y = true -> SFleb x y = true.
Proof. unfold SFltb, SFleb. by destruct (SFcompare x y) as [[]|]. Qed.

Lemma isfinite_not_nan x : isfinite x = true -> x <> S754_nan.
Proof. by intros H ->. Qed.

Lemma sanitize_factor f :
  let f' := if negb (isfinite f) || SFleb f d_one then d_two else f in
  isfinite f' = true /\ SFltb d_one f' = true.
Proof.
  destruct (isfinite f) eqn:Ef; cbn [negb orb]; [|done]. destruct (SFleb f d_one) eqn:El; [done|].
  split; [done|]. apply isfinite_not_nan in Ef. by rewrite SFltb_leb, El.
Qed.

Lemma sanitize_jitter j :
  let j' := if negb (isfinite j) || SFltb j d_zero then d_zero else if SFltb d_one j then d_one else j in
  isfinite j' = true /\ SFleb d_zero j' = true /\ SFleb j' d_one = true.
Proof.
  destruct (isfinite j) eqn:Ej; cbn [negb orb]; [|done].
  destruct (SFltb j d_zero) eqn:E0; [done|]. destruct (SFltb d_one j) eqn:E1; [done|].
  apply isfinite_not_nan in Ej as Hn. rewrite SFltb_leb in E0, E1 by done. by bool_prop.
Qed.

Lemma sanitize_ok p : policy_ok (sanitize_reconnection_policy p).
Proof.
  unfold policy_ok, sanitize_reconnection_policy.
  cbn [immediate_attempts initial_delay max_delay backoff_factor jitter_ratio].
  split; [destruct (_ <? 0) eqn:E; bool_prop; lia|]. split.
  { destruct (initial_delay p <? 0) eqn:E1, (max_delay p <? 0) eqn:E2; bool_prop;
      (destruct (_ <? _) eqn:E3; bool_prop; lia). }
  destruct (sanitize_factor (backoff_factor p)), (sanitize_jitter (jitter_ratio p)) as (? & ? & ?). done.
Qed.

Lemma sanitize_id p : policy_ok p -> sanitize_reconnection_policy p = p.
Proof.
  intros (Hi & Hd & Hf & Hf1 & Hj & Hj0 & Hj1). apply isfinite_not_nan in Hf as Hfn, Hj as Hjn.
  assert (SFltb (jitter_ratio p) d_zero = false) as E0 by (by rewrite SFltb_leb, Hj0).
  assert (SFltb d_one (jitter_ratio p) = false) as E1 by (by rewrite SFltb_leb, Hj1).
  rewrite SFltb_leb in Hf1 by done. apply negb_true_iff in Hf1.
  unfold sanitize_reconnection_policy. rewrite Hf, Hj, Hf1, E0, E1. cbn [negb orb].
  rewrite !(proj2 (Z.ltb_ge _ _)) by (rewrite ?(proj2 (Z.ltb_ge _ _)) by lia; lia). by destruct p.
Qed.

(** ** Theorems *)

(** C40: whatever policy the user gives (negative delays, a maximum below the
    initial delay, infinite, NaN or out-of-range factors), the sanitized one
    is usable: attempts and delays are nonnegative and ordered, the factor is
    finite and above 1, the jitter lies in [0, 1].  A usable policy is not
    changed. *)
Theorem sanitize_policy p :
  policy_ok (sanitize_reconnection_policy p) /\
  (policy_ok p -> sanitize_reconnection_policy p = p) /\
  enabled (sanitize_reconnection_policy p) = enabled p.
Proof. split; [apply sanitize_ok|]. split; [apply sanitize_id|done]. Qed.
