(* ===== verification/Backoff.v ===== *)
(** * Bounds of the reconnection delay

    The delay is computed in binary64 arithmetic and rounded to milliseconds.
    The operations of [SpecFloat] used by it are shown to return valid numbers
    (canonical mantissas), on which comparison is comparison of the values; so
    the clamped delay lies between the two bounds of the policy, whatever
    [std::pow] and the jitter give. *)

From S2P Require Import Prelude Charconv Parser ResponseSink Pipeline Config.
From Stdlib Require Import SpecFloat.

(** Exponent of a number with [d] digits before the point. *)
Abbreviation exp_of := (fexp prec emax).

Lemma exp_of_eq x : exp_of x = Z.max (x - 53) (-1074).
Proof. reflexivity. Qed.

(** ** Digits and shifts *)

Lemma digits2_log2 p : Zpos (digits2_pos p) = Z.log2 (Zpos p) + 1.
Proof.
  induction p as [p IH|p IH|]; cbn [digits2_pos]; [| |done]; rewrite Pos2Z.inj_succ, IH.
  - change (Zpos p~1) with (2 * Zpos p + 1). rewrite Z.log2_succ_double by lia. lia.
  - change (Zpos p~0) with (2 * Zpos p). rewrite Z.log2_double by lia. lia.
Qed.

(** [m] has [d] digits when it lies between the two powers of two. *)
Lemma Zdigits2_bounds m : 0 < m -> 0 < Zdigits2 m /\ 2 ^ (Zdigits2 m - 1) <= m < 2 ^ Zdigits2 m.
Proof.
  destruct m as [|p|]; try lia. intros _. cbn [Zdigits2]. rewrite digits2_log2.
  destruct (Z.log2_spec (Zpos p)) as [H1 H2]; [lia|]. pose proof (Z.log2_nonneg (Zpos p)).
  rewrite Z.add_simpl_r. unfold Z.succ in H2. lia.
Qed.

Lemma Zdigits2_eq m d : 0 < d -> 2 ^ (d - 1) <= m < 2 ^ d -> Zdigits2 m = d.
Proof.
  intros Hd [H1 H2]. assert (0 < 2 ^ (d - 1)) by (apply Z.pow_pos_nonneg; lia).
  destruct (Zdigits2_bounds m) as (Hp & H3 & H4); [lia|].
  assert (d - 1 < Zdigits2 m) by (apply (Z.pow_lt_mono_r_iff 2); lia).
  assert (Zdigits2 m - 1 < d) by (apply (Z.pow_lt_mono_r_iff 2); lia). lia.
Qed.

Lemma Zdigits2_le m d : 0 < m -> 0 <= d -> m < 2 ^ d -> Zdigits2 m <= d.
Proof.
  intros Hm Hd H. destruct (Zdigits2_bounds m Hm) as (Hp & H1 & _).
  assert (Zdigits2 m - 1 < d) by (apply (Z.pow_lt_mono_r_iff 2); lia). lia.
Qed.

Lemma Zdigits2_ge m d : 0 < d -> 2 ^ (d - 1) <= m -> d <= Zdigits2 m.
Proof.
  intros Hd H. assert (0 < 2 ^ (d - 1)) by (apply Z.pow_pos_nonneg; lia).
  destruct (Zdigits2_bounds m) as (Hp & _ & H1); [lia|].
  assert (d - 1 < Zdigits2 m) by (apply (Z.pow_lt_mono_r_iff 2); lia). lia.
Qed.

Lemma shr_1_m mrs : 0 <= shr_m mrs -> shr_m (shr_1 mrs) = shr_m mrs / 2 ^ 1.
Proof.
  destruct mrs as [m r s]. cbn [shr_m]. intros Hm. rewrite Z.pow_1_r, <- Z.div2_div. by destruct m as [|[]|].
Qed.

Lemma iter_shr_m n : forall mrs, 0 <= shr_m mrs -> shr_m (iter_pos shr_1 n mrs) = shr_m mrs / 2 ^ Zpos n.
Proof.
  assert (forall a k j, 0 <= a -> 0 <= k -> 0 <= j -> a / 2 ^ k / 2 ^ j = a / 2 ^ (k + j)) as Hdiv.
  { intros. rewrite Z.div_div by (try apply Z.pow_nonzero; lia). by rewrite Z.pow_add_r. }
  assert (forall a k, 0 <= a -> 0 <= k -> 0 <= a / 2 ^ k) as Hpos by (intros; apply Z.div_pos; lia).
  induction n as [n IH|n IH|]; intros mrs Hm; cbn [iter_pos].
  - pose proof (shr_1_m mrs Hm) as H1.
    assert (0 <= shr_m (shr_1 mrs)) by (rewrite H1; apply Hpos; lia).
    rewrite IH by (rewrite IH by done; apply Hpos; lia). rewrite IH, H1 by done.
    rewrite !Hdiv by (try apply Hpos; lia). f_equal. f_equal. lia.
  - rewrite IH by (rewrite IH by done; apply Hpos; lia). rewrite IH, Hdiv by (done || lia). f_equal. f_equal. lia.
  - by apply shr_1_m.
Qed.

(** [shr_fexp] drops the digits the format has no room for. *)
Lemma shr_fexp_m m e l :
  0 <= m -> e <= exp_of (Zdigits2 m + e) ->
  shr_m (shr_fexp prec emax m e l).1 = m / 2 ^ (exp_of (Zdigits2 m + e) - e) /\
  (shr_fexp prec emax m e l).2 = exp_of (Zdigits2 m + e).
Proof.
  intros Hm He. unfold shr_fexp. remember (exp_of (Zdigits2 m + e) - e) as n eqn:En.
  assert (shr_m (shr_record_of_loc m l) = m) as Hl by (by destruct l as [|[]]).
  destruct n as [|k|k]; cbn [shr fst snd]; [| |lia].
  - rewrite Hl, Z.pow_0_r, Z.div_1_r. split; [done|lia].
  - rewrite iter_shr_m by (by rewrite Hl). rewrite Hl. split; [done|lia].
Qed.

Lemma round_even_step m l : round_nearest_even m l = m \/ round_nearest_even m l = m + 1.
Proof. destruct l as [|[]]; cbn; auto. destruct (Z.even m); auto. Qed.

(** ** Rounding *)

(** Mantissa and exponent of a normal or subnormal number. *)
Definition canonical (m e : Z) : Prop := 0 < m < 2 ^ 53 /\ -1074 <= e /\ (2 ^ 52 <= m \/ e = -1074).

(** The first shift: at most 53 digits stay, and 53 of them unless the
    number is subnormal. *)
Lemma shifted_bounds m e :
  0 < m -> e <= exp_of (Zdigits2 m + e) ->
  0 <= m / 2 ^ (exp_of (Zdigits2 m + e) - e) < 2 ^ 53 /\
  (2 ^ 52 <= m / 2 ^ (exp_of (Zdigits2 m + e) - e) \/ exp_of (Zdigits2 m + e) = -1074).
Proof.
  intros Hm He. destruct (Zdigits2_bounds m Hm) as (Hd & H1 & H2). set (d := Zdigits2 m) in *.
  rewrite exp_of_eq in *. set (k := Z.max (d + e - 53) (-1074) - e) in *.
  assert (0 <= k) as Hk by lia. assert (0 < 2 ^ k) by (apply Z.pow_pos_nonneg; lia).
  split; [split; [apply Z.div_pos; lia|]|].
  - apply Z.div_lt_upper_bound; [done|]. rewrite <- Z.pow_add_r by lia.
    apply Z.lt_le_trans with (2 ^ d); [done|]. apply Z.pow_le_mono_r; lia.
  - destruct (decide (-1074 <= d + e - 53)); [left|right; lia].
    apply Z.div_le_lower_bound; [done|]. rewrite <- Z.pow_add_r by lia.
    replace (k + 52) with (d - 1) by lia. done.
Qed.

(** A number that rounding carried to [2^53] is halved by the second shift. *)
Lemma second_shift m e :
  0 < m <= 2 ^ 53 -> -1074 <= e -> 2 ^ 52 <= m \/ e = -1074 ->
  e <= exp_of (Zdigits2 m + e) <= e + 1 /\
  canonical (m / 2 ^ (exp_of (Zdigits2 m + e) - e)) (exp_of (Zdigits2 m + e)).
Proof.
  intros Hm He Hc. rewrite exp_of_eq. destruct (decide (m = 2 ^ 53)) as [->|].
  { rewrite (Zdigits2_eq _ 54) by lia. replace (Z.max _ _) with (e + 1) by lia.
    replace (e + 1 - e) with 1 by lia. split; [lia|]. unfold canonical.
    change (2 ^ 53 / 2 ^ 1) with (2 ^ 52). lia. }
  assert (Zdigits2 m <= 53) by (apply Zdigits2_le; lia).
  assert (Z.max (Zdigits2 m + e - 53) (-1074) = e) as ->.
  { destruct Hc as [Hc| ->]; [|lia]. assert (53 <= Zdigits2 m) by (apply Zdigits2_ge; lia). lia. }
  rewrite Z.sub_diag, Z.pow_0_r, Z.div_1_r. split; [lia|]. unfold canonical. lia.
Qed.

(** A rounded number keeps its sign, is canonical when it is finite, and is
    finite below [2^1000]. *)
Definition rounded_ok (s : bool) (size : Z) (d : double) : Prop :=
  match d with
  | S754_zero s' => s' = s
  | S754_finite s' m e => s' = s /\ canonical (Zpos m) e
  | S754_infinity s' => s' = s /\ 1000 < size
  | S754_nan => False
  end.

Lemma round_aux_ok s m e l :
  0 < m -> e <= exp_of (Zdigits2 m + e) ->
  rounded_ok s (Zdigits2 m + e) (binary_round_aux prec emax s m e l).
Proof.
  intros Hm He. destruct (shr_fexp_m m e l) as [H1 H2]; [lia|done|].
  destruct (shifted_bounds m e Hm He) as [Hb Hc]. unfold binary_round_aux.
  destruct (shr_fexp prec emax m e l) as [mrs e1] eqn:E1. cbn [fst snd] in H1, H2. rewrite <- H1, <- H2 in *.
  assert (-1074 <= e1) as He1 by (rewrite H2, exp_of_eq; lia).
  set (m2 := round_nearest_even _ _). assert (m2 = shr_m mrs \/ m2 = shr_m mrs + 1) as Hm2 by apply round_even_step.
  destruct (decide (m2 = 0)) as [E0|].
  { rewrite E0. unfold shr_fexp. cbn [Zdigits2 shr_record_of_loc].
    destruct (exp_of (0 + e1) - e1) as [|n|]; cbn [shr]; rewrite ?iter_shr_m by done; cbn [shr_m]; rewrite ?Zdiv_0_l; exact eq_refl. }
  destruct (second_shift m2 e1) as [Hs Hcan]; [lia|done|lia|].
  destruct (shr_fexp_m m2 e1 loc_Exact) as [H3 H4]; [lia|lia|].
  destruct (shr_fexp prec emax m2 e1 loc_Exact) as [mrs' e2]. cbn [fst snd] in H3, H4.
  rewrite <- H3, <- H4 in Hcan. unfold canonical in Hcan.
  destruct (shr_m mrs') as [|m3|m3] eqn:E3; [lia| |lia]. case_match eqn:E4; cbn [rounded_ok].
  - split; [done|]. unfold canonical. lia.
  - apply Z.leb_gt in E4. split; [done|]. change (emax - prec) with 971 in E4.
    rewrite exp_of_eq in H2. lia.
Qed.

Lemma iter_double d m : Zpos (Pos.iter xO m d) = Zpos m * 2 ^ Zpos d.
Proof.
  induction d as [|d IH] using Pos.peano_ind; [cbn [Pos.iter]; lia|].
  rewrite Pos.iter_succ, Pos2Z.inj_succ, Z.pow_succ_r by lia.
  change (Zpos (Pos.iter xO m d)~0) with (2 * Zpos (Pos.iter xO m d)). rewrite IH. lia.
Qed.

Lemma digits_shifted m k : 0 < m -> 0 <= k -> Zdigits2 (m * 2 ^ k) = Zdigits2 m + k.
Proof.
  intros Hm Hk. destruct (Zdigits2_bounds m Hm) as (Hd & H1 & H2).
  assert (0 < 2 ^ k) by (apply Z.pow_pos_nonneg; lia). apply Zdigits2_eq; [lia|].
  replace (Zdigits2 m + k - 1) with (Zdigits2 m - 1 + k) by lia. rewrite !Z.pow_add_r by lia. nia.
Qed.

(** Shifting to the left first, no digit is missing. *)
Lemma round_ok s m e : rounded_ok s (Zdigits2 (Zpos m) + e) (binary_round prec emax s m e).
Proof.
  unfold binary_round, shl_align. change (Zpos (digits2_pos m)) with (Zdigits2 (Zpos m)).
  destruct (exp_of _ - e) as [|d|d] eqn:E; try (apply round_aux_ok; lia).
  assert (Zdigits2 (Zpos (Pos.iter xO m d)) + exp_of (Zdigits2 (Zpos m) + e) = Zdigits2 (Zpos m) + e) as Hd.
  { rewrite iter_double, digits_shifted by lia. lia. }
  rewrite <- Hd at 1. apply round_aux_ok; [lia|]. by rewrite Hd.
Qed.

(** An integer of at most 53 bits is a double. *)
Lemma double_of_Z_exact z :
  0 < z < 2 ^ 53 ->
  exists m e, double_of_Z z = S754_finite false m e /\ canonical (Zpos m) e /\ 2 ^ 52 <= Zpos m /\ e <= 0 /\
    Zpos m * 2 ^ (e + 1074) = z * 2 ^ 1074.
Proof.
  intros Hz. destruct z as [|p|]; try lia. destruct (Zdigits2_bounds (Zpos p)) as (Hd & H1 & H2); [lia|].
  assert (Zdigits2 (Zpos p) <= 53) as Hd' by (apply Zdigits2_le; lia).
  set (d := Zdigits2 (Zpos p)) in *. set (q := Zpos p * 2 ^ (53 - d)).
  assert (2 ^ 52 <= q < 2 ^ 53) as Hq.
  { unfold q. replace (2 ^ 52) with (2 ^ (d - 1) * 2 ^ (53 - d)) by (rewrite <- Z.pow_add_r by lia; f_equal; lia).
    replace (2 ^ 53) with (2 ^ d * 2 ^ (53 - d)) by (rewrite <- Z.pow_add_r by lia; f_equal; lia).
    assert (0 < 2 ^ (53 - d)) by (apply Z.pow_pos_nonneg; lia). nia. }
  assert (exists m, shl_align p 0 (exp_of (d + 0)) = (m, d - 53) /\ Zpos m = q) as (m & Em & Eq).
  { unfold shl_align, q. rewrite exp_of_eq, Z.add_0_r, Z.sub_0_r, Z.max_l by lia.
    destruct (d - 53) as [|k|k] eqn:Ek; [|lia|].
    - exists p. split; [done|]. replace (53 - d) with 0 by lia. lia.
    - exists (Pos.iter xO p k). split; [done|]. rewrite iter_double. do 2 f_equal. lia. }
  exists m, (d - 53). rewrite Eq. split; [|split; [unfold canonical; lia|split; [lia|split; [lia|]]]].
  2: { unfold q. rewrite <- Z.mul_assoc, <- Z.pow_add_r by lia. do 2 f_equal. lia. }
  unfold double_of_Z, binary_normalize, binary_round. change (Zpos (digits2_pos p)) with d. rewrite Em, Eq.
  assert (forall l, l = loc_Exact -> shr_fexp prec emax q (d - 53) l = (shr_record_of_loc q l, d - 53)) as Hs.
  { intros l ->. unfold shr_fexp. rewrite (Zdigits2_eq q 53), exp_of_eq by lia.
    by replace (_ - (d - 53)) with 0 by lia. }
  unfold binary_round_aux. rewrite Hs by done. cbn [shr_record_of_loc shr_m loc_of_shr_record round_nearest_even].
  rewrite Hs by done. cbn [shr_record_of_loc shr_m]. rewrite <- Eq.
  by rewrite (proj2 (Z.leb_le _ _)) by (change (emax - prec) with 971; lia).
Qed.

(** ** Products and sums *)

Definition nonneg (d : double) : bool :=
  match d with
  | S754_zero _ | S754_finite false _ _ | S754_infinity false => true
  | _ => false
  end.

Definition canonical_double (d : double) : Prop :=
  match d with S754_finite _ m e => canonical (Zpos m) e | _ => True end.

Lemma rounded_nonneg n d : rounded_ok false n d -> nonneg d = true.
Proof. destruct d; cbn; naive_solver. Qed.

Lemma rounded_canonical s n d : rounded_ok s n d -> canonical_double d /\ d <> S754_nan.
Proof. destruct d; cbn; naive_solver. Qed.

Lemma normal_product m1 e1 m2 e2 :
  canonical (Zpos m1) e1 -> 2 ^ 52 <= Zpos m1 ->
  e1 + e2 <= exp_of (Zdigits2 (Zpos (m1 * m2)) + (e1 + e2)).
Proof.
  intros Hc Hm. rewrite exp_of_eq.
  assert (53 <= Zdigits2 (Zpos (m1 * m2))) by (apply Zdigits2_ge; lia). lia.
Qed.

(** A normal number times anything but NaN is a canonical number. *)
Lemma mul_normal m e y :
  canonical (Zpos m) e -> 2 ^ 52 <= Zpos m -> y <> S754_nan ->
  canonical_double (SFmul prec emax (S754_finite false m e) y) /\
  SFmul prec emax (S754_finite false m e) y <> S754_nan.
Proof.
  intros Hc Hm Hy. destruct y as [| | |s m2 e2]; try done. cbn [SFmul].
  eapply rounded_canonical, round_aux_ok; [lia|]. by apply normal_product.
Qed.

(** The product of a normal number and another one of moderate exponents is
    finite. *)
Lemma mul_finite m1 e1 m2 e2 :
  canonical (Zpos m1) e1 -> 2 ^ 52 <= Zpos m1 -> Zpos m2 < 2 ^ 53 -> e1 + e2 <= 800 ->
  let d := SFmul prec emax (S754_finite false m1 e1) (S754_finite false m2 e2) in
  nonneg d = true /\ isfinite d = true.
Proof.
  intros Hc Hm H2 He. cbn [SFmul xorb].
  pose proof (round_aux_ok false (Zpos (m1 * m2)) (e1 + e2) loc_Exact eq_refl (normal_product _ _ _ _ Hc Hm)) as Hr.
  assert (Zdigits2 (Zpos (m1 * m2)) <= 106).
  { destruct Hc as [? _]. apply Zdigits2_le; [lia|lia|]. rewrite Pos2Z.inj_mul. change (2 ^ 106) with (2 ^ 53 * 2 ^ 53).
    apply Z.mul_lt_mono_nonneg; lia. }
  split; [by eapply rounded_nonneg|]. destruct (binary_round_aux _ _ _ _ _ _); cbn [rounded_ok] in Hr; try done. lia.
Qed.

Lemma shr_nonneg m e l : 0 <= m -> 0 <= shr_m (shr_fexp prec emax m e l).1.
Proof.
  intros Hm. unfold shr_fexp. assert (shr_m (shr_record_of_loc m l) = m) as Hl by (by destruct l as [|[]]).
  destruct (exp_of _ - e) as [|k|k]; cbn [shr fst]; rewrite ?iter_shr_m, Hl by (by rewrite Hl); try done.
  apply Z.div_pos; [done|]. apply Z.pow_pos_nonneg; lia.
Qed.

Lemma round_aux_nonneg m e l : 0 <= m -> nonneg (binary_round_aux prec emax false m e l) = true.
Proof.
  intros Hm. unfold binary_round_aux. pose proof (shr_nonneg m e l Hm) as H1.
  destruct (shr_fexp prec emax m e l) as [mrs e1]. cbn [fst] in H1.
  set (m2 := round_nearest_even _ _). assert (0 <= m2) as H2.
  { destruct (round_even_step (shr_m mrs) (loc_of_shr_record mrs)); lia. }
  pose proof (shr_nonneg m2 e1 loc_Exact H2) as H3.
  destruct (shr_fexp prec emax m2 e1 loc_Exact) as [mrs' e2]. cbn [fst] in H3.
  destruct (shr_m mrs'); [done| |lia]. by case_match.
Qed.

Lemma mul_nonneg x y :
  nonneg x = true -> nonneg y = true -> isfinite y = true ->
  (isfinite x = true \/ SFltb d_zero y = true) -> nonneg (SFmul prec emax x y) = true.
Proof.
  intros Hx Hy Hf Hz.
  destruct x as [|[]| |[] m1 e1], y as [|[]| |[] m2 e2]; try done; cbn [SFmul xorb]; try (by destruct Hz).
  by apply round_aux_nonneg.
Qed.

Lemma add_nonneg x y : nonneg x = true -> nonneg y = true -> nonneg (SFadd prec emax x y) = true.
Proof.
  intros Hx Hy. destruct x as [[]|[]| |[] m1 e1], y as [[]|[]| |[] m2 e2]; try done.
  cbn [SFadd cond_Zopp Z.add binary_normalize]. eapply rounded_nonneg, round_ok.
Qed.

Lemma nonneg_not_nan d : nonneg d = true -> d <> S754_nan.
Proof. by intros H ->. Qed.

(** ** The jitter *)

Lemma valid_mantissa s m e : valid_binary prec emax (S754_finite s m e) = true -> Zpos m < 2 ^ 53.
Proof.
  cbn [valid_binary]. unfold bounded, canonical_mantissa. intros H.
  apply andb_true_iff in H as [H%Z.eqb_eq _]. change (Zpos (digits2_pos m)) with (Zdigits2 (Zpos m)) in H.
  rewrite exp_of_eq in H. destruct (Zdigits2_bounds (Zpos m)) as (_ & _ & H2); [lia|].
  apply Z.lt_le_trans with (1 := H2). apply Z.pow_le_mono_r; lia.
Qed.

(** [1 - jitter] is not negative. *)
Lemma one_minus j :
  valid_binary prec emax j = true -> SFleb d_zero j = true -> SFleb j d_one = true ->
  nonneg (SFsub prec emax d_one j) = true.
Proof.
  intros Hv H0 H1. destruct j as [|[]| |[] m e]; try done. apply valid_mantissa in Hv.
  assert (d_one = S754_finite false 4503599627370496 (-52)) as E1 by reflexivity. rewrite E1 in *.
  cbn [SFsub cond_Zopp]. assert (0 <= Zpos (shl_align 4503599627370496 (-52) (Z.min (-52) e)).1 -
    Zpos (shl_align m e (Z.min (-52) e)).1) as Hd.
  { unfold SFleb in H1. cbn [SFcompare] in H1. destruct (Z.compare_spec e (-52)) as [->|He|He]; [| |done].
    - assert (m <= 4503599627370496)%positive as Hle.
      { apply Pos.leb_le. rewrite <- H1. unfold Pos.leb, Pos.compare. by destruct (Pos.compare_cont _ _ _). }
      rewrite Z.min_id. unfold shl_align. rewrite Z.sub_diag. cbn [fst]. by apply Z.le_0_sub.
    - rewrite Z.min_r by lia. unfold shl_align. rewrite Z.sub_diag.
      destruct (e - -52) as [|k|k] eqn:Ek; try lia. cbn [fst]. rewrite iter_double.
      assert (2 ^ 1 <= 2 ^ Zpos k) by (apply Z.pow_le_mono_r; lia). lia. }
  destruct (_ - _) as [|k|k]; [done| |lia]. cbn [binary_normalize]. eapply rounded_nonneg, round_ok.
Qed.

(** [2 * jitter] is finite. *)
Lemma two_times j :
  valid_binary prec emax j = true -> SFltb d_zero j = true -> SFleb j d_one = true ->
  nonneg (SFmul prec emax d_two j) = true /\ isfinite (SFmul prec emax d_two j) = true.
Proof.
  intros Hv H0 H1. destruct j as [|[]| |[] m e]; try done. apply valid_mantissa in Hv.
  assert (e <= -52).
  { unfold SFleb in H1. change d_one with (S754_finite false 4503599627370496 (-52)) in H1. cbn [SFcompare] in H1.
    destruct (Z.compare_spec e (-52)); [lia|lia|done]. }
  change d_two with (S754_finite false 4503599627370496 (-51)).
  apply mul_finite; [unfold canonical; lia|lia|done|lia].
Qed.

(** The random number is finite and not negative. *)
Lemma jitter_unit_ok st : nonneg (jitter_unit st) = true /\ isfinite (jitter_unit st) = true.
Proof.
  unfold jitter_unit. set (z := Z.shiftr _ 11). assert (0 <= z < 2 ^ 53) as Hz.
  { unfold z. rewrite Z.shiftr_div_pow2 by lia. pose proof (Z.mod_pos_bound (st * 2685821657736338717) 18446744073709551616).
    unfold u64. split; [apply Z.div_pos; lia|]. apply Z.div_lt_upper_bound; [lia|]. change (2 ^ 11 * 2 ^ 53) with (2 ^ 64). lia. }
  destruct (decide (z = 0)) as [->|]; [done|].
  destruct (double_of_Z_exact z) as (m & e & -> & Hc & Hm & He & _); [lia|].
  by apply mul_finite; [| | |lia].
Qed.

(** ** Comparison and rounding to milliseconds *)

(** [d] is a normal number between two integers; values are compared in units
    of the smallest subnormal. *)
Definition between_ms (lo hi : Z) (d : double) : Prop :=
  exists m e, d = S754_finite false m e /\ canonical (Zpos m) e /\ 2 ^ 52 <= Zpos m /\
    lo * 2 ^ 1074 <= Zpos m * 2 ^ (e + 1074) <= hi * 2 ^ 1074.

Lemma leb_value m1 e1 m2 e2 :
  canonical (Zpos m1) e1 -> canonical (Zpos m2) e2 ->
  SFleb (S754_finite false m1 e1) (S754_finite false m2 e2) = true ->
  Zpos m1 * 2 ^ (e1 + 1074) <= Zpos m2 * 2 ^ (e2 + 1074).
Proof.
  intros (H1 & He1 & _) (H2 & He2 & Hc) H. unfold SFleb in H. cbn [SFcompare] in H.
  destruct (Z.compare_spec e1 e2) as [->|He|He]; [| |done].
  - assert (m1 <= m2)%positive as Hle.
    { apply Pos.leb_le. rewrite <- H. unfold Pos.leb, Pos.compare. by destruct (Pos.compare_cont _ _ _). }
    apply Z.mul_le_mono_nonneg_r; [|done]. apply Z.pow_nonneg. lia.
  - assert (2 ^ (e1 + 1074 + 1) <= 2 ^ (e2 + 1074)) as Hp by (apply Z.pow_le_mono_r; lia).
    rewrite Z.pow_add_r, Z.pow_1_r in Hp by lia. assert (0 < 2 ^ (e1 + 1074)) by (apply Z.pow_pos_nonneg; lia).
    assert (Zpos m1 <= 2 * Zpos m2) by lia. nia.
Qed.

Lemma double_of_Z_between z : 0 < z < 2 ^ 53 -> between_ms z z (double_of_Z z).
Proof.
  intros Hz. destruct (double_of_Z_exact z Hz) as (m & e & -> & Hc & Hm & _ & Hv).
  exists m, e. split; [done|]. split; [done|]. split; [done|]. by rewrite Hv.
Qed.

Lemma normal_from_one m e : canonical (Zpos m) e -> 2 ^ 1074 <= Zpos m * 2 ^ (e + 1074) -> 2 ^ 52 <= Zpos m.
Proof.
  intros ([_ Hm] & _ & [?| ->]) Hv; [done|]. change (-1074 + 1074) with 0 in Hv. rewrite Z.pow_0_r, Z.mul_1_r in Hv.
  assert (2 ^ 53 < 2 ^ 1074) by (by vm_compute). exfalso.
  apply (Z.lt_irrefl (2 ^ 53)), (Z.lt_trans _ (2 ^ 1074)); [done|]. by apply Z.le_lt_trans with (Zpos m).
Qed.

(** Clamping between two delays gives a number between them. *)
Lemma clamp_between lo hi v :
  0 < lo <= hi -> hi < 2 ^ 53 -> canonical_double v -> v <> S754_nan ->
  between_ms lo hi (clamp v (double_of_Z lo) (double_of_Z hi)).
Proof.
  intros Hlo Hhi Hv Hn. destruct (double_of_Z_exact lo) as (ml & el & El & Hcl & Hml & _ & Vl); [lia|].
  destruct (double_of_Z_exact hi) as (mh & eh & Eh & Hch & Hmh & _ & Vh); [lia|].
  assert (1 * 2 ^ 1074 <= lo * 2 ^ 1074 <= hi * 2 ^ 1074) as [H1 Hle].
  { split; (apply Z.mul_le_mono_nonneg_r; [by vm_compute|lia]). }
  rewrite Z.mul_1_l in H1. unfold clamp. rewrite El, Eh.
  destruct (SFltb v _) eqn:E1; [|destruct (SFltb _ v) eqn:E2].
  - exists ml, el. rewrite Vl. by repeat split; try apply Hcl.
  - exists mh, eh. rewrite Vh. by repeat split; try apply Hch.
  - rewrite SFltb_leb in E1, E2 by done. apply negb_false_iff in E1, E2.
    destruct v as [|[]| |[] m e]; try done. cbn [canonical_double] in Hv.
    apply leb_value in E1, E2; try done. rewrite Vl in E1. rewrite Vh in E2. exists m, e.
    split; [done|]. split; [done|]. split; [|done]. apply (normal_from_one m e Hv). by apply Z.le_trans with (1 := H1).
Qed.

(** [llround] is monotone around the integers. *)
Lemma llround_between unspecified lo hi d :
  0 < lo -> hi < 2 ^ 53 -> between_ms lo hi d -> lo <= llround unspecified d <= hi.
Proof.
  intros Hlo Hhi (m & e & -> & (_ & He & _) & _ & Hl & Hh). cbn [llround].
  set (v := if 0 <=? e then _ else _). assert (lo <= v <= hi) as Hv.
  { unfold v. destruct (Z.leb_spec 0 e) as [Hge|Hlt].
    - rewrite Z.pow_add_r, Z.mul_assoc in Hl, Hh by lia.
      split; (apply (Z.mul_le_mono_pos_r _ _ (2 ^ 1074)); [by vm_compute|done]).
    - replace (2 ^ 1074) with (2 ^ (- e) * 2 ^ (e + 1074)) in Hl, Hh by (rewrite <- Z.pow_add_r by lia; f_equal; lia).
      rewrite Z.mul_assoc in Hl, Hh. assert (0 < 2 ^ (e + 1074)) as Hp by (apply Z.pow_pos_nonneg; lia).
      apply Z.mul_le_mono_pos_r in Hl, Hh; try done.
      assert (2 ^ (- e) = 2 * 2 ^ (- e - 1)) as Hk by (rewrite <- Z.pow_succ_r by lia; f_equal; lia).
      assert (0 < 2 ^ (- e - 1)) by (apply Z.pow_pos_nonneg; lia). rewrite Hk in *.
      split; [apply Z.div_le_lower_bound; lia|]. apply Z.lt_succ_r, Z.div_lt_upper_bound; lia. }
  assert (in_i64 v = true) as -> by (unfold in_i64; bool_prop; unfold i64_min, i64_max; lia). done.
Qed.

(** ** The delay *)

Section delay.
Context (pow : double -> double -> double) (unspecified : double -> Z) (p : reconnection_policy).
Hypothesis p_ok : policy_ok p.
Hypothesis jitter_valid : valid_binary prec emax (jitter_ratio p) = true.
Hypothesis max_bound : max_delay p < 2 ^ 53.
Hypothesis initial_positive : 0 < initial_delay p.

(** [std::pow] of a finite number above 1 and an exponent that is a number is
    a number. *)
Hypothesis pow_number : forall b x,
  isfinite b = true -> SFltb d_one b = true -> x <> S754_nan -> pow b x <> S754_nan.

Let clamped (v : double) : double := clamp v (double_of_Z (initial_delay p)) (double_of_Z (max_delay p)).

Lemma clamped_between m e y :
  canonical (Zpos m) e -> 2 ^ 52 <= Zpos m -> y <> S754_nan ->
  between_ms (initial_delay p) (max_delay p) (clamped (SFmul prec emax (S754_finite false m e) y)).
Proof.
  intros Hc Hm Hy. destruct (mul_normal m e y Hc Hm Hy) as [Hv Hn]. destruct p_ok as (_ & Hd & _).
  apply clamp_between; try done. lia.
Qed.

Lemma double_of_Z_number z : double_of_Z z <> S754_nan.
Proof.
  destruct z as [|m|m]; [done| |]; unfold double_of_Z, binary_normalize;
    exact (proj2 (rounded_canonical _ _ _ (round_ok _ m 0))).
Qed.

Lemma backoff_between x :
  x <> S754_nan ->
  between_ms (initial_delay p) (max_delay p)
    (clamped (SFmul prec emax (double_of_Z (initial_delay p)) (pow (backoff_factor p) x))).
Proof.
  intros Hx. destruct p_ok as (_ & Hd & Hf & Hf1 & _).
  destruct (double_of_Z_exact (initial_delay p)) as (m & e & -> & Hc & Hm & _); [lia|].
  apply clamped_between; try done. by apply pow_number.
Qed.

Lemma scale_number st :
  SFltb d_zero (jitter_ratio p) = true ->
  SFadd prec emax (SFsub prec emax d_one (jitter_ratio p))
    (SFmul prec emax (SFmul prec emax d_two (jitter_ratio p)) (jitter_unit st)) <> S754_nan.
Proof.
  intros Hpos. destruct p_ok as (_ & _ & _ & _ & Hf & H0 & H1). destruct (jitter_unit_ok st) as [Hu Huf].
  assert (nonneg (jitter_ratio p) = true) as Hn by (by destruct (jitter_ratio p) as [|[]| |[]]).
  destruct (two_times (jitter_ratio p)) as [Ht Htf]; try done.
  apply nonneg_not_nan, add_nonneg; [by apply one_minus|]. apply mul_nonneg; auto.
Qed.

Lemma delay_bounds reconnect_count generation jitter_state :
  immediate_attempts p <= reconnect_count ->
  initial_delay p <= (calculate_reconnect_delay pow unspecified p reconnect_count generation jitter_state).1 <= max_delay p.
Proof.
  intros Hn. unfold calculate_reconnect_delay. rewrite (proj2 (Z.ltb_ge _ _)) by done.
  pose proof (backoff_between _ (double_of_Z_number (reconnect_count - immediate_attempts p))) as Hb.
  fold (clamped (SFmul prec emax (double_of_Z (initial_delay p))
    (pow (backoff_factor p) (double_of_Z (reconnect_count - immediate_attempts p))))).
  set (b := clamped _) in *. destruct (SFltb d_zero b && _) eqn:E; cbn [fst].
  - apply andb_true_iff in E as [_ E]. destruct Hb as (m & e & -> & Hc & Hm & _).
    pose proof (llround_between unspecified _ _ _ initial_positive max_bound
      (clamped_between m e _ Hc Hm (scale_number (jitter_next reconnect_count generation jitter_state) E))) as Hr.
    unfold clamped in Hr. case_match; bool_prop; lia.
  - pose proof (llround_between unspecified _ _ _ initial_positive max_bound Hb). case_match; bool_prop; lia.
Qed.
End delay.

(** C39: the delay of [calculate_reconnect_delay] is 0 for the immediate
    attempts, and for every later one lies between [initial_delay] and
    [max_delay], bounds included, whatever the attempt number, the jitter and
    its random state: the two clamps, done in binary64, survive the final
    rounding to milliseconds.  The policy is a sanitized one with a positive
    initial delay and a maximum below [2^53] ms (beyond it the bounds are no
    doubles); with an initial delay of 0 the bounds do not hold
    ([zero_delay_overflows]).  Of [std::pow] it is assumed that the power of a
    finite base above 1 with an exponent that is not NaN is not NaN; an
    overflow to infinity is covered. *)
Theorem reconnect_delay_bounds pow unspecified p reconnect_count generation jitter_state :
  policy_ok p -> valid_binary prec emax (jitter_ratio p) = true ->
  0 < initial_delay p -> max_delay p < 2 ^ 53 ->
  (forall b x, isfinite b = true -> SFltb d_one b = true -> x <> S754_nan -> pow b x <> S754_nan) ->
  let delay := (calculate_reconnect_delay pow unspecified p reconnect_count generation jitter_state).1 in
  (reconnect_count < immediate_attempts p -> delay = 0) /\
  (immediate_attempts p <= reconnect_count -> initial_delay p <= delay <= max_delay p).
Proof.
  intros Hp Hv Hi Hm Hpow. cbn zeta. split; [|by apply delay_bounds].
  intros Hn. unfold calculate_reconnect_delay. by rewrite (proj2 (Z.ltb_lt _ _)).
Qed.

(** A power that overflows at once; as [std::pow] does, it returns NaN for an
    exponent that is NaN. *)
Definition pow_infinite (b x : double) : double :=
  match x with S754_nan => S754_nan | _ => S754_infinity false end.

Lemma reconnect_delay_bounds_witness :
  policy_ok default_policy /\
  100 <= (calculate_reconnect_delay pow_infinite (fun _ => -1) default_policy 2000 1 jitter_seed).1 <= 30000.
Proof.
  assert (policy_ok default_policy) as Hp by (apply (sanitize_ok default_policy)). split; [done|].
  apply (reconnect_delay_bounds pow_infinite (fun _ => -1) default_policy 2000 1 jitter_seed);
    [done|reflexivity|reflexivity|reflexivity| |by vm_compute].
  intros b x _ _ Hx. by destruct x.
Defined.

(** With an initial delay of 0 the product of zero and an overflowed power is
    NaN, which neither clamp changes: the delay is what [std::llround] gives
    for NaN. *)
Theorem zero_delay_overflows pow unspecified p reconnect_count generation jitter_state :
  initial_delay p = 0 -> immediate_attempts p <= reconnect_count ->
  pow (backoff_factor p) (double_of_Z (reconnect_count - immediate_attempts p)) = S754_infinity false ->
  (calculate_reconnect_delay pow unspecified p reconnect_count generation jitter_state).1 =
  Z.max 0 (unspecified S754_nan).
Proof.
  intros Hi Hn Hp. unfold calculate_reconnect_delay. rewrite (proj2 (Z.ltb_ge _ _)) by done. rewrite Hi, Hp.
  change (SFmul prec emax (double_of_Z 0) (S754_infinity false)) with S754_nan.
  assert (clamp S754_nan (double_of_Z 0) (double_of_Z (max_delay p)) = S754_nan) as ->.
  { unfold clamp. by destruct (double_of_Z (max_delay p)) as [|[]| |[]]. }
  cbn. destruct (Z.leb_spec (unspecified S754_nan) 0); lia.
Qed.
