(* ===== verification/Connection.v ===== *)
(** * The connection ([detail/connection.hpp], [detail/connection_state.hpp],
    [impl/connection/{core,io,enqueue,actor_loops}.ipp])

    Everything runs on one strand, so a coroutine is modelled by the pieces it
    runs between two suspensions, each a function on the state of the
    connection.  The environment (the [iocoro] library: sockets, timers,
    events) appears as the argument a piece is resumed with, and as flags and
    counters: the socket is open or not, an event counts its notifications, a
    stop source is stopped or not.  Log output is not modelled; callbacks are
    recorded, and their exceptions are swallowed by the code. *)

From S2P Require Import Prelude Kind Errors Charconv Buffer Message Parser Builder Adapter.
From S2P Require Import Request RingQueue ResponseSink Pipeline Config.

Module connection_state.

(** [enum class connection_state]. *)
Inductive connection_state : Set :=
| INIT | CONNECTING | OPEN | FAILED | RECONNECTING | CLOSING | CLOSED.

End connection_state.

Abbreviation connection_state := connection_state.connection_state.

#[export] Instance connection_state_eq_dec : EqDecision connection_state.
Proof. solve_decision. Defined.

(** The enumerators' values, and [to_string]. *)
Definition state_int (s : connection_state) : Z :=
  match s with
  | connection_state.INIT => 1
  | connection_state.CONNECTING => 2
  | connection_state.OPEN => 3
  | connection_state.FAILED => 4
  | connection_state.RECONNECTING => 5
  | connection_state.CLOSING => 6
  | connection_state.CLOSED => 7
  end.

Definition connection_state_to_string (s : connection_state) : string :=
  match s with
  | connection_state.INIT => "INIT"
  | connection_state.CONNECTING => "CONNECTING"
  | connection_state.OPEN => "OPEN"
  | connection_state.FAILED => "FAILED"
  | connection_state.RECONNECTING => "RECONNECTING"
  | connection_state.CLOSING => "CLOSING"
  | connection_state.CLOSED => "CLOSED"
  end%string.

(** [enum class connection_event_kind], [enum class connection_event_stage]. *)
Inductive connection_event_kind : Set := ev_connected | ev_disconnected | ev_closed.

Inductive connection_event_stage : Set :=
| stage_unknown | stage_connect | stage_handshake | stage_runtime_io | stage_reconnect
| stage_close | stage_actor.

(** [to_string(kind)] and [to_string(stage)]. *)
Definition event_kind_to_string (k : connection_event_kind) : string :=
  match k with ev_connected => "connected" | ev_disconnected => "disconnected" | ev_closed => "closed" end%string.

Definition event_stage_to_string (s : connection_event_stage) : string :=
  match s with
  | stage_unknown => "unknown"
  | stage_connect => "connect"
  | stage_handshake => "handshake"
  | stage_runtime_io => "runtime_io"
  | stage_reconnect => "reconnect"
  | stage_close => "close"
  | stage_actor => "actor"
  end%string.

(** [struct connection_event]. *)
Record connection_event : Set := mk_event {
  ev_kind : connection_event_kind;
  ev_stage : connection_event_stage;
  ev_timestamp : Z;
  ev_generation : Z;
  ev_reconnect_count : Z;
  ev_from_state : option Z;
  ev_to_state : option Z;
  ev_error : error_info;
}.

(** ** [stop_scope] *)

(** [class stop_scope]: the current [std::stop_source], numbered, and the
    sources on which a stop was requested; a token refers to its source. *)
Record stop_scope : Set := mk_stop_scope { src_ : nat; stopped_sources : list nat }.

Definition scope_new : stop_scope := mk_stop_scope 0 [].

(** [get_token()] and [stop_requested()] of a token. *)
Definition get_token (s : stop_scope) : nat := src_ s.
Definition stop_requested (tok : nat) (s : stop_scope) : bool := bool_decide (tok ∈ stopped_sources s).

(** [request_stop()] and [reset()], which takes a new source. *)
Definition scope_request_stop (s : stop_scope) : stop_scope := mk_stop_scope (src_ s) (src_ s :: stopped_sources s).
Definition scope_reset (s : stop_scope) : stop_scope := mk_stop_scope (S (src_ s)) (stopped_sources s).

(** The connection keeps one flag for its scope: what the current token
    says. *)
Definition scope_flag (s : stop_scope) : bool := stop_requested (get_token s) s.

Definition scope_wf (s : stop_scope) : Prop := Forall (fun i => i <= src_ s)%nat (stopped_sources s).

Lemma scope_flag_ops s :
  scope_wf s ->
  scope_wf (scope_request_stop s) /\ scope_flag (scope_request_stop s) = true /\
  scope_wf (scope_reset s) /\ scope_flag (scope_reset s) = false.
Proof.
  unfold scope_wf, scope_flag, stop_requested, get_token. intros Hs. cbn [scope_request_stop scope_reset src_ stopped_sources].
  split; [by constructor|]. split; [apply bool_decide_true; by left|].
  split; [eapply Forall_impl; [exact Hs|]; simpl; lia|]. apply bool_decide_false. intros Hin.
  rewrite Forall_forall in Hs. specialize (Hs _ Hin). lia.
Qed.

(** A token keeps its answer when the scope is reset, and is not reached by a
    stop requested afterwards. *)
Lemma token_after_reset tok s :
  (tok <= src_ s)%nat ->
  stop_requested tok (scope_reset s) = stop_requested tok s /\
  stop_requested tok (scope_request_stop (scope_reset s)) = stop_requested tok s.
Proof.
  intros Ht. split; [done|]. unfold stop_requested. apply bool_decide_ext.
  cbn [scope_request_stop scope_reset src_ stopped_sources]. rewrite elem_of_cons. split; [|by right].
  intros [->|?]; [lia|done].
Qed.

(** ** The sinks of a connection: both sorts of pending response *)

Program Definition either_builder {A B} `{Builder A} `{Builder B} : Builder (A + B) := {|
  b_count b := match b with inl x => b_count x | inr x => b_count x end;
  accept r b := match b with inl x => inl <$> accept r x | inr x => inr <$> accept r x end;
  done_ b := match b with inl x => done_ x | inr x => done_ x end;
  take_results b := match b with inl x => take_results x | inr x => take_results x end;
  b_wf b := match b with inl x => b_wf x | inr x => b_wf x end;
  b_types b := match b with inl x => b_types x | inr x => b_types x end;
  b_slots b := match b with inl x => b_slots x | inr x => b_slots x end;
|}.
Next Obligation. intros A B HA HB [x|x] Hx; by apply b_count_types. Qed.
Next Obligation. intros A B HA HB [x|x] Hx; by apply b_bound. Qed.
Next Obligation. intros A B HA HB [x|x] Hx; by apply b_done. Qed.
Next Obligation.
  intros A B HA HB [x|x] t r Hx Ht; destruct (b_accept x t r Hx Ht) as (x' & Ha & Hx');
    [exists (inl x')|exists (inr x')]; (split; [|done]); by simpl; rewrite Ha.
Qed.
Next Obligation. intros A B HA HB [x|x] Hx Hl; by apply b_take. Qed.

Abbreviation any_builder := (response_builder + dynamic_response_builder)%type.

#[export] Instance any_builder_builder : Builder any_builder := either_builder.

Abbreviation sink := (pending any_builder).
Abbreviation sink_store := (gmap nat sink).
Abbreviation conn_pipeline := (pipeline (Q := @ring_queue)).

(** [std::make_shared<pending_response<Ts...>>()] and
    [std::make_shared<pending_dynamic_response<T>>(n)]. *)
Definition fixed_sink (types : list ty) : sink := pending_new (inl (response_builder_new types)).
Definition dynamic_sink (t : ty) (n : nat) : sink := pending_new (inr (dynamic_response_builder_new t n)).

(** ** The state *)

(** [class connection]; the last four fields are the sinks it shares with the
    callers, and what the callbacks saw. *)
Record connection : Type := mk_connection {
  cfg_ : config;
  socket_open : bool;
  state_ : connection_state;
  state_snapshot_ : connection_state;
  generation_ : Z;
  pipeline_ : conn_pipeline;
  parser_ : parser;
  stop_ : bool;
  write_wakeup_ : nat;
  read_wakeup_ : nat;
  control_wakeup_ : nat;
  read_in_flight_ : bool;
  write_in_flight_ : bool;
  actor_running_ : bool;
  actor_done_ : nat;
  reconnect_count_ : Z;
  next_request_id_ : Z;
  sinks : sink_store;
  on_events : list connection_event;
  on_starts : list request_trace_info;
  on_rejects : list request_trace_finish;
}.

(** [connection(ex, cfg)]. *)
Definition connection_new (cfg : config) : connection :=
  let cfg1 := mk_config (host cfg) (port cfg) (username cfg) (password cfg) (database cfg) (client_name cfg)
    (resolve_timeout cfg) (connect_timeout cfg) (request_timeout cfg) (no_delay cfg) (keep_alive cfg)
    (resp_limits cfg) (queue_limits cfg) (sanitize_reconnection_policy (reconnection cfg))
    (trace_hooks cfg) (connection_hooks cfg) in
  mk_connection cfg1 false connection_state.INIT connection_state.INIT 0
    (pipeline_new (queue_limits cfg)) (parser_new (resp_limits cfg)) false 0 0 0 false false false 0 0 1
    ∅ [] [] [].

(** [set_state(next)]. *)
Definition set_state (s : connection_state) (c : connection) : connection :=
  mk_connection (cfg_ c) (socket_open c) s s (generation_ c) (pipeline_ c) (parser_ c) (stop_ c)
    (write_wakeup_ c) (read_wakeup_ c) (control_wakeup_ c) (read_in_flight_ c) (write_in_flight_ c)
    (actor_running_ c) (actor_done_ c) (reconnect_count_ c) (next_request_id_ c)
    (sinks c) (on_events c) (on_starts c) (on_rejects c).

Definition set_socket (b : bool) (c : connection) : connection :=
  mk_connection (cfg_ c) b (state_ c) (state_snapshot_ c) (generation_ c) (pipeline_ c) (parser_ c) (stop_ c)
    (write_wakeup_ c) (read_wakeup_ c) (control_wakeup_ c) (read_in_flight_ c) (write_in_flight_ c)
    (actor_running_ c) (actor_done_ c) (reconnect_count_ c) (next_request_id_ c)
    (sinks c) (on_events c) (on_starts c) (on_rejects c).

Definition set_pipeline (h : sink_store) (p : conn_pipeline) (c : connection) : connection :=
  mk_connection (cfg_ c) (socket_open c) (state_ c) (state_snapshot_ c) (generation_ c) p (parser_ c) (stop_ c)
    (write_wakeup_ c) (read_wakeup_ c) (control_wakeup_ c) (read_in_flight_ c) (write_in_flight_ c)
    (actor_running_ c) (actor_done_ c) (reconnect_count_ c) (next_request_id_ c)
    h (on_events c) (on_starts c) (on_rejects c).

Definition set_parser (p : parser) (c : connection) : connection :=
  mk_connection (cfg_ c) (socket_open c) (state_ c) (state_snapshot_ c) (generation_ c) (pipeline_ c) p (stop_ c)
    (write_wakeup_ c) (read_wakeup_ c) (control_wakeup_ c) (read_in_flight_ c) (write_in_flight_ c)
    (actor_running_ c) (actor_done_ c) (reconnect_count_ c) (next_request_id_ c)
    (sinks c) (on_events c) (on_starts c) (on_rejects c).

(** [stop_.request_stop()] and [stop_.reset()]. *)
Definition set_stop (b : bool) (c : connection) : connection :=
  mk_connection (cfg_ c) (socket_open c) (state_ c) (state_snapshot_ c) (generation_ c) (pipeline_ c) (parser_ c) b
    (write_wakeup_ c) (read_wakeup_ c) (control_wakeup_ c) (read_in_flight_ c) (write_in_flight_ c)
    (actor_running_ c) (actor_done_ c) (reconnect_count_ c) (next_request_id_ c)
    (sinks c) (on_events c) (on_starts c) (on_rejects c).

(** [write_wakeup_.notify()], [read_wakeup_.notify()], [control_wakeup_.notify()]. *)
Definition notify (w r k : bool) (c : connection) : connection :=
  let add (b : bool) (n : nat) := if b then Datatypes.S n else n in
  mk_connection (cfg_ c) (socket_open c) (state_ c) (state_snapshot_ c) (generation_ c) (pipeline_ c) (parser_ c) (stop_ c)
    (add w (write_wakeup_ c)) (add r (read_wakeup_ c)) (add k (control_wakeup_ c))
    (read_in_flight_ c) (write_in_flight_ c)
    (actor_running_ c) (actor_done_ c) (reconnect_count_ c) (next_request_id_ c)
    (sinks c) (on_events c) (on_starts c) (on_rejects c).

Definition set_wakeups (w r k : nat) (c : connection) : connection :=
  mk_connection (cfg_ c) (socket_open c) (state_ c) (state_snapshot_ c) (generation_ c) (pipeline_ c) (parser_ c) (stop_ c)
    w r k (read_in_flight_ c) (write_in_flight_ c)
    (actor_running_ c) (actor_done_ c) (reconnect_count_ c) (next_request_id_ c)
    (sinks c) (on_events c) (on_starts c) (on_rejects c).

Definition set_in_flight (r w : bool) (c : connection) : connection :=
  mk_connection (cfg_ c) (socket_open c) (state_ c) (state_snapshot_ c) (generation_ c) (pipeline_ c) (parser_ c) (stop_ c)
    (write_wakeup_ c) (read_wakeup_ c) (control_wakeup_ c) r w
    (actor_running_ c) (actor_done_ c) (reconnect_count_ c) (next_request_id_ c)
    (sinks c) (on_events c) (on_starts c) (on_rejects c).

Definition set_actor (running : bool) (done : nat) (c : connection) : connection :=
  mk_connection (cfg_ c) (socket_open c) (state_ c) (state_snapshot_ c) (generation_ c) (pipeline_ c) (parser_ c) (stop_ c)
    (write_wakeup_ c) (read_wakeup_ c) (control_wakeup_ c) (read_in_flight_ c) (write_in_flight_ c)
    running done (reconnect_count_ c) (next_request_id_ c)
    (sinks c) (on_events c) (on_starts c) (on_rejects c).

Definition set_attempts (generation count : Z) (c : connection) : connection :=
  mk_connection (cfg_ c) (socket_open c) (state_ c) (state_snapshot_ c) generation (pipeline_ c) (parser_ c) (stop_ c)
    (write_wakeup_ c) (read_wakeup_ c) (control_wakeup_ c) (read_in_flight_ c) (write_in_flight_ c)
    (actor_running_ c) (actor_done_ c) count (next_request_id_ c)
    (sinks c) (on_events c) (on_starts c) (on_rejects c).

Definition set_traces (next_id : Z) (starts : list request_trace_info) (rejects : list request_trace_finish)
    (c : connection) : connection :=
  mk_connection (cfg_ c) (socket_open c) (state_ c) (state_snapshot_ c) (generation_ c) (pipeline_ c) (parser_ c) (stop_ c)
    (write_wakeup_ c) (read_wakeup_ c) (control_wakeup_ c) (read_in_flight_ c) (write_in_flight_ c)
    (actor_running_ c) (actor_done_ c) (reconnect_count_ c) next_id
    (sinks c) (on_events c) starts rejects.

Definition add_event (e : connection_event) (c : connection) : connection :=
  mk_connection (cfg_ c) (socket_open c) (state_ c) (state_snapshot_ c) (generation_ c) (pipeline_ c) (parser_ c) (stop_ c)
    (write_wakeup_ c) (read_wakeup_ c) (control_wakeup_ c) (read_in_flight_ c) (write_in_flight_ c)
    (actor_running_ c) (actor_done_ c) (reconnect_count_ c) (next_request_id_ c)
    (sinks c) (on_events c ++ [e]) (on_starts c) (on_rejects c).

(** ** Events, cleanup *)

(** [emit_connection_event(evt)]: the time stamp, the generation and the
    attempt count are filled in. *)
Definition emit_connection_event (now : Z) (kind : connection_event_kind) (stage : connection_event_stage)
    (from to : option connection_state) (err : error_info) (c : connection) : connection :=
  if negb (connection_hooks (cfg_ c)) then c
  else add_event (mk_event kind stage now (generation_ c) (reconnect_count_ c)
                    (state_int <$> from) (state_int <$> to) err) c.

Definition no_error_info : error_info := mk_error_info no_error [].

(** [pipeline_.clear_all(err)]. *)
Definition clear_pipeline (now : Z) (err : error_info) (c : connection) : run connection :=
  hp ← clear_all now err (sinks c) (pipeline_ c);
  Ret (set_pipeline hp.1 hp.2 c).

(** [if (socket_.is_open()) { (void)socket_.close(); }] *)
Definition close_socket (c : connection) : connection :=
  if socket_open c then set_socket false c else c.

(** [transition_to_closed()]. *)
Definition transition_to_closed (now : Z) (c : connection) : run connection :=
  let from := state_ c in
  c1 ← clear_pipeline now (client_error client_errc.connection_closed) (set_state connection_state.CLOSED c);
  Ret (emit_connection_event now ev_closed stage_close (Some from) (Some connection_state.CLOSED)
         no_error_info (close_socket c1)).

(** [handle_error(ec)]. *)
Definition handle_error (now : Z) (ec : error_info) (c : connection) : run connection :=
  match state_ c with
  | connection_state.CLOSED | connection_state.CLOSING => Ret c
  | connection_state.FAILED | connection_state.RECONNECTING => Ret c
  | _ =>
    _ ← assert (bool_decide (state_ c = connection_state.OPEN));
    let c1 := emit_connection_event now ev_disconnected stage_runtime_io (Some connection_state.OPEN)
                (Some connection_state.FAILED) ec (set_state connection_state.FAILED c) in
    c2 ← clear_pipeline now ec c1;
    Ret (notify true true true (close_socket c2))
  end.

(** ** Exceptions *)

(** What an [std::exception_ptr] points to. *)
Inductive exception : Set :=
| std_exception (what : bytes)
| other_exception.

(** [make_internal_error(ep, context)]. *)
Definition make_internal_error (ep : option exception) (context : bytes) : error_info :=
  let prefix := match context with [] => [] | _ => context ++ s2b ": " end in
  let what :=
    match ep with
    | Some (std_exception w) => w
    | Some other_exception | None => s2b "unknown exception"
    end in
  mk_error_info (make_client_error_code client_errc.internal_error) (prefix ++ what).

(** [fail_sink_with_current_exception(sink, context)], [ep] being the current
    exception. *)
Definition fail_sink_with_current_exception (now : Z) (ep : option exception) (context : bytes)
    (sink : sink_ptr) (h : sink_store) : run sink_store :=
  match sink with
  | None => Ret h
  | Some _ =>
    as_ ← deref h sink;
    s1 ← fail_all now (make_internal_error ep context) as_.2;
    Ret (<[as_.1 := s1]> h)
  end.

(** ** Actor life cycle *)

(** [run_actor()]: the actor's coroutine is spawned. *)
Definition run_actor (c : connection) : run connection :=
  _ ← assert (negb (actor_running_ c));
  Ret (set_actor true (actor_done_ c) c).

(** The end of [actor_loop()], after its three loops. *)
Definition actor_loop_end (now : Z) (c : connection) : run connection := transition_to_closed now c.

(** The handler that [run_actor] posts when the actor completed; [r] is the
    exception that ended it, if any. *)
Definition actor_completed (now : Z) (r : option exception) (c : connection) : run connection :=
  let c0 := set_actor false (actor_done_ c) c in
  c1 ← match r with
       | None => Ret c0
       | Some ep =>
         let err := make_internal_error (Some ep) (s2b "connection actor") in
         let from := state_ c0 in
         let c1 :=
           if bool_decide (from <> connection_state.CLOSING) && bool_decide (from <> connection_state.CLOSED)
           then emit_connection_event now ev_disconnected stage_actor (Some from)
                  (Some connection_state.CLOSING) err c0
           else c0 in
         c2 ← clear_pipeline now err c1;
         let c3 := close_socket c2 in
         let c4 := if bool_decide (state_ c3 <> connection_state.CLOSED)
                   then set_state connection_state.CLOSING c3 else c3 in
         Ret (notify true true true c4)
       end;
  c2 ← (if bool_decide (state_ c1 <> connection_state.CLOSED) then transition_to_closed now c1 else Ret c1);
  Ret (set_actor (actor_running_ c2) (Datatypes.S (actor_done_ c2)) c2).

(** [close()] up to its wait: [None] when there is nothing to do, otherwise
    whether it waits for the actor. *)
Definition close_begin (now : Z) (c : connection) : run (connection * option bool) :=
  if bool_decide (state_ c = connection_state.CLOSED) then Ret (c, None)
  else
    c1 ← clear_pipeline now (client_error client_errc.connection_closed)
           (set_state connection_state.CLOSING (set_stop true c));
    let c2 := notify true true true (close_socket c1) in
    Ret (c2, Some (actor_running_ c2)).

(** [close()] after the wait. *)
Definition close_end (c : connection) : run unit :=
  assert (bool_decide (state_ c = connection_state.CLOSED)).

(** [~connection()]. *)
Definition connection_destroy (now : Z) (c : connection) : run connection :=
  let c1 := set_stop true c in
  let c2 := if bool_decide (state_ c1 <> connection_state.CLOSED)
            then set_state connection_state.CLOSING c1 else c1 in
  c3 ← clear_pipeline now (client_error client_errc.connection_closed) c2;
  Ret (notify true true true (close_socket c3)).

(** [connect()] up to [do_connect()]: [None] to go on, otherwise what it
    returns at once. *)
Definition connect_begin (c : connection) :
    run (connection * option (expected unit error_info)) :=
  if bool_decide (state_ c = connection_state.OPEN) then Ret (c, Some (Val tt))
  else if bool_decide (state_ c = connection_state.CONNECTING) then
    Ret (c, Some (Unexpected (client_error client_errc.already_in_progress)))
  else
    let c1 :=
      if bool_decide (state_ c = connection_state.CLOSED)
      then set_stop false (set_attempts (generation_ c) 0 (set_state connection_state.INIT c))
      else c in
    if stop_ c1 then Ret (c1, Some (Unexpected (client_error client_errc.operation_aborted)))
    else
      c2 ← (if negb (actor_running_ c1) then run_actor c1 else Ret c1);
      Ret (set_state connection_state.CONNECTING c2, None).

(** [connect()] after [do_connect()]: on failure it reports and goes on with
    [close()] ([true]), on success it wakes the loops. *)
Definition connect_end (now : Z) (res : expected unit error_info) (c : connection) :
    run (connection * bool) :=
  match res with
  | Unexpected err =>
    Ret (emit_connection_event now ev_disconnected stage_connect (Some connection_state.CONNECTING)
           (Some connection_state.CLOSING) err c, true)
  | Val _ =>
    _ ← assert (bool_decide (state_ c = connection_state.OPEN));
    Ret (notify true true true c, false)
  end.

(** ** Requests *)

(** The lambda [reject] of [enqueue_impl]. *)
Definition reject (now start : Z) (info : request_trace_info) (err : error_info) (addr : nat)
    (c : connection) : run connection :=
  as_ ← deref (sinks c) (Some addr);
  let hooks := trace_hooks (cfg_ c) in
  let c1 :=
    if trace_hooks_enabled hooks && on_finish hooks then
      set_traces (next_request_id_ c) (on_starts c)
        (on_rejects c ++ [mk_trace_finish info (now - start) 0 (Z.of_nat (expected_replies as_.2))
                            (code err) (detail err)]) c
    else c in
  s1 ← fail_all now err as_.2;
  Ret (set_pipeline (<[addr := s1]> (sinks c1)) (pipeline_ c1) c1).

(** The error of a state in which requests are refused. *)
Definition refusal (s : connection_state) : option error_info :=
  match s with
  | connection_state.INIT | connection_state.CONNECTING => Some (client_error client_errc.not_connected)
  | connection_state.FAILED | connection_state.RECONNECTING => Some (client_error client_errc.connection_lost)
  | connection_state.CLOSING | connection_state.CLOSED => Some (client_error client_errc.connection_closed)
  | connection_state.OPEN => None
  end.

(** The trace bookkeeping at the start of [enqueue_impl]. *)
Definition trace_begin (r : request) (c : connection) : request_trace_info * connection :=
  let hooks := trace_hooks (cfg_ c) in
  if trace_hooks_enabled hooks then
    let info := mk_trace_info (next_request_id_ c) request_kind.user (command_count r) (wire_size r) in
    (info, set_traces (u64 (next_request_id_ c + 1))
             (on_starts c ++ if on_start hooks then [info] else []) (on_rejects c) c)
  else (mk_trace_info 0 request_kind.user 0 0, c).

(** A millisecond timeout from now, in nanoseconds.  The sum is an integer
    here; in the code it is a 64-bit count, which a timeout of centuries would
    overflow. *)
Definition deadline_after (now : Z) (timeout : option Z) : Z :=
  match timeout with Some ms => now + ms * 1000000 | None => time_max end.

(** [enqueue_impl(req, sink, start)]. *)
Definition enqueue_impl (now start : Z) (r : request) (addr : nat) (c : connection) : run connection :=
  let (info, c1) := trace_begin r c in
  match refusal (state_ c1) with
  | Some err => reject now start info err addr c1
  | None =>
    pb ← push r (Some addr) (deadline_after now (request_timeout (cfg_ c1))) (sinks c1) (pipeline_ c1);
    let c2 := set_pipeline (sinks c1) pb.1 c1 in
    if negb pb.2 then reject now start info (client_error client_errc.queue_full) addr c2
    else
      as_ ← deref (sinks c2) (Some addr);
      let hooks := trace_hooks (cfg_ c2) in
      let c3 :=
        if trace_hooks_enabled hooks then
          set_pipeline (<[addr := pending_set_trace hooks info start as_.2]> (sinks c2)) (pipeline_ c2) c2
        else c2 in
      Ret (notify true false true c3)
  end.

(** [enqueue<Ts...>(req)] and [enqueue_dynamic<T>(req)], dispatched on the
    strand; the new sink gets an unused address. *)
Definition enqueue (now start : Z) (types : list ty) (r : request) (addr : nat) (c : connection) :
    run connection :=
  _ ← assert (reply_count r =? zlen types);
  enqueue_impl now start r addr (set_pipeline (<[addr := fixed_sink types]> (sinks c)) (pipeline_ c) c).

Definition enqueue_dynamic (now start : Z) (t : ty) (r : request) (addr : nat) (c : connection) :
    run connection :=
  enqueue_impl now start r addr
    (set_pipeline (<[addr := dynamic_sink t (Z.to_nat (reply_count r))]> (sinks c)) (pipeline_ c) c).

(** The handler of the dispatched lambda: [enqueue_impl] threw [ep], its sink
    being at [addr]; the context is ["enqueue dispatch"] or
    ["enqueue_dynamic dispatch"]. *)
Definition enqueue_caught (now : Z) (ep : exception) (context : bytes) (addr : nat) (c : connection) :
    run connection :=
  h1 ← fail_sink_with_current_exception now (Some ep) context (Some addr) (sinks c);
  Ret (set_pipeline h1 (pipeline_ c) c).

(** ** Socket IO *)

(** The errors of [iocoro] that the code tells apart. *)
Inductive io_error : Set :=
| io_operation_aborted
| io_timed_out
| io_other (message : bytes).

Definition is_aborted (e : io_error) : bool :=
  match e with io_operation_aborted => true | _ => false end.

Definition shutting_down (s : connection_state) : bool :=
  bool_decide (s = connection_state.CLOSING) || bool_decide (s = connection_state.CLOSED).

(** [do_read()] up to [async_read_some]: [false] when it returns at once. *)
Definition do_read_begin (c : connection) : run (connection * bool) :=
  if bool_decide (state_ c <> connection_state.OPEN) then Ret (c, false)
  else
    _ ← assert (negb (read_in_flight_ c));
    p1 ← parser_prepare (parser_ c) prepare_default;
    Ret (set_parser p1 (set_in_flight true (write_in_flight_ c) c), true).

(** The socket writes into the prepared span, then [commit(n)]. *)
Definition commit_read (bs : bytes) (p : parser) : run parser :=
  b ← fill (buf_ p) bs;
  parser_commit (set_buf b p) (length bs).

(** The loop of [do_read]: every complete value goes to the pipeline. *)
Fixpoint do_read_loop (fuel : nat) (now : Z) (c : connection) : run connection :=
  match fuel with
  | O => Fault out_of_fuel
  | Datatypes.S fuel' =>
    '(p1, parsed) ← parse_one (parser_ c);
    let c1 := set_parser p1 c in
    match parsed with
    | Unexpected e =>
      c2 ← (if has_pending_read (pipeline_ c1)
            then hp ← on_error now (protocol_error e) (sinks c1) (pipeline_ c1);
                 Ret (set_pipeline hp.1 hp.2 c1)
            else Ret c1);
      handle_error now (protocol_error e) c2
    | Val None => Ret c1
    | Val (Some root) =>
      if negb (has_pending_read (pipeline_ c1)) then
        handle_error now (client_error client_errc.unsolicited_message) c1
      else
        m ← build_message (view_bytes (buf_ p1)) (tree_ p1) root;
        msg ← or_fault dangling_view (resolve (view_bytes (buf_ p1)) m);
        hp ← on_message now msg (sinks c1) (pipeline_ c1);
        p2 ← reclaim p1;
        do_read_loop fuel' now (set_parser p2 (set_pipeline hp.1 hp.2 c1))
    end
  end.

(** A value takes at least one byte, except that the first may have been read
    before. *)
Definition read_fuel (p : parser) : nat := length (data_bytes (buf_ p)) + 2.

(** [do_read()] resumed with the result of [async_read_some]; the guard is
    released when it returns. *)
Definition do_read_end (now : Z) (r : expected bytes io_error) (c : connection) : run connection :=
  c1 ← match r with
       | Unexpected e =>
         if is_aborted e && shutting_down (state_ c) then Ret c
         else handle_error now (client_error client_errc.connection_lost) c
       | Val [] => handle_error now (client_error client_errc.connection_reset) c
       | Val bs =>
         p1 ← commit_read bs (parser_ c);
         do_read_loop (read_fuel p1) now (set_parser p1 c)
       end;
  Ret (set_in_flight false (write_in_flight_ c1) c1).

(** The head of the loop of [do_write()]: the bytes it hands to
    [async_write_some], or [None] when it returns. *)
Definition do_write_next (c : connection) : run (connection * option bytes) :=
  if negb (stop_ c) && bool_decide (state_ c = connection_state.OPEN) && has_pending_write (pipeline_ c) then
    buf ← next_write_buffer (pipeline_ c);
    Ret (c, Some buf)
  else Ret (set_in_flight (read_in_flight_ c) false c, None).

(** [do_write()] from its call. *)
Definition do_write_begin (c : connection) : run (connection * option bytes) :=
  if bool_decide (state_ c <> connection_state.OPEN) then Ret (c, None)
  else
    _ ← assert (negb (write_in_flight_ c));
    do_write_next (set_in_flight (read_in_flight_ c) true c).

(** [do_write()] resumed with the result of [async_write_some]. *)
Definition do_write_resume (now : Z) (r : expected Z io_error) (c : connection) :
    run (connection * option bytes) :=
  match r with
  | Unexpected e =>
    c1 ← (if is_aborted e && shutting_down (state_ c) then Ret c
          else handle_error now (client_error client_errc.write_error) c);
    Ret (set_in_flight (read_in_flight_ c1) false c1, None)
  | Val n =>
    p1 ← on_write_done n (pipeline_ c);
    let c1 := set_pipeline (sinks c) p1 c in
    do_write_next (if has_pending_read p1 then notify false true false c1 else c1)
  end.

(** ** The loops *)

(** What a loop does at its head: wait for its event, call the operation, or
    end. *)
Inductive loop_action : Set := loop_wait | loop_call | loop_exit.

Definition write_loop_head (c : connection) : loop_action :=
  if stop_ c || bool_decide (state_ c = connection_state.CLOSED) then loop_exit
  else if bool_decide (state_ c <> connection_state.OPEN) || negb (has_pending_write (pipeline_ c))
  then loop_wait else loop_call.

Definition read_loop_head (c : connection) : loop_action :=
  if stop_ c || bool_decide (state_ c = connection_state.CLOSED) then loop_exit
  else if bool_decide (state_ c <> connection_state.OPEN) then loop_wait else loop_call.

Inductive control_action : Set :=
| control_continue
| control_reconnect
| control_wait_until (deadline : Z)
| control_wait
| control_exit.

(** One turn of [control_loop()] up to its next suspension. *)
Definition control_turn (now : Z) (c : connection) : run (connection * control_action) :=
  if stop_ c || bool_decide (state_ c = connection_state.CLOSED) then Ret (c, control_exit)
  else if bool_decide (state_ c = connection_state.FAILED) then
    if negb (enabled (reconnection (cfg_ c))) then
      Ret (notify true true false (set_stop true (set_state connection_state.CLOSING c)), control_continue)
    else Ret (c, control_reconnect)
  else
    expired ← (if bool_decide (state_ c = connection_state.OPEN) && bool_decide (is_Some (request_timeout (cfg_ c)))
               then b ← has_expired now (pipeline_ c); d ← next_deadline (pipeline_ c); Ret (Some (b, d))
               else Ret None);
    match expired with
    | Some (true, _) =>
      c1 ← handle_error now (client_error client_errc.request_timeout) c;
      Ret (c1, control_continue)
    | Some (false, next) =>
      if negb (next =? time_max) then Ret (c, control_wait_until next) else Ret (c, control_wait)
    | None =>
      if bool_decide (state_ c = connection_state.CLOSING) then Ret (c, control_exit)
      else Ret (c, control_wait)
    end.
