(* ===== verification/Connect.v ===== *)
(** * Connecting ([impl/connection/connect.ipp], [do_reconnect] of
    [impl/connection/reconnect.ipp])

    [do_connect()] as a machine: a point is a suspended [co_await], an input
    is what the environment resumes it with, and each function below is the
    code between two suspensions.  [with_timeout] and the wait for the slot
    are suspensions of their own, since other tasks of the strand may run
    before the coroutine goes on. *)

From S2P Require Import Prelude Kind Errors Charconv Buffer Message Parser Builder Adapter.
From S2P Require Import Request RingQueue ResponseSink Pipeline Config Connection.

(** The result of [do_handshake()]: an [std::error_code], of [iocoro] or of
    the library. *)
Inductive handshake_error : Set :=
| hs_io (e : io_error)
| hs_code (ec : error_code).

Definition hs_client (e : client_errc) : handshake_error := hs_code (make_client_error_code e).

(** [error_info{client_errc, detail}]. *)
Definition client_error_with (e : client_errc) (d : bytes) : error_info :=
  mk_error_info (make_client_error_code e) d.

(** The optional commands of the handshake. *)
Definition push_auth (cfg : config) (r : request) : run request :=
  match password cfg, username cfg with
  | [], _ => Ret r
  | pw, [] => push_args (s2b "AUTH") [arg_string pw] r
  | pw, user => push_args (s2b "AUTH") [arg_string user; arg_string pw] r
  end.

Definition push_select (cfg : config) (r : request) : run request :=
  if negb (database cfg =? 0) then push_args (s2b "SELECT") [arg_int (database cfg)] r else Ret r.

Definition push_setname (cfg : config) (r : request) : run request :=
  match client_name cfg with
  | [] => Ret r
  | name => push_args (s2b "CLIENT") [arg_cstr (Some (s2b "SETNAME")); arg_string name] r
  end.

(** The handshake request. *)
Definition handshake_request (cfg : config) : run request :=
  r1 ← push_args (s2b "HELLO") [arg_cstr (Some (s2b "3"))] request_new;
  r2 ← push_auth cfg r1;
  r3 ← push_select cfg r2;
  push_setname cfg r3.

(** The lambda [fail_handshake]'s argument. *)
Definition handshake_failure (other : string -> Z -> string) (e : handshake_error) : error_info :=
  match e with
  | hs_io io_timed_out => client_error client_errc.handshake_timeout
  | hs_io io_operation_aborted => client_error client_errc.operation_aborted
  | hs_io (io_other m) => client_error_with client_errc.handshake_failed m
  | hs_code ec =>
    if is_protocol_error ec then mk_error_info (mk_error_code (code_value ec) cat_protocol) []
    else if is_client_error ec then mk_error_info (mk_error_code (code_value ec) cat_client) []
    else client_error_with client_errc.handshake_failed (s2b (code_message other ec))
  end.

(** The first reply that is an error. *)
Fixpoint first_failure (results : list response_slot) : option error_info :=
  match results with
  | [] => None
  | Unexpected err :: _ => Some err
  | Val _ :: results' => first_failure results'
  end.

(** A read or a write of the handshake failed. *)
Definition handshake_io_error (e : io_error) : handshake_error :=
  hs_client (if is_aborted e then client_errc.operation_aborted else client_errc.handshake_failed).

Section connect.

(** [code.message()] of foreign categories, and the resolver's endpoints. *)
Context (other : string -> Z -> string) {endpoint : Type}.

(** Where [do_connect()] is suspended, or what it returned. *)
Inductive connect_point : Type :=
| at_resolve
| at_connect (ep : endpoint) (rest : list endpoint)
| at_write (slot : nat) (buf : bytes)
| at_read (slot : nat)
| at_join (slot : nat) (res : expected unit handshake_error)
| at_wait (slot : nat)
| finished (res : expected unit error_info).

(** [async_connect] and, when it succeeded, the two [set_option]s. *)
Inductive attempt : Set :=
| attempt_failed (e : io_error) (left_open : bool)
| attempt_ok (no_delay_res keep_alive_res : option io_error).

Inductive connect_input : Type :=
| in_resolved (r : expected (list endpoint) io_error)
| in_attempt (a : attempt) (addr : nat)
| in_written (r : expected Z io_error)
| in_read (r : expected bytes io_error)
| in_timeout
| in_continue.

Definition step_result : Type := run (connection * connect_point).

Definition fail_connect (e : client_errc) (c : connection) : step_result :=
  Ret (c, finished (Unexpected (client_error e))).

(** The start, up to [async_resolve]. *)
Definition do_connect_begin (c : connection) : connection * connect_point :=
  if stop_ c then (c, finished (Unexpected (client_error client_errc.operation_aborted)))
  else (set_parser (parser_reset (parser_ c)) c, at_resolve).

(** [fail_handshake]. *)
Definition fail_handshake (now : Z) (err : error_info) (c : connection) : step_result :=
  c1 ← clear_pipeline now err c;
  Ret (c1, finished (Unexpected err)).

(** The handshake succeeded. *)
Definition connect_succeeded (now : Z) (c : connection) : connection :=
  let from := state_ c in
  let c1 := set_attempts (u64 (generation_ c + 1)) 0 (set_state connection_state.OPEN c) in
  let c2 := emit_connection_event now ev_connected stage_handshake (Some from) (Some connection_state.OPEN)
              no_error_info c1 in
  set_parser (parser_reset (parser_ c2)) c2.

(** After [slot->wait()]: every reply is looked at. *)
Definition check_replies (now : Z) (slot : nat) (c : connection) : step_result :=
  as_ ← deref (sinks c) (Some slot);
  results ← wait_result as_.2;
  match first_failure results with
  | Some err =>
    if bool_decide (code_category (code err) = cat_server) then Ret (c, finished (Unexpected err))
    else fail_handshake now (client_error_with client_errc.handshake_failed (error_info_to_string other err)) c
  | None => Ret (connect_succeeded now c, finished (Val tt))
  end.

(** After [do_handshake()]. *)
Definition handshake_end (now : Z) (slot : nat) (res : expected unit handshake_error) (c : connection) :
    step_result :=
  match res with
  | Unexpected e => fail_handshake now (handshake_failure other e) c
  | Val _ =>
    as_ ← deref (sinks c) (Some slot);
    if negb (is_complete as_.2) then
      fail_handshake now (client_error_with client_errc.handshake_failed (s2b "handshake slot incomplete")) c
    else Ret (c, at_wait slot)
  end.

(** [do_handshake()] returned [res]: with a timeout, [with_timeout] has to be
    resumed first. *)
Definition handshake_return (now : Z) (slot : nat) (res : expected unit handshake_error) (c : connection) :
    step_result :=
  match request_timeout (cfg_ c), connect_timeout (cfg_ c) with
  | None, None => handshake_end now slot res c
  | _, _ => Ret (c, at_join slot res)
  end.

(** The head of the second loop of the handshake. *)
Definition handshake_read (now : Z) (slot : nat) (c : connection) : step_result :=
  as_ ← deref (sinks c) (Some slot);
  if negb (stop_ c) && negb (is_complete as_.2) then
    p1 ← parser_prepare (parser_ c) prepare_default;
    Ret (set_parser p1 c, at_read slot)
  else
    handshake_return now slot
      (if stop_ c then Unexpected (hs_client client_errc.operation_aborted) else Val tt) c.

(** The head of the first loop. *)
Definition handshake_write (now : Z) (slot : nat) (c : connection) : step_result :=
  if negb (stop_ c) && has_pending_write (pipeline_ c) then
    buf ← next_write_buffer (pipeline_ c);
    Ret (c, at_write slot buf)
  else handshake_read now slot c.

(** The inner loop over the values of a read: [Some e] when the handshake
    returns an error. *)
Fixpoint handshake_parse (fuel : nat) (now : Z) (slot : nat) (c : connection) :
    run (connection * option handshake_error) :=
  match fuel with
  | O => Fault out_of_fuel
  | Datatypes.S fuel' =>
    '(p1, parsed) ← parse_one (parser_ c);
    let c1 := set_parser p1 c in
    match parsed with
    | Unexpected e =>
      c2 ← (if has_pending_read (pipeline_ c1) then
              hp ← on_error now (protocol_error e) (sinks c1) (pipeline_ c1);
              Ret (set_pipeline hp.1 hp.2 c1)
            else Ret c1);
      Ret (c2, Some (hs_code (make_protocol_error_code e)))
    | Val None => Ret (c1, None)
    | Val (Some root) =>
      if negb (has_pending_read (pipeline_ c1)) then
        Ret (c1, Some (hs_client client_errc.unsolicited_message))
      else
        m ← build_message (view_bytes (buf_ p1)) (tree_ p1) root;
        msg ← or_fault dangling_view (resolve (view_bytes (buf_ p1)) m);
        hp ← on_message now msg (sinks c1) (pipeline_ c1);
        p2 ← reclaim p1;
        let c2 := set_parser p2 (set_pipeline hp.1 hp.2 c1) in
        as_ ← deref (sinks c2) (Some slot);
        if is_complete as_.2 then Ret (c2, None) else handshake_parse fuel' now slot c2
    end
  end.

(** The handshake request is built and pushed; [addr] is its sink. *)
Definition start_handshake (now : Z) (addr : nat) (c : connection) : step_result :=
  req ← handshake_request (cfg_ c);
  let h := <[addr := dynamic_sink TIgnore (Z.to_nat (reply_count req))]> (sinks c) in
  pb ← push_no_deadline req (Some addr) h (pipeline_ c);
  let c1 := set_pipeline h pb.1 c in
  if negb pb.2 then fail_connect client_errc.queue_full c1 else handshake_write now addr c1.

(** After the loop over the endpoints, [ec] being [connect_ec]. *)
Definition after_attempts (now : Z) (ec : option io_error) (addr : nat) (c : connection) : step_result :=
  match ec with
  | Some io_timed_out => fail_connect client_errc.connect_timeout c
  | Some io_operation_aborted => fail_connect client_errc.operation_aborted c
  | Some (io_other m) =>
    Ret (c, finished (Unexpected (client_error_with client_errc.connect_failed m)))
  | None => if stop_ c then fail_connect client_errc.operation_aborted c else start_handshake now addr c
  end.

(** An attempt failed with [ec]: the next endpoint, if any. *)
Definition next_endpoint (now : Z) (ec : io_error) (rest : list endpoint) (addr : nat) (c : connection) :
    step_result :=
  match rest with
  | [] => after_attempts now (Some ec) addr c
  | ep :: rest' => Ret (close_socket c, at_connect ep rest')
  end.

Definition on_attempt (now : Z) (a : attempt) (rest : list endpoint) (addr : nat) (c : connection) :
    step_result :=
  match a with
  | attempt_failed e left_open => next_endpoint now e rest addr (set_socket left_open c)
  | attempt_ok (Some e) _ | attempt_ok None (Some e) => next_endpoint now e rest addr (set_socket false c)
  | attempt_ok None None => after_attempts now None addr (set_socket true c)
  end.

Definition on_resolved (r : expected (list endpoint) io_error) (c : connection) : step_result :=
  match r with
  | Unexpected io_timed_out => fail_connect client_errc.resolve_timeout c
  | Unexpected io_operation_aborted => fail_connect client_errc.operation_aborted c
  | Unexpected (io_other _) => fail_connect client_errc.resolve_failed c
  | Val [] => fail_connect client_errc.resolve_failed c
  | Val (ep :: rest) =>
    if stop_ c then fail_connect client_errc.operation_aborted c
    else Ret (close_socket c, at_connect ep rest)
  end.

Definition on_written (now : Z) (slot : nat) (r : expected Z io_error) (c : connection) : step_result :=
  match r with
  | Unexpected e => handshake_return now slot (Unexpected (handshake_io_error e)) c
  | Val n =>
    p1 ← on_write_done n (pipeline_ c);
    handshake_write now slot (set_pipeline (sinks c) p1 c)
  end.

Definition on_read (now : Z) (slot : nat) (r : expected bytes io_error) (c : connection) : step_result :=
  match r with
  | Unexpected e => handshake_return now slot (Unexpected (handshake_io_error e)) c
  | Val [] => handshake_return now slot (Unexpected (hs_client client_errc.connection_reset)) c
  | Val bs =>
    p1 ← commit_read bs (parser_ c);
    ce ← handshake_parse (read_fuel p1) now slot (set_parser p1 c);
    match ce.2 with
    | Some e => handshake_return now slot (Unexpected e) ce.1
    | None => handshake_read now slot ce.1
    end
  end.

(** [do_connect()] resumed at a point with an input; [None] when the input
    does not belong there. *)
Definition do_connect_resume (now : Z) (pt : connect_point) (i : connect_input) (c : connection) :
    option step_result :=
  match pt, i with
  | at_resolve, in_resolved r => Some (on_resolved r c)
  | at_connect _ rest, in_attempt a addr => Some (on_attempt now a rest addr c)
  | at_write slot _, in_written r => Some (on_written now slot r c)
  | at_read slot, in_read r => Some (on_read now slot r c)
  | (at_write slot _ | at_read slot), in_timeout =>
    match request_timeout (cfg_ c), connect_timeout (cfg_ c) with
    | None, None => None
    | _, _ => Some (handshake_end now slot (Unexpected (hs_io io_timed_out)) c)
    end
  | at_join slot res, in_continue => Some (handshake_end now slot res c)
  | at_wait slot, in_continue => Some (check_replies now slot c)
  | _, _ => None
  end.

(** ** [do_reconnect()] *)

(** [std::pow], the result of [std::llround] on a domain error. *)
Context (pow : double -> double -> double) (unspecified : double -> Z).

Inductive reconnect_point : Type :=
| at_backoff (deadline : Z)
| at_attempt (pt : connect_point)
| reconnect_done.

(** [jitter] is the thread's [jitter_state]. *)
Definition reconnect_result : Type := connection * Z * reconnect_point.

(** From the check after the backoff to the first suspension of
    [do_connect()]. *)
Definition reconnect_attempt (jitter : Z) (c : connection) : reconnect_result :=
  if stop_ c || bool_decide (state_ c = connection_state.CLOSING) then (c, jitter, reconnect_done)
  else
    let (c1, pt) := do_connect_begin (set_state connection_state.RECONNECTING c) in
    (c1, jitter, at_attempt pt).

(** The head of the inner loop. *)
Definition backoff_turn (now deadline jitter : Z) (c : connection) : reconnect_result :=
  if negb (stop_ c) && bool_decide (state_ c <> connection_state.CLOSING) && negb (deadline <=? now)
  then (c, jitter, at_backoff deadline)
  else reconnect_attempt jitter c.

(** The head of the outer loop. *)
Definition reconnect_head (now jitter : Z) (c : connection) : run reconnect_result :=
  if stop_ c || bool_decide (state_ c = connection_state.CLOSED) then Ret (c, jitter, reconnect_done)
  else
    _ ← assert (bool_decide (state_ c = connection_state.FAILED));
    let (delay, jitter1) := calculate_reconnect_delay pow unspecified (reconnection (cfg_ c))
                              (reconnect_count_ c) (generation_ c) jitter in
    Ret (if 0 <? delay then backoff_turn now (now + delay * 1000000) jitter1 c
         else reconnect_attempt jitter1 c).

(** [do_connect()] returned [res].  [reconnect_count_] is an integer here, an
    [int] in the code: the model is exact for fewer than [2^31] failures in a
    row. *)
Definition reconnect_after (now jitter : Z) (res : expected unit error_info) (c : connection) :
    run reconnect_result :=
  match res with
  | Unexpected _ =>
    let c1 := set_state connection_state.FAILED c in
    reconnect_head now jitter (set_attempts (generation_ c1) (reconnect_count_ c1 + 1) c1)
  | Val _ =>
    _ ← assert (bool_decide (state_ c = connection_state.OPEN));
    Ret (notify true true true (set_attempts (generation_ c) 0 c), jitter, reconnect_done)
  end.

(** [do_reconnect()] resumed: after a wait of the backoff, or inside
    [do_connect()]. *)
Definition do_reconnect_resume (now jitter : Z) (pt : reconnect_point) (i : connect_input) (c : connection) :
    option (run reconnect_result) :=
  match pt, i with
  | at_backoff deadline, in_continue => Some (Ret (backoff_turn now deadline jitter c))
  | at_attempt cp, _ =>
    match do_connect_resume now cp i c with
    | Some r =>
      Some (cp' ← r;
            match cp'.2 with
            | finished res => reconnect_after now jitter res cp'.1
            | pt' => Ret (cp'.1, jitter, at_attempt pt')
            end)
    | None => None
    end
  | _, _ => None
  end.

End connect.

Arguments connect_point : clear implicits.
Arguments connect_input : clear implicits.
Arguments reconnect_point : clear implicits.
