(* ===== verification/ConnectionSpec.v ===== *)
(** * What holds of the connection

    The invariant that every piece of the connection keeps, what each piece
    does on every branch, and the sequences of pieces that the code does not
    survive. *)

From S2P Require Import Prelude Kind Errors Charconv Buffer Message Parser Builder Adapter.
From S2P Require Import ParserInv ParserSafety ParserViews Wire WireParse.
From S2P Require Import Request RingQueue ResponseSink Pipeline PipelineSpec Config Connection.

(** ** The invariant *)

(** The states in which nothing is pending. *)
Definition quiet (s : connection_state) : bool :=
  match s with
  | connection_state.OPEN | connection_state.CONNECTING | connection_state.RECONNECTING => false
  | _ => true
  end.

Record conn_ok (c : connection) (pend : list pending_item) (await : list awaiting_item) : Prop := {
  ok_snapshot : state_snapshot_ c = state_ c;
  ok_inv : inv (sinks c) (pipeline_ c) pend await;
  ok_quiet : quiet (state_ c) = true -> pend = [] /\ await = [];
}.

(** No request is waiting. *)
Definition nothing_pending (c : connection) : Prop := conn_ok c [] [].

Lemma conn_ok_new cfg :
  0 <= max_pending_write_bytes (queue_limits cfg) <= u64_max -> nothing_pending (connection_new cfg).
Proof. intros Hl. constructor; [done|by apply inv_new|done]. Qed.

(** The fields that [set_pipeline], [notify], ... do not touch. *)
Lemma close_socket_eq c : close_socket c = set_socket false c.
Proof. unfold close_socket. by destruct c as [? []]. Qed.

Lemma clear_pipeline_ok now err c pend await :
  inv (sinks c) (pipeline_ c) pend await ->
  exists h' p', clear_pipeline now err c = Ret (set_pipeline h' p' c) /\ inv h' p' [] [] /\
    failed err (ptrs pend await) (sinks c) h'.
Proof.
  intros Hi. destruct (clear_all_inv now err _ _ _ _ Hi) as (h' & p' & Hc & _ & Hi' & Hf).
  exists h', p'. unfold clear_pipeline. by rewrite Hc.
Qed.

Lemma emit_event_fields now k st f t e c :
  let c' := emit_connection_event now k st f t e c in
  state_ c' = state_ c /\ state_snapshot_ c' = state_snapshot_ c /\ sinks c' = sinks c /\
  pipeline_ c' = pipeline_ c /\ socket_open c' = socket_open c /\ stop_ c' = stop_ c /\
  actor_running_ c' = actor_running_ c /\ actor_done_ c' = actor_done_ c /\ cfg_ c' = cfg_ c /\
  generation_ c' = generation_ c /\ parser_ c' = parser_ c /\
  on_events c' = on_events c ++
    (if connection_hooks (cfg_ c)
     then [mk_event k st now (generation_ c) (reconnect_count_ c) (state_int <$> f) (state_int <$> t) e]
     else []).
Proof.
  unfold emit_connection_event. destruct (connection_hooks (cfg_ c)); cbn; rewrite ?app_nil_r; done.
Qed.

(** ** [handle_error], [close], the end of the actor *)

(** What a runtime error does to an open connection. *)
Definition failed_with (now : Z) (err : error_info) (c c' : connection) : Prop :=
  nothing_pending c' /\ state_ c' = connection_state.FAILED /\ socket_open c' = false /\
  generation_ c' = generation_ c /\ stop_ c' = stop_ c /\ actor_running_ c' = actor_running_ c /\
  parser_ c' = parser_ c /\ cfg_ c' = cfg_ c /\
  on_events c' = on_events c ++
    (if connection_hooks (cfg_ c)
     then [mk_event ev_disconnected stage_runtime_io now (generation_ c) (reconnect_count_ c)
             (Some (state_int connection_state.OPEN)) (Some (state_int connection_state.FAILED)) err]
     else []).

Lemma handle_error_open now err c pend await :
  conn_ok c pend await -> state_ c = connection_state.OPEN ->
  exists c', handle_error now err c = Ret c' /\ failed_with now err c c' /\
    failed err (ptrs pend await) (sinks c) (sinks c').
Proof.
  intros [Hsn Hi _] Hst. unfold handle_error. rewrite Hst. cbn [bool_decide assert].
  rewrite bool_decide_true by done. cbn [assert mbind run_bind].
  pose proof (emit_event_fields now ev_disconnected stage_runtime_io (Some connection_state.OPEN)
    (Some connection_state.FAILED) err (set_state connection_state.FAILED c)) as He.
  set (c1 := emit_connection_event _ _ _ _ _ _ _) in *. cbn zeta in He. clearbody c1.
  destruct He as (He1 & He2 & He3 & He4 & He5 & He6 & He7 & He8 & He9 & He10 & He11 & He12).
  cbn in He1, He2, He3, He4, He5, He6, He7, He8, He9, He10, He11, He12.
  rewrite <- He3, <- He4 in Hi. destruct (clear_pipeline_ok now err c1 pend await Hi) as (h' & p' & Hc & Hi' & Hf).
  rewrite Hc. cbn [mbind run_bind]. eexists. split; [done|]. rewrite close_socket_eq. split.
  - split; [|cbn; rewrite He12; repeat split; try done; congruence]. constructor; cbn; [congruence|done|done].
  - by rewrite <- He3.
Qed.

Lemma handle_error_ignored now err c :
  state_ c <> connection_state.OPEN -> state_ c <> connection_state.INIT ->
  state_ c <> connection_state.CONNECTING -> handle_error now err c = Ret c.
Proof. intros. unfold handle_error. by destruct (state_ c). Qed.

Lemma transition_to_closed_ok now c pend await :
  conn_ok c pend await ->
  exists c', transition_to_closed now c = Ret c' /\ nothing_pending c' /\
    state_ c' = connection_state.CLOSED /\ socket_open c' = false /\ stop_ c' = stop_ c /\
    actor_running_ c' = actor_running_ c /\ actor_done_ c' = actor_done_ c /\
    failed (client_error client_errc.connection_closed) (ptrs pend await) (sinks c) (sinks c').
Proof.
  intros [Hsn Hi _]. unfold transition_to_closed.
  destruct (clear_pipeline_ok now (client_error client_errc.connection_closed)
    (set_state connection_state.CLOSED c) pend await Hi) as (h' & p' & Hc & Hi' & Hf).
  rewrite Hc. cbn [mbind run_bind]. rewrite close_socket_eq. eexists. split; [done|].
  destruct (emit_event_fields now ev_closed stage_close (Some (state_ c)) (Some connection_state.CLOSED)
    no_error_info (set_socket false (set_pipeline h' p' (set_state connection_state.CLOSED c))))
    as (He1 & He2 & He3 & He4 & He5 & He6 & He7 & He8 & _).
  rewrite He1, He3, He5, He6, He7, He8. split; [|done].
  constructor; rewrite ?He1, ?He2, ?He3, ?He4; done.
Qed.

Lemma close_begin_ok now c pend await :
  conn_ok c pend await -> state_ c <> connection_state.CLOSED ->
  exists c', close_begin now c = Ret (c', Some (actor_running_ c)) /\ nothing_pending c' /\
    state_ c' = connection_state.CLOSING /\ stop_ c' = true /\ socket_open c' = false /\
    actor_running_ c' = actor_running_ c /\
    failed (client_error client_errc.connection_closed) (ptrs pend await) (sinks c) (sinks c').
Proof.
  intros [Hsn Hi _] Hst. unfold close_begin. rewrite bool_decide_false by done.
  destruct (clear_pipeline_ok now (client_error client_errc.connection_closed)
    (set_state connection_state.CLOSING (set_stop true c)) pend await Hi) as (h' & p' & Hc & Hi' & Hf).
  rewrite Hc. cbn [mbind run_bind]. rewrite close_socket_eq. eexists. split; [done|]. split; [|done].
  constructor; done.
Qed.

(** ** Requests *)

(** Changing one sink of the store. *)
Lemma inv_update {h : sink_store} {p : conn_pipeline} {pend await} a (s : sink) :
  inv h p pend await -> sink_wf s -> is_complete s = false -> inv (<[a := s]> h) p pend await.
Proof.
  intros [Hq1 Hq2 Hl Hb Hbd Hit Hok Hnd] Hwf Hc. constructor; try done.
  rewrite Forall_forall in *. intros ptr Hp. destruct (decide (ptr = Some a)) as [->|Hne].
  - exists a, s. by rewrite lookup_insert_eq.
  - by apply ptr_ok_other; [apply Hok|].
Qed.

Lemma inv_other {h : sink_store} {p : conn_pipeline} {pend await} a (s : sink) :
  inv h p pend await -> Some a ∉ ptrs pend await -> inv (<[a := s]> h) p pend await.
Proof.
  intros [Hq1 Hq2 Hl Hb Hbd Hit Hok Hnd] Ha. constructor; try done. by apply ptrs_ok_other.
Qed.

(** A new sink: nothing delivered, at least one reply expected. *)
Definition fresh_for (n : nat) (s : sink) : Prop :=
  sink_wf s /\ sink_slots s = [] /\ is_complete s = false /\ length (sink_types s) = n.

Lemma fixed_sink_fresh types : types <> [] -> fresh_for (length types) (fixed_sink types).
Proof.
  intros Hne. destruct (response_builder_new_wf types) as (Hwf & Hty & Hsl).
  assert (sink_wf (fixed_sink types)) as Hs by (apply pending_new_wf; [exact Hwf|exact Hsl|by rewrite <- Hty in Hne]).
  split; [done|]. split; [exact Hsl|]. split; [done|]. cbn. by rewrite <- Hty at 2.
Qed.

Lemma dynamic_sink_fresh t n : (0 < n)%nat -> fresh_for n (dynamic_sink t n).
Proof.
  intros Hn. assert (sink_wf (dynamic_sink t n)) as Hs.
  { apply pending_new_wf; [cbn; lia|done|]. destruct n; [lia|done]. }
  split; [done|]. split; [done|]. split; [done|]. cbn. by rewrite length_replicate.
Qed.

(** The request was refused: its sink holds the error in every slot, and
    nothing else changed. *)
Definition refused (n : nat) (err : error_info) (addr : nat) (c c' : connection) : Prop :=
  pipeline_ c' = pipeline_ c /\ state_ c' = state_ c /\
  exists s', sinks c' = <[addr := s']> (sinks c) /\ sink_wf s' /\
    sink_result s' = Some (replicate n (Unexpected err)).

(** The request was accepted: it is the last of the pipeline, with the
    deadline of the configured timeout. *)
Definition accepted (now : Z) (r : request) (addr : nat) (c c' : connection) (pend : list pending_item)
    (await : list awaiting_item) : Prop :=
  state_ c' = state_ c /\
  conn_ok c' (pend ++ [mk_pending_item r (Some addr) 0 (deadline_after now (request_timeout (cfg_ c)))]) await /\
  exists s', sinks c' = <[addr := s']> (sinks c) /\ is_complete s' = false /\ sink_slots s' = [].

(** Who is turned away, and with which error, by the state of the connection
    and by whether the pipeline has room: the table of the contract, state by
    state. *)
Inductive turned_away (room : bool) : connection_state -> error_info -> Prop :=
| away_init : turned_away room connection_state.INIT (client_error client_errc.not_connected)
| away_connecting : turned_away room connection_state.CONNECTING (client_error client_errc.not_connected)
| away_failed : turned_away room connection_state.FAILED (client_error client_errc.connection_lost)
| away_reconnecting : turned_away room connection_state.RECONNECTING (client_error client_errc.connection_lost)
| away_closing : turned_away room connection_state.CLOSING (client_error client_errc.connection_closed)
| away_closed : turned_away room connection_state.CLOSED (client_error client_errc.connection_closed)
| away_full : room = false -> turned_away room connection_state.OPEN (client_error client_errc.queue_full).

Lemma turned_away_refusal room st err :
  turned_away room st err ->
  refusal st = Some err \/ refusal st = None /\ room = false /\ err = client_error client_errc.queue_full.
Proof. destruct 1; by auto. Qed.

Lemma deref_at (h : sink_store) a s : h !! a = Some s -> deref h (Some a) = Ret (a, s).
Proof. intros Hs. unfold deref. rewrite bool_decide_true by eauto. simpl. by rewrite Hs. Qed.

Lemma insert_twice (h : sink_store) a (s1 s2 : sink) : <[a := s2]> (<[a := s1]> h) = <[a := s2]> h.
Proof. apply insert_insert_eq. Qed.

Lemma reject_ok now start info err addr c c0 s n :
  sinks c = <[addr := s]> (sinks c0) -> fresh_for n s ->
  pipeline_ c = pipeline_ c0 -> state_ c = state_ c0 -> state_snapshot_ c = state_snapshot_ c0 ->
  exists c', reject now start info err addr c = Ret c' /\ refused n err addr c0 c' /\
    state_snapshot_ c' = state_snapshot_ c0.
Proof.
  intros Hs (Hwf & Hsl & Hc & Hlen) Hp Hst Hsn. unfold reject.
  rewrite (deref_at _ addr s) by (rewrite Hs; apply lookup_insert_eq). cbn [mbind run_bind fst snd].
  destruct (fail_all_spec now err s Hwf) as (s' & Hf & Hwf' & Hc' & Hty & Hsl').
  rewrite Hf. cbn [mbind run_bind]. eexists. split; [done|].
  assert (sink_result s' = Some (replicate n (Unexpected err))) as Hres.
  { rewrite sink_result_eq, Hc', Hsl', Hsl by done. unfold missing. by rewrite Hsl, Hlen, Nat.sub_0_r. }
  destruct (trace_hooks_enabled _ && _); cbn; rewrite Hs, insert_twice; (split; [|done]);
    (split; [done|]); (split; [done|]); by exists s'.
Qed.

Lemma trace_begin_fields r c :
  let c1 := (trace_begin r c).2 in
  state_ c1 = state_ c /\ state_snapshot_ c1 = state_snapshot_ c /\ sinks c1 = sinks c /\
  pipeline_ c1 = pipeline_ c /\ cfg_ c1 = cfg_ c.
Proof. unfold trace_begin. by destruct (trace_hooks_enabled _). Qed.

Lemma enqueue_impl_ok now start r addr c c0 s n pend await :
  conn_ok c0 pend await -> sinks c0 !! addr = None ->
  c = set_pipeline (<[addr := s]> (sinks c0)) (pipeline_ c0) c0 ->
  fresh_for n s -> reply_count r = Z.of_nat n ->
  exists c', enqueue_impl now start r addr c = Ret c' /\
    match refusal (state_ c0) with
    | Some err => refused n err addr c0 c' /\ state_snapshot_ c' = state_ c'
    | None =>
      if has_room r (pipeline_ c0) then accepted now r addr c0 c' pend await
      else refused n (client_error client_errc.queue_full) addr c0 c' /\ state_snapshot_ c' = state_ c'
    end.
Proof.
  intros [Hsn Hi Hq] Ha -> Hfr Hcnt. pose proof Hfr as (Hwf & Hsl & Hc & Hlen). unfold enqueue_impl.
  set (c := set_pipeline _ _ c0).
  pose proof (trace_begin_fields r c) as (Ht1 & Ht2 & Ht3 & Ht4 & Ht5).
  destruct (trace_begin r c) as [info c1]. cbn [snd set_pipeline c state_ state_snapshot_ sinks pipeline_ cfg_] in *.
  rewrite Ht1.
  assert (Some addr ∉ ptrs pend await) as Hout by (eapply fresh_ptr; [exact Ha|apply Hi]).
  destruct (refusal (state_ c0)) as [err|] eqn:Eref.
  { destruct (reject_ok now start info err addr c1 c0 s n) as (c' & Hr & Href & Hsn'); try done.
    exists c'. split; [done|]. split; [done|]. destruct Href as (_ & Hst & _). congruence. }
  pose proof (inv_update addr s Hi Hwf Hc) as Hi1.
  destruct (push_inv _ _ _ _ r addr s (deadline_after now (request_timeout (cfg_ c1))) Hi1
    (lookup_insert_eq _ _ _) Hwf Hc Hout) as (p' & Hp & Hres); [by rewrite Hlen|].
  rewrite Ht3, Ht4, Hp. cbn [mbind run_bind fst snd]. destruct (has_room r (pipeline_ c0)); cbn [negb].
  - destruct Hres as [Hi' Hl']. cbn [set_pipeline sinks].
    rewrite (deref_at _ addr s) by apply lookup_insert_eq. cbn [mbind run_bind fst snd].
    eexists. split; [done|]. rewrite Ht5 in Hi'.
    destruct (trace_hooks_enabled _).
    + split; [exact Ht1|]. split.
      * constructor; cbn; [congruence|by apply inv_update|]. rewrite Ht1. by destruct (state_ c0).
      * eexists. split; [cbn; by rewrite insert_twice|]. done.
    + split; [exact Ht1|]. split; [|by exists s].
      constructor; cbn; [congruence|done|]. rewrite Ht1. by destruct (state_ c0).
  - destruct (reject_ok now start info (client_error client_errc.queue_full) addr
      (set_pipeline (<[addr := s]> (sinks c0)) p' c1) c0 s n) as (c' & Hr & Href & Hsn'); try done.
    exists c'. split; [done|]. split; [done|]. destruct Href as (_ & Hst & _). congruence.
Qed.

(** ** Reading *)

(** A runtime error may be reported here: [handle_error] asserts that the
    connection was open once. *)
Definition was_open (s : connection_state) : bool :=
  match s with connection_state.INIT | connection_state.CONNECTING => false | _ => true end.

(** After a runtime error: unchanged when it was already handled, failed
    otherwise. *)
Definition error_handled (now : Z) (err : error_info) (c c' : connection) : Prop :=
  (state_ c <> connection_state.OPEN /\ c' = c) \/
  (state_ c = connection_state.OPEN /\ failed_with now err c c').

Lemma handle_error_ok now err c pend await :
  conn_ok c pend await -> was_open (state_ c) = true ->
  exists c', handle_error now err c = Ret c' /\ error_handled now err c c' /\
    exists pend' await', conn_ok c' pend' await'.
Proof.
  intros Hok Hst. destruct (decide (state_ c = connection_state.OPEN)) as [Ho|Hno].
  - destruct (handle_error_open now err c pend await Hok Ho) as (c' & Hh & Hf & _).
    exists c'. split; [done|]. split; [by right|]. exists [], []. apply Hf.
  - exists c. split; [|split; [by left|eauto]]. apply handle_error_ignored; [done| |];
      intros E; rewrite E in Hst; done.
Qed.

(** The storage is sound and below 4 GiB. *)
Definition storage_ok (p : parser) : Prop := buffer_wf (buf_ p) /\ small p.

(** The end of a read: the connection is as it was, with the same requests to
    write, or it failed. *)
Definition read_done (pend : list pending_item) (c : connection) (r : run connection) : Prop :=
  exists c', r = Ret c' /\
    (exists pend' await', conn_ok c' pend' await' /\ (state_ c' = connection_state.OPEN -> pend' = pend)) /\
    (state_ c' = state_ c \/ state_ c' = connection_state.FAILED /\ socket_open c' = false) /\
    storage_ok (parser_ c') /\ (state_ c' = connection_state.OPEN -> parser_inv (parser_ c')).

Lemma handle_error_done now err c c1 pend await :
  conn_ok c1 pend await -> state_ c1 = state_ c -> was_open (state_ c) = true ->
  storage_ok (parser_ c1) -> read_done pend c (handle_error now err c1).
Proof.
  intros Hok Hst Ho Hwf. rewrite <- Hst in Ho.
  destruct (handle_error_ok now err c1 _ _ Hok Ho) as (c' & Hh & Herr & pend' & await' & Hok').
  exists c'. split; [done|]. rewrite <- Hst.
  destruct Herr as [[Hno ->]|[_ (_ & Hf & Hso & _ & _ & _ & Hp & _)]].
  - split; [by exists pend', await'|]. by split; [left|].
  - rewrite Hf, Hp. split; [by exists pend', await'|]. by split; [right|].
Qed.

(** The parser of a connection between two reads. *)
Definition parser_ok (p : parser) : Prop := parser_inv p /\ small p /\ texts_live p.

Lemma parsed_read_pos p root : parsed p root -> (1 <= read_pos_ (buf_ p))%nat.
Proof.
  intros (_ & _ & Hn & closed & Hin & Hcore & _). apply list_elem_of_lookup in Hin as [i Hi].
  destruct (ci_closed _ _ _ _ _ Hcore i root Hi) as (_ & n & Hnode & _).
  apply lookup_lt_Some in Hnode. unfold zlen in Hn. lia.
Qed.

Lemma reclaim_ok p root :
  parsed p root -> buffer_wf (buf_ p) -> small p -> failed_ p = false ->
  exists p', reclaim p = Ret p' /\ ready_for p' /\ read_pos_ (buf_ p') = 0%nat /\
    data_bytes (buf_ p') = data_bytes (buf_ p) /\ length (buffer_ (buf_ p')) = length (buffer_ (buf_ p)).
Proof.
  intros Hp Hwf Hsm Hf. unfold reclaim. destruct (compact_spec _ Hwf) as (b' & Hc & Hwf' & Hd & H0 & _ & Hlen).
  rewrite Hc. cbn [mbind run_bind]. eexists. split; [done|]. cbn [buf_]. split; [|by repeat (split; [done|])].
  split; [done|]. split; [done|]. split; [done|]. split; [done|].
  unfold small, zlen in *. cbn [buf_]. by rewrite Hlen.
Qed.

Lemma on_message_reply now m (h : sink_store) (p : conn_pipeline) :
  on_message now m h p = on_reply (deliver_reply now (reply_message m)) h p.
Proof. done. Qed.

Lemma on_error_reply now e (h : sink_store) (p : conn_pipeline) :
  on_error now e h p = on_reply (deliver_reply now (reply_error e)) h p.
Proof. done. Qed.

(** A bound on the values a parser can still give: each takes a byte, except
    that the first may have been read before. *)
Definition turns (p : parser) : nat :=
  length (data_bytes (buf_ p)) + (if (read_pos_ (buf_ p) =? 0)%nat then 0 else 1).

Lemma turns_read_fuel p : (turns p < read_fuel p)%nat.
Proof. unfold turns, read_fuel. destruct (_ =? 0)%nat; lia. Qed.

(** What [parse_one] gives on the parser of a connection: a value can be
    built and reclaimed, and then fewer bytes are left. *)
Definition next_value (p p1 : parser) (res : expected (option Z) protocol_errc) : Prop :=
  match res with
  | Val (Some root) =>
    exists m bm p2, build_message (view_bytes (buf_ p1)) (tree_ p1) root = Ret m /\
      resolve (view_bytes (buf_ p1)) m = Some bm /\ reclaim p1 = Ret p2 /\ ready_for p2 /\
      (turns p2 < turns p)%nat
  | Val None => parser_ok p1
  | Unexpected _ => True
  end.

Lemma parse_one_next p :
  parser_ok p -> exists p1 res, parse_one p = Ret (p1, res) /\ storage_ok p1 /\ next_value p p1 res.
Proof.
  intros (Hinv & Hsm & Hlive). destruct (parse_one_inv _ Hinv Hsm) as (p1 & res & Hone & Hsame & Hinv1 & Hres).
  exists p1, res. split; [done|]. pose proof (views_kept_parse_one _ _ _ Hone) as [_ Hkept].
  pose proof (small_same _ _ Hsame Hsm) as Hsm1. split; [split; [apply Hinv1|done]|].
  destruct res as [[root|]|e]; [| |done].
  2: { split; [done|]. split; [done|by apply Hkept]. }
  destruct Hres as [Hf1 Hres].
  destruct (parsed_builds p1 root Hres (proj1 Hinv1) Hsm1 (Hkept Hlive)) as (m & bm & Hb & _ & Hrs).
  destruct (reclaim_ok p1 root Hres (proj1 Hinv1) Hsm1 Hf1) as (p2 & Hrec & Hrdy & Hrp & Hd & _).
  exists m, bm, p2. do 4 (split; [done|]). unfold turns. rewrite Hd, Hrp.
  destruct Hsame as (_ & _ & Hw & _ & Hle). rewrite !length_data_bytes by (apply Hinv1 || apply Hinv).
  pose proof (parsed_read_pos _ _ Hres). destruct Hinv1 as ((? & ? & ?) & _). rewrite Hw in *.
  destruct Hinv as ((? & ? & ?) & _). simpl. destruct (_ =? 0)%nat eqn:E; [apply Nat.eqb_eq in E|]; lia.
Qed.

(** Delivering to the front request of an open connection. *)
Lemma conn_ok_reply now r c pend await :
  conn_ok c pend await -> has_pending_read (pipeline_ c) = true ->
  exists h' p' await', on_reply (deliver_reply now r) (sinks c) (pipeline_ c) = Ret (h', p') /\
    conn_ok (set_pipeline h' p' c) pend await'.
Proof.
  intros Hok Hpr. destruct (has_pending_read_front _ _ _ _ (ok_inv _ _ _ Hok) Hpr) as (ai & await' & ->).
  destruct (on_reply_inv now r _ _ _ _ _ (ok_inv _ _ _ Hok)) as (a & s & s' & p' & _ & _ & _ & _ & Hmsg & _ & Hi').
  eexists _, _, _. split; [exact Hmsg|]. constructor; [apply Hok|exact Hi'|].
  intros Hq. destruct (ok_quiet _ _ _ Hok Hq) as [_ [=]].
Qed.

(** One turn of the loop of [do_read]: it returns, or a message was delivered
    and the unread bytes are what is left. *)
Lemma do_read_turn f now c pend await :
  conn_ok c pend await -> was_open (state_ c) = true -> parser_ok (parser_ c) ->
  read_done pend c (do_read_loop (Datatypes.S f) now c) \/
  (exists c2 await', do_read_loop (Datatypes.S f) now c = do_read_loop f now c2 /\
     conn_ok c2 pend await' /\ state_ c2 = state_ c /\ ready_for (parser_ c2) /\
     (turns (parser_ c2) < turns (parser_ c))%nat).
Proof.
  intros Hok Hst Hp. cbn [do_read_loop].
  destruct (parse_one_next _ Hp) as (p1 & res & Hone & Hwf1 & Hres). rewrite Hone. cbn [mbind run_bind].
  assert (conn_ok (set_parser p1 c) pend await) as Hok1 by (destruct Hok; by constructor).
  destruct res as [[root|]|e].
  - destruct (has_pending_read (pipeline_ (set_parser p1 c))) eqn:Hpr; cbn [negb].
    2: { left. by eapply handle_error_done. }
    right. destruct Hres as (m & bm & p2 & Hb & Hrs & Hrec & Hp2 & Hrest).
    rewrite Hb. cbn [mbind run_bind]. rewrite Hrs. cbn [or_fault mbind run_bind].
    destruct (conn_ok_reply now (reply_message bm) _ _ _ Hok1 Hpr) as (h' & p' & await' & Hmsg & Hok2).
    rewrite on_message_reply, Hmsg. cbn [mbind run_bind fst snd]. rewrite Hrec.
    cbn [mbind run_bind]. eexists _, _. split; [done|]. split; [destruct Hok2; by constructor|done].
  - left. eexists. split; [done|]. split; [by exists pend, await|]. split; [by left|]. split; [done|]. intros _. apply Hres.
  - left. destruct (has_pending_read (pipeline_ (set_parser p1 c))) eqn:Hpr; [|by eapply handle_error_done].
    destruct (conn_ok_reply now (reply_error (protocol_error e)) _ _ _ Hok1 Hpr) as (h' & p' & await' & Hmsg & Hok2).
    rewrite on_error_reply, Hmsg. cbn [mbind run_bind fst snd]. by eapply handle_error_done.
Qed.

Lemma ready_parser_ok p : ready_for p -> parser_ok p.
Proof.
  intros Hp. pose proof Hp as (Hidle & _ & _ & _ & Hsm). split; [by apply ready_inv|].
  split; [done|by apply idle_texts].
Qed.

Lemma read_done_trans pend c c1 r : read_done pend c1 r -> state_ c1 = state_ c -> read_done pend c r.
Proof. intros (c' & Hr & Hok & Hst & Hp) Hs. exists c'. by rewrite <- Hs. Qed.

Lemma do_read_loop_ok now : forall fuel c pend await,
  conn_ok c pend await -> was_open (state_ c) = true -> parser_ok (parser_ c) ->
  (turns (parser_ c) < fuel)%nat -> read_done pend c (do_read_loop fuel now c).
Proof.
  induction fuel as [|fuel IH]; intros c pend await Hok Hst Hp Hf; [lia|].
  destruct (do_read_turn fuel now c pend await Hok Hst Hp)
    as [Hd|(c2 & await' & -> & Hok2 & Hst2 & Hp2 & Hlt)]; [done|].
  eapply read_done_trans; [|exact Hst2].
  eapply IH; [done|by rewrite Hst2|by apply ready_parser_ok|lia].
Qed.

(** The bytes of a read fit the span that was prepared. *)
Lemma commit_read_ok bs p :
  parser_ok p -> (length bs <= length (buffer_ (buf_ p)) - write_pos_ (buf_ p))%nat ->
  exists p', commit_read bs p = Ret p' /\ parser_ok p' /\
    data_bytes (buf_ p') = data_bytes (buf_ p) ++ bs.
Proof.
  intros (Hinv & Hsm & Hlive) Hfit. pose proof (proj1 Hinv) as Hwf.
  destruct (fill_commit_spec (buf_ p) bs Hwf Hfit) as (b' & Hb & Hwf' & Hd & _ & _ & Hid & Hlen & _).
  assert (commit_read bs p = Ret (set_buf b' p)) as Hc.
  { unfold commit_read, parser_commit. apply run_bind_Ret in Hb as (b1 & Hf & Hb). rewrite Hf.
    cbn [mbind run_bind set_buf buf_]. by rewrite Hb. }
  exists (set_buf b' p). split; [done|]. split; [|done].
  assert (parser_feed p 0 bs = Ret (set_buf b' p)) as Hfeed.
  { unfold parser_feed, parser_prepare, prepare. destruct Hwf as (? & Hw & Hpos).
    destruct (ensure_writable_spec (buf_ p) 0) as (b0 & He & _ & _ & _ & [[_ ->]|[Hlt _]]);
      [done|lia|unfold small, zlen, size_max, u64_max, u32_max in *; lia| |unfold zlen in Hlt; lia].
    rewrite He. cbn [mbind run_bind set_buf buf_]. destruct p. exact Hc. }
  destruct (parser_feed_inv p 0 bs (set_buf b' p) Hinv Hsm) as [Hinv' _]; [unfold u32_max; lia|done|].
  split; [done|]. split; [unfold small, zlen in *; cbn [set_buf buf_]; by rewrite Hlen|].
  apply (views_kept_fed p b' Hid). done.
Qed.

(** [do_read] when its read completed. *)
Lemma do_read_end_ok now r c pend await :
  conn_ok c pend await -> was_open (state_ c) = true ->
  (forall bs, r = Val bs -> parser_ok (parser_ c) /\
     (length bs <= length (buffer_ (buf_ (parser_ c))) - write_pos_ (buf_ (parser_ c)))%nat) ->
  storage_ok (parser_ c) -> (state_ c = connection_state.OPEN -> parser_inv (parser_ c)) ->
  exists c', do_read_end now r c = Ret c' /\ read_in_flight_ c' = false /\
    (exists pend' await', conn_ok c' pend' await' /\ (state_ c' = connection_state.OPEN -> pend' = pend)) /\
    (state_ c' = state_ c \/ state_ c' = connection_state.FAILED /\ socket_open c' = false) /\
    storage_ok (parser_ c') /\ (state_ c' = connection_state.OPEN -> parser_inv (parser_ c')).
Proof.
  intros Hok Hst Hr Hwf Hpi. unfold do_read_end.
  match goal with |- context [mbind _ ?x] => assert (read_done pend c x) as (c' & Hx & (pend' & await' & Hok' & Hpe) & Hst' & Hp') end.
  { destruct r as [[|b bs]|e].
    - by eapply handle_error_done.
    - destruct (Hr _ eq_refl) as [Hp Hfit]. destruct (commit_read_ok (b :: bs) (parser_ c) Hp Hfit) as (p1 & Hc & Hp1 & _).
      rewrite Hc. cbn [mbind run_bind]. apply (read_done_trans pend c (set_parser p1 c)); [|done].
      apply (do_read_loop_ok now _ (set_parser p1 c) pend await);
        [destruct Hok; by constructor|done|done|apply turns_read_fuel].
    - destruct (is_aborted e && shutting_down (state_ c)); [|by eapply handle_error_done].
      exists c. split; [done|]. split; [by exists pend, await|]. by split; [left|]. }
  exists (set_in_flight false (write_in_flight_ c') c'). rewrite Hx. split; [done|]. split; [done|].
  split; [|done]. exists pend', await'. split; [|done]. destruct Hok'. by constructor.
Qed.
