(* ===== verification/ReadSpec.v ===== *)
(** * The replies of a read

    From the bytes the socket delivers to the replies of the pipeline: the
    loop of [do_read] hands over the values that are complete, in order, and
    keeps what there is of the next one.  How the network cuts the bytes into
    reads does not matter as long as no value is cut that may not be
    ([pieces_ok]): [read_pieces_ok]. *)

From S2P Require Import Prelude Kind Errors Charconv Buffer Message Parser Builder Adapter.
From S2P Require Import ParserInv ParserSafety ParserViews Wire WireParse ParserResume ParserPrefix.
From S2P Require Import Request RingQueue ResponseSink Pipeline PipelineSpec Config Connection ConnectionSpec.

(** Between two values: nothing was read of the next one, whether or not the
    parser was already asked for it. *)
Definition between (p : parser) : Prop :=
  ready_for (set_stack [] p) /\ (stack_ p = [] \/ stack_ p = [value_frame]).

Lemma ready_between p : ready_for p -> between p.
Proof.
  intros Hp. pose proof (proj1 (proj1 Hp)) as Hs. split; [|by left].
  replace (set_stack [] p) with p; [done|]. destruct p. cbn in *. by subst.
Qed.

Lemma between_parse p : between p -> parse_one p = parse_one (set_stack [] p).
Proof.
  intros [(_ & Hf & Hr & _) Hs]. unfold parse_one. cbn [set_stack tree_ready_ failed_ stack_] in *.
  rewrite Hr, Hf. destruct p as [b t st f r pa l]. cbn in *. by destruct Hs as [-> | ->].
Qed.

(** The storage stays, and an empty buffer stays at its start. *)
Definition storage_kept (p p' : parser) : Prop :=
  length (buffer_ (buf_ p')) = length (buffer_ (buf_ p)) /\
  (read_pos_ (buf_ p) = 0%nat -> read_pos_ (buf_ p') = 0%nat).

#[export] Instance storage_kept_preorder : PreOrder storage_kept.
Proof. split; [done|]. intros p1 p2 p3 [H1 H2] [H3 H4]. split; [congruence|auto]. Qed.

Lemma commit_read_between bs p :
  between p -> (length bs <= length (buffer_ (buf_ p)) - write_pos_ (buf_ p))%nat ->
  exists p', commit_read bs p = Ret p' /\ between p' /\
    data_bytes (buf_ p') = data_bytes (buf_ p) ++ bs /\ Parser.limits_ p' = Parser.limits_ p /\
    storage_kept p p'.
Proof.
  intros [(Hi & Hf & Hr & Hwf & Hsm) Hst] Hfit.
  destruct (fill_commit_spec (buf_ p) bs) as (b' & Hb & Hwf' & Hd' & Hr0 & _ & _ & Hlen & _); [done..|].
  exists (set_buf b' p). split.
  { unfold commit_read, parser_commit. apply run_bind_Ret in Hb as (b1 & Hf1 & Hb). rewrite Hf1.
    cbn [mbind run_bind set_buf buf_]. by rewrite Hb. }
  split.
  - split; [|done]. repeat (split; [done|]). unfold small, zlen in *. cbn [set_buf set_stack buf_] in *. by rewrite Hlen.
  - split; [done|]. split; [done|]. split; [exact Hlen|]. cbn [set_buf buf_]. by rewrite Hr0.
Qed.

(** A parser between two values stays so. *)
Lemma commit_read_ready bs p :
  ready_for p -> (length bs <= length (buffer_ (buf_ p)) - write_pos_ (buf_ p))%nat ->
  exists p', commit_read bs p = Ret p' /\ ready_for p' /\
    data_bytes (buf_ p') = data_bytes (buf_ p) ++ bs /\ Parser.limits_ p' = Parser.limits_ p.
Proof.
  intros Hp Hfit. destruct (fill_commit_spec (buf_ p) bs) as (b' & Hb & Hwf' & Hd' & _ & _ & _ & Hlen & _);
    [apply Hp|done|].
  exists (set_buf b' p). split.
  { unfold commit_read, parser_commit. apply run_bind_Ret in Hb as (b1 & Hf & Hb). rewrite Hf.
    cbn [mbind run_bind set_buf buf_]. by rewrite Hb. }
  split; [|done]. destruct Hp as (Hi & Hf & Hr & _ & Hsm). repeat (split; [done|]).
  unfold small, zlen in *. cbn [set_buf buf_]. by rewrite Hlen.
Qed.

(** ** A read that carries whole replies *)

Lemma outstanding_reply now r (h : sink_store) (p : conn_pipeline) pend ai await :
  inv h p pend (ai :: await) ->
  exists h' p' await', on_reply (deliver_reply now r) h p = Ret (h', p') /\ inv h' p' pend await' /\
    (forall x, h !! x = None -> h' !! x = None) /\
    length (outstanding h (ai_sink <$> ai :: await)) = Datatypes.S (length (outstanding h' (ai_sink <$> await'))).
Proof.
  intros Hi. destruct (on_reply_inv now r h p pend ai await Hi)
    as (a & s & s' & p' & Ha & Hs & Hwf & Hd & Hr & _ & Hi').
  assert (Some a ∉ ai_sink <$> await) as Hfr.
  { pose proof (inv_nodup _ _ _ _ Hi) as Hnd.
    change (ptrs pend (ai :: await)) with (ai_sink ai :: ptrs pend await) in Hnd.
    apply NoDup_cons in Hnd as [Hfr _]. rewrite Ha in Hfr. intros Hin. apply Hfr.
    unfold ptrs. rewrite elem_of_app. by left. }
  exists (<[a := s']> h), p', (if is_complete s' then await else ai :: await). split; [done|]. split; [done|].
  split; [intros x Hx; rewrite lookup_insert_ne; [done|intros ->; congruence]|].
  rewrite fmap_cons, outstanding_cons, Ha, (open_slots_delivered r h a s s' Hs Hd). cbn [app length]. f_equal.
  destruct (is_complete s') eqn:Hc.
  - rewrite (open_slots_complete _ a s'), outstanding_other; try done; [by rewrite lookup_insert_eq|apply Hd].
  - rewrite fmap_cons, outstanding_cons, Ha, !length_app, !outstanding_other by done. done.
Qed.

(** The first turn of the loop on a ready parser. *)
Lemma parse_one_turn p :
  ready_for p -> exists fuel, parse_one p =
    ('(p1, r) ← parse_value (set_stack [value_frame] p);
     match r with
     | Unexpected e => Ret (set_failed true p1, Unexpected e)
     | Val None => Ret (p1, Val None)
     | Val (Some continue_parsing) => parse_loop fuel p1
     | Val (Some (produced child_idx)) =>
       '(p2, done_) ← parser_attach (set_stack (tail (stack_ p1)) p1) child_idx;
       match done_ with
       | Unexpected e => Ret (set_failed true p2, Unexpected e)
       | Val (produced root) => Ret (set_ready true p2, Val (Some root))
       | Val continue_parsing => parse_loop fuel p2
       end
     end).
Proof.
  intros ((Hs & _) & Hf & Hr & _). unfold parse_one. rewrite Hr, Hf, Hs. set (p1 := set_stack [value_frame] p).
  destruct (parse_fuel p1) as [|f] eqn:Ef; [unfold parse_fuel in Ef; lia|]. exists f. cbn [parse_loop].
  unfold parse_step. cbn [p1 stack_ set_stack state value_frame]. fold p1.
  destruct (parse_value p1) as [[p2 r]|]; [|done]. cbn [mbind run_bind]. destruct r as [[[|idx]|]|e]; try done.
  destruct (parser_attach _ _) as [[p3 r]|]; [|done]. by destruct r as [[|]|].
Qed.

(** A parser with nothing to read asks for more. *)
Lemma parse_one_no_data p :
  ready_for p -> data_bytes (buf_ p) = [] -> parse_one p = Ret (set_stack [value_frame] p, Val None).
Proof.
  intros Hp Hd. destruct (parse_one_turn p Hp) as [f ->].
  unfold parse_value. cbn [stack_ set_stack state value_frame buf_]. by rewrite Hd.
Qed.

Lemma read_one_value p w rest :
  ready_for p -> wf (Parser.limits_ p) w = true -> tidy false w = true ->
  data_bytes (buf_ p) = encode w ++ rest ->
  exists p1 root m p2, parse_one p = Ret (p1, Val (Some root)) /\
    build_message (view_bytes (buf_ p1)) (tree_ p1) root = Ret m /\
    resolve (view_bytes (buf_ p1)) m = Some (denote None w) /\
    reclaim p1 = Ret p2 /\ ready_for p2 /\ data_bytes (buf_ p2) = rest /\
    Parser.limits_ p2 = Parser.limits_ p /\ storage_kept p p2.
Proof.
  intros Hp Hwf Hti Hd. destruct (parse_and_build_value p w rest Hp Hwf Hd Hti) as (p1 & Hpb & Hrest).
  unfold parse_and_build in Hpb. apply run_bind_Ret in Hpb as ([p1' r] & Hone & Hpb).
  destruct (parse_one_inv p (ready_inv p Hp)) as (p0 & r0 & Hone' & Hsame & Hinv & Hres); [apply Hp|].
  rewrite Hone in Hone'. injection Hone' as <- <-. destruct r as [[root|]|e]; try done.
  apply run_bind_Ret in Hpb as (m & Hm & Hpb). apply run_bind_Ret in Hpb as (bm & Hbm & [= <- <-]).
  apply or_fault_Ret in Hbm. destruct Hres as [Hf Hpar].
  destruct (reclaim_ok p1' root Hpar (proj1 Hinv)) as (p2 & Hrec & Hp2 & H0 & Hd2 & Hl2);
    [eapply small_same; [exact Hsame|apply Hp]|done|].
  exists p1', root, m, p2. repeat (split; [done|]). split; [congruence|]. destruct Hsame as (Hb & _ & _ & Hlim & _).
  split; [|split; [congruence|done]]. unfold reclaim in Hrec. by apply run_bind_Ret in Hrec as (b & _ & [= <-]).
Qed.

(** The history after the messages of a read. *)
Definition after_messages (ms : list (message bytes)) (hs : history) : history :=
  foldl (fun hs m => after_reply (reply_message m) hs) hs ms.

Lemma encode_length w : (0 < length (encode w))%nat.
Proof. pose proof (length_encode w). lia. Qed.

Lemma length_encodes ws : (length ws <= length (concat (encode <$> ws)))%nat.
Proof.
  induction ws as [|w ws IH]; [done|]. rewrite fmap_cons. cbn [concat length]. rewrite length_app.
  pose proof (encode_length w). lia.
Qed.

(** ** The loop over the values *)

(** One complete value goes to the next reply slot.  The parser may have met
    the value before: it goes on as [q], which has all its bytes. *)
Lemma do_read_loop_value lims now fuel c q w rest pend await hs :
  conn_ok c pend await -> state_ c = connection_state.OPEN -> runs lims hs (sinks c) (pipeline_ c) ->
  parse_one (parser_ c) = parse_one q -> ready_for q ->
  wf (Parser.limits_ q) w = true -> tidy false w = true -> data_bytes (buf_ q) = encode w ++ rest ->
  (0 < length (outstanding (sinks c) (ai_sink <$> await)))%nat ->
  exists c' await', do_read_loop (Datatypes.S fuel) now c = do_read_loop fuel now c' /\
    conn_ok c' pend await' /\ state_ c' = connection_state.OPEN /\
    runs lims (after_reply (reply_message (denote None w)) hs) (sinks c') (pipeline_ c') /\
    ready_for (parser_ c') /\ data_bytes (buf_ (parser_ c')) = rest /\
    Parser.limits_ (parser_ c') = Parser.limits_ q /\ storage_kept q (parser_ c') /\
    stop_ c' = stop_ c /\ write_in_flight_ c' = write_in_flight_ c /\
    (forall x, sinks c !! x = None -> sinks c' !! x = None) /\
    length (outstanding (sinks c) (ai_sink <$> await)) = Datatypes.S (length (outstanding (sinks c') (ai_sink <$> await'))).
Proof.
  intros Hok Hst Hruns Heq Hq Hwf Hti Hd Hout. cbn [do_read_loop].
  destruct (read_one_value _ w _ Hq Hwf Hti Hd) as (p1 & root & m & p2 & Hone & Hb & Hrs & Hrec & Hp2 & Hd2 & Hl2 & Hsk2).
  rewrite Heq, Hone. cbn [mbind run_bind]. destruct await as [|ai await]; [simpl in Hout; lia|].
  assert (has_pending_read (pipeline_ c) = true) as Hpr.
  { unfold has_pending_read. by rewrite (front_empty _ _ _ (inv_await _ _ _ _ (ok_inv _ _ _ Hok))). }
  cbn [pipeline_ set_parser sinks]. rewrite Hpr, Hb. cbn [negb mbind run_bind]. rewrite Hrs. cbn [or_fault mbind run_bind].
  destruct (outstanding_reply now (reply_message (denote None w)) _ _ _ _ _ (ok_inv _ _ _ Hok))
    as (h' & p' & await' & Hmsg & Hi' & Hnew & Hlen).
  rewrite <- on_message_reply in Hmsg. rewrite Hmsg. cbn [mbind run_bind fst snd]. rewrite Hrec. cbn [mbind run_bind].
  eexists _, await'. split; [done|]. split; [constructor; [apply Hok|exact Hi'|]; cbn; by rewrite Hst|].
  split; [exact Hst|]. split; [eapply (runs_reply _ _ _ _ now); [exact Hruns|exact Hpr|exact Hmsg]|].
  by repeat (split; [done|]).
Qed.

(** What a read of the values [ws] leaves. *)
Definition delivered (lims : pipeline_limits) (hs : history) (ws : list wire) (c c' : connection) : Prop :=
  state_ c' = connection_state.OPEN /\ stop_ c' = stop_ c /\ write_in_flight_ c' = write_in_flight_ c /\
  (forall x, sinks c !! x = None -> sinks c' !! x = None) /\
  runs lims (after_messages (denote None <$> ws) hs) (sinks c') (pipeline_ c').

(** The loop on whole values and the start of the next one. *)
Lemma do_read_loop_values lims now (tail : bytes) ws : forall fuel c q pend await hs,
  conn_ok c pend await -> state_ c = connection_state.OPEN -> runs lims hs (sinks c) (pipeline_ c) ->
  parse_one (parser_ c) = parse_one q -> ready_for q ->
  forallb (wf (Parser.limits_ q)) ws = true -> forallb (tidy false) ws = true ->
  data_bytes (buf_ q) = concat (encode <$> ws) ++ tail ->
  (length ws <= length (outstanding (sinks c) (ai_sink <$> await)))%nat -> (length ws < fuel)%nat ->
  (forall q', ready_for q' -> data_bytes (buf_ q') = tail -> Parser.limits_ q' = Parser.limits_ q -> storage_kept q q' ->
    exists p', parse_one q' = Ret (p', Val None)) ->
  exists c' q' await', do_read_loop fuel now c = Ret c' /\ delivered lims hs ws c c' /\ conn_ok c' pend await' /\
    parse_one q' = Ret (parser_ c', Val None) /\ ready_for q' /\ data_bytes (buf_ q') = tail /\
    Parser.limits_ q' = Parser.limits_ q /\ storage_kept q q' /\
    length (outstanding (sinks c) (ai_sink <$> await)) =
      (length ws + length (outstanding (sinks c') (ai_sink <$> await')))%nat.
Proof.
  induction ws as [|w ws IH]; intros fuel c q pend await hs Hok Hst Hruns Heq Hq Hwf Hti Hd Hlen Hfuel Hmore;
    (destruct fuel as [|fuel]; [simpl in Hfuel; lia|]).
  - destruct (Hmore q) as [p' Hp']; try done. cbn [do_read_loop]. rewrite Heq, Hp'. cbn [mbind run_bind].
    exists (set_parser p' c), q, await. split; [done|]. split; [done|]. by split; [destruct Hok; constructor|].
  - cbn [forallb] in Hwf, Hti. bool_prop. rewrite fmap_cons in Hd. cbn [concat] in Hd. rewrite <- app_assoc in Hd.
    destruct (do_read_loop_value lims now fuel c q w _ pend await hs Hok Hst Hruns Heq Hq ltac:(done) ltac:(done) Hd)
      as (c1 & await1 & Hrun & Hok1 & Hst1 & Hr1 & Hq1 & Hd1 & Hl1 & Hsk1 & Hsp1 & Hw1 & Hn1 & Ho1); [simpl in Hlen; lia|].
    destruct (IH fuel c1 (parser_ c1) pend await1 (after_reply (reply_message (denote None w)) hs))
      as (c' & q' & await' & Hrun' & (Hst' & Hsp' & Hw' & Hn' & Hr') & Hok' & Hp' & Hq' & Hd' & Hl' & Hsk' & Ho'); try done.
    + by rewrite Hl1.
    + simpl in Hlen. lia.
    + simpl in Hfuel. lia.
    + intros q2 Hq2 Hd2 Hl2 Hsk2. apply Hmore; [done|done|by rewrite Hl2|by transitivity (parser_ c1)].
    + exists c', q', await'. split; [by rewrite Hrun|]. split; [by split; [|split; [rewrite Hsp'|split; [rewrite Hw'|split; [auto|]]]]|].
      repeat (split; [done|]). split; [by rewrite Hl'|]. split; [by transitivity (parser_ c1)|]. simpl. lia.
Qed.

(** ** A value that is not complete yet *)

(** Of the next value the bytes [d] have arrived, which [p0] has.  The parser
    [p] has not looked at them, or has found no complete part, or has found
    some parts; then the storage, which those point into, is large enough for
    the next read. *)
Definition paused_at (d : bytes) (p0 p : parser) : Prop :=
  ready_for p0 /\ read_pos_ (buf_ p0) = 0%nat /\ data_bytes (buf_ p0) = d /\
    (p = p0 \/ p = set_stack [value_frame] p0 \/
     parse_one p0 = Ret (p, Val None) /\ zlen d + prepare_default <= zlen (buffer_ (buf_ p0))).

Definition paused (d : bytes) (p : parser) : Prop := exists p0, paused_at d p0 p.

Lemma restack p : stack_ p = [] -> set_stack [] (set_stack [value_frame] p) = p.
Proof. destruct p. cbn. by intros ->. Qed.

Lemma paused_nil p :
  between p -> data_bytes (buf_ p) = [] -> read_pos_ (buf_ p) = 0%nat -> paused [] p.
Proof.
  intros [Hr Hs] Hd H0. exists (set_stack [] p). split; [done|]. split; [done|]. split; [done|].
  destruct p; cbn in *. destruct Hs as [-> | ->]; auto.
Qed.

Lemma ready_asked p : ready_for p -> between (set_stack [value_frame] p).
Proof. intros Hp. split; [|by right]. rewrite restack; [done|apply Hp]. Qed.

Lemma paused_between p :
  paused [] p -> between p /\ data_bytes (buf_ p) = [] /\ read_pos_ (buf_ p) = 0%nat.
Proof.
  intros (p0 & Hp0 & H0 & Hd & Hor).
  assert (p = p0 \/ p = set_stack [value_frame] p0) as [-> | ->].
  { destruct Hor as [?|[?|[Hone _]]]; [auto..|]. rewrite (parse_one_no_data p0 Hp0 Hd) in Hone.
    injection Hone as <-. by right. }
  - by split; [apply ready_between|].
  - by split; [apply ready_asked|].
Qed.

(** Nothing of the storage has changed. *)
Lemma paused_storage d p0 p :
  paused_at d p0 p -> storage_ok p /\ write_pos_ (buf_ p0) = length d /\ write_pos_ (buf_ p) = length d /\
    Parser.limits_ p = Parser.limits_ p0 /\ buffer_ (buf_ p) = buffer_ (buf_ p0).
Proof.
  intros (Hp0 & H0 & Hd & Hor). pose proof Hp0 as (_ & _ & _ & Hwf & Hsm).
  assert (write_pos_ (buf_ p0) = length d) as Hw.
  { apply (f_equal length) in Hd. rewrite length_data_bytes in Hd by done. lia. }
  destruct Hor as [-> | [-> |[Hone _]]]; [done..|].
  destruct (parse_one_inv p0 (ready_inv p0 Hp0) Hsm) as (p' & x & Heq & Hsame & [Hwf' _] & _).
  rewrite Hone in Heq. injection Heq as <- <-. pose proof (small_same _ _ Hsame Hsm) as Hsm'.
  destruct Hsame as (Hb & _ & Hwp & Hl & _). split; [by split|]. split; [done|]. split; [by rewrite Hwp|done].
Qed.

Lemma commit_extend p bs :
  buffer_wf (buf_ p) -> fits bs (buf_ p) -> commit_read bs p = Ret (extend_parser bs p).
Proof.
  unfold fits. intros (_ & Hw & _) Hfit. unfold commit_read, fill, parser_commit, commit.
  rewrite (proj2 (Nat.leb_le _ _)) by done. cbn [mbind run_bind set_buf buf_ buffer_ write_pos_].
  rewrite length_blit, !(proj2 (Nat.leb_le _ _)) by lia. done.
Qed.

Lemma extend_ready p bs :
  ready_for p -> fits bs (buf_ p) ->
  ready_for (extend_parser bs p) /\ length (buffer_ (extend bs (buf_ p))) = length (buffer_ (buf_ p)).
Proof.
  unfold fits. intros (Hi & Hf & Hr & Hwf & Hsm) Hfit.
  assert (length (buffer_ (extend bs (buf_ p))) = length (buffer_ (buf_ p))) as Hl by (by apply length_blit).
  split; [|done]. repeat (split; [done|]). split; [by apply extend_wf|].
  unfold small, zlen in *. cbn [extend_parser set_buf buf_]. by rewrite Hl.
Qed.

(** The parser after a read, and the ready parser it goes on as. *)
Lemma paused_commit d p bs :
  paused d p -> fits bs (buf_ p) ->
  exists p1 q, commit_read bs p = Ret p1 /\ parse_one p1 = parse_one q /\ ready_for q /\
    read_pos_ (buf_ q) = 0%nat /\ data_bytes (buf_ q) = d ++ bs /\ Parser.limits_ q = Parser.limits_ p /\
    length (buffer_ (buf_ q)) = length (buffer_ (buf_ p)) /\ (length bs <= length (data_bytes (buf_ p1)))%nat.
Proof.
  intros (p0 & Hp) Hfit. destruct (paused_storage d p0 p Hp) as ([Hwf _] & Hw0 & Hw & Hl & Hb).
  destruct Hp as (Hp0 & H0 & Hd & Hor). pose proof Hp0 as (Hi & Hf & Hr & Hwf0 & Hsm0).
  assert (fits bs (buf_ p0)) as Hfit0 by (unfold fits in *; by rewrite Hw0, <- Hw, <- Hb).
  destruct (extend_ready p0 bs Hp0 Hfit0) as [Hq Hlen].
  exists (extend_parser bs p), (extend_parser bs p0). split; [by apply commit_extend|]. split.
  { destruct Hor as [-> | [-> | [Hone _]]]; [done| |by apply parse_one_resume; [apply ready_inv| | |]].
    change (extend_parser bs (set_stack [value_frame] p0)) with (set_stack [value_frame] (extend_parser bs p0)).
    rewrite (between_parse _ (ready_asked _ Hq)), restack by apply Hi. done. }
  split; [exact Hq|]. split; [exact H0|]. split; [by cbn [extend_parser set_buf buf_]; rewrite data_extend, Hd|].
  split; [done|]. split; [by rewrite Hb|]. cbn [extend_parser set_buf buf_].
  rewrite data_extend, length_app by done. lia.
Qed.

(** [prepare] before the next read: the storage may move when nothing points
    into it. *)
Lemma paused_prepare d p :
  paused d p -> 2 * (zlen d + prepare_default) <= u32_max ->
  exists p', parser_prepare p prepare_default = Ret p' /\ paused d p' /\ Parser.limits_ p' = Parser.limits_ p /\
    zlen (buffer_ (buf_ p)) <= zlen (buffer_ (buf_ p')) /\
    prepare_default <= zlen (buffer_ (buf_ p')) - Z.of_nat (write_pos_ (buf_ p')).
Proof.
  intros (p0 & Hp) Hsz. destruct (paused_storage d p0 p Hp) as ([Hwf Hsm] & Hw0 & Hw & Hl & Hb).
  assert (Z.of_nat (write_pos_ (buf_ p)) + prepare_default <= size_max) as Hmax
    by (rewrite Hw; unfold zlen, size_max, u64_max, u32_max, prepare_default in *; lia).
  assert (0 <= prepare_default) as Hpd by (by vm_compute).
  destruct (ensure_writable_spec (buf_ p) prepare_default Hwf Hpd Hmax) as (b & Hb' & Hr' & Hw' & Hav & _).
  destruct (ensure_writable_wf _ _ _ Hwf Hpd Hmax Hb') as [Hwf' Hd'].
  pose proof (ensure_writable_size _ _ _ Hwf Hpd Hmax Hb') as Hsize.
  exists (set_buf b p). unfold parser_prepare, prepare. rewrite Hb'. split; [done|]. split; [|split; [done|split; [apply Hsize|exact Hav]]].
  assert (ready_for p0 -> read_pos_ (buf_ p) = 0%nat -> data_bytes (buf_ p) = d ->
    paused_at d (set_buf b p0) (set_buf b p0) /\ ready_for (set_buf b p0)) as Hmove.
  { intros (Hi & Hf & Hr & _) H0 Hd. assert (ready_for (set_buf b p0)) as Hq.
    { repeat (split; [done|]). unfold small in *. cbn [set_buf buf_]. rewrite Hw in Hsize. unfold zlen in *. lia. }
    split; [|done]. split; [done|]. cbn [set_buf buf_]. rewrite Hr', Hd'. by split; [|split; [|left]]. }
  destruct Hp as (Hp0 & H0 & Hd & Hor). destruct Hor as [-> | [-> | [Hone Hcap]]].
  - eexists. by apply Hmove.
  - destruct (Hmove Hp0 H0 Hd) as [(? & ? & ? & _) _]. exists (set_buf b p0). by repeat (split; [done|]); right; left.
  - exists p0. split; [done|]. split; [done|]. split; [done|]. right. right. split; [|done].
    destruct (ensure_writable_spec (buf_ p) prepare_default Hwf Hpd Hmax)
      as (b2 & Hb2 & _ & _ & _ & [[_ ->]|[Hlt _]]); [|rewrite Hb, Hw in Hlt; unfold zlen in *; lia].
    rewrite Hb2 in Hb'. injection Hb' as <-. by replace (set_buf (buf_ p) p) with p by (by destruct p).
Qed.

(** ** Values in one part *)

(** A flat value is read in one turn. *)
Lemma flat_one_turn p vf s w rest :
  stack_ p = vf :: s -> state vf = frame_kind.value -> facing p (encode w) rest ->
  flat w = true -> wf (Parser.limits_ p) w = true ->
  exists nd, parse_value p = finish_scalar (length (encode w)) nd p.
Proof.
  intros Hs Hvf Hfc Hfl Hwf. destruct w as [sc|k h l|]; [| |done].
  - exists (scalar_node sc (buf_ p)). destruct Hfc as [Hsm Hb Hd _]. by eapply parse_value_scalar.
  - destruct l; [|done]. cbn [wf forallb] in Hwf. bool_prop.
    assert (encode (Agg k h []) = encode_header k h) as Henc by (cbn [encode fmap list_fmap concat]; by rewrite app_nil_r).
    rewrite Henc in *. eexists. by eapply (empty_container_step p vf s k h 0 rest).
Qed.

(** So of a flat value the parser keeps nothing but the bytes. *)
Lemma flat_asks p w p' rest :
  ready_for p -> flat w = true -> wf (Parser.limits_ p) w = true -> encode w = data_bytes (buf_ p) ++ rest ->
  zlen (buffer_ (extend rest (buf_ p))) <= u32_max -> parse_one p = Ret (p', Val None) ->
  p' = set_stack [value_frame] p.
Proof.
  intros Hp Hfl Hw Henc Hle Hone. pose proof Hp as (Hi & Hf & Hr & Hwf & Hsm). set (p1 := set_stack [value_frame] p).
  destruct (parse_value_outcome p1 [] (idle_live p Hwf Hi) Hsm) as (p2 & r & Hv & _ & _ & _ & _ & Hres); [by eexists _, _|].
  destruct (parse_one_turn p Hp) as [f Hturn]. fold p1 in Hturn. rewrite Hone, Hv in Hturn. cbn [mbind run_bind] in Hturn.
  destruct r as [[st|]|e]; [exfalso|by injection Hturn as <-|done].
  pose proof (parse_value_extend rest p1 Hwf p2 st Hsm Hv) as Hx.
  destruct (flat_one_turn (extend_parser rest p1) value_frame [] w []) as [nd Hn]; try done.
  { split; [done|by apply extend_wf|cbn [extend_parser set_buf buf_ p1 set_stack]; by rewrite data_extend, app_nil_r by done|].
    unfold room. cbn [extend_parser set_buf p1 set_stack tree_]. destruct Hi as (_ & -> & _). cbn [tree_reset nodes links].
    rewrite Henc, zlen_app. unfold zlen, extend, blit in *. cbn [buffer_] in Hle.
    rewrite !length_app, length_take in Hle. rewrite length_data_bytes by done. destruct Hwf as (? & ? & ?). simpl. lia. }
  rewrite Hx in Hn. unfold finish_scalar in Hn. symmetry in Hn. apply run_bind_Ret in Hn as (p3 & _ & Hn).
  apply run_bind_Ret in Hn as ([p4 idx] & _ & Hn). injection Hn as _ <-. destruct Hres as (_ & Hs & _).
  rewrite Hs in Hturn. discriminate Hturn.
Qed.

(** ** Reads of any sizes *)

(** A value whose bytes may be cut between reads when the storage has [cap]
    bytes: its lines are below the limit; of a flat one nothing points into the
    storage while it is incomplete, any other must leave room for a whole read
    behind it. *)
Definition splittable (lims : limits) (cap : Z) (w : wire) : bool :=
  wf (tighten lims) w && (flat w || (zlen (encode w) + prepare_default <=? cap)) &&
  (2 * (zlen (encode w) + prepare_default) <=? u32_max).

(** The value that the first [n] bytes of the stream end inside of. *)
Fixpoint cut_value (n : nat) (ws : list wire) : option wire :=
  match ws with
  | [] => None
  | w :: ws' =>
    if (n =? 0)%nat then None
    else if (n <? length (encode w))%nat then Some w else cut_value (n - length (encode w)) ws'
  end.

Definition cut_ok (lims : limits) (cap : Z) (n : nat) (ws : list wire) : bool :=
  match cut_value n ws with Some w => splittable lims cap w | None => true end.

(** [d] is a strict prefix of the first value. *)
Definition starts (d : bytes) (ws : list wire) : Prop :=
  match ws with [] => d = [] | w :: _ => exists r, encode w = d ++ r /\ r <> [] end.

Lemma starts_nil ws : starts [] ws.
Proof.
  destruct ws as [|w ws]; [done|]. exists (encode w). split; [done|]. pose proof (encode_length w).
  by destruct (encode w); [simpl in *; lia|].
Qed.

Lemma cut_value_app ws1 : forall n ws2,
  cut_value (length (concat (encode <$> ws1)) + n) (ws1 ++ ws2) = cut_value n ws2.
Proof.
  induction ws1 as [|w ws1 IH]; intros n ws2; [done|]. rewrite fmap_cons. cbn [concat app cut_value].
  pose proof (encode_length w). rewrite length_app. rewrite (proj2 (Nat.eqb_neq _ _)), (proj2 (Nat.ltb_ge _ _)) by lia.
  rewrite <- (IH n ws2). by replace (length (encode w) + length (concat (encode <$> ws1)) + n - length (encode w))%nat
    with (length (concat (encode <$> ws1)) + n)%nat by lia.
Qed.

Lemma starts_cut d ws : starts d ws -> d = [] \/ exists w ws', ws = w :: ws' /\ cut_value (length d) ws = Some w.
Proof.
  intros H. destruct d as [|x d]; [by left|]. right. destruct ws as [|w ws]; [done|]. destruct H as (r & Henc & Hr).
  exists w, ws. split; [done|]. cbn [cut_value length Nat.eqb]. rewrite (proj2 (Nat.ltb_lt _ _)); [done|].
  rewrite Henc, length_app. destruct r; [done|]. simpl. lia.
Qed.

(** Where the bytes read so far end in the stream. *)
Lemma split_stream ws : forall pre rest,
  pre ++ rest = concat (encode <$> ws) ->
  exists ws1 ws2 tail, ws = ws1 ++ ws2 /\ pre = concat (encode <$> ws1) ++ tail /\
    tail ++ rest = concat (encode <$> ws2) /\ starts tail ws2.
Proof.
  induction ws as [|w ws IH]; intros pre rest H; rewrite ?fmap_cons in H; cbn [concat fmap list_fmap] in H.
  - apply app_nil in H as [-> ->]. by exists [], [], [].
  - destruct (decide (length (encode w) <= length pre)%nat) as [Hle|Hlt].
    + assert (encode w = take (length (encode w)) pre) as Hpre.
      { apply (f_equal (take (length (encode w)))) in H. by rewrite take_app_length, take_app_le in H by lia. }
      assert (drop (length (encode w)) pre ++ rest = concat (encode <$> ws)) as Hrest.
      { apply (f_equal (drop (length (encode w)))) in H. by rewrite drop_app_length, drop_app_le in H by lia. }
      destruct (IH _ _ Hrest) as (ws1 & ws2 & tail & -> & Hd & Ht & Hs).
      exists (w :: ws1), ws2, tail. split; [done|]. split; [|done]. rewrite fmap_cons. cbn [concat].
      rewrite <- app_assoc, <- Hd, Hpre at 1. by rewrite take_drop.
    + exists [], (w :: ws), pre. split; [done|]. split; [done|]. split; [done|]. exists (drop (length pre) (encode w)).
      assert (pre = take (length pre) (encode w)) as Hpre.
      { apply (f_equal (take (length pre))) in H. by rewrite take_app_length, take_app_le in H by lia. }
      split; [by rewrite Hpre at 1; rewrite take_drop|]. intros He. apply (f_equal length) in He. rewrite length_drop in He. simpl in He. lia.
Qed.

Lemma extend_size b bs : buffer_wf b -> zlen (buffer_ (extend bs b)) = Z.max (zlen (buffer_ b)) (Z.of_nat (write_pos_ b) + zlen bs).
Proof.
  intros (? & ? & ?). unfold extend, blit, zlen. cbn [buffer_]. rewrite !length_app, length_take, length_drop. lia.
Qed.

(** At the end of what has been read the parser pauses. *)
Lemma tail_pauses q tail ws :
  ready_for q -> read_pos_ (buf_ q) = 0%nat -> data_bytes (buf_ q) = tail -> starts tail ws ->
  cut_ok (Parser.limits_ q) (zlen (buffer_ (buf_ q))) (length tail) ws = true ->
  exists p, parse_one q = Ret (p, Val None) /\ paused tail p.
Proof.
  intros Hq H0 Hd Hs Hcut. pose proof (starts_cut _ _ Hs) as [->|(w & ws' & -> & Hw)].
  - exists (set_stack [value_frame] q). rewrite parse_one_no_data by done. split; [done|]. exists q.
    repeat (split; [done|]). by right; left.
  - destruct Hs as (r & Henc & Hr). unfold cut_ok, splittable in Hcut. rewrite Hw in Hcut.
    rewrite !andb_true_iff, orb_true_iff, !Z.leb_le in Hcut. destruct Hcut as [[Hwf Hcap] Hsz].
    pose proof Hq as (_ & _ & _ & Hb & Hsm).
    assert (zlen (encode w) = zlen tail + zlen r) as Hlen by (by rewrite Henc, zlen_app).
    assert (write_pos_ (buf_ q) = length tail) as Hwp.
    { apply (f_equal length) in Hd. rewrite length_data_bytes in Hd by done. lia. }
    pose proof (zlen_nonneg r) as Hrn. pose proof (zlen_nonneg tail) as Htn.
    assert (zlen (buffer_ (extend r (buf_ q))) <= u32_max) as Hext.
    { rewrite extend_size by done. unfold small in Hsm. rewrite Hwp. unfold zlen, prepare_default in *. lia. }
    destruct (prefix_needs_more q w tail r) as [p Hp]; try done. exists p. split; [done|]. exists q.
    split; [done|]. split; [done|]. split; [done|]. right. destruct Hcap as [Hfl|Hcap].
    + left. apply (flat_asks q w p r); try done; [by apply wf_relax|by rewrite Hd].
    + right. split; [done|]. lia.
Qed.

Lemma cut_ok_mono lims cap cap' n ws : cap <= cap' -> cut_ok lims cap n ws = true -> cut_ok lims cap' n ws = true.
Proof.
  intros Hle. unfold cut_ok. destruct (cut_value n ws) as [w|]; [|done]. unfold splittable.
  rewrite !andb_true_iff, !orb_true_iff, !Z.leb_le. intros [[H1 [H2|H2]] H3]; (split; [split; [done|]|done]); [by left|right; lia].
Qed.

(** What has arrived of a value is shorter than it. *)
Lemma starts_size lims cap d ws :
  starts d ws -> cut_ok lims cap (length d) ws = true -> 2 * (zlen d + prepare_default) <= u32_max.
Proof.
  intros Hs Hcut. pose proof (starts_cut _ _ Hs) as [->|(w & ws' & -> & Hw)]; [by vm_compute|].
  destruct Hs as (r & Henc & _). unfold cut_ok, splittable in Hcut. rewrite Hw, !andb_true_iff, !Z.leb_le, Henc, zlen_app in Hcut.
  pose proof (zlen_nonneg r). lia.
Qed.

(** Every value that a read completes takes at least one of its bytes. *)
Lemma completed_count d bs ws1 ws2 tail :
  starts d (ws1 ++ ws2) -> d ++ bs = concat (encode <$> ws1) ++ tail -> (length ws1 <= length bs)%nat.
Proof.
  destruct ws1 as [|w ws1]; [simpl; lia|]. intros (r & Henc & Hr) H. rewrite fmap_cons in H. cbn [concat] in H.
  apply (f_equal length) in H. rewrite !length_app, Henc, length_app in H. pose proof (length_encodes ws1).
  destruct r; [done|]. simpl in *. lia.
Qed.

Lemma parse_one_keeps q p r :
  ready_for q -> parse_one q = Ret (p, r) ->
  Parser.limits_ p = Parser.limits_ q /\ buffer_ (buf_ p) = buffer_ (buf_ q).
Proof.
  intros Hq H. destruct (parse_one_inv q (ready_inv q Hq)) as (p' & r' & Heq & (Hb & _ & _ & Hl & _) & _); [apply Hq|].
  rewrite H in Heq. by injection Heq as <- <-.
Qed.

(** One [do_read], from the [prepare] to the end of the loop. *)
Lemma do_read_piece lims now c d bs ws1 ws2 tail pend await hs :
  conn_ok c pend await -> state_ c = connection_state.OPEN -> read_in_flight_ c = false ->
  runs lims hs (sinks c) (pipeline_ c) ->
  paused d (parser_ c) -> bs <> [] -> zlen bs <= prepare_default -> starts d (ws1 ++ ws2) ->
  d ++ bs = concat (encode <$> ws1) ++ tail -> starts tail ws2 ->
  forallb (wf (Parser.limits_ (parser_ c))) ws1 = true -> forallb (tidy false) ws1 = true ->
  cut_ok (Parser.limits_ (parser_ c)) (zlen (buffer_ (buf_ (parser_ c)))) (length d) (ws1 ++ ws2) = true ->
  cut_ok (Parser.limits_ (parser_ c)) (zlen (buffer_ (buf_ (parser_ c)))) (length tail) ws2 = true ->
  (length ws1 <= length (outstanding (sinks c) (ai_sink <$> await)))%nat ->
  exists c1 c2 await', do_read_begin c = Ret (c1, true) /\ do_read_end now (Val bs) c1 = Ret c2 /\
    delivered lims hs ws1 c c2 /\ read_in_flight_ c2 = false /\ paused tail (parser_ c2) /\
    Parser.limits_ (parser_ c2) = Parser.limits_ (parser_ c) /\
    zlen (buffer_ (buf_ (parser_ c))) <= zlen (buffer_ (buf_ (parser_ c2))) /\ conn_ok c2 pend await' /\
    length (outstanding (sinks c) (ai_sink <$> await)) =
      (length ws1 + length (outstanding (sinks c2) (ai_sink <$> await')))%nat.
Proof.
  intros Hok Hst Hfl Hruns Hp Hne Hle Hsd Hcut Hstart Hwf Hti Hcd Hct Hout.
  destruct (paused_prepare d (parser_ c) Hp (starts_size _ _ _ _ Hsd Hcd)) as (p & Hprep & Hp1 & Hl1 & Hlen1 & Hroom).
  assert (fits bs (buf_ p)) as Hfit by (unfold fits, zlen in *; lia).
  destruct (paused_commit d p bs Hp1 Hfit) as (p1 & q & Hc & Heq & Hq & H0 & Hdq & Hlq & Hbq & Hfu).
  set (c1 := set_parser p (set_in_flight true (write_in_flight_ c) c)).
  apply (cut_ok_mono _ _ (zlen (buffer_ (buf_ q)))) in Hct; [|unfold zlen in *; lia].
  assert (forall q', ready_for q' -> data_bytes (buf_ q') = tail -> Parser.limits_ q' = Parser.limits_ q ->
    storage_kept q q' -> exists p', parse_one q' = Ret (p', Val None) /\ paused tail p') as Hpause.
  { intros q' Hq' Hd' Hl' [Hk1 Hk2]. apply (tail_pauses q' tail ws2); try done; [by apply Hk2|].
    unfold zlen. by rewrite Hk1, Hl', Hlq, Hl1. }
  destruct (do_read_loop_values lims now tail ws1 (read_fuel p1) (set_parser p1 c1) q pend await hs)
    as (c2 & q2 & await2 & Hrun & Hdel & Hok2 & Hp2 & Hq2 & Hd2 & Hl2 & Hk & Ho2); try done.
  - destruct Hok. by constructor.
  - by rewrite Hlq, Hl1.
  - by rewrite Hdq.
  - pose proof (completed_count _ _ _ _ _ Hsd Hcut). unfold read_fuel. lia.
  - intros q' Hq' Hd' Hl' Hk. destruct (Hpause q') as (p' & Hp' & _); eauto.
  - exists c1, (set_in_flight false (write_in_flight_ c2) c2), await2. split.
    { unfold do_read_begin. rewrite Hst, bool_decide_false, Hfl by (intros Hx; by apply Hx). cbn [negb assert mbind run_bind].
      by rewrite Hprep. }
    split.
    { unfold do_read_end. destruct bs as [|x bs]; [done|]. cbn [c1 set_parser parser_]. rewrite Hc. cbn [mbind run_bind].
      fold c1. by rewrite Hrun. }
    split; [exact Hdel|]. split; [done|]. cbn [set_in_flight parser_].
    destruct (Hpause q2) as (p' & Hp' & Hpa); try done. rewrite Hp2 in Hp'. injection Hp' as <-. split; [exact Hpa|].
    destruct (parse_one_keeps _ _ _ Hq2 Hp2) as [Hl3 Hb3]. split; [by rewrite Hl3, Hl2, Hlq|].
    split; [destruct Hk as [Hk _]; unfold zlen in *; rewrite Hb3; lia|]. split; [|exact Ho2]. destruct Hok2. by constructor.
Qed.

(** The reads of the loop: each asks for bytes and gets a piece, at a time. *)
Fixpoint read_pieces (pieces : list (Z * bytes)) (c : connection) : run connection :=
  match pieces with
  | [] => Ret c
  | (now, bs) :: rest =>
    '(c1, asks) ← do_read_begin c;
    match asks with
    | true => c2 ← do_read_end now (Val bs) c1; read_pieces rest c2
    | false => Fault unreachable_reached
    end
  end.

(** The pieces of a stream of values of which [n] bytes have been read: none
    is empty or larger than the span that [prepare] promises, and none cuts a
    value that may not be cut. *)
Fixpoint pieces_ok (lims : limits) (cap : Z) (ws : list wire) (n : nat) (pieces : list (Z * bytes)) : bool :=
  match pieces with
  | [] => true
  | (_, bs) :: rest =>
    bool_decide (bs <> []) && (zlen bs <=? prepare_default) && cut_ok lims cap (n + length bs) ws &&
    pieces_ok lims cap ws (n + length bs) rest
  end.

Lemma pieces_ok_mono lims cap cap' ws pieces : forall n,
  cap <= cap' -> pieces_ok lims cap ws n pieces = true -> pieces_ok lims cap' ws n pieces = true.
Proof.
  induction pieces as [|[t bs] pieces IH]; intros n Hle; [done|]. cbn [pieces_ok]. rewrite !andb_true_iff.
  intros [[? ?] ?]. eauto using cut_ok_mono.
Qed.

(** The values that have been read may be forgotten. *)
Lemma pieces_ok_app lims cap ws1 ws2 pieces : forall n,
  pieces_ok lims cap (ws1 ++ ws2) (length (concat (encode <$> ws1)) + n) pieces = pieces_ok lims cap ws2 n pieces.
Proof.
  induction pieces as [|[t bs] pieces IH]; intros n; [done|]. cbn [pieces_ok]. rewrite <- Nat.add_assoc, IH.
  unfold cut_ok. by rewrite cut_value_app.
Qed.

Lemma after_messages_app ms1 ms2 hs : after_messages (ms1 ++ ms2) hs = after_messages ms2 (after_messages ms1 hs).
Proof. unfold after_messages. by rewrite foldl_app. Qed.

(** However the bytes are cut, every value goes to its slot. *)
Lemma read_pieces_ok lims pieces : forall c d ws pend await hs,
  conn_ok c pend await -> state_ c = connection_state.OPEN -> read_in_flight_ c = false ->
  runs lims hs (sinks c) (pipeline_ c) -> paused d (parser_ c) -> starts d ws ->
  d ++ concat pieces.*2 = concat (encode <$> ws) ->
  forallb (wf (Parser.limits_ (parser_ c))) ws = true -> forallb (tidy false) ws = true ->
  let cap := zlen (buffer_ (buf_ (parser_ c))) in
  cut_ok (Parser.limits_ (parser_ c)) cap (length d) ws = true ->
  pieces_ok (Parser.limits_ (parser_ c)) cap ws (length d) pieces = true ->
  (length ws <= length (outstanding (sinks c) (ai_sink <$> await)))%nat ->
  exists c' await', read_pieces pieces c = Ret c' /\ delivered lims hs ws c c' /\
    read_in_flight_ c' = false /\ paused [] (parser_ c') /\
    Parser.limits_ (parser_ c') = Parser.limits_ (parser_ c) /\
    cap <= zlen (buffer_ (buf_ (parser_ c'))) /\ conn_ok c' pend await' /\
    length (outstanding (sinks c) (ai_sink <$> await)) =
      (length ws + length (outstanding (sinks c') (ai_sink <$> await')))%nat.
Proof.
  induction pieces as [|[now bs] pieces IH]; intros c d ws pend await hs Hok Hst Hfl Hr Hp Hsd Hcat Hwf Hti cap Hcd Hpi Hout.
  - cbn [fmap list_fmap concat] in Hcat. rewrite app_nil_r in Hcat.
    assert (ws = []) as ->.
    { destruct ws as [|w ws]; [done|]. destruct Hsd as (r & Henc & Hr0). rewrite fmap_cons in Hcat. cbn [concat] in Hcat.
      apply (f_equal length) in Hcat. rewrite Henc, !length_app in Hcat. destruct r; [done|]. simpl in Hcat. lia. }
    cbn in Hsd. subst d. exists c, await. by repeat (split; [done|]).
  - cbn [pieces_ok] in Hpi. rewrite !andb_true_iff in Hpi. destruct Hpi as [[[Hne Hsz] Hct] Hpi]. bool_prop.
    rewrite fmap_cons in Hcat. cbn [concat snd] in Hcat. rewrite app_assoc in Hcat.
    destruct (split_stream _ _ _ Hcat) as (ws1 & ws2 & tail & -> & Hpre & Hrest & Hst2).
    assert (length d + length bs = length (concat (encode <$> ws1)) + length tail)%nat as Hn
      by (by rewrite <- !length_app, Hpre).
    rewrite Hn in Hct, Hpi. rewrite pieces_ok_app in Hpi. unfold cut_ok in Hct. rewrite cut_value_app in Hct.
    fold (cut_ok (Parser.limits_ (parser_ c)) cap (length tail) ws2) in Hct.
    rewrite forallb_app in Hti, Hwf. apply andb_true_iff in Hti as [Hti1 Hti2], Hwf as [Hwf1 Hwf2]. rewrite length_app in Hout.
    destruct (do_read_piece lims now c d bs ws1 ws2 tail pend await hs)
      as (c1 & c2 & await2 & Hb & He & (F1 & F2 & F3 & F4 & F5) & Hfl2 & Hp2 & Hl2 & Hlen2 & Hok2 & Ho2); try done; [lia|].
    destruct (IH c2 tail ws2 pend await2 (after_messages (denote None <$> ws1) hs))
      as (c' & await' & Hrun & (G1 & G2 & G3 & G4 & G5) & Hfl' & Hp' & Hl' & Hlen' & Hok' & Ho'); try done;
      [by rewrite Hl2|by rewrite Hl2; eapply cut_ok_mono|by rewrite Hl2; eapply pieces_ok_mono|lia|].
    exists c', await'. cbn [read_pieces]. rewrite Hb. cbn [mbind run_bind]. rewrite He. cbn [mbind run_bind].
    split; [done|]. split.
    { split; [done|]. split; [by rewrite G2|]. split; [by rewrite G3|]. split; [auto|]. by rewrite fmap_app, after_messages_app. }
    split; [done|]. split; [done|]. split; [by rewrite Hl'|]. split; [unfold cap; lia|]. split; [done|]. rewrite length_app. lia.
Qed.
