(* ===== verification/ConnectSpec.v ===== *)
(** * What holds of [do_connect] and [do_reconnect]

    The handshake request, the invariant of the points at which [do_connect]
    is suspended, and the theorems about connecting and reconnecting. *)

From S2P Require Import Prelude Kind Errors Charconv Buffer Message Parser Builder Adapter.
From S2P Require Import ParserInv ParserSafety ParserViews Wire WireParse.
From S2P Require Import Request RingQueue ResponseSink Pipeline PipelineSpec Config Connection Connect.
From S2P Require Import ConnectionSpec ReadSpec.

(** ** The handshake request *)

(** The commands the comment on [do_connect] promises. *)
Definition auth_command (cfg : config) : list (list bytes) :=
  match password cfg with
  | [] => []
  | pw => [s2b "AUTH" :: match username cfg with [] => [] | user => [user] end ++ [pw]]
  end.

Definition select_command (cfg : config) : list (list bytes) :=
  if database cfg =? 0 then [] else [[s2b "SELECT"; print_Z (database cfg)]].

Definition setname_command (cfg : config) : list (list bytes) :=
  match client_name cfg with [] => [] | name => [[s2b "CLIENT"; s2b "SETNAME"; name]] end.

Definition handshake_commands (cfg : config) : list (list bytes) :=
  [[s2b "HELLO"; s2b "3"]] ++ auth_command cfg ++ select_command cfg ++ setname_command cfg.

(** Strings of this machine and an [int]. *)
Definition config_fits (cfg : config) : Prop :=
  zlen (username cfg) <= u64_max /\ zlen (password cfg) <= u64_max /\ zlen (client_name cfg) <= u64_max /\
  -2147483648 <= database cfg <= 2147483647.

(** The request that holds some commands. *)
Definition request_of (cmds : list (list bytes)) : request :=
  mk_request (concat (encode ∘ command_wire <$> cmds)) (zlen cmds).

Lemma push_args_request cmd args cmds :
  zlen cmd <= u64_max -> (length args <= 10)%nat -> Forall arg_fits args ->
  Forall (fun a => zlen (arg_bytes a) <= u64_max) args -> (length cmds <= 10)%nat ->
  push_args cmd args (request_of cmds) = Ret (request_of (cmds ++ [cmd :: (arg_bytes <$> args)])).
Proof.
  intros Hc Hn Ha Hb Hl. rewrite push_args_spec by (done || (unfold zlen, u64_max; lia)).
  unfold count_command, append, request_of. cbn [wire_ command_count_].
  rewrite fmap_app, concat_app. cbn [fmap list_fmap concat]. rewrite app_nil_r.
  unfold zlen. rewrite length_app. rewrite u64_small by (unfold u64_max; lia). do 2 f_equal. simpl. lia.
Qed.

Lemma print_database_fits v : -2147483648 <= v <= 2147483647 -> zlen (print_Z v) <= u64_max.
Proof.
  intros Hv. assert (length (print_Z v) <= 64)%nat; [|unfold zlen, u64_max; lia].
  assert (to_chars 64 v = Some (print_Z v)) as Ht by (apply to_chars_fits; unfold i64_min, u64_max; lia).
  unfold to_chars in Ht. destruct (length (print_Z v) <=? 64)%nat eqn:E; [by apply Nat.leb_le|done].
Qed.

(** A command of at most three words. *)
Ltac push_one :=
  rewrite push_args_request;
    [done|by vm_compute|simpl; lia|repeat constructor; try done|repeat constructor; try done|lia].

Lemma push_auth_ok cfg cmds :
  config_fits cfg -> (length cmds <= 10)%nat ->
  push_auth cfg (request_of cmds) = Ret (request_of (cmds ++ auth_command cfg)).
Proof.
  intros (Hu & Hp & _) Hl. unfold push_auth, auth_command.
  destruct (password cfg); [by rewrite app_nil_r|]. destruct (username cfg); push_one.
Qed.

Lemma push_select_ok cfg cmds :
  config_fits cfg -> (length cmds <= 10)%nat ->
  push_select cfg (request_of cmds) = Ret (request_of (cmds ++ select_command cfg)).
Proof.
  intros (_ & _ & _ & Hd) Hl. unfold push_select, select_command. pose proof (print_database_fits _ Hd).
  destruct (database cfg =? 0); cbn [negb]; [by rewrite app_nil_r|]. push_one.
  all: unfold i64_min, u64_max; lia.
Qed.

Lemma push_setname_ok cfg cmds :
  config_fits cfg -> (length cmds <= 10)%nat ->
  push_setname cfg (request_of cmds) = Ret (request_of (cmds ++ setname_command cfg)).
Proof.
  intros (_ & _ & Hn & _) Hl. unfold push_setname, setname_command.
  destruct (client_name cfg); [by rewrite app_nil_r|]. push_one.
Qed.

Lemma handshake_request_ok cfg :
  config_fits cfg -> handshake_request cfg = Ret (request_of (handshake_commands cfg)).
Proof.
  intros Hf. unfold handshake_request. change request_new with (request_of []).
  rewrite push_args_request by (repeat constructor; vm_compute; congruence). cbn [mbind run_bind].
  assert (length (auth_command cfg) <= 1)%nat as Ha by (unfold auth_command; destruct (password cfg); simpl; lia).
  assert (length (select_command cfg) <= 1)%nat as Hs by (unfold select_command; destruct (_ =? 0); simpl; lia).
  rewrite push_auth_ok by (done || (simpl; lia)). cbn [mbind run_bind].
  rewrite push_select_ok by (done || (rewrite length_app; simpl; lia)). cbn [mbind run_bind].
  rewrite push_setname_ok by (done || (rewrite !length_app; simpl; lia)).
  unfold handshake_commands. by rewrite <- !(assoc_L (++)).
Qed.

Lemma handshake_commands_count cfg : (1 <= length (handshake_commands cfg) <= 4)%nat.
Proof.
  unfold handshake_commands, auth_command, select_command, setname_command. rewrite !length_app.
  destruct (password cfg), (database cfg =? 0), (client_name cfg); simpl; lia.
Qed.

(** ** The invariant of [do_connect] *)

Lemma inv_mono (h h' : sink_store) (p : conn_pipeline) pend await :
  inv h p pend await -> (forall a s, h !! a = Some s -> h' !! a = Some s) -> inv h' p pend await.
Proof.
  intros [Hq1 Hq2 Hl Hb Hbd Hit Hok Hnd] Hm. constructor; try done.
  eapply Forall_impl; [exact Hok|]. intros ptr (a & s & -> & Hs & Hwf & Hc). exists a, s. by rewrite (Hm a s Hs).
Qed.

Lemma reset_ready p :
  storage_ok p -> ready_for (parser_reset p) /\ data_bytes (buf_ (parser_reset p)) = [].
Proof.
  intros [(Hrw & Hw & Hpos) Hsm]. split; [|done]. do 3 (split; [done|]). split; [|done].
  split; [done|]. split; [simpl; lia|done].
Qed.

Lemma ready_storage p : ready_for p -> storage_ok p.
Proof. intros (_ & _ & _ & Hwf & Hsm). done. Qed.

(** What other tasks of the strand may do while [do_connect] is suspended and
    nobody closes: refuse requests, report events, wake loops. *)
Definition calm (c c' : connection) : Prop :=
  cfg_ c' = cfg_ c /\ state_ c' = state_ c /\ state_snapshot_ c' = state_snapshot_ c /\
  stop_ c' = stop_ c /\ generation_ c' = generation_ c /\ socket_open c' = socket_open c /\
  pipeline_ c' = pipeline_ c /\ parser_ c' = parser_ c /\ reconnect_count_ c' = reconnect_count_ c /\
  (forall a s, sinks c !! a = Some s -> sinks c' !! a = Some s).

Definition connecting_state (s : connection_state) : Prop :=
  s = connection_state.CONNECTING \/ s = connection_state.RECONNECTING.

(** The connection since [do_connect] began on [c0]. *)
Definition in_progress (c0 c : connection) : Prop :=
  cfg_ c = cfg_ c0 /\ state_ c = state_ c0 /\ stop_ c = false /\ generation_ c = generation_ c0 /\
  buffer_wf (buf_ (parser_ c)) /\ Parser.limits_ (parser_ c) = Parser.limits_ (parser_ c0).

(** The sink of the handshake has all replies. *)
Definition collected (slot : nat) (c : connection) : Prop :=
  exists s, sinks c !! slot = Some s /\ sink_wf s /\ is_complete s = true.

(** [do_connect] succeeded: a new generation, nothing pending, an empty
    parser. *)
Definition opened (c0 c : connection) : Prop :=
  cfg_ c = cfg_ c0 /\ state_ c = connection_state.OPEN /\ stop_ c = false /\ socket_open c = true /\
  generation_ c = u64 (generation_ c0 + 1) /\ reconnect_count_ c = 0 /\ nothing_pending c /\
  ready_for (parser_ c) /\ data_bytes (buf_ (parser_ c)) = [] /\ read_pos_ (buf_ (parser_ c)) = 0%nat /\
  Parser.limits_ (parser_ c) = Parser.limits_ (parser_ c0).

Section connect_inv.

Context (other : string -> Z -> string) {endpoint : Type}.
Context (c0 : connection) (Hst0 : connecting_state (state_ c0)) (Hfits : config_fits (cfg_ c0)).

Abbreviation point := (connect_point endpoint).

(** What each point knows. *)
Definition connect_inv (c : connection) (pt : point) : Prop :=
  match pt with
  | at_resolve | at_connect _ _ => in_progress c0 c /\ nothing_pending c /\ ready_for (parser_ c)
  | at_write slot buf =>
    in_progress c0 c /\ socket_open c = true /\ ready_for (parser_ c) /\
    exists it, conn_ok c [it] [] /\ pi_sink it = Some slot /\ buf = unsent_item it
  | at_read slot =>
    in_progress c0 c /\ socket_open c = true /\ parser_inv (parser_ c) /\
    exists ai, conn_ok c [] [ai] /\ ai_sink ai = Some slot
  | at_join _ (Unexpected _) =>
    in_progress c0 c /\ small (parser_ c) /\ exists pend await, conn_ok c pend await
  | at_join slot (Val _) | at_wait slot =>
    in_progress c0 c /\ socket_open c = true /\ nothing_pending c /\ ready_for (parser_ c) /\ collected slot c
  | finished (Val _) => opened c0 c
  | finished (Unexpected _) => in_progress c0 c /\ small (parser_ c) /\ nothing_pending c
  end.

Definition step_ok (r : run (connection * point)) : Prop :=
  exists c pt, r = Ret (c, pt) /\ connect_inv c pt.

Lemma calm_conn_ok c c' pend await : calm c c' -> conn_ok c pend await -> conn_ok c' pend await.
Proof.
  intros (_ & Hst & Hsn & _ & _ & _ & Hp & _ & _ & Hs) [H1 H2 H3].
  constructor; [congruence|rewrite Hp; by eapply inv_mono|by rewrite Hst].
Qed.

Lemma calm_inv c c' (pt : point) :
  calm c c' -> (forall res, pt <> finished res) -> connect_inv c pt -> connect_inv c' pt.
Proof.
  intros Hc Hpt. pose proof (calm_conn_ok c c') as Hok.
  pose proof Hc as (H1 & H2 & H3 & H4 & H5 & H6 & H7 & H8 & _ & H9).
  assert (in_progress c0 c -> in_progress c0 c') as Hip.
  { unfold in_progress. rewrite H1, H2, H4, H5, H8. done. }
  assert (forall slot, collected slot c -> collected slot c') as Hcol.
  { intros slot (s & Hs & ?). exists s. by rewrite (H9 _ _ Hs). }
  unfold connect_inv, nothing_pending. rewrite H6, H8.
  destruct pt as [|ep rest|slot buf|slot|slot [|]|slot|res]; [..|by destruct (Hpt res)]; naive_solver.
Qed.

(** *** The end of the handshake *)

Lemma fail_handshake_ok now err c pend await :
  in_progress c0 c -> small (parser_ c) -> conn_ok c pend await -> step_ok (fail_handshake now err c).
Proof.
  intros Hip Hsm Hok. destruct (clear_pipeline_ok now err c pend await (ok_inv _ _ _ Hok)) as (h' & p' & Hc & Hi & _).
  unfold fail_handshake. rewrite Hc. cbn [mbind run_bind]. eexists _, _. split; [done|].
  split; [done|]. split; [done|]. constructor; [apply Hok|done|done].
Qed.

Lemma collected_deref slot c : collected slot c ->
  exists s, deref (sinks c) (Some slot) = Ret (slot, s) /\ is_complete s = true /\
    wait_result s = Ret (sink_slots s).
Proof.
  intros (s & Hs & Hwf & Hc). exists s. split; [by apply deref_at|]. split; [done|].
  pose proof (sink_result_eq s Hwf) as Hr. rewrite Hc in Hr. cbn [sink_result pending_sink] in Hr.
  unfold wait_result. change (pending_is_complete s) with (is_complete s). rewrite Hc, Hr. done.
Qed.

Lemma handshake_end_ok now slot res c :
  connect_inv c (at_join slot res) -> step_ok (handshake_end other now slot res c).
Proof.
  destruct res as [[]|e]; cbn [connect_inv handshake_end].
  - intros (Hip & Hso & Hn & Hp & Hcol). destruct (collected_deref slot c Hcol) as (s & Hd & Hc & _).
    rewrite Hd. cbn [mbind run_bind snd]. rewrite Hc. cbn [negb]. by eexists _, _.
  - intros (Hip & Hsm & pend & await & Hok). by eapply fail_handshake_ok.
Qed.

Lemma handshake_return_ok now slot res c :
  connect_inv c (at_join slot res) -> step_ok (handshake_return other now slot res c).
Proof.
  intros Hj. unfold handshake_return.
  destruct (request_timeout (cfg_ c)), (connect_timeout (cfg_ c)); [by eexists _, _..|by apply handshake_end_ok].
Qed.

Lemma handshake_error_ok now slot e c pend await :
  in_progress c0 c -> small (parser_ c) -> conn_ok c pend await ->
  step_ok (handshake_return other now slot (Unexpected e) c).
Proof. intros Hip Hsm Hok. apply handshake_return_ok. split; [done|]. split; [done|]. by exists pend, await. Qed.

Lemma connect_succeeded_ok now c :
  in_progress c0 c -> socket_open c = true -> nothing_pending c -> ready_for (parser_ c) ->
  opened c0 (connect_succeeded now c).
Proof.
  intros (Hcfg & Hst & Hstop & Hgen & _ & Hlim) Hso Hn Hp. unfold connect_succeeded.
  destruct (emit_event_fields now ev_connected stage_handshake (Some (state_ c)) (Some connection_state.OPEN)
    no_error_info (set_attempts (u64 (generation_ c + 1)) 0 (set_state connection_state.OPEN c)))
    as (He1 & He2 & He3 & He4 & He5 & He6 & He7 & He8 & He9 & He10 & He11 & _).
  destruct (reset_ready (parser_ c) (ready_storage _ Hp)) as [Hr Hd].
  assert (forall k st f t e c1, reconnect_count_ (emit_connection_event now k st f t e c1) = reconnect_count_ c1) as Hrc
    by (intros; unfold emit_connection_event; by destruct (negb _)).
  unfold opened, nothing_pending. cbn [set_parser cfg_ state_ stop_ socket_open generation_ reconnect_count_ parser_].
  rewrite He1, He5, He6, He9, He10, He11, Hrc.
  cbn [set_attempts set_state cfg_ state_ stop_ socket_open generation_ reconnect_count_ parser_].
  split; [done|]. do 3 (split; [done|]). split; [by rewrite Hgen|]. split; [done|].
  split; [|split; [exact Hr|split; [exact Hd|done]]].
  constructor; cbn [set_parser state_ state_snapshot_ sinks pipeline_]; rewrite ?He1, ?He2, ?He3, ?He4;
    [done|apply Hn|done].
Qed.

Lemma check_replies_ok now slot c :
  connect_inv c (at_wait slot) -> step_ok (check_replies other now slot c).
Proof.
  cbn [connect_inv]. intros (Hip & Hso & Hn & Hp & Hcol). unfold check_replies.
  destruct (collected_deref slot c Hcol) as (s & Hd & _ & Hw). rewrite Hd. cbn [mbind run_bind snd].
  rewrite Hw. cbn [mbind run_bind]. destruct (first_failure _) as [err|].
  - pose proof (proj2 (ready_storage _ Hp)) as Hsm.
    case_bool_decide; [by eexists _, _|]. by eapply fail_handshake_ok.
  - eexists _, _. split; [done|]. by apply connect_succeeded_ok.
Qed.

(** *** The two loops of the handshake *)

(** Between two reads: replies are missing, or all are there. *)
Definition reading (slot : nat) (c : connection) : Prop :=
  in_progress c0 c /\ socket_open c = true /\
  ((exists ai, conn_ok c [] [ai] /\ ai_sink ai = Some slot /\ parser_ok (parser_ c)) \/
   (nothing_pending c /\ ready_for (parser_ c) /\ collected slot c)).

Lemma awaiting_sink c ai slot :
  conn_ok c [] [ai] -> ai_sink ai = Some slot ->
  exists s, deref (sinks c) (Some slot) = Ret (slot, s) /\ is_complete s = false.
Proof.
  intros Hok Ha. pose proof (inv_ptrs _ _ _ _ (ok_inv _ _ _ Hok)) as Hp.
  change (ptrs [] [ai]) with [ai_sink ai] in Hp. rewrite Ha in Hp. apply Forall_cons in Hp as [Hp _].
  destruct Hp as (a & s & [= <-] & Hs & _ & Hc). exists s. split; [by apply deref_at|done].
Qed.

Lemma prepare_ok p :
  parser_ok p ->
  exists b, parser_prepare p prepare_default = Ret (set_buf b p) /\ parser_inv (set_buf b p) /\ buffer_wf b.
Proof. intros (Hinv & Hsm & _). apply parser_prepare_inv; [done|done|by vm_compute]. Qed.

(** With an empty buffer of the first allocation nothing moves. *)
Lemma prepare_same p :
  storage_ok p -> write_pos_ (buf_ p) = 0%nat -> prepare_default <= zlen (buffer_ (buf_ p)) ->
  parser_prepare p prepare_default = Ret (set_buf (buf_ p) p).
Proof.
  intros [Hwf Hsm] Hw Hcap.
  destruct (ensure_writable_spec (buf_ p) prepare_default Hwf) as (b' & He & _ & _ & _ & Hor);
    [vm_compute; congruence|rewrite Hw; vm_compute; congruence|].
  unfold parser_prepare, prepare. rewrite He. cbn [mbind run_bind].
  destruct Hor as [[_ ->]|[Hlt _]]; [done|lia].
Qed.

Lemma prepare_empty p b :
  storage_ok p -> write_pos_ (buf_ p) = 0%nat -> prepare_default <= zlen (buffer_ (buf_ p)) ->
  parser_prepare p prepare_default = Ret (set_buf b p) -> b = buf_ p.
Proof. intros Hs Hw Hcap Hb. rewrite (prepare_same p Hs Hw Hcap) in Hb. by injection Hb as [= ->]. Qed.

Lemma in_progress_parser p c :
  in_progress c0 c -> buffer_wf (buf_ p) -> Parser.limits_ p = Parser.limits_ (parser_ c) -> in_progress c0 (set_parser p c).
Proof. intros (H1 & H2 & H3 & H4 & _ & H5) Hp Hl. do 5 (split; [done|]). cbn. by rewrite Hl. Qed.

Lemma parse_one_limits p p' r : parser_ok p -> parse_one p = Ret (p', r) -> Parser.limits_ p' = Parser.limits_ p.
Proof.
  intros (Hinv & Hsm & _) H. destruct (parse_one_inv p Hinv Hsm) as (p2 & r2 & Heq & (_ & _ & _ & Hl & _) & _).
  rewrite H in Heq. by injection Heq as <- <-.
Qed.

Lemma reclaim_limits p p' : reclaim p = Ret p' -> Parser.limits_ p' = Parser.limits_ p.
Proof. unfold reclaim. intros H. by apply run_bind_Ret in H as (b & _ & [= <-]). Qed.

Lemma commit_read_limits bs p p' : commit_read bs p = Ret p' -> Parser.limits_ p' = Parser.limits_ p.
Proof.
  unfold commit_read, parser_commit. intros H. apply run_bind_Ret in H as (b & _ & H).
  by apply run_bind_Ret in H as (b' & _ & [= <-]).
Qed.

Lemma handshake_read_ok now slot c : reading slot c -> step_ok (handshake_read other now slot c).
Proof.
  intros (Hip & Hso & [(ai & Hok & Ha & Hp)|(Hn & Hp & Hcol)]); unfold handshake_read;
    pose proof Hip as (_ & _ & Hstop & _).
  - destruct (awaiting_sink c ai slot Hok Ha) as (s & Hd & Hc). rewrite Hd. cbn [mbind run_bind snd].
    rewrite Hstop, Hc. cbn [negb andb]. destruct (prepare_ok _ Hp) as (b & Hb & Hpi & Hwf). rewrite Hb. cbn [mbind run_bind].
    eexists _, _. split; [done|]. split; [by apply in_progress_parser|]. split; [done|]. split; [done|]. exists ai. split; [destruct Hok; by constructor|done].
  - destruct (collected_deref slot c Hcol) as (s & Hd & Hc & _). rewrite Hd. cbn [mbind run_bind snd].
    rewrite Hstop, Hc. cbn [negb andb]. by apply handshake_return_ok.
Qed.

Lemma awaiting_missing c ai slot s :
  conn_ok c [] [ai] -> ai_sink ai = Some slot -> sinks c !! slot = Some s ->
  length (sink_slots s) <> length (sink_types s).
Proof.
  intros Hok Ha Hs. pose proof (inv_ptrs _ _ _ _ (ok_inv _ _ _ Hok)) as Hpt.
  change (ptrs [] [ai]) with [ai_sink ai] in Hpt.
  apply Forall_cons in Hpt as [(a & s1 & Ha1 & Hs1 & Hwf1 & Hc) _]. rewrite Ha in Ha1. injection Ha1 as <-.
  rewrite Hs in Hs1. injection Hs1 as <-. rewrite sink_complete in Hc by done. by apply Nat.eqb_neq in Hc.
Qed.

(** The replies of one read. *)
Definition parse_done (slot : nat) (r : run (connection * option handshake_error)) : Prop :=
  exists c e, r = Ret (c, e) /\
    match e with
    | Some _ => in_progress c0 c /\ small (parser_ c) /\ exists pend await, conn_ok c pend await
    | None => reading slot c
    end.

Lemma handshake_parse_turn f now slot c ai :
  in_progress c0 c -> socket_open c = true -> conn_ok c [] [ai] -> ai_sink ai = Some slot ->
  parser_ok (parser_ c) ->
  parse_done slot (handshake_parse (Datatypes.S f) now slot c) \/
  (exists c2, handshake_parse (Datatypes.S f) now slot c = handshake_parse f now slot c2 /\
     in_progress c0 c2 /\ socket_open c2 = true /\ conn_ok c2 [] [ai] /\ ready_for (parser_ c2) /\
     (turns (parser_ c2) < turns (parser_ c))%nat).
Proof.
  intros Hip Hso Hok Ha Hp. cbn [handshake_parse].
  destruct (parse_one_next _ Hp) as (p1 & res & Hone & [Hwf1 Hsm1] & Hres). rewrite Hone. cbn [mbind run_bind].
  pose proof (in_progress_parser p1 c Hip Hwf1 (parse_one_limits _ _ _ Hp Hone)) as Hip1.
  assert (conn_ok (set_parser p1 c) [] [ai]) as Hok1 by (destruct Hok; by constructor).
  assert (has_pending_read (pipeline_ (set_parser p1 c)) = true) as Hpr.
  { unfold has_pending_read. by rewrite (front_empty _ _ _ (inv_await _ _ _ _ (ok_inv _ _ _ Hok1))). }
  rewrite Hpr. cbn [negb]. destruct res as [[root|]|e].
  - destruct Hres as (m & bm & p2 & Hb & Hrs & Hrec & Hp2 & Hlt). rewrite Hb. cbn [mbind run_bind].
    rewrite Hrs. cbn [or_fault mbind run_bind].
    destruct (on_reply_inv now (reply_message bm) _ _ _ _ _ (ok_inv _ _ _ Hok1))
      as (a & s & s' & p' & Ha' & Hs & Hwf & Hdel & Hmsg & _ & Hi').
    rewrite Ha in Ha'. injection Ha' as <-. rewrite on_message_reply, Hmsg. cbn [mbind run_bind fst snd].
    rewrite Hrec. cbn [mbind run_bind]. set (c2 := set_parser p2 _).
    assert (in_progress c0 c2) as Hip2 by (by apply in_progress_parser; [|apply ready_storage|apply reclaim_limits]).
    assert (sinks c2 !! slot = Some s') as Hs' by apply lookup_insert_eq.
    rewrite (deref_at _ _ _ Hs'). cbn [mbind run_bind snd].
    assert (quiet (state_ c) = false) as Hq.
    { destruct Hip as (_ & -> & _). by destruct Hst0 as [-> | ->]. }
    destruct (is_complete s') eqn:Hc; [left|right].
    + exists c2, None. split; [done|]. split; [done|]. split; [done|]. right.
      split; [constructor; [apply Hok1|exact Hi'|cbn; by rewrite Hq]|]. split; [done|].
      exists s'. split; [done|]. split; [apply Hdel|done].
    + exists c2. split; [done|]. split; [done|]. split; [done|].
      split; [constructor; [apply Hok1|exact Hi'|cbn; by rewrite Hq]|done].
  - left. eexists _, None. split; [done|]. split; [done|]. split; [done|]. left. by exists ai.
  - left. destruct (conn_ok_reply now (reply_error (protocol_error e)) _ _ _ Hok1 Hpr) as (h' & p' & aw & Hmsg & Hok2).
    rewrite on_error_reply, Hmsg. cbn [mbind run_bind fst snd]. eexists _, (Some _). split; [done|].
    split; [done|]. split; [done|eauto].
Qed.

Lemma handshake_parse_ok now slot ai : forall fuel c,
  in_progress c0 c -> socket_open c = true -> conn_ok c [] [ai] -> ai_sink ai = Some slot ->
  parser_ok (parser_ c) -> (turns (parser_ c) < fuel)%nat ->
  parse_done slot (handshake_parse fuel now slot c).
Proof.
  induction fuel as [|fuel IH]; intros c Hip Hso Hok Ha Hp Hf; [lia|].
  destruct (handshake_parse_turn fuel now slot c ai Hip Hso Hok Ha Hp)
    as [Hd|(c2 & -> & Hip2 & Hso2 & Hok2 & Hp2 & Hlt)]; [done|].
  apply IH; [done..|by apply ready_parser_ok|lia].
Qed.

Lemma on_read_ok now slot r c :
  connect_inv c (at_read slot) ->
  small (parser_ c) ->
  (forall bs, r = Val bs -> texts_live (parser_ c) /\
     (length bs <= length (buffer_ (buf_ (parser_ c))) - write_pos_ (buf_ (parser_ c)))%nat) ->
  step_ok (on_read other now slot r c).
Proof.
  cbn [connect_inv]. intros (Hip & Hso & Hpi & ai & Hok & Ha) Hsm Hr.
  destruct r as [[|b bs]|e]; cbn [on_read]; [by eapply handshake_error_ok| |by eapply handshake_error_ok].
  destruct (Hr _ eq_refl) as [Htl Hfit]. assert (parser_ok (parser_ c)) as Hp by done.
  destruct (commit_read_ok (b :: bs) (parser_ c) Hp Hfit) as (p1 & Hc & Hp1 & _).
  rewrite Hc. cbn [mbind run_bind].
  destruct (handshake_parse_ok now slot ai (read_fuel p1) (set_parser p1 c)) as (c2 & e & He & Hd); try done.
  { by apply in_progress_parser; [|apply Hp1|eapply commit_read_limits]. }
  { destruct Hok; by constructor. }
  { apply turns_read_fuel. }
  rewrite He. cbn [mbind run_bind fst snd]. destruct e; [by apply handshake_return_ok|by apply handshake_read_ok].
Qed.

Lemma handshake_write_ok now slot c :
  in_progress c0 c -> socket_open c = true -> ready_for (parser_ c) ->
  (exists it, conn_ok c [it] [] /\ pi_sink it = Some slot) \/
  (exists ai, conn_ok c [] [ai] /\ ai_sink ai = Some slot) ->
  step_ok (handshake_write other now slot c).
Proof.
  intros Hip Hso Hp Hpend. unfold handshake_write. pose proof Hip as (_ & _ & Hstop & _). rewrite Hstop.
  destruct Hpend as [(it & Hok & Hs)|(ai & Hok & Hs)]; unfold has_pending_write.
  - rewrite (front_empty _ _ _ (inv_pend _ _ _ _ (ok_inv _ _ _ Hok))).
    rewrite (next_write_buffer_eq _ _ _ _ _ (ok_inv _ _ _ Hok)). eexists _, _. split; [done|].
    split; [done|]. split; [done|]. split; [done|]. by exists it.
  - rewrite (proj2 (q_empty_elems _ _ (inv_pend _ _ _ _ (ok_inv _ _ _ Hok)))) by done. cbn [negb andb].
    apply handshake_read_ok. split; [done|]. split; [done|]. left. exists ai. split; [done|]. split; [done|].
    by apply ready_parser_ok.
Qed.

Lemma on_written_ok now slot buf r c :
  connect_inv c (at_write slot buf) -> (forall n, r = Val n -> 0 <= n <= zlen buf) ->
  step_ok (on_written other now slot r c).
Proof.
  cbn [connect_inv]. intros (Hip & Hso & Hp & it & Hok & Hs & ->) Hr.
  destruct r as [n|e]; cbn [on_written]; [|by eapply handshake_error_ok; [|apply ready_storage|]].
  destruct (on_write_done_inv _ _ _ _ _ n (ok_inv _ _ _ Hok) (Hr n eq_refl)) as (p' & Hw & _ & Hi).
  rewrite Hw. cbn [mbind run_bind].
  assert (quiet (state_ c) = false) as Hq by (destruct Hip as (_ & -> & _); by destruct Hst0 as [-> | ->]).
  apply handshake_write_ok; [done|done|done|]. destruct (_ =? _); [right|left]; eexists;
    (split; [constructor; [apply Hok|exact Hi|cbn; by rewrite Hq]|done]).
Qed.

Lemma start_handshake_ok now addr c :
  in_progress c0 c -> socket_open c = true -> ready_for (parser_ c) -> nothing_pending c ->
  sinks c !! addr = None -> step_ok (start_handshake other now addr c).
Proof.
  intros Hip Hso Hp Hn Ha. unfold start_handshake. pose proof Hip as (Hcfg & Hst & _).
  rewrite handshake_request_ok by (by rewrite Hcfg). cbn [mbind run_bind].
  set (cmds := handshake_commands (cfg_ c)). pose proof (handshake_commands_count (cfg_ c)) as Hcnt. fold cmds in Hcnt.
  assert (Z.to_nat (reply_count (request_of cmds)) = length cmds) as Hrc.
  { unfold reply_count, request_of, zlen. cbn [command_count_]. lia. }
  rewrite Hrc. destruct (dynamic_sink_fresh TIgnore (length cmds)) as (Hwf & _ & Hc & Hlen); [lia|].
  set (s := dynamic_sink TIgnore (length cmds)) in *. set (h := <[addr := s]> (sinks c)).
  assert (conn_ok (set_pipeline h (pipeline_ c) c) [] []) as Hok1.
  { destruct Hn as [H1 H2 H3]. constructor; [done|by apply inv_other; [|apply not_elem_of_nil]|done]. }
  destruct (push_inv h (pipeline_ c) [] [] (request_of cmds) addr s time_max (ok_inv _ _ _ Hok1))
    as (p' & Hpush & Hres); [apply lookup_insert_eq|done|done|apply not_elem_of_nil|by rewrite Hlen|].
  unfold push_no_deadline. rewrite Hpush. cbn [mbind run_bind fst snd].
  destruct (has_room _ _) eqn:Hr; cbn [negb].
  - destruct Hres as [Hi _]. apply handshake_write_ok; [done|done|done|]. left.
    exists (mk_pending_item (request_of cmds) (Some addr) 0 time_max). split; [|done]. constructor; [apply Hn|exact Hi|]. cbn. intros Hq. rewrite Hst in Hq.
    destruct Hst0 as [E | E]; by rewrite E in Hq.
  - subst p'. eexists _, _. split; [done|]. split; [done|]. split; [by apply ready_storage|done].
Qed.

(** *** Before the handshake *)

Lemma in_progress_socket b c : in_progress c0 c -> in_progress c0 (set_socket b c).
Proof. done. Qed.

Lemma pending_socket b c : nothing_pending c -> nothing_pending (set_socket b c).
Proof. intros [? ? ?]. by constructor. Qed.

Lemma next_endpoint_ok now ec (rest : list endpoint) addr c :
  in_progress c0 c -> nothing_pending c -> ready_for (parser_ c) ->
  step_ok (next_endpoint other now ec rest addr c).
Proof.
  intros Hip Hn Hp. destruct rest as [|ep rest]; cbn [next_endpoint].
  - pose proof (proj2 (ready_storage _ Hp)). destruct ec; by eexists _, _.
  - eexists _, _. split; [done|]. rewrite close_socket_eq. split; [done|]. split; [by apply pending_socket|done].
Qed.

Lemma on_attempt_ok now a (rest : list endpoint) addr ep c :
  connect_inv c (at_connect ep rest) -> sinks c !! addr = None ->
  step_ok (on_attempt other now a rest addr c).
Proof.
  cbn [connect_inv]. intros (Hip & Hn & Hp) Ha.
  destruct a as [e b|[e|] [e'|]]; cbn [on_attempt];
    try (apply next_endpoint_ok; [done|by apply pending_socket|done]).
  cbn [after_attempts]. pose proof Hip as (_ & _ & Hstop & _). cbn [stop_ set_socket]. rewrite Hstop.
  apply start_handshake_ok; [done|done|done|by apply pending_socket|done].
Qed.

Lemma on_resolved_ok r c : connect_inv c at_resolve -> step_ok (on_resolved (endpoint:=endpoint) r c).
Proof.
  cbn [connect_inv]. intros (Hip & Hn & Hp). pose proof Hip as (_ & _ & Hstop & _).
  pose proof (proj2 (ready_storage _ Hp)).
  destruct r as [[|ep rest]|[]]; cbn [on_resolved]; [by eexists _, _| |by eexists _, _..].
  rewrite Hstop, close_socket_eq. eexists _, _. split; [done|]. split; [done|].
  split; [by apply pending_socket|done].
Qed.

(** What the environment may resume a point with: a new sink has an unused
    address, a write reports at most what it was given, a read fits the span,
    the storage is below 4 GiB and did not move under a half-read value. *)
Definition input_ok (pt : point) (i : connect_input endpoint) (c : connection) : Prop :=
  match pt, i with
  | at_connect _ _, in_attempt _ addr => sinks c !! addr = None
  | at_write _ buf, in_written (Val n) => 0 <= n <= zlen buf
  | at_read _, in_read (Val bs) =>
    small (parser_ c) /\ texts_live (parser_ c) /\
    (length bs <= length (buffer_ (buf_ (parser_ c))) - write_pos_ (buf_ (parser_ c)))%nat
  | at_read _, _ => small (parser_ c)
  | _, _ => True
  end.

Lemma do_connect_resume_ok now pt i c r :
  connect_inv c pt -> input_ok pt i c -> do_connect_resume other now pt i c = Some r -> step_ok r.
Proof.
  intros Hinv Hi Hr. destruct pt as [|ep rest|slot buf|slot|slot res|slot|res], i as [r0|a addr|r0|r0| |];
    cbn [do_connect_resume input_ok] in Hr, Hi; simplify_eq.
  - by apply on_resolved_ok.
  - by eapply on_attempt_ok.
  - eapply on_written_ok; [exact Hinv|]. by intros n ->.
  - destruct Hinv as (Hip & _ & Hp & it & Hok & _). pose proof (proj2 (ready_storage _ Hp)).
    destruct (request_timeout (cfg_ c)), (connect_timeout (cfg_ c)); simplify_eq; by eapply fail_handshake_ok.
  - destruct r0 as [bs|e]; (apply on_read_ok; [exact Hinv|apply Hi|]); [|done]. intros bs' [= <-]. apply Hi.
  - destruct Hinv as (Hip & _ & _ & ai & Hok & _).
    destruct (request_timeout (cfg_ c)), (connect_timeout (cfg_ c)); simplify_eq; by eapply fail_handshake_ok.
  - by apply handshake_end_ok.
  - by apply check_replies_ok.
Qed.

Lemma do_connect_begin_ok c :
  c = c0 -> stop_ c = false -> nothing_pending c -> storage_ok (parser_ c) ->
  exists c1, do_connect_begin (endpoint:=endpoint) c = (c1, at_resolve) /\ connect_inv c1 at_resolve.
Proof.
  intros -> Hstop Hn Hsto. unfold do_connect_begin. rewrite Hstop. eexists. split; [done|].
  destruct (reset_ready _ Hsto) as [Hr _].
  split; [do 4 (split; [done|]); split; [apply Hr|done]|]. split; [|done].
  destruct Hn as [? ? ?]. by constructor.
Qed.

End connect_inv.
