(* ===== verification/Tolerant.v ===== *)
(** * Frames of the pieces of a connection

    [handle_error], the loop of [do_read], [do_connect] and [do_reconnect] are
    made of a few changes of the connection.  A relation that tolerates these
    changes tolerates the pieces: [Tolerant] is the interface, instantiated by
    what every schedule keeps and by what the loops of the actor rely on. *)

From S2P Require Import Prelude Kind Errors Charconv Buffer Message Parser Builder Adapter.
From S2P Require Import Request RingQueue ResponseSink Pipeline PipelineSpec Config Connection Connect.
From S2P Require Import ConnectionSpec ConnectSpec.

(** The changes that send nothing and receive nothing: fields, notifications,
    events, and requests that are failed. *)
Class Calm (R : connection -> connection -> Prop) : Prop := {
  #[global] tol_preorder :: PreOrder R;
  tol_parser p c : R c (set_parser p c);
  tol_socket b c : R c (set_socket b c);
  tol_state s c : R c (set_state s c);
  tol_attempts n c : R c (set_attempts (generation_ c) n c);
  tol_notify w r k c : R c (notify w r k c);
  tol_event now k st f t e c : k <> ev_connected -> R c (emit_connection_event now k st f t e c);
  tol_succeeded now c : R c (connect_succeeded now c);
  tol_clear now err c c' : clear_pipeline now err c = Ret c' -> R c c';
  tol_error now e c h p :
    has_pending_read (pipeline_ c) = true -> on_error now e (sinks c) (pipeline_ c) = Ret (h, p) ->
    R c (set_pipeline h p c);
}.

(** The changes that come with messages: one is received, some bytes are
    sent, the handshake is queued. *)
Class Tolerant (R : connection -> connection -> Prop) : Prop := {
  #[global] tol_calm :: Calm R;
  tol_message now m c h p :
    has_pending_read (pipeline_ c) = true -> on_message now m (sinks c) (pipeline_ c) = Ret (h, p) ->
    R c (set_pipeline h p c);
  tol_write n c p : 0 <= n -> on_write_done n (pipeline_ c) = Ret p -> R c (set_pipeline (sinks c) p c);
  tol_hello addr req c p b :
    let h := <[addr := dynamic_sink TIgnore (Z.to_nat (reply_count req))]> (sinks c) in
    sinks c !! addr = None -> 0 < reply_count req ->
    push_no_deadline req (Some addr) h (pipeline_ c) = Ret (p, b) -> R c (set_pipeline h p c);
}.

(** What the environment promises: a new sink has an unused address, a write
    reports no negative size. *)
Definition input_sane {endpoint} (i : connect_input endpoint) (c : connection) : Prop :=
  match i with
  | in_attempt _ addr => sinks c !! addr = None
  | in_written (Val n) => 0 <= n
  | _ => True
  end.

Section calm.

Context (R : connection -> connection -> Prop) `{!Calm R}.

(** ** Errors *)

Lemma tol_close_socket c : R c (close_socket c).
Proof. rewrite close_socket_eq. apply tol_socket. Qed.

Lemma tol_transition now c c' : transition_to_closed now c = Ret c' -> R c c'.
Proof.
  unfold transition_to_closed. intros H. run_inv.
  transitivity (set_state connection_state.CLOSED c); [apply tol_state|].
  etransitivity; [by eapply tol_clear|]. etransitivity; [apply tol_close_socket|by apply tol_event].
Qed.

Lemma tol_handle_error now ec c c' : handle_error now ec c = Ret c' -> R c c'.
Proof.
  unfold handle_error. intros H. destruct (state_ c); run_inv; try done;
    match goal with H : clear_pipeline _ _ ?c1 = Ret ?c2 |- _ =>
      transitivity c1; [|transitivity c2; [exact (tol_clear _ _ _ _ H)|]] end;
    try (transitivity (set_state connection_state.FAILED c); [apply tol_state|by apply tol_event]);
    (etransitivity; [apply tol_close_socket|apply tol_notify]).
Qed.

Lemma tol_reply_error now e c c' :
  (if has_pending_read (pipeline_ c)
   then hp ← on_error now e (sinks c) (pipeline_ c); Ret (set_pipeline hp.1 hp.2 c)
   else Ret c) = Ret c' -> R c c'.
Proof.
  destruct (has_pending_read (pipeline_ c)) eqn:Hpr; intros H; run_inv; [|done].
  destruct x as [h p]. by eapply tol_error.
Qed.

(** ** Connecting *)

Context (other : string -> Z -> string) {endpoint : Type}.
Context (pow : double -> double -> double) (unspecified : double -> Z).

Lemma tol_fail_handshake now err c r : fail_handshake (endpoint:=endpoint) now err c = Ret r -> R c r.1.
Proof. unfold fail_handshake. intros H. run_inv. by eapply tol_clear. Qed.

Lemma tol_check_replies now slot c r : check_replies (endpoint:=endpoint) other now slot c = Ret r -> R c r.1.
Proof.
  unfold check_replies. intros H. apply run_bind_Ret in H as (as_ & _ & H). apply run_bind_Ret in H as (rs & _ & H).
  destruct (first_failure rs) as [err|]; [|run_inv; apply tol_succeeded].
  case_bool_decide; [by run_inv|by eapply tol_fail_handshake].
Qed.

Lemma tol_handshake_end now slot res c r :
  handshake_end (endpoint:=endpoint) other now slot res c = Ret r -> R c r.1.
Proof.
  unfold handshake_end. intros H. destruct res; [|by eapply tol_fail_handshake].
  apply run_bind_Ret in H as (as_ & _ & H). destruct (negb _); [by eapply tol_fail_handshake|by run_inv].
Qed.

Lemma tol_handshake_return now slot res c r :
  handshake_return (endpoint:=endpoint) other now slot res c = Ret r -> R c r.1.
Proof.
  unfold handshake_return. intros H.
  destruct (request_timeout (cfg_ c)), (connect_timeout (cfg_ c)); [by run_inv..|by eapply tol_handshake_end].
Qed.

Lemma tol_handshake_read now slot c r :
  handshake_read (endpoint:=endpoint) other now slot c = Ret r -> R c r.1.
Proof.
  unfold handshake_read. intros H. apply run_bind_Ret in H as (as_ & _ & H).
  destruct (_ && _); [run_inv; apply tol_parser|by eapply tol_handshake_return].
Qed.

Lemma tol_handshake_write now slot c r :
  handshake_write (endpoint:=endpoint) other now slot c = Ret r -> R c r.1.
Proof.
  unfold handshake_write. intros H. destruct (_ && _); [by run_inv|by eapply tol_handshake_read].
Qed.

Lemma tol_do_connect_begin c : R c (do_connect_begin (endpoint:=endpoint) c).1.
Proof. unfold do_connect_begin. destruct (stop_ c); [done|apply tol_parser]. Qed.

Lemma tol_reconnect_attempt jitter c : R c (reconnect_attempt (endpoint:=endpoint) jitter c).1.1.
Proof.
  unfold reconnect_attempt. destruct (_ || _); [done|].
  pose proof (tol_do_connect_begin (set_state connection_state.RECONNECTING c)) as Hk.
  destruct (do_connect_begin _) as [c1 pt].
  transitivity (set_state connection_state.RECONNECTING c); [apply tol_state|exact Hk].
Qed.

Lemma tol_backoff_turn now deadline jitter c :
  R c (backoff_turn (endpoint:=endpoint) now deadline jitter c).1.1.
Proof. unfold backoff_turn. destruct (_ && _); [done|apply tol_reconnect_attempt]. Qed.

Lemma tol_reconnect_head now jitter c r :
  reconnect_head (endpoint:=endpoint) pow unspecified now jitter c = Ret r -> R c r.1.1.
Proof.
  unfold reconnect_head. intros H. destruct (_ || _); [by run_inv|]. apply run_bind_Ret in H as (? & _ & H).
  destruct (calculate_reconnect_delay _ _ _ _ _ _) as [delay jitter1]. injection H as <-.
  destruct (0 <? delay); [apply tol_backoff_turn|apply tol_reconnect_attempt].
Qed.

Lemma tol_reconnect_after now jitter res c r :
  reconnect_after (endpoint:=endpoint) pow unspecified now jitter res c = Ret r -> R c r.1.1.
Proof.
  destruct res; cbn [reconnect_after]; intros H; [run_inv; etransitivity; [apply tol_attempts|apply tol_notify]|].
  apply tol_reconnect_head in H. etransitivity; [|exact H]. etransitivity; [apply tol_state|apply tol_attempts].
Qed.

End calm.

Section tolerant.

Context (R : connection -> connection -> Prop) `{!Tolerant R}.

(** ** Reading *)

Lemma tol_read_loop fuel now : forall c c', do_read_loop fuel now c = Ret c' -> R c c'.
Proof.
  induction fuel as [|fuel IH]; intros c c' H; [done|]. cbn [do_read_loop] in H.
  apply run_bind_Ret in H as ([p1 parsed] & _ & H). transitivity (set_parser p1 c); [apply tol_parser|].
  set (c1 := set_parser p1 c) in *. destruct parsed as [[root|]|e]; cbv zeta in H.
  - destruct (has_pending_read (pipeline_ c1)) eqn:Hpr; cbn [negb] in H; [|by eapply (tol_handle_error R)].
    apply run_bind_Ret in H as (m & _ & H). apply run_bind_Ret in H as (msg & _ & H).
    apply run_bind_Ret in H as ([h p] & Hm & H). apply run_bind_Ret in H as (p2 & _ & H).
    transitivity (set_pipeline h p c1); [by eapply tol_message|].
    etransitivity; [apply (tol_parser p2)|by apply IH].
  - by run_inv.
  - apply run_bind_Ret in H as (c2 & H2 & H). transitivity c2; [by eapply (tol_reply_error R)|by eapply (tol_handle_error R)].
Qed.

(** ** Connecting *)

Context (other : string -> Z -> string) {endpoint : Type}.
Context (pow : double -> double -> double) (unspecified : double -> Z).

Lemma tol_handshake_parse fuel now slot : forall c r, handshake_parse fuel now slot c = Ret r -> R c r.1.
Proof.
  induction fuel as [|fuel IH]; intros c r H; [done|]. cbn [handshake_parse] in H.
  apply run_bind_Ret in H as ([p1 parsed] & _ & H). transitivity (set_parser p1 c); [apply tol_parser|].
  set (c1 := set_parser p1 c) in *. destruct parsed as [[root|]|e]; cbv zeta in H.
  - destruct (has_pending_read (pipeline_ c1)) eqn:Hpr; cbn [negb] in H; [|by run_inv].
    apply run_bind_Ret in H as (m & _ & H). apply run_bind_Ret in H as (msg & _ & H).
    apply run_bind_Ret in H as ([h p] & Hm & H). apply run_bind_Ret in H as (p2 & _ & H).
    transitivity (set_pipeline h p c1); [by eapply tol_message|].
    etransitivity; [apply (tol_parser p2)|]. apply run_bind_Ret in H as (as_ & _ & H).
    destruct (is_complete _); [by run_inv|by apply IH].
  - by run_inv.
  - apply run_bind_Ret in H as (c2 & H2 & [= <-]). by eapply (tol_reply_error R).
Qed.

Lemma tol_start_handshake now addr c r :
  config_fits (cfg_ c) -> sinks c !! addr = None ->
  start_handshake (endpoint:=endpoint) other now addr c = Ret r -> R c r.1.
Proof.
  intros Hfit Ha H. unfold start_handshake in H. rewrite (handshake_request_ok _ Hfit) in H. cbn [mbind run_bind] in H.
  set (req := request_of _) in *.
  assert (0 < reply_count req) as Hpos
    by (unfold req, reply_count, request_of, zlen; cbn [command_count_]; pose proof (handshake_commands_count (cfg_ c)); lia).
  clearbody req. apply run_bind_Ret in H as ([p' b] & Hp & H). cbn [fst snd] in H.
  etransitivity; [by eapply (tol_hello addr req)|]. destruct b; cbn [negb] in H; [by eapply (tol_handshake_write R)|].
  unfold fail_connect in H. by run_inv.
Qed.

Lemma tol_after_attempts now ec addr c r :
  config_fits (cfg_ c) -> sinks c !! addr = None ->
  after_attempts (endpoint:=endpoint) other now ec addr c = Ret r -> R c r.1.
Proof.
  intros Hfit Ha H. unfold after_attempts, fail_connect in H. destruct ec as [[| |m]|]; [by run_inv..|].
  destruct (stop_ c); [by run_inv|by eapply tol_start_handshake].
Qed.

Lemma tol_next_endpoint now ec rest addr c r :
  config_fits (cfg_ c) -> sinks c !! addr = None ->
  next_endpoint (endpoint:=endpoint) other now ec rest addr c = Ret r -> R c r.1.
Proof.
  intros Hfit Ha H. destruct rest; cbn [next_endpoint] in H; [by eapply tol_after_attempts|].
  run_inv. apply (tol_close_socket R).
Qed.

Lemma tol_attempt now a rest addr c r :
  config_fits (cfg_ c) -> sinks c !! addr = None ->
  on_attempt (endpoint:=endpoint) other now a rest addr c = Ret r -> R c r.1.
Proof.
  intros Hfit Ha H. assert (forall b, R c (set_socket b c)) as Hk by (intros b; apply tol_socket).
  destruct a as [e left_open|[e|] [e'|]]; cbn [on_attempt] in H; 
    match type of H with _ (set_socket ?b _) = _ => transitivity (set_socket b c); [apply Hk|] end;
    first [apply tol_next_endpoint in H|apply tol_after_attempts in H]; done.
Qed.

Lemma tol_do_connect now pt i c r :
  config_fits (cfg_ c) -> input_sane i c ->
  do_connect_resume (endpoint:=endpoint) other now pt i c = Some (Ret r) -> R c r.1.
Proof.
  intros Hfit Hi H. unfold do_connect_resume in H.
  destruct pt as [|ep rest|slot buf|slot|slot res|slot|res], i as [rr|a addr|w|rd| |]; try done; try injection H as H.
  - unfold on_resolved, fail_connect in H. destruct rr as [[|ep rest]|[]]; try by run_inv.
    destruct (stop_ c); run_inv; [done|apply (tol_close_socket R)].
  - by eapply tol_attempt.
  - destruct w as [n|e]; cbn [on_written] in H; [|by eapply (tol_handshake_return R)].
    apply run_bind_Ret in H as (p1 & H1 & H).
    etransitivity; [exact (tol_write n c p1 Hi H1)|by eapply (tol_handshake_write R)].
  - destruct (request_timeout (cfg_ c)), (connect_timeout (cfg_ c)); try done;
      injection H as H; exact (tol_handshake_end R other now slot (Unexpected (hs_io io_timed_out)) c r H).
  - destruct rd as [[|b bs]|e]; cbn [on_read] in H; [by eapply (tol_handshake_return R)| |by eapply (tol_handshake_return R)].
    apply run_bind_Ret in H as (p1 & _ & H). apply run_bind_Ret in H as ([c2 e] & H2 & H). cbn [fst snd] in H.
    etransitivity; [apply (tol_parser p1)|]. etransitivity; [exact (tol_handshake_parse _ _ _ _ _ H2)|].
    destruct e; [by eapply (tol_handshake_return R)|by eapply (tol_handshake_read R)].
  - destruct (request_timeout (cfg_ c)), (connect_timeout (cfg_ c)); try done;
      injection H as H; exact (tol_handshake_end R other now slot (Unexpected (hs_io io_timed_out)) c r H).
  - by eapply (tol_handshake_end R).
  - by eapply (tol_check_replies R).
Qed.

Lemma tol_do_reconnect now jitter pt i c r :
  config_fits (cfg_ c) -> input_sane i c ->
  do_reconnect_resume (endpoint:=endpoint) other pow unspecified now jitter pt i c = Some (Ret r) -> R c r.1.1.
Proof.
  intros Hfit Hi H. destruct pt as [deadline|cp|]; cbn [do_reconnect_resume] in H; [| |done].
  - destruct i; try done. injection H as <-. apply (tol_backoff_turn R).
  - destruct (do_connect_resume other now cp i c) as [x|] eqn:Hx; [|done]. injection H as H.
    apply run_bind_Ret in H as ([c1 pt] & -> & H). apply tol_do_connect in Hx; [|done..].
    etransitivity; [exact Hx|]. destruct pt; cbn [fst snd] in H; [by run_inv..|by eapply (tol_reconnect_after R)].
Qed.

End tolerant.
