(* ===== verification/Strand.v ===== *)
(** * The strand: every task of a connection, in any order

    All code of a connection runs on its strand, one piece at a time.  A
    [task] is any of these pieces with what the environment resumes it with;
    [run_task] runs it.  The order is not restricted at all: a task may run
    whether or not a coroutine is suspended at the place it stands for, so
    what is proved here holds of every schedule, also of those in which the
    coroutines get in each other's way. *)

From S2P Require Import Prelude Kind Errors Charconv Buffer Message Parser Builder Adapter.
From S2P Require Import Request RingQueue ResponseSink Pipeline PipelineSpec Config Connection Connect.
From S2P Require Import ConnectionSpec ConnectSpec Tolerant.

Section tasks.

Context (other : string -> Z -> string) {endpoint : Type}.
Context (pow : double -> double -> double) (unspecified : double -> Z).

(** [task_woken] is the return of waits: notifications are consumed. *)
Inductive task : Type :=
| task_enqueue (now start : Z) (types : list ty) (r : request) (addr : nat)
| task_enqueue_dynamic (now start : Z) (t : ty) (r : request) (addr : nat)
| task_enqueue_throws (now : Z) (types : list ty) (r : request) (ep : exception) (addr : nat)
| task_read_begin
| task_read_end (now : Z) (r : expected bytes io_error)
| task_write_begin
| task_write_resume (now : Z) (r : expected Z io_error)
| task_control (now : Z)
| task_connect_begin
| task_connect_end (now : Z) (res : expected unit error_info)
| task_close_begin (now : Z)
| task_actor_end (now : Z)
| task_actor_completed (now : Z) (r : option exception)
| task_do_connect_begin
| task_do_connect (now : Z) (pt : connect_point endpoint) (i : connect_input endpoint)
| task_reconnect_head (now jitter : Z)
| task_reconnect (now jitter : Z) (pt : reconnect_point endpoint) (i : connect_input endpoint)
| task_destroy (now : Z)
| task_woken (w r k d : nat).

(** [enqueue] when the push runs out of memory: the request has been announced,
    then the handler fails its sink. *)
Definition enqueue_throws (now : Z) (types : list ty) (r : request) (ep : exception) (addr : nat)
    (c : connection) : run connection :=
  let c0 := set_pipeline (<[addr := fixed_sink types]> (sinks c)) (pipeline_ c) c in
  enqueue_caught now ep (s2b "enqueue dispatch") addr (trace_begin r c0).2.

(** The connection after a task; [None] when the task cannot run. *)
Definition run_task (t : task) (c : connection) : option (run connection) :=
  match t with
  | task_enqueue now start types r addr => Some (enqueue now start types r addr c)
  | task_enqueue_dynamic now start t r addr => Some (enqueue_dynamic now start t r addr c)
  | task_enqueue_throws now types r ep addr => Some (enqueue_throws now types r ep addr c)
  | task_read_begin => Some (fst <$> do_read_begin c)
  | task_read_end now r => Some (do_read_end now r c)
  | task_write_begin => Some (fst <$> do_write_begin c)
  | task_write_resume now r => Some (fst <$> do_write_resume now r c)
  | task_control now => Some (fst <$> control_turn now c)
  | task_connect_begin => Some (fst <$> connect_begin c)
  | task_connect_end now res => Some (fst <$> connect_end now res c)
  | task_close_begin now => Some (fst <$> close_begin now c)
  | task_actor_end now => Some (actor_loop_end now c)
  | task_actor_completed now r => Some (actor_completed now r c)
  | task_do_connect_begin => Some (Ret (do_connect_begin (endpoint:=endpoint) c).1)
  | task_do_connect now pt i => fmap (M:=run) fst <$> do_connect_resume other now pt i c
  | task_reconnect_head now jitter =>
    Some ((fst ∘ fst) <$> reconnect_head (endpoint:=endpoint) pow unspecified now jitter c)
  | task_reconnect now jitter pt i =>
    fmap (M:=run) (fst ∘ fst) <$> do_reconnect_resume other pow unspecified now jitter pt i c
  | task_destroy now => Some (connection_destroy now c)
  | task_woken w r k d => Some (Ret (set_wakeups w r k (set_actor (actor_running_ c) d c)))
  end.

(** What the environment promises: besides [input_sane], a request has a
    command. *)
Definition task_ok (t : task) (c : connection) : Prop :=
  match t with
  | task_enqueue _ _ _ r addr | task_enqueue_dynamic _ _ _ r addr =>
    sinks c !! addr = None /\ 0 < reply_count r
  | task_enqueue_throws _ types _ _ addr => sinks c !! addr = None /\ types <> []
  | task_write_resume _ (Val n) => 0 <= n
  | task_do_connect _ _ i | task_reconnect _ _ _ i => input_sane i c
  | _ => True
  end.

(** The connections that tasks lead to. *)
Inductive reaches (c0 : connection) : connection -> Prop :=
| reaches_refl : reaches c0 c0
| reaches_task t c c' :
    reaches c0 c -> task_ok t c -> run_task t c = Some (Ret c') -> reaches c0 c'.

#[export] Instance task_ok_dec t c : Decision (task_ok t c).
Proof. destruct t as [| | | | | |? []| | | | | | | |? ? []| |? ? ? []| |]; try destruct r; cbn; apply _. Defined.

(** Some tasks in a row. *)
Fixpoint schedule (ts : list task) (c : connection) : option connection :=
  match ts with
  | [] => Some c
  | t :: ts' =>
    if decide (task_ok t c) then
      match run_task t c with Some (Ret c') => schedule ts' c' | _ => None end
    else None
  end.

Lemma schedule_reaches ts c0 : forall c c', reaches c0 c -> schedule ts c = Some c' -> reaches c0 c'.
Proof.
  induction ts as [|t ts IH]; intros c c' Hr Hs; cbn [schedule] in Hs; [by injection Hs as <-|].
  destruct (decide (task_ok t c)) as [Hok|]; [|done]. destruct (run_task t c) as [[c1|]|] eqn:Ht; [|done..].
  eapply IH; [|exact Hs]. by eapply reaches_task.
Qed.

End tasks.

Arguments task : clear implicits.

(** ** What every task keeps *)

Definition is_connected_event (e : connection_event) : bool :=
  match ev_kind e with ev_connected => true | _ => false end.

(** The successful connects that were reported. *)
Definition opens (c : connection) : Z := zlen (List.filter is_connected_event (on_events c)).

(** The requests that were announced carry the numbers from 1 on. *)
Definition numbered (c : connection) : Prop :=
  next_request_id_ c = u64 (1 + zlen (on_starts c)) /\
  forall k info, on_starts c !! k = Some info -> info_id info = u64 (1 + Z.of_nat k).

(** The history only grows: bytes written, slots promised, replies given. *)
Definition extends (hs hs' : history) : Prop :=
  written_bytes hs `prefix_of` written_bytes hs' /\ reply_slots hs `prefix_of` reply_slots hs' /\
  replies hs `prefix_of` replies hs'.

#[export] Instance extends_preorder : PreOrder extends.
Proof.
  split; [done|]. intros h1 h2 h3 (? & ? & ?) (? & ? & ?). repeat split; by etrans.
Qed.

(** The sinks stay, with their types, and stay well-formed. *)
Definition types_kept (h h' : sink_store) : Prop :=
  forall a s, h !! a = Some s ->
    exists s', h' !! a = Some s' /\ sink_types s' = sink_types s /\ (sink_wf s -> sink_wf s').

#[export] Instance types_kept_preorder : PreOrder types_kept.
Proof.
  split; [intros h a s Hs; by exists s|]. intros h1 h2 h3 H12 H23 a s Hs.
  destruct (H12 a s Hs) as (s2 & Hs2 & Ht2 & Hw2). destruct (H23 a s2 Hs2) as (s3 & Hs3 & Ht3 & Hw3).
  exists s3. split; [done|]. split; [congruence|auto].
Qed.

Lemma types_kept_fresh (h : sink_store) a s : h !! a = None -> types_kept h (<[a := s]> h).
Proof. intros Ha b s' Hb. exists s'. rewrite lookup_insert_ne; [done|congruence]. Qed.

Lemma types_kept_update (h : sink_store) a s s' :
  h !! a = Some s -> sink_types s' = sink_types s -> sink_wf s' -> types_kept h (<[a := s']> h).
Proof.
  intros Ha Ht Hw b s1 Hb. destruct (decide (b = a)) as [->|Hne].
  - exists s'. rewrite lookup_insert_eq. split; [done|]. split; [congruence|done].
  - exists s1. by rewrite lookup_insert_ne.
Qed.

Section keeps.

Context (lims : pipeline_limits) (Hlims : limits_ok lims).

Record keeps (c c' : connection) : Prop := {
  keeps_cfg : cfg_ c' = cfg_ c;
  keeps_snapshot : state_snapshot_ c = state_ c -> state_snapshot_ c' = state_ c';
  keeps_opens : connection_hooks (cfg_ c) = true -> generation_ c = u64 (opens c) -> generation_ c' = u64 (opens c');
  keeps_traces : on_start (trace_hooks (cfg_ c)) = true -> numbered c -> numbered c';
  keeps_history hs : runs lims hs (sinks c) (pipeline_ c) ->
    exists hs', runs lims hs' (sinks c') (pipeline_ c') /\ extends hs hs' /\ types_kept (sinks c) (sinks c');
}.

#[export] Instance keeps_preorder : PreOrder keeps.
Proof.
  split.
  - intros c. constructor; try done. intros hs Hr. by exists hs.
  - intros c1 c2 c3 [H1 H2 H3 H4 H5] [K1 K2 K3 K4 K5].
    constructor; [congruence|auto|rewrite <- H1 in *; auto|rewrite <- H1 in *; auto|].
    intros hs Hr. destruct (H5 hs Hr) as (hs2 & Hr2 & Hx2 & Ht2).
    destruct (K5 hs2 Hr2) as (hs3 & Hr3 & Hx3 & Ht3). exists hs3. split; [done|]. split; by etrans.
Qed.

(** A change of the fields that do not matter here. *)
Lemma keeps_same c c' :
  cfg_ c' = cfg_ c -> sinks c' = sinks c -> pipeline_ c' = pipeline_ c ->
  generation_ c' = generation_ c -> on_events c' = on_events c ->
  next_request_id_ c' = next_request_id_ c -> on_starts c' = on_starts c ->
  (state_snapshot_ c = state_ c -> state_snapshot_ c' = state_ c') -> keeps c c'.
Proof.
  intros H1 H2 H3 H4 H5 H6 H7 H8.
  constructor; [done|done|unfold opens; by rewrite H4, H5|unfold numbered; by rewrite H6, H7|].
  rewrite H2, H3. intros hs Hr. by exists hs.
Qed.

(** A change of the pipeline and its sinks. *)
Lemma keeps_pipeline c h p :
  (forall hs, runs lims hs (sinks c) (pipeline_ c) ->
     exists hs', runs lims hs' h p /\ extends hs hs' /\ types_kept (sinks c) h) ->
  keeps c (set_pipeline h p c).
Proof. intros Hr. by constructor. Qed.

Lemma keeps_event now k st f t e c :
  k <> ev_connected -> keeps c (emit_connection_event now k st f t e c).
Proof.
  intros Hk. unfold emit_connection_event. destruct (negb _); [done|]. constructor; try done.
  - intros _ Hg. unfold opens in *. cbn [on_events add_event generation_]. rewrite List.filter_app. cbn [List.filter is_connected_event ev_kind].
    destruct k; [done|by rewrite app_nil_r..].
  - intros hs Hr. by exists hs.
Qed.

(** *** The pipeline operations *)

Lemma keeps_clear now err c c' : clear_pipeline now err c = Ret c' -> keeps c c'.
Proof.
  unfold clear_pipeline. intros H. run_inv. destruct x as [h p]. apply keeps_pipeline. intros hs Hr.
  destruct (runs_linked lims hs (sinks c) (pipeline_ c) Hlims Hr) as (pend & await & Hlk).
  destruct (clear_all_inv now err _ _ _ _ (lk_inv _ _ _ _ _ _ Hlk)) as (h1 & p1 & Hc1 & _ & _ & Hf & Ho).
  exists (after_clear err hs). split; [by eapply runs_clear|]. split; [split; [done|]; split; [done|by apply prefix_app_r]|].
  rewrite H in Hc1. injection Hc1 as <- <-. intros a s Hs. destruct (decide (Some a ∈ ptrs pend await)) as [Hin|Hout].
  - destruct (Hf a Hin) as (s0 & s' & Hs0 & Hs' & Hw & _ & Hty & _). exists s'. split; [done|]. split; [congruence|done].
  - exists s. by rewrite Ho.
Qed.

Lemma keeps_reply now r c h p :
  has_pending_read (pipeline_ c) = true ->
  match r with
  | reply_message m => on_message now m (sinks c) (pipeline_ c)
  | reply_error e => on_error now e (sinks c) (pipeline_ c)
  end = Ret (h, p) -> keeps c (set_pipeline h p c).
Proof.
  intros Hpr Hm. apply keeps_pipeline. intros hs Hr. exists (after_reply r hs).
  split; [by eapply runs_reply|]. split; [split; [done|]; split; [done|by apply prefix_app_r]|].
  destruct (runs_linked lims hs (sinks c) (pipeline_ c) Hlims Hr) as (pend & await & Hlk).
  destruct (replied_reply lims hs (sinks c) (pipeline_ c) pend await now r h p Hlk Hpr)
    as (a & s & s' & Hs & -> & (Hw & Hty & _) & _); [by destruct r|]. by eapply types_kept_update.
Qed.

Lemma keeps_write n c p :
  0 <= n -> on_write_done n (pipeline_ c) = Ret p -> keeps c (set_pipeline (sinks c) p c).
Proof.
  intros Hn Hw. apply keeps_pipeline. intros hs Hr.
  destruct (runs_linked lims hs (sinks c) (pipeline_ c) Hlims Hr) as (pend & await & Hlk).
  pose proof (lk_inv _ _ _ _ _ _ Hlk) as Hi.
  assert (has_pending_write (pipeline_ c) = true) as Hpw.
  { unfold on_write_done in Hw. unfold has_pending_write. apply run_bind_Ret in Hw as (? & Ha & _). by apply assert_Ret in Ha. }
  destruct (has_pending_write_front _ _ _ _ Hi Hpw) as (it & pend' & ->).
  pose proof (next_write_buffer_eq _ _ _ _ _ Hi) as Hb.
  exists (after_write (take (Z.to_nat n) (unsent_item it)) hs). split.
  - eapply runs_write; [exact Hr|exact Hpw|exact Hb| |exact Hw]. split; [done|].
    rewrite (zlen_unsent_item it) by (by pose proof (inv_items _ _ _ _ Hi) as [? _]%Forall_cons).
    unfold on_write_done in Hw. rewrite (front_empty _ _ _ (inv_pend _ _ _ _ Hi)) in Hw.
    rewrite (q_front_elems _ _ _ (inv_pend _ _ _ _ Hi)) in Hw. cbn [negb assert mbind run_bind] in Hw.
    apply run_bind_Ret in Hw as (? & _ & Hw). apply run_bind_Ret in Hw as (? & Ha & _).
    apply assert_Ret in Ha. bool_prop. exact Ha.
  - split; [|done]. split; [by apply prefix_app_r|done].
Qed.

Lemma keeps_store c a s :
  sinks c !! a = None -> no_value s -> keeps c (set_pipeline (<[a := s]> (sinks c)) (pipeline_ c) c).
Proof. intros Ha Hs. apply keeps_pipeline. intros hs Hr. exists hs.
  split; [by apply runs_store|]. split; [done|by apply types_kept_fresh].
Qed.

Lemma keeps_succeeded now c : keeps c (connect_succeeded now c).
Proof.
  unfold connect_succeeded, emit_connection_event. cbn [set_attempts set_state cfg_].
  destruct (connection_hooks (cfg_ c)) eqn:Hh; cbn [negb]; constructor; try done.
  - intros _ Hg. unfold opens in *. cbn [set_parser add_event set_attempts set_state on_events generation_].
    rewrite List.filter_app, Hg. cbn [List.filter is_connected_event ev_kind]. rewrite zlen_app. cbn [zlen length].
    unfold u64. rewrite Zplus_mod_idemp_l. done.
  - intros hs Hr. by exists hs.
  - by rewrite Hh.
  - intros hs Hr. by exists hs.
Qed.

Lemma push_refused r a dl (h : sink_store) (p p' : conn_pipeline) : push r a dl h p = Ret (p', false) -> p' = p.
Proof.
  unfold push. intros H. apply run_bind_Ret in H as (as_ & _ & H). apply run_bind_Ret in H as (? & _ & H).
  destruct (_ <=? _); [by run_inv|]. destruct (_ || _); [by run_inv|]. by run_inv.
Qed.

Lemma keeps_hello addr req c p b :
  let h := <[addr := dynamic_sink TIgnore (Z.to_nat (reply_count req))]> (sinks c) in
  sinks c !! addr = None -> 0 < reply_count req ->
  push_no_deadline req (Some addr) h (pipeline_ c) = Ret (p, b) -> keeps c (set_pipeline h p c).
Proof.
  intros h Ha Hpos Hp. subst h. set (s := dynamic_sink _ _) in *.
  destruct (dynamic_sink_fresh TIgnore (Z.to_nat (reply_count req))) as (Hwf & Hsl & Hc & Hlen); [lia|]. fold s in Hwf, Hsl, Hc, Hlen.
  apply keeps_pipeline. intros hs Hr. destruct b.
  - eexists. split; [eapply (runs_push _ hs _ _ addr s req time_max); [done..| |exact Hp]|].
    + rewrite Hlen. lia.
    + split; [|by apply types_kept_fresh]. split; [done|]. split; [by apply prefix_app_r|done].
  - exists hs. split; [|split; [done|by apply types_kept_fresh]]. apply push_refused in Hp. subst p.
    apply runs_store; [done..|by apply no_slots_no_value].
Qed.

Lemma keeps_tolerant : Tolerant keeps.
Proof.
  constructor; [constructor; try apply _; try (by intros; apply keeps_same)|..].
  - intros. by apply keeps_event.
  - apply keeps_succeeded.
  - apply keeps_clear.
  - intros now e c h p. apply (keeps_reply now (reply_error e)).
  - intros now m c h p. apply (keeps_reply now (reply_message m)).
  - apply keeps_write.
  - apply keeps_hello.
Qed.

#[local] Existing Instance keeps_tolerant.

(** *** The pieces of the connection *)

Lemma keeps_close now c r : close_begin now c = Ret r -> keeps c r.1.
Proof.
  unfold close_begin. intros H. case_bool_decide; run_inv; [done|].
  transitivity (set_state connection_state.CLOSING (set_stop true c)); [by apply keeps_same|].
  etransitivity; [by eapply keeps_clear|]. etransitivity; [apply (tol_close_socket keeps)|by apply keeps_same].
Qed.

Lemma keeps_actor_completed now r c c' : actor_completed now r c = Ret c' -> keeps c c'.
Proof.
  unfold actor_completed. set (c0 := set_actor false (actor_done_ c) c). intros H.
  apply run_bind_Ret in H as (c1 & H1 & H). apply run_bind_Ret in H as (c2 & H2 & [= <-]).
  transitivity c0; [by apply keeps_same|]. transitivity c2; [|by apply keeps_same].
  transitivity c1; [clear H2|case_bool_decide; [by eapply (tol_transition keeps)|by run_inv]].
  destruct r as [ep|]; [|by run_inv]. apply run_bind_Ret in H1 as (c3 & H3 & [= <-]).
  apply keeps_clear in H3.
  transitivity c3; [|clear H3; etransitivity; [apply (tol_close_socket keeps)|case_bool_decide; by apply keeps_same]].
  etransitivity; [|exact H3]. destruct (_ && _); [by apply keeps_event|done].
Qed.

Lemma keeps_destroy now c c' : connection_destroy now c = Ret c' -> keeps c c'.
Proof.
  unfold connection_destroy. intros H. run_inv. etransitivity; [|etransitivity; [by eapply keeps_clear|]].
  - case_bool_decide; by apply keeps_same.
  - etransitivity; [apply (tol_close_socket keeps)|by apply keeps_same].
Qed.

Lemma keeps_connect_begin c r : connect_begin c = Ret r -> keeps c r.1.
Proof.
  unfold connect_begin. intros H. case_bool_decide; [by run_inv|]. case_bool_decide; [by run_inv|].
  set (c1 := if bool_decide _ then _ else _) in *.
  assert (keeps c c1) as Hk by (unfold c1; case_bool_decide; by apply keeps_same). clearbody c1.
  destruct (stop_ c1); [by run_inv|]. apply run_bind_Ret in H as (c2 & H2 & H). run_inv.
  etransitivity; [exact Hk|]. etransitivity; [|by apply (keeps_same c2)].
  destruct (negb _); [unfold run_actor in H2; run_inv; by apply keeps_same|by run_inv].
Qed.

Lemma keeps_connect_end now res c r : connect_end now res c = Ret r -> keeps c r.1.
Proof. destruct res; cbn [connect_end]; intros H; run_inv; [by apply keeps_same|by apply keeps_event]. Qed.

(** *** Requests *)

Lemma keeps_reject now start info err addr c c0 c' s n :
  sinks c0 !! addr = None -> fresh_for n s -> keeps c0 c -> sinks c = <[addr := s]> (sinks c0) -> pipeline_ c = pipeline_ c0 ->
  reject now start info err addr c = Ret c' -> keeps c0 c'.
Proof.
  intros Ha (Hwf & Hsl & _) [H1 H2 H3 H5 H4] Hs Hp H. unfold reject in H. rewrite (deref_at _ addr s) in H by (rewrite Hs; apply lookup_insert_eq).
  cbn [mbind run_bind snd] in H. apply run_bind_Ret in H as (s1 & Hf1 & [= <-]).
  assert (no_value s1) as Hnv.
  { destruct (fail_all_spec now err s Hwf) as (s2 & Hf2 & _ & _ & _ & Hsl2). rewrite Hf1 in Hf2. injection Hf2 as <-.
    intros i v. rewrite Hsl2, Hsl. by intros [? _]%lookup_replicate. }
  assert (forall c1, cfg_ c1 = cfg_ c -> sinks c1 = sinks c -> pipeline_ c1 = pipeline_ c ->
    generation_ c1 = generation_ c -> on_events c1 = on_events c -> state_ c1 = state_ c ->
    state_snapshot_ c1 = state_snapshot_ c -> next_request_id_ c1 = next_request_id_ c ->
    on_starts c1 = on_starts c ->
    keeps c0 (set_pipeline (<[addr := s1]> (sinks c1)) (pipeline_ c1) c1)) as Hk.
  { intros c1 E1 E2 E3 E4 E5 E6 E7 E8 E9. constructor; cbn [set_pipeline cfg_ state_ state_snapshot_ sinks pipeline_ generation_].
    - congruence.
    - rewrite E6, E7. done.
    - unfold opens in *. cbn [set_pipeline on_events]. rewrite E4, E5. done.
    - unfold numbered in *. cbn [set_pipeline on_starts next_request_id_]. rewrite E8, E9. done.
    - intros hs Hr. exists hs. rewrite E2, E3, Hs, Hp, insert_twice.
      split; [by apply runs_store|]. split; [done|by apply types_kept_fresh]. }
  match goal with |- context [if ?b then _ else _] => destruct b end; by apply Hk.
Qed.

Lemma keeps_trace_begin r c : keeps c (trace_begin r c).2.
Proof. 
  unfold trace_begin. destruct (trace_hooks_enabled _); [|done]. constructor; try done.
  - intros Hon [Hn Hids]. unfold numbered. cbn [snd set_traces next_request_id_ on_starts]. rewrite Hon. split.
    + rewrite Hn, zlen_app. unfold u64. rewrite Zplus_mod_idemp_l. f_equal. unfold zlen. cbn [length]. lia.
    + intros k info [Hk|[? Hk]]%lookup_app_Some; [by apply Hids|].
      apply list_lookup_singleton_Some in Hk as [Hk <-]. cbn [info_id]. rewrite Hn. unfold zlen. f_equal. lia.
  - intros hs Hr. by exists hs.
Qed.

Lemma keeps_enqueue_impl now start r addr c c' s n :
  sinks c !! addr = None -> fresh_for n s -> reply_count r = Z.of_nat n ->
  enqueue_impl now start r addr (set_pipeline (<[addr := s]> (sinks c)) (pipeline_ c) c) = Ret c' -> keeps c c'.
Proof.
  intros Ha Hfr Hcnt H. pose proof Hfr as (Hwf & Hsl & Hc & Hlen). unfold enqueue_impl in H.
  pose proof (keeps_store c addr s Ha (no_slots_no_value s Hsl)) as Hk. set (c0 := set_pipeline _ _ c) in *.
  pose proof (keeps_trace_begin r c0) as Hk1. pose proof (trace_begin_fields r c0) as Hf. cbv zeta in Hf.
  destruct (trace_begin r c0) as [info c1]. cbn [snd] in *. destruct Hf as (Hst & Hsn & Hs & Hp & Hcfg).
  assert (keeps c c1) as Hk2 by (by etransitivity).
  destruct (refusal (state_ c1)) as [err|]; [exact (keeps_reject _ _ _ _ _ _ _ _ s n Ha Hfr Hk2 Hs Hp H)|].
  apply run_bind_Ret in H as ([p' b] & Hpush & H). destruct b; cbn [negb fst snd] in H.
  - rewrite (deref_at _ addr s) in H by (cbn; rewrite Hs; apply lookup_insert_eq). cbn [mbind run_bind snd] in H.
    injection H as <-. rewrite Hs, Hp in Hpush. cbn [c0 set_pipeline sinks pipeline_] in Hpush, Hs, Hp.
    assert (forall s', sink_wf s' -> sink_types s' = sink_types s -> sink_slots s' = sink_slots s ->
      keeps c (set_pipeline (<[addr := s']> (sinks c1)) p' c1)) as Hacc.
    { intros s' Hwf' Hty' Hsl'. destruct Hk2 as [K1 K2 K3 K5 K4]. constructor; [done..|].
      intros hs Hr. exists (after_push addr r (length (sink_types s)) (deadline_after now (request_timeout (cfg_ c1))) hs).
      cbn [set_pipeline sinks pipeline_]. rewrite Hs. split; [|split; [split; [done|]; split; [by apply prefix_app_r|done]|]].
      2:{ rewrite insert_twice. by apply types_kept_fresh. }
      eapply runs_retag; [|apply lookup_insert_eq|exact Hwf|done..].
      eapply runs_push; [exact Hr|done|done|done|done|by rewrite Hlen|exact Hpush]. }
    match goal with |- keeps _ (notify _ _ _ ?x) => transitivity x; [|by apply keeps_same] end.
    destruct (trace_hooks_enabled _).
    + apply Hacc; [by apply pending_set_trace_wf|done|done].
    + specialize (Hacc s Hwf eq_refl eq_refl). cbn [set_pipeline sinks]. rewrite Hs in Hacc |- *. by rewrite insert_twice in Hacc.
  - apply push_refused in Hpush. subst p'. refine (keeps_reject _ _ _ _ _ (set_pipeline _ _ c1) _ _ s n Ha Hfr _ Hs Hp H).
    etransitivity; [exact Hk2|]. by apply keeps_same.
Qed.

Lemma keeps_enqueue now start types r addr c c' :
  sinks c !! addr = None -> 0 < reply_count r -> enqueue now start types r addr c = Ret c' -> keeps c c'.
Proof.
  intros Ha Hpos H. unfold enqueue in H. apply run_bind_Ret in H as (? & Hcnt & H). apply assert_Ret in Hcnt. bool_prop.
  eapply keeps_enqueue_impl; [done|apply (fixed_sink_fresh types)|done|exact H]. intros ->. by rewrite Hcnt in Hpos.
Qed.

Lemma keeps_enqueue_dynamic now start t r addr c c' :
  sinks c !! addr = None -> 0 < reply_count r -> enqueue_dynamic now start t r addr c = Ret c' -> keeps c c'.
Proof.
  intros Ha Hpos H. eapply keeps_enqueue_impl; [done|apply dynamic_sink_fresh| |exact H]; lia.
Qed.

Lemma keeps_enqueue_throws now types r ep addr c c' :
  sinks c !! addr = None -> types <> [] -> enqueue_throws now types r ep addr c = Ret c' -> keeps c c'.
Proof.
  intros Ha Hne H. unfold enqueue_throws, enqueue_caught, fail_sink_with_current_exception in H.
  destruct (fixed_sink_fresh types Hne) as (Hwf & Hsl & _). set (s := fixed_sink types) in *.
  set (c0 := set_pipeline _ _ c) in *. pose proof (keeps_trace_begin r c0) as Hk1.
  pose proof (trace_begin_fields r c0) as Hf. cbv zeta in Hf. destruct (trace_begin r c0) as [info c1].
  cbn [snd] in *. destruct Hf as (_ & _ & Hs & Hp & _). cbn [c0 set_pipeline sinks pipeline_] in Hs, Hp.
  rewrite (deref_at _ addr s) in H by (rewrite Hs; apply lookup_insert_eq). cbn [mbind run_bind fst snd] in H.
  destruct (fail_all_spec now (make_internal_error (Some ep) (s2b "enqueue dispatch")) s Hwf)
    as (s1 & Hf1 & _ & _ & _ & Hsl1). rewrite Hf1 in H. cbn [mbind run_bind] in H. injection H as <-.
  destruct (keeps_store c addr s Ha (no_slots_no_value s Hsl)) as [A1 A2 A3 A4 _].
  destruct Hk1 as [B1 B2 B3 B4 _]. fold c0 in A1, A2, A3, A4. rewrite Hs, Hp, insert_twice.
  constructor; [exact (eq_trans B1 A1)|auto|auto|auto|]. intros hs Hr. exists hs.
  split; [|split; [done|by apply types_kept_fresh]]. apply runs_store; [done|done|]. intros i v. rewrite Hsl1, Hsl. by intros [? _]%lookup_replicate.
Qed.

(** *** Reading and writing *)

Lemma keeps_read_begin c r : do_read_begin c = Ret r -> keeps c r.1.
Proof.
  unfold do_read_begin. intros H. case_bool_decide; [by run_inv|]. run_inv. by apply keeps_same.
Qed.

Lemma keeps_read_end now r c c' : do_read_end now r c = Ret c' -> keeps c c'.
Proof.
  unfold do_read_end. intros H. apply run_bind_Ret in H as (c1 & H1 & [= <-]).
  transitivity c1; [|by apply keeps_same]. destruct r as [[|b bs]|e].
  - by eapply (tol_handle_error keeps).
  - apply run_bind_Ret in H1 as (p1 & _ & H1). etransitivity; [apply (tol_parser (R:=keeps) p1)|by eapply (tol_read_loop keeps)].
  - destruct (_ && _); [by run_inv|by eapply (tol_handle_error keeps)].
Qed.

Lemma keeps_write_next c r : do_write_next c = Ret r -> keeps c r.1.
Proof. unfold do_write_next. destruct (_ && _); intros H; run_inv; [done|by apply keeps_same]. Qed.

Lemma keeps_write_begin c r : do_write_begin c = Ret r -> keeps c r.1.
Proof.
  unfold do_write_begin. intros H. case_bool_decide; [by run_inv|].
  apply run_bind_Ret in H as (? & _ & H). etransitivity; [|by eapply keeps_write_next]. by apply keeps_same.
Qed.

Lemma keeps_write_resume now r c x :
  match r with Val n => 0 <= n | _ => True end -> do_write_resume now r c = Ret x -> keeps c x.1.
Proof.
  intros Hn H. destruct r as [n|e]; cbn [do_write_resume] in H.
  - apply run_bind_Ret in H as (p1 & H1 & H). apply keeps_write in H1; [|done].
    etransitivity; [exact H1|]. etransitivity; [|by eapply keeps_write_next].
    destruct (has_pending_read p1); [by apply keeps_same|done].
  - apply run_bind_Ret in H as (c1 & H1 & [= <-]). transitivity c1; [|by apply keeps_same].
    destruct (_ && _); [by run_inv|by eapply (tol_handle_error keeps)].
Qed.

Lemma keeps_control now c r : control_turn now c = Ret r -> keeps c r.1.
Proof.
  unfold control_turn. intros H. destruct (_ || _); [by run_inv|]. case_bool_decide.
  { destruct (negb _); run_inv; [by apply keeps_same|done]. }
  apply run_bind_Ret in H as (x & _ & H). destruct x as [[[] d]|].
  - apply run_bind_Ret in H as (c1 & H1 & [= <-]). by eapply (tol_handle_error keeps).
  - destruct (negb _); by run_inv.
  - case_bool_decide; by run_inv.
Qed.

End keeps.

(** *** Connecting *)

Section connecting.

Context (other : string -> Z -> string) {endpoint : Type}.
Context (pow : double -> double -> double) (unspecified : double -> Z).
Context (lims : pipeline_limits) (Hlims : limits_ok lims).

Abbreviation keeps := (keeps lims).

Let tolerant : Tolerant keeps := keeps_tolerant lims Hlims.
#[local] Existing Instance tolerant.

(** *** Any task *)

Lemma fmap_run_Ret {A B} (f : A -> B) (x : run A) y : f <$> x = Ret y -> exists a, x = Ret a /\ y = f a.
Proof. destruct x as [a|]; [|done]. intros [= <-]. by exists a. Qed.

Lemma keeps_task t c c' :
  config_fits (cfg_ c) -> task_ok (endpoint:=endpoint) t c ->
  run_task other pow unspecified t c = Some (Ret c') -> keeps c c'.
Proof.
  intros Hfit Hok H. destruct t; cbn [run_task task_ok] in H, Hok;
    try (match type of H with Some ?x = Some ?y => assert (x = y) as E by congruence; clear H end);
    try (match type of E with _ <$> _ = Ret _ => apply fmap_run_Ret in E as (r0 & E & ->) end).
  - destruct Hok. by eapply keeps_enqueue.
  - destruct Hok. by eapply keeps_enqueue_dynamic.
  - destruct Hok. by eapply keeps_enqueue_throws.
  - by apply keeps_read_begin.
  - by eapply keeps_read_end.
  - by apply keeps_write_begin.
  - by eapply keeps_write_resume.
  - by eapply keeps_control.
  - by apply keeps_connect_begin.
  - by eapply keeps_connect_end.
  - by eapply keeps_close.
  - by eapply (tol_transition keeps).
  - by eapply keeps_actor_completed.
  - injection E as <-. apply (tol_do_connect_begin keeps).
  - destruct (do_connect_resume other now pt i c) as [x|] eqn:Hx; [|done]. injection H as H.
    apply fmap_run_Ret in H as (r0 & -> & ->). by eapply (tol_do_connect keeps).
  - by eapply (tol_reconnect_head keeps).
  - destruct (do_reconnect_resume _ _ _ _ _ _ _ _) as [x|] eqn:Hx; [|done]. injection H as H.
    apply fmap_run_Ret in H as (r0 & -> & ->). by eapply (tol_do_reconnect keeps).
  - by eapply keeps_destroy.
  - injection E as <-. by apply keeps_same.
Qed.

Lemma keeps_reaches c c' :
  config_fits (cfg_ c) -> reaches (endpoint:=endpoint) other pow unspecified c c' -> keeps c c'.
Proof.
  intros Hfit H. induction H as [|t c1 c2 _ IH Hok Ht]; [done|]. etransitivity; [exact IH|].
  eapply keeps_task; [|exact Hok|exact Ht]. by rewrite (keeps_cfg _ _ _ IH).
Qed.

End connecting.

(** ** Theorems *)

Section schedules.

Context (other : string -> Z -> string) {endpoint : Type}.
Context (pow : double -> double -> double) (unspecified : double -> Z).

(** C24: what a connection tells about itself is right under every schedule:
    the snapshot other threads read is the state, the generation counts the
    connects reported to the hook, and the requests announced to [on_start]
    carry the numbers 1, 2, 3, ... (modulo the counter's width). *)
Theorem every_schedule_reports cfg c :
  limits_ok (queue_limits cfg) -> config_fits cfg ->
  reaches (endpoint:=endpoint) other pow unspecified (connection_new cfg) c ->
  state_snapshot_ c = state_ c /\
  (connection_hooks cfg = true -> generation_ c = u64 (opens c)) /\
  (on_start (trace_hooks cfg) = true -> numbered c).
Proof.
  intros Hl Hf H. apply (keeps_reaches _ _ _ _ Hl) in H as [_ Hs Hg Ht _]; [|done].
  split; [by apply Hs|]. split; intros Hh; [by apply Hg|]. apply Ht; [done|]. by split; [vm_compute|].
Qed.

End schedules.

(** ** A schedule: connect, then one request *)

Definition hooked_config : config :=
  mk_config (host default_config) (port default_config) [] [] 0 [] (Some 5000) (Some 5000) (Some 5000) true true
    default_limits default_pipeline_limits default_policy (mk_trace_hooks true true) true.

Definition connecting_tasks : list (task nat) :=
  [task_connect_begin; task_do_connect_begin;
   task_do_connect 1 at_resolve (in_resolved (Val [0%nat]));
   task_do_connect 2 (at_connect 0%nat []) (in_attempt (attempt_ok None None) 0%nat);
   task_enqueue 2 2 [TString] get1 1;
   task_do_connect 3 (at_write 0 []) (in_written (Val 22));
   task_do_connect 4 (at_read 0) (in_read (Val (s2b "+OK" ++ crlf)));
   task_do_connect 4 (at_join 0 (Val tt)) in_continue; task_do_connect 4 (at_wait 0) in_continue;
   task_connect_end 4 (Val tt)].

Definition request_tasks : list (task nat) :=
  [task_enqueue 5 5 [TString] get1 2; task_write_begin; task_read_begin; task_write_resume 6 (Val 3);
   task_read_end 7 (Val (s2b "$2" ++ crlf ++ s2b "hi" ++ crlf)); task_control 8].

Definition run_schedule : list (task nat) -> connection -> option connection :=
  schedule (fun _ _ => ""%string) (fun x _ => x) (fun _ => 0).

(** The result of a schedule that runs. *)
Lemma schedule_some ts (c : connection) (P : connection -> bool) :
  match run_schedule ts c with Some c' => P c' | None => false end = true ->
  exists c', run_schedule ts c = Some c' /\ P c' = true.
Proof. destruct (run_schedule ts c) as [c'|]; [|done]. intros H. by exists c'. Qed.

Lemma every_schedule_reports_witness :
  exists c, run_schedule (connecting_tasks ++ request_tasks) (connection_new hooked_config) = Some c /\
    generation_ c = 1 /\ opens c = 1 /\ next_request_id_ c = 3.
Proof.
  destruct (schedule_some (connecting_tasks ++ request_tasks) (connection_new hooked_config)
    (fun c => (opens c =? 1) && (zlen (on_starts c) =? 2))) as (c & Hc & Ho); [vm_compute; reflexivity|].
  destruct (every_schedule_reports (endpoint:=nat) (fun _ _ => ""%string) (fun x _ => x) (fun _ => 0) hooked_config c)
    as (_ & Hg & Hn).
  - vm_compute. repeat split; discriminate.
  - vm_compute. repeat split; discriminate.
  - eapply schedule_reaches; [apply reaches_refl|exact Hc].
  - exists c. split; [exact Hc|]. clear Hc. destruct (Hn eq_refl) as [Hid _]. specialize (Hg eq_refl).
    apply andb_prop in Ho as [Ho1 Ho2]. bool_prop. rewrite Hg, Hid, Ho1, Ho2. done.
Defined.

(** ** A connect before the old actor is done *)

(** No reconnection. *)
Definition one_shot_config : config :=
  mk_config (host default_config) (port default_config) [] [] 0 [] (Some 5000) (Some 5000) (Some 5000) true true
    default_limits default_pipeline_limits (mk_policy false 5 100 30000 d_two d_zero) no_trace_hooks false.

(** The server closes the connection and the actor shuts down; the next
    [connect] comes before the handler of the actor's completion has run. *)
Definition shutdown_tasks : list (task nat) :=
  [task_read_begin; task_read_end 5 (Val []); task_control 5; task_actor_end 5].

Definition connect_in_window : list (task nat) :=
  [task_connect_begin; task_do_connect_begin; task_actor_completed 6 None;
   task_do_connect 7 at_resolve (in_resolved (Val [0%nat]));
   task_do_connect 8 (at_connect 0%nat []) (in_attempt (attempt_ok None None) 2%nat);
   task_do_connect 9 (at_write 2 []) (in_written (Val 22));
   task_do_connect 10 (at_read 2) (in_read (Val (s2b "+OK" ++ crlf)));
   task_do_connect 10 (at_join 2 (Val tt)) in_continue; task_do_connect 10 (at_wait 2) in_continue;
   task_connect_end 10 (Val tt); task_enqueue 11 11 [TString] get1 3].

(** [connect] succeeds and requests are accepted, but no actor runs: nothing
    writes them. *)
Theorem connect_in_window_strands :
  match run_schedule (connecting_tasks ++ shutdown_tasks ++ connect_in_window) (connection_new one_shot_config) with
  | Some c => state_ c = connection_state.OPEN /\ actor_running_ c = false /\ has_pending_write (pipeline_ c) = true
  | None => False
  end.
Proof. vm_compute. repeat split; reflexivity. Qed.
