(* ===== verification/Actor.v ===== *)
(** * The actor and the coroutines around it ([impl/connection/actor_loops.ipp],
    [run_actor], [connect], [close] of [impl/connection/core.ipp])

    Where [Strand] lets the strand run any piece of the connection at any time,
    this is the system as it is put together: the three loops of the actor, the
    coroutine of a [connect] and those of the [close]s, each suspended at one
    place.  An [event] resumes one of them, or is a call from outside; [fire]
    runs it to the next suspension.  A coroutine that could go on at once is at
    its [_head].

    An operation in flight on the socket is live until the socket is closed;
    [settle] keeps track of that. *)

From S2P Require Import Prelude Kind Errors Charconv Buffer Message Parser Builder Adapter.
From S2P Require Import Request RingQueue ResponseSink Pipeline Config Connection Connect Strand.

Section actor.

Context (other : string -> Z -> string) {endpoint : Type}.
Context (pow : double -> double -> double) (unspecified : double -> Z).

(** ** Where the coroutines are suspended *)

(** [write_loop()]: at the head of its loop, in [write_wakeup_.async_wait()], in
    [async_write_some] of [do_write()], or over. *)
Inductive writer_pc : Set :=
| w_head
| w_wait
| w_io (buf : bytes) (live : bool)
| w_stop.

(** [read_loop()]. *)
Inductive reader_pc : Set :=
| r_head
| r_wait
| r_io (live : bool)
| r_stop.

(** [control_loop()]: in [control_wakeup_.async_wait()], in [when_any] of a
    timer and it, or in [do_reconnect()]. *)
Inductive control_pc : Type :=
| k_head
| k_wait
| k_timer (deadline : Z)
| k_reconnect (pt : reconnect_point endpoint) (live : bool)
| k_stop.

(** [connect()]: not called, [do_connect()] spawned, inside it, or about to call
    [close()]. *)
Inductive connector_pc : Type :=
| c_idle
| c_spawned
| c_run (pt : connect_point endpoint) (live : bool)
| c_close.

(** The connection and its coroutines: [ended] when [actor_loop()] returned and
    its completion handler is posted; [closers] is the number of [close()]s that
    wait for [actor_done_]. *)
Record system : Type := mk_system {
  conn : connection;
  writer : writer_pc;
  reader : reader_pc;
  controller : control_pc;
  connector : connector_pc;
  ended : bool;
  closers : nat;
  jitter : Z;
}.

Definition system_new (cfg : config) : system :=
  mk_system (connection_new cfg) w_stop r_stop k_stop c_idle false 0 jitter_seed.

Definition with_conn (c : connection) (s : system) : system :=
  mk_system c (writer s) (reader s) (controller s) (connector s) (ended s) (closers s) (jitter s).

Definition with_writer (c : connection) (w : writer_pc) (s : system) : system :=
  mk_system c w (reader s) (controller s) (connector s) (ended s) (closers s) (jitter s).

Definition with_reader (c : connection) (r : reader_pc) (s : system) : system :=
  mk_system c (writer s) r (controller s) (connector s) (ended s) (closers s) (jitter s).

Definition with_controller (c : connection) (k : control_pc) (j : Z) (s : system) : system :=
  mk_system c (writer s) (reader s) k (connector s) (ended s) (closers s) j.

Definition with_connector (c : connection) (k : connector_pc) (s : system) : system :=
  mk_system c (writer s) (reader s) (controller s) k (ended s) (closers s) (jitter s).

(** Closing the socket ends what is in flight on it. *)
Definition settle (s : system) : system :=
  let up := socket_open (conn s) in
  mk_system (conn s)
    match writer s with w_io buf live => w_io buf (live && up) | w => w end
    match reader s with r_io live => r_io (live && up) | r => r end
    match controller s with k_reconnect pt live => k_reconnect pt (live && up) | k => k end
    match connector s with c_run pt live => c_run pt (live && up) | k => k end
    (ended s) (closers s) (jitter s).

(** ** Waiting for an event *)

(** [async_wait()] of [write_wakeup_], [read_wakeup_], [control_wakeup_] and
    [actor_done_] returns: one notification is consumed. *)
Definition wake_write (c : connection) : option connection :=
  match write_wakeup_ c with
  | Datatypes.S n => Some (set_wakeups n (read_wakeup_ c) (control_wakeup_ c) c)
  | O => None
  end.

Definition wake_read (c : connection) : option connection :=
  match read_wakeup_ c with
  | Datatypes.S n => Some (set_wakeups (write_wakeup_ c) n (control_wakeup_ c) c)
  | O => None
  end.

Definition wake_control (c : connection) : option connection :=
  match control_wakeup_ c with
  | Datatypes.S n => Some (set_wakeups (write_wakeup_ c) (read_wakeup_ c) n c)
  | O => None
  end.

Definition wake_done (c : connection) : option connection :=
  match actor_done_ c with
  | Datatypes.S n => Some (set_actor (actor_running_ c) n c)
  | O => None
  end.

(** ** The loops *)

(** [write_loop()] from the head of its loop. *)
Definition write_loop (c : connection) : run (connection * writer_pc) :=
  match write_loop_head c with
  | loop_exit => Ret (c, w_stop)
  | loop_wait => Ret (c, w_wait)
  | loop_call =>
    '(c1, b) ← do_write_begin c;
    Ret (c1, match b with Some buf => w_io buf true | None => w_head end)
  end.

(** [write_loop()] when [async_write_some] completed. *)
Definition write_loop_resume (now : Z) (r : expected Z io_error) (c : connection) : run (connection * writer_pc) :=
  '(c1, b) ← do_write_resume now r c;
  match b with Some buf => Ret (c1, w_io buf true) | None => write_loop c1 end.

(** [read_loop()]. *)
Definition read_loop (c : connection) : run (connection * reader_pc) :=
  match read_loop_head c with
  | loop_exit => Ret (c, r_stop)
  | loop_wait => Ret (c, r_wait)
  | loop_call =>
    '(c1, b) ← do_read_begin c;
    Ret (c1, match b with true => r_io true | false => r_head end)
  end.

Definition read_loop_resume (now : Z) (r : expected bytes io_error) (c : connection) : run (connection * reader_pc) :=
  c1 ← do_read_end now r c;
  read_loop c1.

(** Where [do_reconnect()] leaves the control loop. *)
Definition after_reconnect (r : reconnect_result (endpoint:=endpoint)) : connection * control_pc * Z :=
  let '(c, j, pt) := r in
  (c, match pt with reconnect_done => k_head | _ => k_reconnect pt true end, j).

(** [control_loop()] from the head of its loop. *)
Definition control_loop (now j : Z) (c : connection) : run (connection * control_pc * Z) :=
  '(c1, act) ← control_turn now c;
  match act with
  | control_continue => Ret (c1, k_head, j)
  | control_exit => Ret (c1, k_stop, j)
  | control_wait => Ret (c1, k_wait, j)
  | control_wait_until d => Ret (c1, k_timer d, j)
  | control_reconnect => after_reconnect <$> reconnect_head pow unspecified now j c1
  end.

(** ** [close()] and [connect()] *)

(** [close()] from its call. *)
Definition close_call (now : Z) (s : system) : run system :=
  '(c1, w) ← close_begin now (conn s);
  match w with
  | None => Ret (with_conn c1 s)
  | Some true =>
    Ret (mk_system c1 (writer s) (reader s) (controller s) (connector s) (ended s)
           (Datatypes.S (closers s)) (jitter s))
  | Some false => _ ← close_end c1; Ret (with_conn c1 s)
  end.

(** [connect()] up to the spawning of [do_connect()]; a new actor starts with
    its three loops at their heads. *)
Definition connect_call (s : system) : run system :=
  '(c1, r) ← connect_begin (conn s);
  match r with
  | Some _ => Ret (with_conn c1 s)
  | None =>
    Ret (if actor_running_ (conn s) then with_connector c1 c_spawned s
         else mk_system c1 w_head r_head k_head c_spawned false (closers s) (jitter s))
  end.

(** ** Events *)

Inductive event : Type :=
| ev_enqueue (now start : Z) (types : list ty) (r : request) (addr : nat)
| ev_enqueue_dynamic (now start : Z) (t : ty) (r : request) (addr : nat)
| ev_enqueue_throws (now : Z) (types : list ty) (r : request) (ep : exception) (addr : nat)
| ev_connect
| ev_spawned
| ev_connect_io (now : Z) (i : connect_input endpoint)
| ev_connect_end (now : Z)
| ev_connect_close (now : Z)
| ev_close (now : Z)
| ev_close_resume
| ev_writer
| ev_written (now : Z) (r : expected Z io_error)
| ev_reader
| ev_read (now : Z) (r : expected bytes io_error)
| ev_control (now : Z)
| ev_timer (now : Z)
| ev_backoff (now : Z) (by_wakeup : bool)
| ev_reconnect_io (now : Z) (i : connect_input endpoint)
| ev_actor_end (now : Z)
| ev_actor_done (now : Z).

(** The three loops have ended. *)
Definition loops_over (s : system) : bool :=
  match writer s, reader s, controller s with w_stop, r_stop, k_stop => true | _, _, _ => false end.

Definition set_writer (s : system) (x : connection * writer_pc) : system := with_writer x.1 x.2 s.
Definition set_reader (s : system) (x : connection * reader_pc) : system := with_reader x.1 x.2 s.
Definition set_controller (s : system) (x : connection * control_pc * Z) : system :=
  with_controller x.1.1 x.1.2 x.2 s.

(** The coroutine of an event runs to its next suspension; [None] when it is
    not suspended where the event could resume it. *)
Definition react (e : event) (s : system) : option (run system) :=
  let c := conn s in
  match e with
  | ev_enqueue now start types r addr => Some ((fun c1 => with_conn c1 s) <$> enqueue now start types r addr c)
  | ev_enqueue_dynamic now start t r addr =>
    Some ((fun c1 => with_conn c1 s) <$> enqueue_dynamic now start t r addr c)
  | ev_enqueue_throws now types r ep addr =>
    Some ((fun c1 => with_conn c1 s) <$> enqueue_throws now types r ep addr c)
  | ev_connect => Some (connect_call s)
  | ev_spawned =>
    match connector s with
    | c_spawned => let (c1, pt) := do_connect_begin c in Some (Ret (with_connector c1 (c_run pt true) s))
    | _ => None
    end
  | ev_connect_io now i =>
    match connector s with
    | c_run pt _ =>
      match do_connect_resume other now pt i c with
      | Some r => Some ((fun x => with_connector x.1 (c_run x.2 true) s) <$> r)
      | None => None
      end
    | _ => None
    end
  | ev_connect_end now =>
    match connector s with
    | c_run (finished res) _ =>
      Some ((fun x : connection * bool => with_connector x.1 (if x.2 then c_close else c_idle) s) <$> connect_end now res c)
    | _ => None
    end
  | ev_connect_close now =>
    match connector s with
    | c_close => Some (close_call now (with_connector c c_idle s))
    | _ => None
    end
  | ev_close now => Some (close_call now s)
  | ev_close_resume =>
    match closers s, wake_done c with
    | Datatypes.S n, Some c1 =>
      Some (_ ← close_end c1;
            Ret (mk_system c1 (writer s) (reader s) (controller s) (connector s) (ended s) n (jitter s)))
    | _, _ => None
    end
  | ev_writer =>
    match writer s with
    | w_head => Some (set_writer s <$> write_loop c)
    | w_wait => (fun c1 => set_writer s <$> write_loop c1) <$> wake_write c
    | _ => None
    end
  | ev_written now r =>
    match writer s with
    | w_io _ _ => Some (set_writer s <$> write_loop_resume now r c)
    | _ => None
    end
  | ev_reader =>
    match reader s with
    | r_head => Some (set_reader s <$> read_loop c)
    | r_wait => (fun c1 => set_reader s <$> read_loop c1) <$> wake_read c
    | _ => None
    end
  | ev_read now r =>
    match reader s with
    | r_io _ => Some (set_reader s <$> read_loop_resume now r c)
    | _ => None
    end
  | ev_control now =>
    match controller s with
    | k_head => Some (set_controller s <$> control_loop now (jitter s) c)
    | k_wait | k_timer _ => (fun c1 => set_controller s <$> control_loop now (jitter s) c1) <$> wake_control c
    | _ => None
    end
  | ev_timer now =>
    match controller s with
    | k_timer d => if d <=? now then Some (set_controller s <$> control_loop now (jitter s) c) else None
    | _ => None
    end
  | ev_backoff now by_wakeup =>
    match controller s with
    | k_reconnect (at_backoff d) _ =>
      (fun c1 => Ret (set_controller s (after_reconnect (backoff_turn now d (jitter s) c1)))) <$>
        (if by_wakeup then wake_control c else Some c)
    | _ => None
    end
  | ev_reconnect_io now i =>
    match controller s with
    | k_reconnect (at_attempt pt) _ =>
      match do_reconnect_resume other pow unspecified now (jitter s) (at_attempt pt) i c with
      | Some r => Some ((fun x => set_controller s (after_reconnect x)) <$> r)
      | None => None
      end
    | _ => None
    end
  | ev_actor_end now =>
    if actor_running_ c && negb (ended s) && loops_over s then
      Some ((fun c1 => mk_system c1 (writer s) (reader s) (controller s) (connector s) true (closers s) (jitter s))
              <$> actor_loop_end now c)
    else None
  | ev_actor_done now =>
    if ended s then
      Some ((fun c1 => mk_system c1 (writer s) (reader s) (controller s) (connector s) false (closers s) (jitter s))
              <$> actor_completed now None c)
    else None
  end.

Definition fire (e : event) (s : system) : option (run system) := fmap (M:=run) settle <$> react e s.

End actor.

Arguments control_pc : clear implicits.
Arguments connector_pc : clear implicits.
Arguments system : clear implicits.
Arguments event : clear implicits.
