(* ===== verification/Client.v ===== *)
(** * The client ([client.hpp])

    The facade over the connection.  [exec] is a coroutine: it enqueues its
    request on the connection's strand, waits for the event of the pending
    response and returns its slots; the two halves are functions here, and
    whatever the strand runs in between is given by the tasks of [Strand].
    A connection at rest, what a call, the writes and the replies do to it; the
    calls are put together in [Session]. *)

From S2P Require Import Prelude Kind Errors Charconv Buffer Message Parser Builder Adapter.
From S2P Require Import ParserInv ParserSafety ParserViews Wire WireParse.
From S2P Require Import Request RingQueue ResponseSink Response Pipeline PipelineSpec Config Connection Connect.
From S2P Require Import ConnectionSpec ReadSpec ConnectSpec Strand.

(** [client(ex, cfg)]. *)
Definition client_new (cfg : config) : connection := connection_new cfg.

(** [connection::state()] and [is_connected()]. *)
Definition connection_get_state (c : connection) : connection_state := state_snapshot_ c.
Definition is_connected (c : connection) : bool :=
  bool_decide (connection_get_state c = connection_state.OPEN).

(** [exec<Ts...>(req)], [exec<T>(args...)] and [exec_dynamic<T>(req)] up to the
    wait; [addr] is the new pending response. *)
Definition exec_begin (now start : Z) (types : list ty) (r : request) (addr : nat) (c : connection) :
    run connection :=
  enqueue now start types r addr c.

(** [request req{args...}]: list initialisation prefers the constructor from an
    [initializer_list<string_view>] when every argument converts to one; a null
    C string converted so is undefined behaviour. *)
Definition is_view (a : arg) : bool := match a with arg_int _ => false | _ => true end.

Definition arg_view (a : arg) : run bytes :=
  match a with
  | arg_string sv => Ret sv
  | arg_cstr s => or_fault null_pointer s
  | arg_int _ => Fault unreachable_reached
  end.

Definition braced_request (cmd : bytes) (args : list arg) : run request :=
  if forallb is_view args then
    argv ← mapM arg_view args;
    request_of_argv (cmd :: argv)
  else request_of_args cmd args.

Definition exec_args_begin (now start : Z) (t : ty) (cmd : bytes) (args : list arg) (addr : nat)
    (c : connection) : run connection :=
  r ← braced_request cmd args;
  enqueue now start [t] r addr c.

Definition exec_dynamic_begin (now start : Z) (t : ty) (r : request) (addr : nat) (c : connection) :
    run connection :=
  enqueue_dynamic now start t r addr c.

(** The event of the pending response was notified. *)
Definition exec_ready (addr : nat) (c : connection) : bool :=
  match sinks c !! addr with Some s => (0 <? notified s)%nat | None => false end.

(** [co_return co_await pending->wait()], once it was. *)
Definition exec_end (types : list ty) (addr : nat) (c : connection) : run response :=
  as_ ← deref (sinks c) (Some addr);
  slots ← wait_result as_.2;
  Ret (mk_response types slots).

Definition exec_dynamic_end (addr : nat) (c : connection) : run dynamic_response :=
  as_ ← deref (sinks c) (Some addr);
  slots ← wait_result as_.2;
  Ret (mk_dynamic_response slots).

(** [do_write()] whose [async_write_some] report the sizes [ns], as long as it
    asks for another. *)
Fixpoint write_chunks (now : Z) (ns : list Z) (cb : connection * option bytes) : run (connection * option bytes) :=
  match ns with
  | [] => Ret cb
  | n :: ns' =>
    match cb.2 with
    | Some _ => cb' ← do_write_resume now (Val n) cb.1; write_chunks now ns' cb'
    | None => Fault unreachable_reached
    end
  end.

(** ** A connection at rest *)

(** Open, nothing in flight, every request answered, no byte unread. *)
Record at_rest (lims : pipeline_limits) (hs : history) (c : connection) : Prop := {
  rest_open : state_ c = connection_state.OPEN;
  rest_snapshot : state_snapshot_ c = connection_state.OPEN;
  rest_stop : stop_ c = false;
  rest_read : read_in_flight_ c = false;
  rest_write : write_in_flight_ c = false;
  rest_runs : runs lims hs (sinks c) (pipeline_ c);
  rest_replied : length (replies hs) = length (reply_slots hs);
  rest_parser : paused [] (parser_ c);
}.

(** What a request does not touch. *)
Definition same_engine (c c' : connection) : Prop :=
  state_ c' = state_ c /\ state_snapshot_ c' = state_snapshot_ c /\ stop_ c' = stop_ c /\
  read_in_flight_ c' = read_in_flight_ c /\ parser_ c' = parser_ c /\ cfg_ c' = cfg_ c /\ actor_running_ c' = actor_running_ c.

#[export] Instance same_engine_preorder : PreOrder same_engine.
Proof.
  split; [done|]. intros c1 c2 c3 (? & ? & ? & ? & ? & ? & ?) (? & ? & ? & ? & ? & ? & ?).
  repeat split; by etrans.
Qed.

Section exec.

Context (lims : pipeline_limits) (Hlims : limits_ok lims).

(** A sink in the queue is incomplete, so nothing outstanding means nothing
    queued. *)
Lemma outstanding_nil (h : sink_store) (p : conn_pipeline) pend await :
  inv h p pend await -> outstanding h (ptrs pend await) = [] -> pend = [] /\ await = [].
Proof.
  intros Hi Ho. pose proof (inv_ptrs _ _ _ _ Hi) as Hok.
  assert (ptrs pend await = []) as Hp.
  { destruct (ptrs pend await) as [|x l]; [done|]. apply Forall_cons in Hok as [(a & s & -> & Hs & Hwf & Hc) _].
    rewrite outstanding_cons in Ho. apply app_nil in Ho as [Ho _]. cbn [open_slots] in Ho. rewrite Hs in Ho.
    destruct (missing s) eqn:E; [|done]. apply missing_complete in E; [congruence|exact Hwf]. }
  unfold ptrs in Hp. apply app_nil in Hp as [Ha Hb]. apply fmap_nil_inv in Ha. by apply fmap_nil_inv in Hb.
Qed.

Lemma trace_begin_engine r c : same_engine c (trace_begin r c).2 /\ write_in_flight_ (trace_begin r c).2 = write_in_flight_ c.
Proof. unfold trace_begin. by destruct (trace_hooks_enabled _). Qed.

(** An open connection with room takes the request. *)
Lemma impl_takes now start r addr s c hs pend await :
  runs lims hs (sinks c) (pipeline_ c) -> inv (sinks c) (pipeline_ c) pend await -> state_ c = connection_state.OPEN ->
  sinks c !! addr = None -> fresh_for (length (sink_types s)) s -> reply_count r = zlen (sink_types s) ->
  has_room r (pipeline_ c) = true ->
  let dl := deadline_after now (request_timeout (cfg_ c)) in
  exists c1 s1, enqueue_impl now start r addr (set_pipeline (<[addr := s]> (sinks c)) (pipeline_ c) c) = Ret c1 /\
    same_engine c c1 /\ write_in_flight_ c1 = write_in_flight_ c /\ sinks c1 = <[addr := s1]> (sinks c) /\
    runs lims (after_push addr r (length (sink_types s)) dl hs) (sinks c1) (pipeline_ c1) /\
    inv (sinks c1) (pipeline_ c1) (pend ++ [mk_pending_item r (Some addr) 0 dl]) await /\
    sink_types s1 = sink_types s /\ sink_wf s1.
Proof.
  intros Hr Hi Hst Ha (Hwf & Hsl & Hc & _) Hcnt Hroom dl. unfold enqueue_impl. set (c0 := set_pipeline _ _ c).
  pose proof (trace_begin_fields r c0) as (Hst1 & _ & Hs1 & Hp1 & _).
  pose proof (trace_begin_engine r c0) as [He Hw]. destruct (trace_begin r c0) as [info c1]. cbn [snd] in *.
  rewrite Hst1. cbn [c0 set_pipeline state_ sinks pipeline_] in *. rewrite Hst. cbn [refusal].
  assert (Some addr ∉ ptrs pend await) as Hout by (eapply fresh_ptr; [exact Ha|apply Hi]).
  replace (cfg_ c1) with (cfg_ c) by (symmetry; apply He). fold dl.
  destruct (push_inv _ _ _ _ r addr s dl (inv_update addr s Hi Hwf Hc) (lookup_insert_eq _ _ _) Hwf Hc Hout)
    as (p' & Hp & Hi'); [done|].
  change (has_room r (pipeline_ c) = true) in Hroom. rewrite Hroom in Hp, Hi'. destruct Hi' as [Hi' _].
  rewrite Hs1, Hp1, Hp. cbn [mbind run_bind fst snd negb].
  rewrite (deref_at _ addr s) by (cbn; apply lookup_insert_eq). cbn [mbind run_bind snd].
  assert (runs lims (after_push addr r (length (sink_types s)) dl hs) (<[addr := s]> (sinks c)) p') as Hr1.
  { eapply runs_push; [exact Hr|done|done|done|done|done|exact Hp]. }
  destruct (trace_hooks_enabled _); eexists _, _; (split; [done|]); (split; [exact He|]); (split; [exact Hw|]);
    cbn [notify set_pipeline sinks pipeline_]; rewrite ?Hs1, ?insert_twice; (split; [done|]).
  - split; [|split; [by rewrite <- (insert_twice (sinks c) addr s); apply inv_update; [|apply pending_set_trace_wf|]|
      by split; [|apply pending_set_trace_wf]]].
    rewrite <- (insert_twice (sinks c) addr s).
    eapply runs_retag; [exact Hr1|apply lookup_insert_eq|exact Hwf|by apply pending_set_trace_wf|done|done].
  - by split; [exact Hr1|].
Qed.

(** The sizes [ns] that the writes report, when the requests have [left] bytes
    to write: none is zero or crosses the end of a request. *)
Fixpoint fills (left : list Z) (ns : list Z) : bool :=
  match ns, left with
  | [], [] => true
  | n :: ns', s :: left' =>
    (0 <? n) && (n <=? s) && (if n =? s then fills left' ns' else fills (s - n :: left') ns')
  | _, _ => false
  end.

Definition left_of (it : pending_item) : Z := wire_size (req it) - written it.
Definition awaiting_of (it : pending_item) : awaiting_item := mk_awaiting_item (pi_sink it) (pi_deadline it).

(** The writes of the requests in the queue. *)
Lemma write_chunks_ok now ns : forall c hs it its await buf,
  runs lims hs (sinks c) (pipeline_ c) -> inv (sinks c) (pipeline_ c) (it :: its) await ->
  state_ c = connection_state.OPEN -> stop_ c = false -> fills (left_of <$> it :: its) ns = true ->
  exists c' hs', write_chunks now ns (c, Some buf) = Ret (c', None) /\ same_engine c c' /\
    write_in_flight_ c' = false /\ runs lims hs' (sinks c') (pipeline_ c') /\
    sinks c' = sinks c /\ reply_slots hs' = reply_slots hs /\ replies hs' = replies hs /\
    inv (sinks c') (pipeline_ c') [] (await ++ (awaiting_of <$> it :: its)).
Proof.
  induction ns as [|n ns IH]; intros c hs it its await buf Hr Hi Hst Hstop Hf; [done|].
  rewrite fmap_cons in Hf. cbn [fills] in Hf. rewrite !andb_true_iff, Z.ltb_lt, Z.leb_le in Hf. destruct Hf as [[Hn Hle] Hf].
  pose proof (inv_items _ _ _ _ Hi) as [Hit _]%Forall_cons. pose proof (zlen_unsent_item it Hit) as Hz. unfold left_of in Hle, Hf.
  assert (0 <= n <= zlen (unsent_item it)) as Hb by lia.
  destruct (on_write_done_inv _ _ _ _ _ n Hi Hb) as (p' & Hw & _ & Hi').
  assert (has_pending_write (pipeline_ c) = true) as Hpw
    by (unfold has_pending_write; by rewrite (front_empty _ _ _ (inv_pend _ _ _ _ Hi))).
  assert (runs lims (after_write (take (Z.to_nat n) (unsent_item it)) hs) (sinks c) p') as Hr'
    by (eapply runs_write; [exact Hr|exact Hpw|by eapply next_write_buffer_eq|exact Hb|exact Hw]).
  cbn [write_chunks fst snd do_write_resume]. rewrite Hw. cbn [mbind run_bind].
  set (c1 := if has_pending_read p' then _ else _).
  assert (same_engine c c1 /\ sinks c1 = sinks c /\ pipeline_ c1 = p') as (He1 & Hs1 & Hp1)
    by (unfold c1; by destruct (has_pending_read p')).
  assert (state_ c1 = connection_state.OPEN /\ stop_ c1 = false) as [Hst1 Hstop1].
  { destruct He1 as (H1 & _ & H3 & _). by rewrite H1, H3. }
  unfold do_write_next. rewrite Hstop1, Hst1, Hp1. cbn [negb andb]. rewrite bool_decide_true by done.
  assert (forall it2 its2 await2, inv (sinks c) p' (it2 :: its2) await2 -> fills (left_of <$> it2 :: its2) ns = true ->
    await2 ++ (awaiting_of <$> it2 :: its2) = await ++ (awaiting_of <$> it :: its) ->
    exists c' hs', (cb' ← (if has_pending_write p' then buf ← next_write_buffer p'; Ret (c1, Some buf)
        else Ret (set_in_flight (read_in_flight_ c1) false c1, None)); write_chunks now ns cb') = Ret (c', None) /\
      same_engine c c' /\ write_in_flight_ c' = false /\ runs lims hs' (sinks c') (pipeline_ c') /\
      sinks c' = sinks c /\ reply_slots hs' = reply_slots hs /\ replies hs' = replies hs /\
      inv (sinks c') (pipeline_ c') [] (await ++ (awaiting_of <$> it :: its))) as Hgo.
  { intros it2 its2 await2 Hi2 Hf2 <-. unfold has_pending_write. rewrite (front_empty _ _ _ (inv_pend _ _ _ _ Hi2)). cbn [negb].
    rewrite (next_write_buffer_eq _ _ _ _ _ Hi2). cbn [mbind run_bind].
    destruct (IH c1 (after_write (take (Z.to_nat n) (unsent_item it)) hs) it2 its2 await2 (unsent_item it2))
      as (c' & hs' & Hwc & He' & Hw' & Hr2 & Hss & Hsl & Hrep & Hi3); try done; [by rewrite Hs1, Hp1..|].
    exists c', hs'. split; [exact Hwc|]. split; [by etransitivity|]. by rewrite <- Hs1. }
  destruct (n =? left_of it) eqn:En; unfold left_of in En; rewrite En in Hf; bool_prop.
  - rewrite (proj2 (Z.eqb_eq _ _)) in Hi' by lia. destruct its as [|it2 its].
    + destruct ns; [|done]. unfold has_pending_write. rewrite (proj2 (q_empty_elems _ _ (inv_pend _ _ _ _ Hi'))) by done. cbn [negb].
      eexists _, _. cbn [write_chunks mbind run_bind]. split; [done|]. split; [exact He1|]. split; [done|].
      cbn [set_in_flight sinks pipeline_]. rewrite Hs1, Hp1. by split; [exact Hr'|].
    + apply (Hgo it2 its _ Hi'); [done|]. rewrite <- app_assoc. done.
  - rewrite (proj2 (Z.eqb_neq _ _)) in Hi' by lia. apply (Hgo _ _ _ Hi'); [|done].
    rewrite fmap_cons. unfold left_of at 1. cbn [advance req written].
    by replace (wire_size (req it) - (written it + n)) with (wire_size (req it) - written it - n) by lia.
Qed.

(** What [wait] finds once every slot has its reply. *)
Lemma wait_slots types addr c hs s l l2 k k2 rs :
  runs lims hs (sinks c) (pipeline_ c) -> sinks c !! addr = Some s -> sink_wf s -> sink_types s = types ->
  reply_slots hs = l ++ (pair addr <$> seq 0 (length types)) ++ l2 -> replies hs = k ++ rs ++ k2 ->
  length k = length l -> length rs = length types ->
  wait_result s = Ret (zip_with slot_of types rs).
Proof.
  intros Hr Hs Hwf Hty Hsl Hrep Hkl Hrs.
  destruct (runs_linked lims hs (sinks c) (pipeline_ c) Hlims Hr) as (pend & await & Hlk).
  pose proof (lk_holds _ _ _ _ _ _ Hlk) as Hh.
  assert (sink_slots s = zip_with slot_of types rs) as Heq.
  { assert (forall i r, rs !! i = Some r -> exists t, types !! i = Some t /\ sink_slots s !! i = Some (slot_of t r))
      as Hat.
    { intros i r Hm. pose proof (lookup_lt_Some _ _ _ Hm) as Hi.
      destruct (Forall2_lookup_r _ _ _ (length k + i)%nat r Hh) as ([a j] & Hx & s' & t & Hs' & Ht & Hv).
      { rewrite Hrep, lookup_app_r, lookup_app_l by lia.
        replace (length k + i - length k)%nat with i by lia. by rewrite Hm. }
      rewrite lookup_take_lt in Hx by (rewrite Hrep, !length_app; lia).
      rewrite Hsl, lookup_app_r, lookup_app_l, list_lookup_fmap in Hx by (rewrite ?length_fmap, ?length_seq; lia).
      replace (length k + i - length l)%nat with i in Hx by lia. rewrite lookup_seq_lt in Hx by lia.
      injection Hx as <- <-. cbn [fst snd] in *. rewrite Hs in Hs'. injection Hs' as <-. exists t. by rewrite <- Hty. }
    apply list_eq. intros i. rewrite lookup_zip_with. destruct (rs !! i) as [r|] eqn:Hm.
    - destruct (Hat i r Hm) as (t & -> & ->). done.
    - apply lookup_ge_None in Hm. rewrite (lookup_ge_None_2 types) by lia. apply lookup_ge_None.
      pose proof (sink_bound s Hwf). rewrite Hty in H. lia. }
  assert (is_complete s = true) as Hc.
  { rewrite sink_complete, Heq, length_zip_with, Hty by done. apply Nat.eqb_eq. lia. }
  unfold wait_result. pose proof (sink_result_eq s Hwf) as Hres. rewrite Hc, Heq in Hres.
  change (pending_is_complete s) with (is_complete s). change (result_ s) with (sink_result s).
  by rewrite Hc, Hres.
Qed.

Lemma nothing_queued hs (h : sink_store) (p : conn_pipeline) :
  runs lims hs h p -> length (replies hs) = length (reply_slots hs) -> inv h p [] [].
Proof.
  intros Hr Hl. destruct (runs_linked lims hs h p Hlims Hr) as (pend & await & Hlk).
  pose proof (lk_inv _ _ _ _ _ _ Hlk) as Hi. pose proof (lk_open _ _ _ _ _ _ Hlk) as Ho.
  rewrite drop_ge in Ho by lia. symmetry in Ho. by destruct (outstanding_nil h p pend await Hi Ho) as [-> ->].
Qed.

Lemma after_messages_fields ms : forall hs,
  reply_slots (after_messages ms hs) = reply_slots hs /\
  replies (after_messages ms hs) = replies hs ++ (reply_message <$> ms).
Proof.
  induction ms as [|m ms IH]; intros hs; [by rewrite app_nil_r|].
  change (after_messages (m :: ms) hs) with (after_messages ms (after_reply (reply_message m) hs)).
  destruct (IH (after_reply (reply_message m) hs)) as [-> ->]. split; [done|].
  cbn [replies after_reply]. by rewrite <- app_assoc.
Qed.

(** A refused request is complete at once. *)
Lemma refused_result types n err addr c c1 :
  refused n err addr c c1 ->
  exec_ready addr c1 = true /\ exec_end types addr c1 = Ret (mk_response types (replicate n (Unexpected err))).
Proof.
  intros (_ & _ & s & Hs & Hwf & Hres). unfold exec_ready, exec_end. rewrite Hs, lookup_insert_eq.
  rewrite (deref_at _ addr s) by apply lookup_insert_eq. cbn [mbind run_bind snd]. unfold wait_result.
  pose proof (sink_result_eq s Hwf) as Hc. rewrite Hres in Hc. destruct (is_complete s) eqn:E; [|done].
  pose proof Hwf as (_ & _ & _ & Hn). rewrite <- (pending_complete s Hwf) in Hn.
  change (pending_is_complete s) with (is_complete s) in *. rewrite E in Hn. change (result_ s) with (sink_result s).
  by rewrite Hn, E, Hres.
Qed.

(** ** Theorems *)

(** C19: an [exec] with at least one command that cannot be served fails at
    once: the response is there without waiting, and every slot holds
    [not_connected] when the connection is in [INIT] or [CONNECTING],
    [connection_lost] in [FAILED] or [RECONNECTING], [connection_closed] in
    [CLOSING] or [CLOSED], and [queue_full] when it is open and the pipeline
    has no room; the same for [exec_dynamic]. *)
Theorem exec_refused c pend await now start types t r addr err :
  conn_ok c pend await -> sinks c !! addr = None -> types <> [] -> reply_count r = zlen types ->
  turned_away (has_room r (pipeline_ c)) (state_ c) err ->
  (exists c1, exec_begin now start types r addr c = Ret c1 /\ exec_ready addr c1 = true /\
    exec_end types addr c1 = Ret (mk_response types (replicate (length types) (Unexpected err)))) /\
  (exists c1, exec_dynamic_begin now start t r addr c = Ret c1 /\ exec_ready addr c1 = true /\
    exec_dynamic_end addr c1 = Ret (mk_dynamic_response (replicate (length types) (Unexpected err)))).
Proof.
  intros Hok Ha Hne Hcnt Herr%turned_away_refusal.
  assert (forall s, fresh_for (length types) s ->
    exists c1, enqueue_impl now start r addr (set_pipeline (<[addr := s]> (sinks c)) (pipeline_ c) c) = Ret c1 /\
      refused (length types) err addr c c1) as Himpl.
  { intros s Hs. destruct (enqueue_impl_ok now start r addr (set_pipeline (<[addr := s]> (sinks c)) (pipeline_ c) c)
      c s (length types) pend await) as (c1 & He & Hout); [done..|]. exists c1. split; [exact He|].
    destruct Herr as [Herr|(Herr & Hroom & ->)]; rewrite Herr in Hout; [apply Hout|]. rewrite Hroom in Hout. apply Hout. }
  split.
  - destruct (Himpl _ (fixed_sink_fresh types Hne)) as (c1 & He & Href). exists c1. unfold exec_begin, enqueue.
    rewrite Hcnt, Z.eqb_refl. split; [exact He|]. exact (refused_result types _ _ _ _ _ Href).
  - destruct (Himpl (dynamic_sink t (length types))) as (c1 & He & Href).
    { apply dynamic_sink_fresh. destruct types; [done|simpl; lia]. }
    exists c1. unfold exec_dynamic_begin, enqueue_dynamic. rewrite Hcnt. unfold zlen. rewrite Nat2Z.id.
    split; [exact He|]. destruct (refused_result types _ _ _ _ _ Href) as [Hrdy Hend]. split; [exact Hrdy|].
    unfold exec_end, exec_dynamic_end in *. destruct (deref (sinks c1) (Some addr)) as [as_|]; [|done].
    cbn [mbind run_bind] in *. destruct (wait_result as_.2) as [slots|]; [|done]. by injection Hend as ->.
Qed.

End exec.

Lemma exec_refused_witness :
  exists c1, exec_begin 0 0 [TString; TInt true 64] ping2 0 (connection_new default_config) = Ret c1 /\
    exec_end [TString; TInt true 64] 0 c1 =
      Ret (mk_response [TString; TInt true 64] [Unexpected (client_error client_errc.not_connected);
                                        Unexpected (client_error client_errc.not_connected)]).
Proof.
  destruct (exec_refused (connection_new default_config) [] [] 0 0 [TString; TInt true 64] TString ping2 0
    (client_error client_errc.not_connected)) as [(c1 & He & _ & Hr) _].
  - apply conn_ok_new. vm_compute. split; congruence.
  - reflexivity.
  - discriminate.
  - reflexivity.
  - apply away_init.
  - exists c1. split; [exact He|exact Hr].
Defined.

(** ** The request of [exec(args...)] *)

(** Strings go through the constructor from a list, other arguments through
    the variadic one; both make the same command. *)
Lemma arg_views args :
  forallb is_view args = true -> arg_cstr None ∉ args -> mapM arg_view args = Ret (arg_bytes <$> args).
Proof.
  induction args as [|a args IH]; [done|]. cbn [forallb]. intros Hv Hn. bool_prop.
  apply not_elem_of_cons in Hn as [Ha Hn]. rewrite fmap_cons. cbn [mapM].
  assert (arg_view a = Ret (arg_bytes a)) as -> by (by destruct a as [| [|] |]).
  cbn [mbind run_bind]. by rewrite IH.
Qed.

Lemma braced_request_ok cmd args :
  zlen cmd <= u64_max -> 1 + zlen args <= u64_max ->
  Forall arg_fits args -> Forall (fun a => zlen (arg_bytes a) <= u64_max) args -> arg_cstr None ∉ args ->
  braced_request cmd args = Ret (request_of [cmd :: (arg_bytes <$> args)]).
Proof.
  intros Hc Hn Ha Hb Hnull. unfold braced_request, request_of_argv, request_of_args.
  assert (push_argv (cmd :: (arg_bytes <$> args)) request_new = Ret (request_of [cmd :: (arg_bytes <$> args)])) as Hargv.
  { rewrite push_argv_spec.
    - unfold count_command, append, request_of. cbn [wire_ command_count_ request_new app fmap list_fmap concat compose].
      by rewrite app_nil_r.
    - split; [unfold zlen in *; cbn [length]; rewrite length_fmap; lia|]. constructor; [done|]. by apply Forall_fmap. }
  destruct (forallb is_view args) eqn:Hv.
  - rewrite arg_views by done. exact Hargv.
  - rewrite <- Hargv, push_argv_spec, push_args_spec; try done.
    split; [unfold zlen in *; cbn [length]; rewrite length_fmap; lia|]. constructor; [done|]. by apply Forall_fmap.
Qed.

(** A null C string: the variadic [push] sends an empty string, [exec] with
    strings only has undefined behaviour. *)
Theorem exec_null_string cmd :
  zlen cmd <= u64_max ->
  push_args cmd [arg_cstr None] request_new = Ret (request_of [[cmd; []]]) /\
  braced_request cmd [arg_cstr None] = Fault null_pointer.
Proof.
  intros Hc. split; [|done]. rewrite push_args_spec; [|done|vm_compute; congruence|by repeat constructor..].
  unfold count_command, append, request_of. cbn [wire_ command_count_ request_new app fmap list_fmap concat compose arg_bytes default].
  by rewrite app_nil_r.
Qed.
