(* ===== verification/ConnectionTheorems.v ===== *)
(** * Theorems about the connection

    What its pieces do on every branch, the path of a reply from the socket
    to its request, and the sequences of pieces that end in a fault. *)

From S2P Require Import Prelude Kind Errors Charconv Buffer Message Parser Builder Adapter.
From S2P Require Import ParserInv ParserSafety ParserViews Wire WireParse.
From S2P Require Import Request RingQueue ResponseSink Pipeline PipelineSpec Config Connection.
From S2P Require Import ConnectionSpec ReadSpec.

(** ** Sample connections *)

(** An open connection. *)
Definition open_connection : connection :=
  set_socket true (set_state connection_state.OPEN (connection_new default_config)).

(** The result of a run that returns. *)
Definition returned {A} (d : A) (r : run A) : A := match r with Ret a => a | Fault _ => d end.

(** One request of three bytes is enqueued. *)
Definition busy_connection : run connection := enqueue 0 0 [TString] get1 0 open_connection.

(** It has been written and its reply is awaited. *)
Definition awaiting_connection : run connection :=
  c1 ← busy_connection;
  c2 ← do_write_begin c1;
  c3 ← do_write_resume 1 (Val 3) c2.1;
  Ret c3.1.

Definition get1_deadline : Z := deadline_after 0 (request_timeout default_config).

Lemma open_connection_ok : conn_ok open_connection [] [].
Proof.
  destruct (conn_ok_new default_config) as [_ Hi _]; [vm_compute; split; congruence|].
  constructor; [done|exact Hi|done].
Qed.

Lemma busy_connection_ok :
  exists c, busy_connection = Ret c /\ state_ c = connection_state.OPEN /\
    conn_ok c [mk_pending_item get1 (Some 0%nat) 0 get1_deadline] [].
Proof.
  destruct (enqueue_impl_ok 0 0 get1 0
    (set_pipeline (<[0%nat := fixed_sink [TString]]> ∅) (pipeline_ open_connection) open_connection)
    open_connection (fixed_sink [TString]) 1 [] [] open_connection_ok)
    as (c & He & Hc); [done|done|by apply (fixed_sink_fresh [TString])|done|].
  exists c. split; [exact He|]. vm_compute (refusal _) in Hc. cbn iota in Hc.
  replace (has_room get1 (pipeline_ open_connection)) with true in Hc by (vm_compute; reflexivity).
  destruct Hc as (Hst & Hok & _). split; [exact Hst|exact Hok].
Qed.

Lemma awaiting_connection_ok :
  exists c hs await, awaiting_connection = Ret c /\ state_ c = connection_state.OPEN /\
    conn_ok c [] await /\ runs default_pipeline_limits hs (sinks c) (pipeline_ c) /\
    length (outstanding (sinks c) (ai_sink <$> await)) = 1%nat /\
    ready_for (parser_ c) /\ data_bytes (buf_ (parser_ c)) = [] /\
    Parser.limits_ (parser_ c) = default_limits /\ write_pos_ (buf_ (parser_ c)) = 0%nat /\
    (100 <= length (buffer_ (buf_ (parser_ c))))%nat /\ read_in_flight_ c = false /\
    read_pos_ (buf_ (parser_ c)) = 0%nat.
Proof.
  destruct (fixed_sink_fresh [TString]) as (Hw & Hs & Hc & _); [done|].
  set (hs := after_write (take 3 (s2b "GET")) (after_push 0 get1 (length (sink_types (fixed_sink [TString]))) get1_deadline history_new)).
  assert (exists c, awaiting_connection = Ret c /\ state_ c = connection_state.OPEN /\
    state_snapshot_ c = connection_state.OPEN /\ read_in_flight_ c = false /\ parser_ c = parser_new default_limits /\
    q_empty (pending_write_ (pipeline_ c)) = true /\
    runs default_pipeline_limits hs (sinks c) (pipeline_ c)) as (c & Ha & Hst & Hsn & Hfl & Hp & He & Hr).
  { exists (returned open_connection awaiting_connection). split; [vm_compute; reflexivity|].
    repeat (split; [vm_compute; reflexivity|]).
    replace (sinks _) with (<[0%nat := fixed_sink [TString]]> (∅ : sink_store)) by (vm_compute; reflexivity).
    eapply (runs_write _ _ _ _ (s2b "GET") 3);
      [eapply (runs_push _ _ ∅ _ 0 (fixed_sink [TString]) get1 get1_deadline);
        [constructor|done..|vm_compute; reflexivity]|try (vm_compute; reflexivity)..].
    vm_compute; split; congruence. }
  assert (limits_ok default_pipeline_limits) as Hlim by (vm_compute; split; [|split]; congruence).
  destruct (runs_linked default_pipeline_limits hs (sinks c) (pipeline_ c) Hlim Hr) as (pend & await & Hlk).
  pose proof (lk_inv _ _ _ _ _ _ Hlk) as Hi.
  assert (pend = []) as -> by (apply (q_empty_elems _ _ (inv_pend _ _ _ _ Hi)); exact He).
  exists c, hs, await. split; [done|]. split; [done|].
  split; [constructor; [congruence|done|by rewrite Hst]|]. split; [done|].
  split; [pose proof (lk_open _ _ _ _ _ _ Hlk) as Ho; unfold ptrs in Ho;
    rewrite ?fmap_nil, ?app_nil_r in Ho; by rewrite <- Ho|].
  rewrite Hp. destruct (parser_new_inv default_limits) as [[Hwf _] Hsm].
  split; [split; [done|]; by repeat (split; [done|])|]. split; [done|]. split; [done|]. split; [done|].
  split; [apply Nat.leb_le; vm_compute; reflexivity|done].
Qed.

(** ** Reading *)

(** C16: from the socket to the requests.  On an open connection whose parser
    is between two values, reads that bring the encodings of awaited values,
    each with its nested values first ([tidy]), cut into pieces as [pieces_ok]
    allows, deliver exactly these values, in order, to the pipeline, and
    consume every byte; so they fill the next reply slots of the requests
    already sent, the connection stays open, the parser is between two values
    again and the next read may start.  What [pieces_ok] allows: a piece fits
    the span of [prepare]; a value that it cuts has its lines below the limit
    (else see [line_limit_depends_on_split]) and is either flat, and then cut
    anywhere, or leaves room for another [prepare] behind it in the storage
    (else see [growth_leaves_dangling_views]), which the initial 4096 bytes
    never do. *)
Theorem replies_in_pieces lims hs c pend await ws pieces :
  conn_ok c pend await -> state_ c = connection_state.OPEN -> read_in_flight_ c = false ->
  runs lims hs (sinks c) (pipeline_ c) ->
  between (parser_ c) -> data_bytes (buf_ (parser_ c)) = [] -> read_pos_ (buf_ (parser_ c)) = 0%nat ->
  forallb (wf (Parser.limits_ (parser_ c))) ws = true -> forallb (tidy false) ws = true ->
  concat pieces.*2 = concat (encode <$> ws) ->
  pieces_ok (Parser.limits_ (parser_ c)) (zlen (buffer_ (buf_ (parser_ c)))) ws 0 pieces = true ->
  (length ws <= length (outstanding (sinks c) (ai_sink <$> await)))%nat ->
  exists c', read_pieces pieces c = Ret c' /\
    state_ c' = connection_state.OPEN /\ read_in_flight_ c' = false /\
    data_bytes (buf_ (parser_ c')) = [] /\ between (parser_ c') /\ read_pos_ (buf_ (parser_ c')) = 0%nat /\
    runs lims (after_messages (denote None <$> ws) hs) (sinks c') (pipeline_ c').
Proof.
  intros Hok Hst Hfl Hruns Hp Hd H0 Hwf Hti Hcat Hpi Hout.
  destruct (read_pieces_ok lims pieces c [] ws pend await hs)
    as (c' & await' & Hr & (H1 & _ & _ & _ & H5) & H6 & H7 & _); try done.
  - by apply paused_nil.
  - apply starts_nil.
  - unfold cut_ok. by destruct ws.
  - destruct (paused_between _ H7) as (Hb & Hd' & H0'). exists c'. by repeat (split; [done|]).
Qed.

(** The reply ["$2 CRLF hi CRLF"] arrives in three pieces; the second cuts its
    line end. *)
Lemma replies_in_pieces_witness :
  exists c hs c', awaiting_connection = Ret c /\
    read_pieces [(2, s2b "$"); (3, s2b "2" ++ take 1 crlf); (4, drop 1 crlf ++ s2b "hi" ++ crlf)] c = Ret c' /\
    state_ c' = connection_state.OPEN /\
    runs default_pipeline_limits
      (after_messages [mk_message (resp3.bulk_string (s2b "hi")) None] hs) (sinks c') (pipeline_ c').
Proof.
  destruct awaiting_connection_ok as (c & hs & await & Ha & Hst & Hok & Hr & Ho & Hp & Hd & Hl & Hw & Hn & Hfl & H0).
  destruct (replies_in_pieces default_pipeline_limits hs c [] await [Leaf (SBulk kind.bulk_string (s2b "2") (s2b "hi"))]
    [(2, s2b "$"); (3, s2b "2" ++ take 1 crlf); (4, drop 1 crlf ++ s2b "hi" ++ crlf)]
    Hok Hst Hfl Hr (ready_between _ Hp) Hd H0) as (c' & Hre & Hst' & _ & _ & _ & _ & Hr').
  - rewrite Hl. vm_compute. reflexivity.
  - vm_compute. reflexivity.
  - vm_compute. reflexivity.
  - rewrite Hl. vm_compute. reflexivity.
  - rewrite Ho. cbn. lia.
  - exists c, hs, c'. split; [exact Ha|]. split; [exact Hre|]. split; [exact Hst'|exact Hr'].
Defined.

(** Whatever [async_read_some] reports (any bytes that fit the span, an end
    of file, an error), the rest of [do_read] returns: the loop over the
    values ends, no assertion fails, and the connection is as it was or has
    failed with its socket closed and nothing pending.  The parser's texts must lie in the current
    storage, see [growth_leaves_dangling_views]. *)
Theorem do_read_safe now r c pend await :
  conn_ok c pend await -> was_open (state_ c) = true -> parser_ok (parser_ c) ->
  (forall bs, r = Val bs ->
     (length bs <= length (buffer_ (buf_ (parser_ c))) - write_pos_ (buf_ (parser_ c)))%nat) ->
  exists c', do_read_end now r c = Ret c' /\ read_in_flight_ c' = false /\
    (exists pend' await', conn_ok c' pend' await') /\
    (state_ c' = state_ c \/ state_ c' = connection_state.FAILED /\ socket_open c' = false).
Proof.
  intros Hok Hst Hp Hfit.
  destruct (do_read_end_ok now r c pend await Hok Hst) as (c' & Hr & Hfl & (pend' & await' & Hok' & _) & Hst' & _).
  - intros bs Hbs. split; [done|by apply Hfit].
  - split; apply Hp.
  - intros _. apply Hp.
  - exists c'. split; [done|]. split; [done|]. split; [eauto|done].
Qed.

Lemma do_read_safe_witness :
  exists c', do_read_end 5 (Unexpected io_timed_out) open_connection = Ret c' /\ read_in_flight_ c' = false.
Proof.
  destruct (do_read_safe 5 (Unexpected io_timed_out) open_connection [] [] open_connection_ok) as (c' & Hr & Hf & _).
  - reflexivity.
  - destruct (parser_new_inv default_limits) as [Hi Hsm].
    split; [exact Hi|]. split; [exact Hsm|]. constructor.
  - discriminate.
  - exists c'. split; [exact Hr|exact Hf].
Defined.

(** ** Requests *)

(** C18: state gating.  A request with at least one command, enqueued on an
    open connection with room, is the last of the pipeline, with the deadline
    of the configured timeout.  In every other case its sink is complete
    before [enqueue] returns and the pipeline and the state are untouched:
    every slot holds [not_connected] in [INIT] and [CONNECTING],
    [connection_lost] in [FAILED] and [RECONNECTING], [connection_closed] in
    [CLOSING] and [CLOSED], and [queue_full] on an open connection without
    room.  The same for [enqueue_dynamic]. *)
Theorem enqueue_outcome now start r addr c pend await types t :
  conn_ok c pend await -> sinks c !! addr = None ->
  0 < reply_count r -> reply_count r = zlen types ->
  let outcome c' :=
    (state_ c = connection_state.OPEN /\ has_room r (pipeline_ c) = true ->
      accepted now r addr c c' pend await) /\
    (forall err, turned_away (has_room r (pipeline_ c)) (state_ c) err ->
      refused (length types) err addr c c' /\ state_snapshot_ c' = state_ c') in
  (exists c', enqueue now start types r addr c = Ret c' /\ outcome c') /\
  (exists c', enqueue_dynamic now start t r addr c = Ret c' /\ outcome c').
Proof.
  intros Hok Ha Hpos Hcnt outcome.
  assert (forall s, fresh_for (length types) s ->
    exists c', enqueue_impl now start r addr (set_pipeline (<[addr := s]> (sinks c)) (pipeline_ c) c) = Ret c' /\ outcome c')
    as Himpl.
  { intros s Hs. destruct (enqueue_impl_ok now start r addr (set_pipeline (<[addr := s]> (sinks c)) (pipeline_ c) c)
      c s (length types) pend await) as (c' & He & Hout); [done..|]. exists c'. split; [exact He|]. split.
    - intros [Hst Hroom]. by rewrite Hst, Hroom in Hout.
    - intros err [Hr|(Hr & Hroom & ->)]%turned_away_refusal; rewrite Hr in Hout; [exact Hout|]. by rewrite Hroom in Hout. }
  split.
  - unfold enqueue. rewrite Hcnt, Z.eqb_refl. cbn [assert mbind run_bind]. apply Himpl, fixed_sink_fresh.
    intros ->. rewrite Hcnt in Hpos. done.
  - unfold enqueue_dynamic. rewrite Hcnt. unfold zlen. rewrite Nat2Z.id. apply Himpl, dynamic_sink_fresh.
    unfold zlen in Hcnt. lia.
Qed.

Lemma enqueue_outcome_witness :
  (exists c', enqueue 0 0 [TString] get1 0 (connection_new default_config) = Ret c' /\
    refused 1 (client_error client_errc.not_connected) 0 (connection_new default_config) c') /\
  (exists c', enqueue 0 0 [TString] get1 0 open_connection = Ret c' /\ accepted 0 get1 0 open_connection c' [] []).
Proof.
  split.
  - destruct (enqueue_outcome 0 0 get1 0 (connection_new default_config) [] [] [TString] TString)
      as [(c' & He & _ & Hr) _].
    + apply conn_ok_new. vm_compute. split; congruence.
    + reflexivity.
    + reflexivity.
    + reflexivity.
    + exists c'. split; [exact He|]. apply (Hr _ (away_init _)).
  - destruct (enqueue_outcome 0 0 get1 0 open_connection [] [] [TString] TString) as [(c' & He & Hr & _) _].
    + exact open_connection_ok.
    + reflexivity.
    + reflexivity.
    + reflexivity.
    + exists c'. split; [exact He|]. apply Hr. vm_compute. split; reflexivity.
Defined.

(** ** Errors *)

(** C17: a runtime error on an open connection moves it to [FAILED], closes the
    socket, reports one [disconnected] event when a hook is set, and leaves
    nothing pending: every sink of the pipeline is complete, its missing
    replies being the error, and no other sink is touched.  Once handled, the
    next errors change nothing until the connection is open again. *)
Theorem runtime_error now err err2 now2 c pend await :
  conn_ok c pend await -> state_ c = connection_state.OPEN ->
  exists c', handle_error now err c = Ret c' /\ failed_with now err c c' /\
    failed err (ptrs pend await) (sinks c) (sinks c') /\
    handle_error now2 err2 c' = Ret c'.
Proof.
  intros Hok Hst. destruct (handle_error_open now err c pend await Hok Hst) as (c' & Hh & Hf & Hs).
  exists c'. split; [done|]. split; [done|]. split; [done|]. destruct Hf as (_ & Hst' & _).
  apply handle_error_ignored; by rewrite Hst'.
Qed.

Lemma runtime_error_witness :
  exists c c', busy_connection = Ret c /\
    handle_error 3 (client_error client_errc.write_error) c = Ret c' /\
    state_ c' = connection_state.FAILED.
Proof.
  destruct busy_connection_ok as (c & Hb & Hst & Hok).
  destruct (runtime_error 3 (client_error client_errc.write_error) (client_error client_errc.connection_lost) 4
    c _ _ Hok Hst) as (c' & Hh & (_ & Hf & _) & _).
  exists c, c'. split; [exact Hb|]. split; [exact Hh|exact Hf].
Defined.

(** ** Sequences that end in a fault *)

(** [close] on a connection that never connected: nobody runs the actor,
    so nobody writes [CLOSED], and the assertion at the end of [close] fails.
    Without assertions the state stays [CLOSING] and every later [connect] is
    aborted. *)
Theorem close_before_connect_faults now cfg :
  0 <= max_pending_write_bytes (queue_limits cfg) <= u64_max ->
  exists c1, close_begin now (connection_new cfg) = Ret (c1, Some false) /\
    close_end c1 = Fault assert_failed /\
    connect_begin c1 = Ret (c1, Some (Unexpected (client_error client_errc.operation_aborted))).
Proof.
  intros Hl. destruct (close_begin_ok now _ [] [] (conn_ok_new cfg Hl)) as (c1 & Hc & _ & Hst & Hstop & _);
    [done|].
  exists c1. split; [exact Hc|]. unfold close_end, connect_begin. rewrite Hst.
  rewrite !bool_decide_false by done. by rewrite Hstop.
Qed.

Lemma close_before_connect_faults_witness :
  exists c1, close_begin 0 (connection_new default_config) = Ret (c1, Some false) /\
    close_end c1 = Fault assert_failed.
Proof.
  destruct (close_before_connect_faults 0 default_config) as (c1 & Hc & Hf & _);
    [vm_compute; split; congruence|].
  exists c1. split; [exact Hc|exact Hf].
Defined.

(** A write that completes just before the pipeline is cleared is reported
    to an empty pipeline: when a task of the strand (here a request timeout
    handled by the control loop) runs between the completion of
    [async_write_some] and the resumption of [do_write], [on_write_done] fails
    its assertion.  [do_write] looks at the state again only after it. *)
Theorem late_write_completion_faults :
  exists c1 c2 c3,
    busy_connection = Ret c1 /\
    do_write_begin c1 = Ret (c2, Some (s2b "GET")) /\
    control_turn (6 * 1000000000) c2 = Ret (c3, control_continue) /\ state_ c3 = connection_state.FAILED /\
    do_write_resume (6 * 1000000000) (Val 3) c3 = Fault assert_failed.
Proof.
  eexists _, _, _. split; [vm_compute; reflexivity|]. split; [vm_compute; reflexivity|].
  split; [vm_compute; reflexivity|]. split; vm_compute; reflexivity.
Qed.

(** An empty request cannot be given to [enqueue_dynamic]: its sink expects
    no replies and is never complete, so [fail_all] (here: not connected)
    fails an assertion of the builder, and without assertions never returns. *)
Theorem empty_dynamic_request_faults :
  enqueue_dynamic 0 0 TString request_new 0 (connection_new default_config) = Fault assert_failed.
Proof. vm_compute. reflexivity. Qed.

(** [connect] during a reconnection: in [FAILED] (the control loop sleeps in
    its backoff) it is neither refused nor ignored, but moves to [CONNECTING]
    with the same actor, so two connection attempts run on one socket. *)
Theorem connect_during_backoff c :
  state_ c = connection_state.FAILED -> stop_ c = false -> actor_running_ c = true ->
  enabled (reconnection (cfg_ c)) = true ->
  (forall now, control_turn now c = Ret (c, control_reconnect)) /\
  connect_begin c = Ret (set_state connection_state.CONNECTING c, None).
Proof.
  intros Hst Hstop Hrun Hen. split.
  - intros now. unfold control_turn. rewrite Hst, Hstop, Hen.
    rewrite bool_decide_false, bool_decide_true by done. done.
  - unfold connect_begin. rewrite Hst. rewrite !bool_decide_false by done. rewrite Hstop, Hrun. done.
Qed.

Lemma connect_during_backoff_witness :
  let c := set_state connection_state.FAILED (set_actor true 0 open_connection) in
  control_turn 5 c = Ret (c, control_reconnect) /\
  connect_begin c = Ret (set_state connection_state.CONNECTING c, None).
Proof.
  destruct (connect_during_backoff (set_state connection_state.FAILED (set_actor true 0 open_connection)))
    as [H1 H2]; try reflexivity.
  split; [apply H1|exact H2].
Defined.
