(* ===== verification/ConnectTheorems.v ===== *)
(** * Theorems about connecting and reconnecting

    Every run of [do_connect] and of [do_reconnect], what the handshake sends
    and accepts, and what a [close] in the middle of it leads to. *)

From S2P Require Import Prelude Kind Errors Charconv Buffer Message Parser Builder Adapter.
From S2P Require Import ParserInv ParserSafety ParserViews Wire WireParse.
From S2P Require Import Request RingQueue ResponseSink Pipeline PipelineSpec Config Connection Connect.
From S2P Require Import ConnectionSpec ReadSpec ConnectSpec.

(** ** Every run of [do_connect] *)

Section connect_run.

Context (other : string -> Z -> string) {endpoint : Type} (c0 : connection).

(** The states a call of [do_connect] on [c0] goes through: between two of
    its pieces other tasks of the strand may run. *)
Inductive connect_run : connection -> connect_point endpoint -> Prop :=
| run_begin c pt : do_connect_begin c0 = (c, pt) -> connect_run c pt
| run_resume now i c c1 pt c2 pt' :
    connect_run c pt -> calm c c1 -> input_ok pt i c1 ->
    do_connect_resume other now pt i c1 = Some (Ret (c2, pt')) -> connect_run c2 pt'.

(** What [do_connect] may assume of the connection it is called on. *)
Definition ready_to_connect : Prop :=
  connecting_state (state_ c0) /\ config_fits (cfg_ c0) /\ stop_ c0 = false /\ nothing_pending c0 /\
  storage_ok (parser_ c0).

Lemma connect_run_inv c pt : ready_to_connect -> connect_run c pt -> connect_inv c0 c pt.
Proof.
  intros (Hst & Hfit & Hstop & Hn & Hsto). induction 1 as [c pt Hb|now i c c1 pt c2 pt' _ IH Hcalm Hi Hr].
  - destruct (do_connect_begin_ok (endpoint:=endpoint) c0 c0 eq_refl Hstop Hn Hsto) as (c1 & Hb' & Hinv).
    rewrite Hb in Hb'. by injection Hb' as -> ->.
  - assert (connect_inv c0 c1 pt) as Hinv.
    { eapply calm_inv; [exact Hcalm| |exact IH]. intros res ->. by destruct i. }
    destruct (do_connect_resume_ok other c0 Hst Hfit now pt i c1 _ Hinv Hi Hr) as (c2' & pt2 & [= -> ->] & Hok).
    done.
Qed.

(** C20: connecting is safe and all-or-nothing.  In every run of [do_connect]
    that nobody closes and that reads no bytes after the buffer was moved under
    a half-read value with texts ([input_ok]), whatever else the resolver, the
    sockets, the server and the timers answer, no piece fails an assertion or
    leaves its loop unfinished; when it succeeds the connection is open in a
    new generation with nothing pending and an empty parser; when it fails the
    state is the one it started in and nothing is pending, so a retry starts
    afresh.  The excluded reads exist and fault: [split_handshake_faults]. *)
Theorem do_connect_safe c pt :
  ready_to_connect -> connect_run c pt ->
  (forall now i c1 r, calm c c1 -> input_ok pt i c1 -> do_connect_resume other now pt i c1 = Some r ->
     exists c2 pt', r = Ret (c2, pt')) /\
  match pt with
  | finished (Val _) => opened c0 c
  | finished (Unexpected _) =>
    nothing_pending c /\ state_ c = state_ c0 /\ generation_ c = generation_ c0 /\ storage_ok (parser_ c)
  | _ => state_ c = state_ c0
  end.
Proof.
  intros Hready Hrun. pose proof (connect_run_inv c pt Hready Hrun) as Hinv. split.
  - intros now i c1 r Hcalm Hi Hr. destruct Hready as (Hst & Hfit & _).
    assert (connect_inv c0 c1 pt) as Hinv1.
    { eapply calm_inv; [exact Hcalm| |exact Hinv]. intros res ->. by destruct i. }
    destruct (do_connect_resume_ok other c0 Hst Hfit now pt i c1 r Hinv1 Hi Hr) as (c2 & pt' & -> & _). eauto.
  - destruct pt as [|ep rest|slot buf|slot|slot [|]|slot|[|]]; try apply Hinv.
    destruct Hinv as ((_ & Hst & _ & Hgen & Hwf & _) & Hsm & Hn). done.
Qed.

End connect_run.

(** A connection that [connect] has just moved to [CONNECTING]. *)
Definition fresh_connection : connection :=
  set_state connection_state.CONNECTING (set_actor true 0 (connection_new default_config)).

Lemma fresh_connection_ready : ready_to_connect fresh_connection.
Proof.
  split; [by left|]. split; [by vm_compute|]. split; [done|]. split.
  - destruct (conn_ok_new default_config) as [_ Hi _]; [vm_compute; split; congruence|]. by constructor.
  - destruct (parser_new_inv default_limits) as [[Hwf _] Hsm]. done.
Qed.

Definition no_message (_ : string) (_ : Z) : string := "".

Lemma do_connect_safe_witness :
  exists c pt c2 pt2, do_connect_begin (endpoint:=nat) fresh_connection = (c, pt) /\
    do_connect_resume no_message 1 pt (in_resolved (Unexpected io_timed_out)) c = Some (Ret (c2, pt2)).
Proof.
  destruct (do_connect_begin (endpoint:=nat) fresh_connection) as [c pt] eqn:E.
  destruct (do_connect_safe no_message fresh_connection c pt fresh_connection_ready (run_begin _ _ _ _ E)) as [Hs _].
  unfold do_connect_begin in E. cbn [stop_ fresh_connection set_state set_actor connection_new] in E.
  injection E as <- <-.
  destruct (Hs 1 (in_resolved (Unexpected io_timed_out)) _ _ ltac:(done) I eq_refl) as (c2 & pt' & Hr).
  eexists _, _, c2, pt'. split; [reflexivity|]. cbn [do_connect_resume]. f_equal. exact Hr.
Defined.

(** Requests made while connecting are refused and disturb nothing. *)
Lemma enqueue_calm now start types r addr c :
  connecting_state (state_ c) -> sinks c !! addr = None -> types <> [] -> reply_count r = zlen types ->
  exists c', enqueue now start types r addr c = Ret c' /\ calm c c'.
Proof.
  intros Hst Ha Hne Hcnt. unfold enqueue. rewrite Hcnt, Z.eqb_refl. cbn [assert mbind run_bind].
  destruct (fixed_sink_fresh types Hne) as (Hwf & _ & _ & _). unfold enqueue_impl.
  set (c1 := set_pipeline _ _ c). destruct (trace_begin r c1) as [info c2] eqn:Et.
  pose proof (trace_begin_fields r c1) as Hf. rewrite Et in Hf. cbn [snd] in Hf. destruct Hf as (H1 & H2 & H3 & H4 & H5).
  assert (stop_ c2 = stop_ c /\ generation_ c2 = generation_ c /\ socket_open c2 = socket_open c /\
    parser_ c2 = parser_ c /\ reconnect_count_ c2 = reconnect_count_ c) as (H6 & H7 & H8 & H9 & H10).
  { unfold trace_begin in Et. destruct (trace_hooks_enabled _); by injection Et as _ <-. }
  assert (exists err, refusal (state_ c2) = Some err) as [err ->].
  { rewrite H1. cbn. destruct Hst as [-> | ->]; by eexists. }
  unfold reject. rewrite (deref_at _ addr (fixed_sink types)) by (rewrite H3; apply lookup_insert_eq).
  cbn [mbind run_bind snd]. destruct (fail_all_spec now err (fixed_sink types) Hwf) as (s' & Hs' & _).
  rewrite Hs'. cbn [mbind run_bind]. eexists. split; [done|].
  assert (forall a s, sinks c !! a = Some s -> <[addr := s']> (sinks c2) !! a = Some s) as Hsk.
  { intros a s Hs. rewrite H3. cbn. destruct (decide (a = addr)) as [->|Hne']; [congruence|].
    by rewrite !lookup_insert_ne. }
  destruct (trace_hooks_enabled _ && _); repeat split; done.
Qed.

(** ** The handshake *)

(** The slot a reply of the handshake fills: an error reply is an error, any
    other reply is accepted. *)
Definition handshake_slot (w : wire) : response_slot := slot_of TIgnore (reply_message (denote None w)).

Lemma handshake_slot_eq w :
  handshake_slot w =
  match value (denote None w) with
  | resp3.simple_error m | resp3.bulk_error m => Unexpected (mk_error_info (make_server_error_code server_errc.redis_error) m)
  | _ => Val VIgnore
  end.
Proof. unfold handshake_slot, slot_of, slot_from_message. by destruct (value (denote None w)). Qed.

Lemma handshake_parse_stream c0 now slot ws : forall fuel c ai s,
  connecting_state (state_ c0) -> in_progress c0 c -> socket_open c = true -> conn_ok c [] [ai] ->
  ai_sink ai = Some slot -> sinks c !! slot = Some s ->
  sink_types s = replicate (length (sink_types s)) TIgnore ->
  length (sink_types s) = (length (sink_slots s) + length ws)%nat -> ready_for (parser_ c) ->
  forallb (wf (Parser.limits_ (parser_ c))) ws = true -> forallb (tidy false) ws = true ->
  data_bytes (buf_ (parser_ c)) = concat (encode <$> ws) -> (length ws <= fuel)%nat ->
  exists c' s', handshake_parse fuel now slot c = Ret (c', None) /\ in_progress c0 c' /\
    socket_open c' = true /\ nothing_pending c' /\ ready_for (parser_ c') /\
    sinks c' !! slot = Some s' /\ sink_wf s' /\ is_complete s' = true /\
    sink_slots s' = sink_slots s ++ (handshake_slot <$> ws).
Proof.
  intros fuel c ai s Hst0. revert fuel c ai s.
  induction ws as [|w ws IH]; intros fuel c ai s Hip Hso Hok Ha Hs Hty Hlen Hp Hwf Hti Hd Hfuel.
  { destruct (awaiting_missing c ai slot s Hok Ha Hs). rewrite Hlen. cbn [length]. lia. }
  destruct fuel as [|fuel]; [simpl in Hfuel; lia|]. cbn [forallb] in Hwf, Hti. bool_prop.
  rewrite fmap_cons in Hd. cbn [concat] in Hd.
  destruct (read_one_value _ w _ Hp ltac:(done) ltac:(done) Hd)
    as (p1 & root & m & p2 & Hone & Hb & Hrs & Hrec & Hp2 & Hd2 & Hl2 & _).
  cbn [handshake_parse]. rewrite Hone. cbn [mbind run_bind].
  assert (conn_ok (set_parser p1 c) [] [ai]) as Hok1 by (destruct Hok; by constructor).
  assert (has_pending_read (pipeline_ (set_parser p1 c)) = true) as Hpr.
  { unfold has_pending_read. by rewrite (front_empty _ _ _ (inv_await _ _ _ _ (ok_inv _ _ _ Hok1))). }
  rewrite Hpr, Hb. cbn [negb mbind run_bind]. rewrite Hrs.
  cbn [or_fault mbind run_bind].
  destruct (on_reply_inv now (reply_message (denote None w)) _ _ _ _ _ (ok_inv _ _ _ Hok1))
    as (a & s1 & s' & p' & Ha' & Hs1 & Hwf1 & Hdel & Hmsg & _ & Hi').
  rewrite Ha in Ha'. injection Ha' as <-. cbn [set_parser sinks] in Hs1. rewrite Hs in Hs1. injection Hs1 as <-.
  rewrite on_message_reply, Hmsg. cbn [mbind run_bind fst snd]. rewrite Hrec. cbn [mbind run_bind].
  set (c2 := set_parser p2 _). assert (sinks c2 !! slot = Some s') as Hs' by apply lookup_insert_eq.
  rewrite (deref_at _ _ _ Hs'). cbn [mbind run_bind snd].
  assert (in_progress c0 c2) as Hip2.
  { destruct Hip as (E1 & E2 & E3 & E4 & _ & E5). do 4 (split; [done|]). split; [apply (ready_storage _ Hp2)|by rewrite <- E5]. }
  assert (quiet (state_ c) = false) as Hq by (destruct Hip as (_ & -> & _); by destruct Hst0 as [-> | ->]).
  destruct Hdel as (Hwf' & Hty' & t & Ht & Hsl). rewrite Hty in Ht. apply lookup_replicate in Ht as [-> _].
  fold (handshake_slot w) in Hsl. cbn [length] in Hlen.
  destruct (is_complete s') eqn:Hc.
  - rewrite sink_complete, Hsl, Hty', length_app in Hc by done. apply Nat.eqb_eq in Hc. cbn [length] in Hc.
    destruct ws; [|cbn [length] in Hlen; lia]. exists c2, s'. split; [done|]. split; [done|]. split; [done|].
    split; [constructor; [apply Hok|exact Hi'|cbn; by rewrite Hq]|]. repeat (split; [done|]).
    rewrite sink_complete, Hsl, Hty', length_app by done. split; [|done]. apply Nat.eqb_eq. cbn [length]. lia.
  - destruct (IH fuel c2 ai s') as (c' & s2 & Hrun & R1 & R2 & R3 & R4 & R5 & R6 & R7 & R8); try done.
    + constructor; [apply Hok|exact Hi'|cbn; by rewrite Hq].
    + by rewrite Hty'.
    + rewrite Hty', Hsl, length_app. cbn [length]. lia.
    + cbn [c2 set_parser parser_]. by rewrite Hl2.
    + simpl in Hfuel. lia.
    + exists c', s2. do 7 (split; [done|]). rewrite R8, Hsl, <- (assoc_L (++)). done.
Qed.

Section handshake.

Context (other : string -> Z -> string) {endpoint : Type} (c0 : connection).
Context (Hready : ready_to_connect c0).

(** The request and the sink of the handshake. *)
Definition hello : request := request_of (handshake_commands (cfg_ c0)).
Definition hello_sink : sink := dynamic_sink TIgnore (length (handshake_commands (cfg_ c0))).

Lemma connecting_quiet c : in_progress c0 c -> quiet (state_ c) = false.
Proof. destruct Hready as (Hst & _). intros (_ & -> & _). by destruct Hst as [-> | ->]. Qed.

Lemma start_handshake_writes now addr c :
  in_progress c0 c -> nothing_pending c -> sinks c !! addr = None ->
  has_room hello (pipeline_ c) = true ->
  exists p', start_handshake (endpoint:=endpoint) other now addr c =
      Ret (set_pipeline (<[addr := hello_sink]> (sinks c)) p' c, at_write addr (wire_ hello)) /\
    inv (<[addr := hello_sink]> (sinks c)) p' [mk_pending_item hello (Some addr) 0 time_max] [].
Proof.
  intros Hip Hn Ha Hroom. pose proof (connecting_quiet c Hip) as Hq. pose proof Hip as (Hcfg & _ & Hstop & _).
  destruct Hready as (_ & Hfit & _). unfold start_handshake. rewrite Hcfg, handshake_request_ok by done.
  cbn [mbind run_bind]. fold hello. pose proof (handshake_commands_count (cfg_ c0)) as Hcnt.
  assert (Z.to_nat (reply_count hello) = length (handshake_commands (cfg_ c0))) as ->.
  { unfold reply_count, hello, request_of, zlen. cbn [command_count_]. lia. }
  fold hello_sink. destruct (dynamic_sink_fresh TIgnore (length (handshake_commands (cfg_ c0)))) as (Hwf & _ & Hc & Hlen); [lia|].
  fold hello_sink in Hwf, Hc, Hlen. set (h := <[addr := hello_sink]> (sinks c)).
  assert (inv h (pipeline_ c) [] []) as Hi by (apply inv_other; [apply Hn|apply not_elem_of_nil]).
  destruct (push_inv h (pipeline_ c) [] [] hello addr hello_sink time_max Hi) as (p' & Hpush & Hres);
    [apply lookup_insert_eq|done|done|apply not_elem_of_nil|by rewrite Hlen|].
  rewrite Hroom in Hpush, Hres. destruct Hres as [Hi' _]. exists p'. split; [|done].
  unfold push_no_deadline. rewrite Hpush. cbn [mbind run_bind fst snd negb]. unfold handshake_write.
  cbn [stop_ set_pipeline pipeline_]. rewrite Hstop. unfold has_pending_write.
  rewrite (front_empty _ _ _ (inv_pend _ _ _ _ Hi')), (next_write_buffer_eq _ _ _ _ _ Hi'). done.
Qed.

Lemma written_reads now addr c p' s :
  in_progress c0 c -> ready_for (parser_ c) -> sinks c !! addr = Some s ->
  pipeline_ c = p' -> inv (sinks c) p' [mk_pending_item hello (Some addr) 0 time_max] [] ->
  exists p2 b, on_written (endpoint:=endpoint) other now addr (Val (zlen (wire_ hello))) c =
      Ret (set_parser (set_buf b (parser_ c)) (set_pipeline (sinks c) p2 c), at_read addr) /\
    inv (sinks c) p2 [] [mk_awaiting_item (Some addr) time_max] /\
    parser_prepare (parser_ c) prepare_default = Ret (set_buf b (parser_ c)) /\ buffer_wf b.
Proof.
  intros Hip Hp Hs Hpp Hi. pose proof Hip as (_ & _ & Hstop & _).
  destruct (on_write_done_inv _ _ _ _ _ (zlen (wire_ hello)) Hi) as (p2 & Hw & _ & Hi2).
  { unfold unsent_item. cbn [written req]. rewrite drop_0. pose proof (zlen_nonneg (wire_ hello)). lia. }
  cbn [written req] in Hi2. unfold wire_size in Hi2. rewrite Z.add_0_l, Z.eqb_refl in Hi2. cbn [app pi_sink pi_deadline] in Hi2.
  destruct (prepare_ok (parser_ c) (ready_parser_ok _ Hp)) as (b & Hb & _ & Hwf). exists p2, b. split; [|done].
  cbn [on_written]. rewrite Hpp, Hw. cbn [mbind run_bind]. unfold handshake_write, has_pending_write.
  cbn [stop_ set_pipeline pipeline_]. rewrite Hstop, (proj2 (q_empty_elems _ _ (inv_pend _ _ _ _ Hi2))) by done.
  cbn [negb andb]. unfold handshake_read. cbn [sinks set_pipeline stop_ parser_].
  rewrite (deref_at _ _ _ Hs). cbn [mbind run_bind snd]. rewrite Hstop.
  assert (is_complete s = false) as ->; [|cbn [negb andb]; by rewrite Hb].
  pose proof (inv_ptrs _ _ _ _ Hi) as Hpt. apply Forall_cons in Hpt as [(a & s1 & [= <-] & Hs1 & _ & Hc) _].
  rewrite Hs in Hs1. by injection Hs1 as <-.
Qed.

(** The inputs of [with_timeout] and of the slot's wait. *)
Definition joins (cfg : config) : list (connect_input endpoint) :=
  match request_timeout cfg, connect_timeout cfg with
  | None, None => [in_continue]
  | _, _ => [in_continue; in_continue]
  end.

(** A run of [do_connect] on some inputs. *)
Fixpoint connect_with (now : Z) (l : list (connect_input endpoint)) (cp : connection * connect_point endpoint) :
    option (run (connection * connect_point endpoint)) :=
  match l with
  | [] => Some (Ret cp)
  | i :: l' =>
    match do_connect_resume other now cp.2 i cp.1 with
    | Some (Ret cp') => connect_with now l' cp'
    | r => r
    end
  end.

(** What the replies decide: the first one that is an error, simple or bulk,
    is returned as the error of the server with its text; without one the
    connection is made. *)
Fixpoint verdict (ws : list wire) : expected unit error_info :=
  match ws with
  | [] => Val tt
  | w :: ws' =>
    match value (denote None w) with
    | resp3.simple_error text | resp3.bulk_error text =>
      Unexpected (mk_error_info (make_server_error_code server_errc.redis_error) text)
    | _ => verdict ws'
    end
  end.

Lemma verdict_failure ws :
  verdict ws = match first_failure (handshake_slot <$> ws) with Some err => Unexpected err | None => Val tt end.
Proof.
  induction ws as [|w ws IH]; [done|]. cbn [verdict]. rewrite fmap_cons, handshake_slot_eq.
  by destruct (value (denote None w)).
Qed.

Lemma verdict_server ws err :
  first_failure (handshake_slot <$> ws) = Some err -> code_category (code err) = cat_server.
Proof.
  induction ws as [|w ws IH]; [done|]. rewrite fmap_cons, handshake_slot_eq.
  destruct (value (denote None w)); cbn [first_failure]; try exact IH; by intros [= <-].
Qed.

(** What is left then: an open connection, or one that is still connecting with
    nothing pending. *)
Definition decided (ws : list wire) (c : connection) : Prop :=
  match verdict ws with
  | Val _ => opened c0 c
  | Unexpected _ => in_progress c0 c /\ nothing_pending c
  end.

Lemma collected_decides now slot c s ws :
  in_progress c0 c -> socket_open c = true -> nothing_pending c -> ready_for (parser_ c) ->
  sinks c !! slot = Some s -> sink_wf s -> is_complete s = true -> sink_slots s = handshake_slot <$> ws ->
  exists c', check_replies (endpoint:=endpoint) other now slot c = Ret (c', finished (verdict ws)) /\
    decided ws c'.
Proof.
  intros Hip Hso Hn Hp Hs Hwf Hc Hsl. unfold check_replies. rewrite verdict_failure.
  destruct (collected_deref slot c) as (s' & Hd & _ & Hw); [by exists s|]. rewrite Hd.
  rewrite (deref_at _ _ _ Hs) in Hd. injection Hd as <-. cbn [mbind run_bind snd]. rewrite Hw, Hsl.
  cbn [mbind run_bind]. destruct (first_failure _) as [err|] eqn:Ef.
  - rewrite bool_decide_true by (by eapply verdict_server). exists c. unfold decided. by rewrite verdict_failure, Ef.
  - eexists. split; [done|]. unfold decided. rewrite verdict_failure, Ef. by apply connect_succeeded_ok.
Qed.

Lemma joined_decides now slot c s ws :
  in_progress c0 c -> socket_open c = true -> nothing_pending c -> ready_for (parser_ c) ->
  sinks c !! slot = Some s -> sink_wf s -> is_complete s = true -> sink_slots s = handshake_slot <$> ws ->
  exists c' cp, handshake_read (endpoint:=endpoint) other now slot c = Ret cp /\
    connect_with now (joins (cfg_ c0)) cp = Some (Ret (c', finished (verdict ws))) /\
    decided ws c'.
Proof.
  intros Hip Hso Hn Hp Hs Hwf Hc Hsl. pose proof Hip as (Hcfg & _ & Hstop & _).
  destruct (collected_decides now slot c s ws Hip Hso Hn Hp Hs Hwf Hc Hsl) as (c' & Hcr & Hop).
  exists c'. unfold handshake_read. rewrite (deref_at _ _ _ Hs). cbn [mbind run_bind snd]. rewrite Hstop, Hc.
  cbn [negb andb]. unfold handshake_return, joins. rewrite Hcfg.
  assert (handshake_end (endpoint:=endpoint) other now slot (Val tt) c = Ret (c, at_wait slot)) as Hhe.
  { cbn [handshake_end]. rewrite (deref_at _ _ _ Hs). cbn [mbind run_bind snd]. by rewrite Hc. }
  destruct (request_timeout (cfg_ c0)), (connect_timeout (cfg_ c0)); try rewrite Hhe; eexists; (split; [done|]);
    cbn [connect_with do_connect_resume fst snd]; rewrite ?Hhe; cbn [connect_with do_connect_resume fst snd];
    rewrite Hcr; done.
Qed.

(** The read that carries all replies. *)
Lemma replies_decide now addr c ws :
  in_progress c0 c -> socket_open c = true -> ready_for (parser_ c) ->
  data_bytes (buf_ (parser_ c)) = [] -> Parser.limits_ (parser_ c) = Parser.limits_ (parser_ c0) ->
  conn_ok c [] [mk_awaiting_item (Some addr) time_max] -> sinks c !! addr = Some hello_sink ->
  ws <> [] -> length ws = length (handshake_commands (cfg_ c0)) ->
  forallb (wf (Parser.limits_ (parser_ c0))) ws = true -> forallb (tidy false) ws = true ->
  (length (concat (encode <$> ws)) <= length (buffer_ (buf_ (parser_ c))) - write_pos_ (buf_ (parser_ c)))%nat ->
  exists c' cp, on_read (endpoint:=endpoint) other now addr (Val (concat (encode <$> ws))) c = Ret cp /\
    connect_with now (joins (cfg_ c0)) cp = Some (Ret (c', finished (verdict ws))) /\
    decided ws c'.
Proof.
  intros Hip Hso Hp Hd Hlim Hok Hs Hne Hlen Hwf Hti Hfit.
  destruct (concat (encode <$> ws)) as [|x bs] eqn:Ebs.
  { exfalso. destruct ws as [|w ws]; [done|]. pose proof (encode_length w) as Hl. rewrite fmap_cons in Ebs.
    apply (f_equal length) in Ebs. cbn [concat length] in Ebs. rewrite length_app in Ebs. lia. }
  destruct (commit_read_ready (x :: bs) (parser_ c) Hp Hfit) as (p1 & Hc & Hp1 & Hd1 & Hl1).
  rewrite Hd in Hd1. cbn [on_read]. rewrite Hc. cbn [mbind run_bind].
  destruct (handshake_parse_stream c0 now addr ws (read_fuel p1) (set_parser p1 c)
    (mk_awaiting_item (Some addr) time_max) hello_sink)
    as (c1 & s1 & Hrun & Hip1 & Hso1 & Hn1 & Hr1 & Hs1 & Hw1 & Hc1 & Hsl1); try done.
  - apply Hready.
  - by apply in_progress_parser; [|apply ready_storage|].
  - destruct Hok; by constructor.
  - cbn. by rewrite length_replicate.
  - cbn. by rewrite length_replicate.
  - cbn [set_parser parser_]. by rewrite Hl1, Hlim.
  - cbn [set_parser parser_]. by rewrite Hd1, Ebs.
  - unfold read_fuel. rewrite Hd1. pose proof (length_encodes ws) as Hle. rewrite Ebs in Hle. simpl in *. lia.
  - rewrite Hrun. cbn [mbind run_bind fst snd]. by eapply joined_decides.
Qed.

Lemma handshake_verdict now addr ep rest ws :
  sinks c0 !! addr = None -> has_room hello (pipeline_ c0) = true ->
  prepare_default <= zlen (buffer_ (buf_ (parser_ c0))) ->
  length ws = length (handshake_commands (cfg_ c0)) ->
  forallb (wf (Parser.limits_ (parser_ c0))) ws = true -> forallb (tidy false) ws = true ->
  zlen (concat (encode <$> ws)) <= prepare_default ->
  exists c', connect_with now
      ([in_resolved (Val (ep :: rest)); in_attempt (attempt_ok None None) addr;
        in_written (Val (zlen (wire_ hello))); in_read (Val (concat (encode <$> ws)))] ++ joins (cfg_ c0))
      (do_connect_begin c0) = Some (Ret (c', finished (verdict ws))) /\
    decided ws c'.
Proof.
  intros Ha Hroom Hcap Hlen Hwf Hti Hfit. pose proof Hready as (_ & _ & Hstop & Hn & Hsto).
  destruct (reset_ready _ Hsto) as [Hrdy Hd0].
  unfold do_connect_begin. rewrite Hstop. cbn [app connect_with do_connect_resume on_resolved fst snd].
  cbn [stop_ set_parser]. rewrite Hstop, close_socket_eq. cbn [connect_with do_connect_resume on_attempt fst snd].
  cbn [after_attempts stop_ set_socket set_parser]. rewrite Hstop.
  set (c1 := set_socket true _).
  assert (in_progress c0 c1) as Hip1 by (do 4 (split; [done|]); split; [apply Hrdy|done]).
  destruct (start_handshake_writes now addr c1 Hip1) as (p' & Hsw & Hi1); [destruct Hn; by constructor|done|done|].
  rewrite Hsw. cbn [connect_with do_connect_resume fst snd]. set (c2 := set_pipeline _ p' c1).
  destruct (written_reads now addr c2 p' hello_sink) as (p2 & b & Hor & Hi2 & Hb & Hwfb);
    [done|done|apply lookup_insert_eq|done|done|].
  rewrite Hor. cbn [connect_with do_connect_resume fst snd].
  assert (b = buf_ (parser_ c2)) as ->.
  { eapply prepare_empty; [|done|exact Hcap|exact Hb]. split; [apply Hrdy|apply Hsto]. }
  assert (set_buf (buf_ (parser_ c2)) (parser_ c2) = parser_ c2) as -> by done.
  destruct (replies_decide now addr (set_parser (parser_ c2) (set_pipeline (sinks c2) p2 c2)) ws)
    as (c' & cp & Hr & Hcw & Hop); try done.
  - constructor; [apply Hn|exact Hi2|]. change (state_ _) with (state_ c1). by rewrite (connecting_quiet c1 Hip1).
  - apply lookup_insert_eq.
  - intros ->. pose proof (handshake_commands_count (cfg_ c0)). simpl in Hlen. lia.
  - change (write_pos_ (buf_ (parser_ _))) with 0%nat. change (buffer_ (buf_ (parser_ _))) with (buffer_ (buf_ (parser_ c0))).
    unfold zlen in *. lia.
  - exists c'. rewrite Hr. done.
Qed.


End handshake.

(** The server's answer to [HELLO 3], here a map with one entry. *)
Definition hello_reply : wire :=
  Agg kind.map (s2b "1") [Leaf (SLine kind.simple_string (s2b "proto")); Leaf (SLine kind.integer (s2b "3"))].


(** ** [close] in the middle of a handshake *)

(** A handshake up to the write of its request, and up to its replies. *)
Definition to_write : list (connect_input nat) :=
  [in_resolved (Val [0%nat]); in_attempt (attempt_ok None None) 0%nat].

Definition to_join : list (connect_input nat) :=
  to_write ++ [in_written (Val (zlen (wire_ (hello fresh_connection))));
               in_read (Val (encode hello_reply))].

(** The reply to [HELLO 3] is a map; when it comes in two reads, cut behind
    the text of its key, the second [prepare] grows the buffer, which moves the
    text the parser has already seen, and the message is built from the old
    place. *)
Theorem split_handshake_faults :
  Forall (fun n => connect_with no_message 7
    (to_write ++ [in_written (Val (zlen (wire_ (hello fresh_connection))));
                  in_read (Val (take n (encode hello_reply))); in_read (Val (drop n (encode hello_reply)))])
    (do_connect_begin fresh_connection) = Some (Fault dangling_view)) [12; 13; 14; 15]%nat.
Proof. repeat constructor; vm_compute; reflexivity. Qed.

(** [close] is called where the inputs [before] lead to, then [do_connect]
    goes on with the inputs [after]. *)
Definition closed_during (before after : list (connect_input nat)) :
    option (run (connection * connect_point nat)) :=
  match connect_with no_message 1 before (do_connect_begin fresh_connection) with
  | Some (Ret (c, pt)) =>
    match close_begin 2 c with
    | Ret (c1, _) => connect_with no_message 3 after (c1, pt)
    | Fault f => Some (Fault f)
    end
  | r => r
  end.

(** A [close] while the handshake request is being written: when the write
    completes, [do_handshake] reports it to the pipeline that [close] has
    emptied, and [on_write_done] fails its assertion. *)
Theorem close_during_handshake_faults :
  closed_during to_write [in_written (Val (zlen (wire_ (hello fresh_connection))))] =
    Some (Fault assert_failed).
Proof. vm_compute. reflexivity. Qed.

(** A [close] between the last reply of the handshake and the resumption
    of [do_connect] is undone: the state goes from [CLOSING] back to [OPEN],
    with the socket closed and a stop requested, and [connect] reports
    success. *)
Theorem close_is_overwritten :
  exists c, closed_during to_join [in_continue; in_continue] = Some (Ret (c, finished (Val tt))) /\
    (exists c1, closed_during to_join [] = Some (Ret c1) /\ state_ c1.1 = connection_state.CLOSING) /\
    state_ c = connection_state.OPEN /\ stop_ c = true /\ socket_open c = false.
Proof.
  destruct (closed_during to_join [in_continue; in_continue]) as [[[c pt]|f]|] eqn:E;
    [|vm_compute in E; discriminate E..].
  destruct (closed_during to_join []) as [[c1|f]|] eqn:E1; [|vm_compute in E1; discriminate E1..].
  vm_compute in E, E1. injection E as <- <-. injection E1 as <-.
  eexists. split; [reflexivity|]. split; [eexists; split; reflexivity|]. done.
Qed.
