(* ===== verification/Session.v ===== *)
(** * Sessions of a client

    What a user of the client sees: calls that are made one after the other or
    at the same time, written to the socket in whatever pieces it takes, and
    answered in the pieces that [exchange_ok] allows.  Every call returns the
    replies to its own commands. *)

From S2P Require Import Prelude Kind Errors Charconv Buffer Message Parser Builder Adapter.
From S2P Require Import ParserInv ParserSafety ParserViews Wire WireParse ParserResume ParserPrefix.
From S2P Require Import Request RingQueue ResponseSink Response Pipeline PipelineSpec Config Connection Connect.
From S2P Require Import ConnectionSpec ReadSpec ConnectSpec Tolerant Strand Client ConnectTheorems.

(** ** Calls *)

(** The types of the replies: those of [exec<Ts...>], or the one of
    [exec_dynamic<T>]. *)
Inductive call_shape : Set :=
| shape_exec (types : list ty)
| shape_dynamic (t : ty).

(** A call, with the time of its dispatch, its start time and the address of
    the pending response it makes. *)
Record call : Set := mk_call {
  cl_shape : call_shape;
  cl_request : request;
  cl_addr : nat;
  cl_now : Z;
  cl_start : Z;
}.

Definition cl_types (cl : call) : list ty :=
  match cl_shape cl with
  | shape_exec types => types
  | shape_dynamic t => replicate (Z.to_nat (reply_count (cl_request cl))) t
  end.

Definition begin_call (cl : call) (c : connection) : run connection :=
  match cl_shape cl with
  | shape_exec types => exec_begin (cl_now cl) (cl_start cl) types (cl_request cl) (cl_addr cl) c
  | shape_dynamic t => exec_dynamic_begin (cl_now cl) (cl_start cl) t (cl_request cl) (cl_addr cl) c
  end.

Definition end_call (cl : call) (c : connection) : run (response + dynamic_response) :=
  match cl_shape cl with
  | shape_exec types => r ← exec_end types (cl_addr cl) c; Ret (inl r)
  | shape_dynamic _ => r ← exec_dynamic_end (cl_addr cl) c; Ret (inr r)
  end.

Fixpoint begin_calls (cls : list call) (c : connection) : run connection :=
  match cls with
  | [] => Ret c
  | cl :: cls' => c1 ← begin_call cl c; begin_calls cls' c1
  end.

(** Calls that are made at the same time, and what the socket does: the time
    of the writes and the sizes they report, the pieces that the reads bring. *)
Record exchange : Type := mk_exchange {
  ex_calls : list call;
  ex_written : Z;
  ex_sizes : list Z;
  ex_pieces : list (Z * bytes);
}.

(** The calls are made and written. *)
Definition sent (x : exchange) (c : connection) : run connection :=
  c1 ← begin_calls (ex_calls x) c;
  cb ← do_write_begin c1;
  cb' ← write_chunks (ex_written x) (ex_sizes x) cb;
  Ret cb'.1.

Definition run_exchange (x : exchange) (c : connection) : run (list (response + dynamic_response) * connection) :=
  c1 ← sent x c;
  c2 ← read_pieces (ex_pieces x) c1;
  rs ← mapM (fun cl => end_call cl c2) (ex_calls x);
  Ret (rs, c2).

(** One exchange after the other. *)
Fixpoint session (xs : list exchange) (c : connection) : run (list (list (response + dynamic_response)) * connection) :=
  match xs with
  | [] => Ret ([], c)
  | x :: xs' =>
    '(rs, c1) ← run_exchange x c;
    '(rss, c2) ← session xs' c1;
    Ret (rs :: rss, c2)
  end.

(** ** What is expected *)

(** What a call returns whose commands have some replies. *)
Definition outcome (cl : call) (rs : list reply) : response + dynamic_response :=
  let slots := zip_with slot_of (cl_types cl) rs in
  match cl_shape cl with
  | shape_exec types => inl (mk_response types slots)
  | shape_dynamic _ => inr (mk_dynamic_response slots)
  end.

(** The server answers with the values [ws]. *)
Definition answer (cl : call) (ws : list wire) : response + dynamic_response :=
  outcome cl (reply_message ∘ denote None <$> ws).

Definition call_ok (cl : call) : bool :=
  bool_decide (cl_types cl <> []) && (reply_count (cl_request cl) =? zlen (cl_types cl)) && (0 <? wire_size (cl_request cl)).

Definition total (zs : list Z) : Z := foldr Z.add 0 zs.

(** The calls fit the pipeline, the writes take them, one reply comes for each
    command, and the pieces that the replies come in are allowed, see
    [pieces_ok]. *)
Definition exchange_ok (lims : pipeline_limits) (plims : limits) (cap : Z) (x : exchange) (wss : list (list wire)) : bool :=
  let cls := ex_calls x in
  let ws := concat wss in
  bool_decide (cls <> []) && forallb call_ok cls &&
  (zlen cls <=? max_requests lims) && (total (wire_size ∘ cl_request <$> cls) <=? max_pending_write_bytes lims) &&
  fills (wire_size ∘ cl_request <$> cls) (ex_sizes x) &&
  bool_decide (length <$> wss = length ∘ cl_types <$> cls) &&
  forallb (wf plims) ws && forallb (tidy false) ws &&
  bool_decide (concat (ex_pieces x).*2 = concat (encode <$> ws)) && pieces_ok plims cap ws 0 (ex_pieces x).

(** The actor runs on, with the same configuration. *)
Definition same_actor (c c' : connection) : Prop :=
  actor_running_ c' = actor_running_ c /\ cfg_ c' = cfg_ c.

#[export] Instance same_actor_preorder : PreOrder same_actor.
Proof. split; [done|]. intros c1 c2 c3 [] []. split; by etrans. Qed.

#[export] Instance same_actor_tolerant : Tolerant same_actor.
Proof.
  constructor; [constructor; try done|done..].
  - exact _.
  - intros now k st f t e c _. unfold emit_connection_event. by destruct (negb _).
  - intros now c. unfold connect_succeeded, emit_connection_event. by destruct (negb _).
  - intros now err c c' H. unfold clear_pipeline in H. run_inv. done.
Qed.

Lemma read_pieces_actor pieces : forall c c', read_pieces pieces c = Ret c' -> same_actor c c'.
Proof.
  induction pieces as [|[now bs] rest IH]; intros c c' H; cbn [read_pieces] in H; [by injection H as <-|].
  apply run_bind_Ret in H as ([c1 asks] & Hb & H). destruct asks; [|done]. apply run_bind_Ret in H as (c2 & He & H).
  transitivity c1; [|transitivity c2; [|by apply IH]].
  - unfold do_read_begin in Hb. case_bool_decide; run_inv; done.
  - unfold do_read_end in He. apply run_bind_Ret in He as (c3 & H1 & [= <-]). transitivity c3; [|done].
    destruct bs as [|b bs]; [by eapply (tol_handle_error same_actor)|]. apply run_bind_Ret in H1 as (p1 & _ & H1).
    transitivity (set_parser p1 c1); [done|by eapply (tol_read_loop same_actor)].
Qed.

Section session.

Context (lims : pipeline_limits) (Hlims : limits_ok lims).

(** ** The calls *)

Definition call_slots (cl : call) : list (nat * nat) := pair (cl_addr cl) <$> seq 0 (length (cl_types cl)).

Definition call_item (cfg : config) (cl : call) : pending_item :=
  mk_pending_item (cl_request cl) (Some (cl_addr cl)) 0 (deadline_after (cl_now cl) (request_timeout cfg)).

(** The pending response of a call has its types. *)
Definition owns (c : connection) (cl : call) : Prop :=
  exists s, sinks c !! cl_addr cl = Some s /\ sink_types s = cl_types cl /\ sink_wf s.

(** A call makes its pending response and enqueues its request. *)
Lemma begin_call_sink cl c :
  call_ok cl = true ->
  exists s, sink_types s = cl_types cl /\ fresh_for (length (sink_types s)) s /\
    begin_call cl c = enqueue_impl (cl_now cl) (cl_start cl) (cl_request cl) (cl_addr cl)
      (set_pipeline (<[cl_addr cl := s]> (sinks c)) (pipeline_ c) c).
Proof.
  unfold call_ok. intros Hok. bool_prop. unfold begin_call, exec_begin, exec_dynamic_begin, enqueue, enqueue_dynamic. unfold cl_types in *.
  destruct (cl_shape cl) as [types|t].
  - exists (fixed_sink types). assert (sink_types (fixed_sink types) = types) as Hty by (apply (response_builder_new_wf types)).
    rewrite Hty. split; [done|]. split; [by apply fixed_sink_fresh|].
    replace (reply_count (cl_request cl)) with (zlen types) by lia. by rewrite Z.eqb_refl.
  - exists (dynamic_sink t (Z.to_nat (reply_count (cl_request cl)))). split; [done|]. split; [|done].
    cbn. rewrite length_replicate. apply dynamic_sink_fresh.
    destruct (Z.to_nat (reply_count (cl_request cl))); [done|lia].
Qed.

Lemma begin_call_takes cl c hs pend await :
  runs lims hs (sinks c) (pipeline_ c) -> inv (sinks c) (pipeline_ c) pend await -> state_ c = connection_state.OPEN ->
  sinks c !! cl_addr cl = None -> call_ok cl = true -> has_room (cl_request cl) (pipeline_ c) = true ->
  exists c1 s, begin_call cl c = Ret c1 /\ same_engine c c1 /\ write_in_flight_ c1 = write_in_flight_ c /\
    sinks c1 = <[cl_addr cl := s]> (sinks c) /\ sink_types s = cl_types cl /\ sink_wf s /\
    inv (sinks c1) (pipeline_ c1) (pend ++ [call_item (cfg_ c) cl]) await /\
    exists hs1, runs lims hs1 (sinks c1) (pipeline_ c1) /\
      reply_slots hs1 = reply_slots hs ++ call_slots cl /\ replies hs1 = replies hs.
Proof.
  intros Hr Hi Hst Ha Hok Hroom.
  destruct (begin_call_sink cl c Hok) as (s & Hty & Hfr & ->). unfold call_ok in Hok. bool_prop.
  destruct (impl_takes lims (cl_now cl) (cl_start cl) (cl_request cl) (cl_addr cl) s c hs pend await)
    as (c1 & s1 & He & Heng & Hw & Hs & Hr1 & Hi1 & Hty1 & Hwf1); try done; [by rewrite Hty|].
  exists c1, s1. do 4 (split; [done|]). split; [by rewrite Hty1|]. split; [done|]. split; [exact Hi1|].
  eexists. split; [exact Hr1|]. by rewrite Hty.
Qed.

(** Room for a request, from what is queued. *)
Lemma room_for r hs (h : sink_store) (p : conn_pipeline) pend await :
  runs lims hs h p -> inv h p pend await ->
  zlen pend + zlen await < max_requests lims ->
  zlen (unsent pend) + wire_size r <= max_pending_write_bytes lims -> has_room r p = true.
Proof.
  intros Hr Hi Hn Hb. destruct (runs_linked lims hs h p Hlims Hr) as (pend' & await' & Hlk).
  pose proof (lk_limits _ _ _ _ _ _ Hlk) as Hl. unfold has_room, pending_count. rewrite Hl.
  rewrite (q_size_elems _ _ (inv_pend _ _ _ _ Hi)), (q_size_elems _ _ (inv_await _ _ _ _ Hi)), (inv_bytes _ _ _ _ Hi).
  unfold zlen in *. apply andb_true_iff. split; lia.
Qed.

Lemma zlen_unsent_items cfg cls : zlen (unsent (call_item cfg <$> cls)) = total (wire_size ∘ cl_request <$> cls).
Proof.
  induction cls as [|cl cls IH]; [done|]. rewrite !fmap_cons, unsent_cons, zlen_app, IH. cbn [total foldr]. f_equal.
Qed.

Lemma unsent_snoc pend it : unsent (pend ++ [it]) = unsent pend ++ unsent_item it.
Proof. unfold unsent. by rewrite fmap_app, concat_app, fmap_cons, fmap_nil, concat_cons, concat_nil, app_nil_r. Qed.

Lemma fresh_insert (h : sink_store) a s cls :
  a ∉ cl_addr <$> cls -> Forall (fun cl => h !! cl_addr cl = None) cls ->
  Forall (fun cl => <[a := s]> h !! cl_addr cl = None) cls.
Proof.
  intros Hn. rewrite !Forall_forall. intros Hfr cl Hin. rewrite lookup_insert_ne; [by apply Hfr|].
  intros ->. apply Hn. by apply list_elem_of_fmap_2.
Qed.

(** The calls join the queue in order, each with its slots. *)
Lemma begin_calls_take cls : forall c hs pend,
  runs lims hs (sinks c) (pipeline_ c) -> inv (sinks c) (pipeline_ c) pend [] -> state_ c = connection_state.OPEN ->
  NoDup (cl_addr <$> cls) -> Forall (fun cl => sinks c !! cl_addr cl = None) cls -> forallb call_ok cls = true ->
  zlen pend + zlen cls <= max_requests lims ->
  zlen (unsent pend) + total (wire_size ∘ cl_request <$> cls) <= max_pending_write_bytes lims ->
  exists c1, begin_calls cls c = Ret c1 /\ same_engine c c1 /\ write_in_flight_ c1 = write_in_flight_ c /\
    inv (sinks c1) (pipeline_ c1) (pend ++ (call_item (cfg_ c) <$> cls)) [] /\ Forall (owns c1) cls /\
    (forall a, a ∉ cl_addr <$> cls -> sinks c1 !! a = sinks c !! a) /\
    exists hs1, runs lims hs1 (sinks c1) (pipeline_ c1) /\
      reply_slots hs1 = reply_slots hs ++ concat (call_slots <$> cls) /\ replies hs1 = replies hs.
Proof.
  induction cls as [|cl cls IH]; intros c hs pend Hr Hi Hst Hnd Hfr Hok Hn Hb.
  { exists c. rewrite app_nil_r. do 5 (split; [done|]). split; [done|]. exists hs. by rewrite app_nil_r. }
  rewrite fmap_cons in Hnd. rewrite fmap_cons in Hb. apply NoDup_cons in Hnd as [Hnew Hnd]. apply Forall_cons in Hfr as [Ha Hfr].
  cbn [forallb] in Hok. apply andb_true_iff in Hok as [Hcl Hok]. rewrite zlen_cons in Hn. cbn [total foldr] in Hb.
  change (foldr Z.add 0 (wire_size ∘ cl_request <$> cls)) with (total (wire_size ∘ cl_request <$> cls)) in Hb.
  change ((wire_size ∘ cl_request) cl) with (wire_size (cl_request cl)) in Hb.
  assert (0 <= total (wire_size ∘ cl_request <$> cls)) as Htot by (rewrite <- (zlen_unsent_items (cfg_ c)); apply zlen_nonneg).
  destruct (begin_call_takes cl c hs pend [] Hr Hi Hst Ha Hcl) as
    (c1 & s & He & Heng & Hw & Hs & Hty & Hwf & Hi1 & hs1 & Hr1 & Hsl & Hrep).
  { eapply room_for; [exact Hr|exact Hi| |]; [rewrite zlen_nil; pose proof (zlen_nonneg cls); lia|lia]. }
  pose proof Heng as (E1 & _ & _ & _ & _ & E6 & _).
  destruct (IH c1 hs1 (pend ++ [call_item (cfg_ c) cl])) as
    (c2 & He2 & Heng2 & Hw2 & Hi2 & Hown2 & Hsame2 & hs2 & Hr2 & Hsl2 & Hrep2); try done.
  - by rewrite E1.
  - rewrite Hs. by apply fresh_insert.
  - rewrite zlen_app, zlen_cons, zlen_nil. lia.
  - rewrite unsent_snoc, zlen_app. change (zlen (unsent_item (call_item (cfg_ c) cl))) with (wire_size (cl_request cl)). lia.
  - exists c2. cbn [begin_calls]. rewrite He. cbn [mbind run_bind]. split; [done|]. split; [by transitivity c1|].
    split; [by rewrite Hw2|]. rewrite E6 in Hi2. rewrite <- app_assoc in Hi2. split; [done|]. split.
    + constructor; [|done]. exists s. rewrite Hsame2, Hs by done. by split; [apply lookup_insert_eq|].
    + split.
      * intros a Hn2. rewrite fmap_cons, elem_of_cons in Hn2. rewrite Hsame2, Hs, lookup_insert_ne by naive_solver. done.
      * exists hs2. split; [done|]. rewrite Hsl2, Hsl, Hrep2, Hrep, fmap_cons. cbn [concat]. by rewrite app_assoc.
Qed.

(** ** The writes and the reads *)

(** The first request of the queue is handed to the socket. *)
Lemma do_write_begin_first c it its await :
  state_ c = connection_state.OPEN -> stop_ c = false -> write_in_flight_ c = false ->
  inv (sinks c) (pipeline_ c) (it :: its) await ->
  do_write_begin c = Ret (set_in_flight (read_in_flight_ c) true c, Some (unsent_item it)).
Proof.
  intros Hst Hstop Hw Hi. unfold do_write_begin. rewrite Hst, bool_decide_false, Hw by (intros Hx; by apply Hx).
  cbn [negb assert mbind run_bind]. unfold do_write_next. cbn [set_in_flight stop_ state_ pipeline_].
  rewrite Hst, Hstop, bool_decide_true by done. unfold has_pending_write.
  rewrite (front_empty _ _ _ (inv_pend _ _ _ _ Hi)). cbn [negb andb].
  by rewrite (next_write_buffer_eq _ _ _ _ _ Hi).
Qed.

Lemma read_pieces_keeps pieces : forall c c', read_pieces pieces c = Ret c' -> keeps lims c c'.
Proof.
  induction pieces as [|[now bs] pieces IH]; intros c c' H; cbn [read_pieces] in H; [by injection H as ->|].
  apply run_bind_Ret in H as ([c1 asks] & Hb & H). destruct asks; [|done]. apply run_bind_Ret in H as (c2 & He & H).
  transitivity c1; [exact (keeps_read_begin lims _ _ Hb)|].
  transitivity c2; [exact (keeps_read_end lims Hlims _ _ _ _ He)|by apply IH].
Qed.

Lemma owns_kept c c' hs cl :
  keeps lims c c' -> runs lims hs (sinks c) (pipeline_ c) -> owns c cl -> owns c' cl.
Proof.
  intros Hk Hr (s & Hs & Hty & Hwf). destruct (keeps_history _ _ _ Hk hs Hr) as (_ & _ & _ & Hkept).
  destruct (Hkept _ s Hs) as (s' & Hs' & Hty' & Hwf'). exists s'. split; [done|]. split; [by rewrite Hty'|auto].
Qed.

(** ** The answers *)

Lemma end_call_outcome cl c hs l l2 k k2 rs :
  runs lims hs (sinks c) (pipeline_ c) -> owns c cl ->
  reply_slots hs = l ++ call_slots cl ++ l2 -> replies hs = k ++ rs ++ k2 ->
  length k = length l -> length rs = length (cl_types cl) -> end_call cl c = Ret (outcome cl rs).
Proof.
  intros Hr (s & Hs & Hty & Hwf) Hsl Hrep Hkl Hlen.
  assert (wait_result s = Ret (zip_with slot_of (cl_types cl) rs)) as Hw
    by (by eapply (wait_slots lims Hlims _ (cl_addr cl))).
  unfold end_call, outcome, exec_end, exec_dynamic_end. rewrite (deref_at _ _ s Hs).
  destruct (cl_shape cl); cbn [mbind run_bind snd]; rewrite Hw; done.
Qed.

Lemma answers_all c hs : forall cls wss l k,
  runs lims hs (sinks c) (pipeline_ c) -> Forall (owns c) cls ->
  reply_slots hs = l ++ concat (call_slots <$> cls) ->
  replies hs = k ++ (reply_message ∘ denote None <$> concat wss) -> length k = length l ->
  length <$> wss = length ∘ cl_types <$> cls ->
  mapM (fun cl => end_call cl c) cls = Ret (zip_with answer cls wss).
Proof.
  induction cls as [|cl cls IH]; intros wss l k Hr Hown Hsl Hrep Hkl Hlen; [done|].
  destruct wss as [|ws wss]; [done|]. rewrite !fmap_cons in Hlen. injection Hlen as Hl Hlen.
  apply Forall_cons in Hown as [Hcl Hown]. rewrite fmap_cons in Hsl. cbn [concat] in Hsl, Hrep. rewrite fmap_app in Hrep.
  cbn [mapM].
  rewrite (end_call_outcome cl c hs l _ k _ _ Hr Hcl Hsl Hrep Hkl) by (by rewrite length_fmap). cbn [mbind run_bind].
  rewrite (IH wss (l ++ call_slots cl) (k ++ (reply_message ∘ denote None <$> ws))); [done|done|done|..].
  - by rewrite <- app_assoc.
  - by rewrite <- app_assoc.
  - unfold call_slots. rewrite !length_app, !length_fmap, length_seq. unfold compose in Hl. lia.
  - done.
Qed.

Lemma length_call_slots (cls : list call) (wss : list (list wire)) :
  length <$> wss = length ∘ cl_types <$> cls -> length (concat (call_slots <$> cls)) = length (concat wss).
Proof.
  revert wss. induction cls as [|cl cls IH]; intros [|ws wss] H; rewrite ?fmap_cons in H; try done.
  injection H as Hl H. rewrite fmap_cons. cbn [concat]. rewrite !length_app, (IH wss H). unfold call_slots.
  rewrite length_fmap, length_seq. unfold compose in Hl. lia.
Qed.

(** ** One exchange *)

(** The replies are read on a connection that was at rest but for the calls
    that were written. *)
Lemma exchange_read hs hs1 c c3 cls await pieces wss :
  at_rest lims hs c -> same_engine c c3 -> write_in_flight_ c3 = false -> runs lims hs1 (sinks c3) (pipeline_ c3) ->
  reply_slots hs1 = reply_slots hs ++ concat (call_slots <$> cls) -> replies hs1 = replies hs ->
  inv (sinks c3) (pipeline_ c3) [] await -> Forall (owns c3) cls -> length <$> wss = length ∘ cl_types <$> cls ->
  let plims := Parser.limits_ (parser_ c) in
  let ws := concat wss in
  forallb (wf plims) ws = true -> forallb (tidy false) ws = true -> concat pieces.*2 = concat (encode <$> ws) ->
  pieces_ok plims (zlen (buffer_ (buf_ (parser_ c)))) ws 0 pieces = true ->
  exists c' hs', read_pieces pieces c3 = Ret c' /\ mapM (fun cl => end_call cl c') cls = Ret (zip_with answer cls wss) /\
    at_rest lims hs' c' /\ Parser.limits_ (parser_ c') = plims /\
    zlen (buffer_ (buf_ (parser_ c))) <= zlen (buffer_ (buf_ (parser_ c'))) /\
    (forall a, sinks c3 !! a = None -> sinks c' !! a = None).
Proof.
  intros Hrest (E1 & E2 & E3 & E4 & E5 & E6) Hw Hr Hsl Hrep Hi Hown Hlen plims ws Hwf Hti Hcat Hpi.
  pose proof (length_call_slots cls wss Hlen) as Hls. fold ws in Hls. pose proof (rest_replied _ _ _ Hrest) as Hrr.
  assert (length (outstanding (sinks c3) (ai_sink <$> await)) = length ws) as Hout.
  { destruct (runs_linked lims hs1 (sinks c3) (pipeline_ c3) Hlims Hr) as (pend' & await' & Hlk).
    pose proof (lk_inv _ _ _ _ _ _ Hlk) as Hi'. pose proof (lk_open _ _ _ _ _ _ Hlk) as Ho.
    rewrite <- (q_elems_unique _ _ _ (inv_pend _ _ _ _ Hi) (inv_pend _ _ _ _ Hi')) in Ho.
    rewrite <- (q_elems_unique _ _ _ (inv_await _ _ _ _ Hi) (inv_await _ _ _ _ Hi')) in Ho.
    unfold ptrs in Ho. rewrite fmap_nil, app_nil_r in Ho. rewrite <- Ho, Hsl, Hrep, length_drop, length_app. lia. }
  assert (conn_ok c3 [] await) as Hok.
  { constructor; [by rewrite E1, E2, (rest_snapshot _ _ _ Hrest), (rest_open _ _ _ Hrest)|exact Hi|].
    by rewrite E1, (rest_open _ _ _ Hrest). }
  destruct (read_pieces_ok lims pieces c3 [] ws [] await hs1)
    as (c' & await' & Hrp & (H1 & H2 & H3 & H4 & H5) & H6 & H7 & H8 & H9 & Hok' & _); rewrite ?E5; try done.
  - by rewrite E1, (rest_open _ _ _ Hrest).
  - by rewrite E4, (rest_read _ _ _ Hrest).
  - apply (rest_parser _ _ _ Hrest).
  - apply starts_nil.
  - unfold cut_ok. by destruct ws.
  - lia.
  - destruct (after_messages_fields (denote None <$> ws) hs1) as [Hsl5 Hrep5].
    exists c', (after_messages (denote None <$> ws) hs1). split; [done|].
    rewrite Hsl in Hsl5. rewrite Hrep, <- (list_fmap_compose (denote None) reply_message) in Hrep5. split.
    { eapply answers_all; [exact H5| |exact Hsl5|exact Hrep5|exact Hrr|exact Hlen].
      eapply Forall_impl; [exact Hown|]. intros cl. eapply owns_kept; [by eapply read_pieces_keeps|exact Hr]. }
    rewrite E5 in H8, H9. split; [|done]. constructor; try done.
    + by rewrite (ok_snapshot _ _ _ Hok').
    + by rewrite H2, E3, (rest_stop _ _ _ Hrest).
    + by rewrite H3.
    + rewrite Hsl5, Hrep5, !length_app, length_fmap. lia.
Qed.

Definition exchange_addrs (x : exchange) : list nat := cl_addr <$> ex_calls x.

Lemma exchange_sent hs c x :
  at_rest lims hs c -> NoDup (exchange_addrs x) -> (forall a, a ∈ exchange_addrs x -> sinks c !! a = None) ->
  ex_calls x <> [] -> forallb call_ok (ex_calls x) = true -> zlen (ex_calls x) <= max_requests lims ->
  total (wire_size ∘ cl_request <$> ex_calls x) <= max_pending_write_bytes lims ->
  fills (wire_size ∘ cl_request <$> ex_calls x) (ex_sizes x) = true ->
  exists c3 hs2, sent x c = Ret c3 /\ same_engine c c3 /\ write_in_flight_ c3 = false /\
    runs lims hs2 (sinks c3) (pipeline_ c3) /\
    reply_slots hs2 = reply_slots hs ++ concat (call_slots <$> ex_calls x) /\ replies hs2 = replies hs /\
    inv (sinks c3) (pipeline_ c3) [] (awaiting_of ∘ call_item (cfg_ c) <$> ex_calls x) /\ Forall (owns c3) (ex_calls x) /\
    (forall a, a ∉ exchange_addrs x -> sinks c3 !! a = sinks c !! a).
Proof.
  intros Hrest Hnd Hfr Hne Hcl Hn Hb Hf.
  pose proof (nothing_queued lims Hlims hs (sinks c) (pipeline_ c) (rest_runs _ _ _ Hrest) (rest_replied _ _ _ Hrest)) as Hi0.
  destruct (begin_calls_take (ex_calls x) c hs [] (rest_runs _ _ _ Hrest) Hi0 (rest_open _ _ _ Hrest) Hnd)
    as (c1 & He & Heng & Hw & Hi1 & Hown & Hsame & hs1 & Hr1 & Hsl & Hrep); try done.
  { apply Forall_forall. intros cl Hin. apply Hfr. by apply list_elem_of_fmap_2. }
  destruct (ex_calls x) as [|cl cls] eqn:Ecls; [done|]. rewrite <- Ecls in *.
  rewrite app_nil_l in Hi1. pose proof Heng as (E1 & _ & E3 & _).
  assert (call_item (cfg_ c) <$> ex_calls x = call_item (cfg_ c) cl :: (call_item (cfg_ c) <$> cls)) as Hit by (by rewrite Ecls).
  pose proof Hi1 as Hi1'. rewrite Hit in Hi1'.
  rewrite (rest_open _ _ _ Hrest) in E1. rewrite (rest_stop _ _ _ Hrest) in E3. rewrite (rest_write _ _ _ Hrest) in Hw.
  pose proof (do_write_begin_first c1 _ _ _ E1 E3 Hw Hi1') as Hwb. set (c2 := set_in_flight _ true c1) in *.
  destruct (write_chunks_ok lims (ex_written x) (ex_sizes x) c2 hs1 _ _ [] (unsent_item (call_item (cfg_ c) cl)) Hr1 Hi1' E1 E3)
    as (c3 & hs2 & Hwc & Heng3 & Hw3 & Hr3 & Hss & Hsl3 & Hrep3 & Hi3).
  { rewrite <- Hit, <- list_fmap_compose. erewrite list_fmap_ext; [exact Hf|]. intros i y _. unfold left_of, call_item, compose. cbn. lia. }
  exists c3, hs2. split.
  { unfold sent. rewrite He. cbn [mbind run_bind]. rewrite Hwb. cbn [mbind run_bind]. by rewrite Hwc. }
  split; [by transitivity c1|]. split; [done|]. split; [done|]. split; [by rewrite Hsl3|]. split; [by rewrite Hrep3|].
  split; [by rewrite list_fmap_compose, Hit|]. split; [by unfold owns; rewrite Hss|].
  intros a Ha. rewrite Hss. change (sinks c2) with (sinks c1). by apply Hsame.
Qed.

(** From rest to rest. *)
Lemma exchange_answers hs c x wss cap :
  at_rest lims hs c -> NoDup (exchange_addrs x) -> (forall a, a ∈ exchange_addrs x -> sinks c !! a = None) ->
  cap <= zlen (buffer_ (buf_ (parser_ c))) -> exchange_ok lims (Parser.limits_ (parser_ c)) cap x wss = true ->
  exists c' hs', run_exchange x c = Ret (zip_with answer (ex_calls x) wss, c') /\ at_rest lims hs' c' /\
    Parser.limits_ (parser_ c') = Parser.limits_ (parser_ c) /\
    zlen (buffer_ (buf_ (parser_ c))) <= zlen (buffer_ (buf_ (parser_ c'))) /\ same_actor c c' /\
    (forall a, a ∉ exchange_addrs x -> sinks c !! a = None -> sinks c' !! a = None).
Proof.
  intros Hrest Hnd Hfr Hcap Hok. unfold exchange_ok in Hok. rewrite !andb_true_iff, !Z.leb_le in Hok.
  destruct Hok as [[[[[[[[[Hne Hcl] Hn] Hb] Hf] Hlen] Hwf] Hti] Hcat] Hpi]. bool_prop.
  destruct (exchange_sent hs c x) as (c3 & hs2 & Hsent & Heng & Hw & Hr3 & Hsl & Hrep & Hi3 & Hown & Hsame); try done.
  edestruct (exchange_read hs hs2 c c3 (ex_calls x)) as (c' & hs' & Hrp & Hans & Hrest' & Hl & Hle & Hnew);
    [exact Hrest|exact Heng|exact Hw|exact Hr3|exact Hsl|exact Hrep|exact Hi3|exact Hown|exact Hlen|exact Hwf|exact Hti
    |exact Hcat|by eapply pieces_ok_mono|].
  exists c', hs'. split.
  { unfold run_exchange. rewrite Hsent. cbn [mbind run_bind]. rewrite Hrp. cbn [mbind run_bind]. by rewrite Hans. }
  split; [done|]. split; [done|]. split; [done|]. split; [|intros a Ha Hsa; apply Hnew; by rewrite Hsame].
  transitivity c3; [|by eapply read_pieces_actor]. by destruct Heng as (_ & _ & _ & _ & _ & ? & ?).
Qed.

Definition session_addrs (xs : list exchange) : list nat := concat (exchange_addrs <$> xs).

(** A session from rest to rest. *)
Lemma session_answers xs : forall hs c wsss cap,
  at_rest lims hs c -> NoDup (session_addrs xs) -> (forall a, a ∈ session_addrs xs -> sinks c !! a = None) ->
  cap <= zlen (buffer_ (buf_ (parser_ c))) ->
  Forall2 (fun x wss => exchange_ok lims (Parser.limits_ (parser_ c)) cap x wss = true) xs wsss ->
  exists c' hs', session xs c = Ret (zip_with (fun x wss => zip_with answer (ex_calls x) wss) xs wsss, c') /\
    at_rest lims hs' c' /\ (forall a, a ∉ session_addrs xs -> sinks c !! a = None -> sinks c' !! a = None).
Proof.
  induction xs as [|x xs IH]; intros hs c wsss cap Hrest Hnd Hfr Hcap Hok; inversion Hok as [|? wss ? wsss' Hx Hxs]; subst.
  { exists c, hs. by split; [|split]. }
  unfold session_addrs in *. rewrite fmap_cons in *. cbn [concat] in *. apply NoDup_app in Hnd as (Hnd1 & Hdis & Hnd2).
  destruct (exchange_answers hs c x wss cap Hrest Hnd1) as (c1 & hs1 & Hrun & Hrest1 & Hl & Hle & _ & Hnew); try done.
  { intros a Ha. apply Hfr. rewrite elem_of_app. by left. }
  destruct (IH hs1 c1 wsss' cap Hrest1 Hnd2) as (c' & hs' & Hrun' & Hrest' & Hnew'); [|lia|by rewrite Hl|].
  { intros a Ha. apply Hnew; [intros Hin; by apply (Hdis a)|]. apply Hfr. rewrite elem_of_app. by right. }
  exists c', hs'. cbn [session]. rewrite Hrun. cbn [mbind run_bind]. rewrite Hrun'. cbn [mbind run_bind]. split; [done|].
  split; [done|]. intros a Ha. rewrite elem_of_app in Ha. intros Hsa. apply Hnew'; [naive_solver|]. apply Hnew; naive_solver.
Qed.

Lemma rest_connected hs c : at_rest lims hs c -> is_connected c = true.
Proof. intros Hrest. unfold is_connected, connection_get_state. by rewrite (rest_snapshot _ _ _ Hrest), bool_decide_true. Qed.

End session.

(** ** After [connect] *)

(** Connecting does not read or write through the loops, nor end the actor. *)
Definition same_flags (c c' : connection) : Prop :=
  read_in_flight_ c' = read_in_flight_ c /\ write_in_flight_ c' = write_in_flight_ c /\ same_actor c c'.

#[export] Instance same_flags_tolerant : Tolerant same_flags.
Proof.
  constructor; [constructor; try done|done..].
  - split; [done|]. intros c1 c2 c3 (H1 & H2 & H3) (H4 & H5 & H6). split; [|split]; by etrans.
  - intros now k st f t e c _. unfold emit_connection_event. by destruct (negb _).
  - intros now c. unfold connect_succeeded, emit_connection_event. by destruct (negb _).
  - intros now err c c' H. unfold clear_pipeline in H. run_inv. done.
Qed.

Section connected.

Context (other : string -> Z -> string) {endpoint : Type}.

Lemma tol_connect_with (R : connection -> connection -> Prop) `{!Tolerant R} now l :
  (forall c c', R c c' -> cfg_ c' = cfg_ c) ->
  forall cp cp', config_fits (cfg_ cp.1) -> Forall (fun i => forall c, input_sane i c) l ->
  connect_with (endpoint:=endpoint) other now l cp = Some (Ret cp') -> R cp.1 cp'.1.
Proof.
  intros Hcfg. induction l as [|i l IH]; intros cp cp' Hfit Hl H; cbn [connect_with] in H; [by injection H as <-|].
  apply Forall_cons in Hl as [Hi Hl]. destruct (do_connect_resume other now cp.2 i cp.1) as [[cp1|]|] eqn:E; try done.
  apply (tol_do_connect R) in E; [|done|done]. transitivity cp1.1; [done|].
  apply IH; [by rewrite (Hcfg _ _ E)|done|done].
Qed.

(** What a [do_connect] keeps that finds an endpoint at once. *)
Lemma tol_connect_first (R : connection -> connection -> Prop) `{!Tolerant R} now ep rest a addr l c0 cp' :
  (forall c c', R c c' -> cfg_ c' = cfg_ c) ->
  config_fits (cfg_ c0) -> stop_ c0 = false -> sinks c0 !! addr = None -> Forall (fun i => forall c, input_sane i c) l ->
  connect_with other now ([in_resolved (Val (ep :: rest)); in_attempt a addr] ++ l)
    (do_connect_begin (endpoint:=endpoint) c0) = Some (Ret cp') -> R c0 cp'.1.
Proof.
  intros Hcfg Hfit Hstop Ha Hl H. unfold do_connect_begin in H. rewrite Hstop in H.
  cbn [app connect_with do_connect_resume on_resolved fst snd] in H. cbn [stop_ set_parser] in H. rewrite Hstop, close_socket_eq in H.
  set (c1 := set_socket false _) in H.
  assert (R c0 c1) as H1 by (etransitivity; [apply (tol_parser (parser_reset (parser_ c0)))|apply tol_socket]).
  transitivity c1; [exact H1|]. cbn [connect_with fst snd] in H.
  destruct (do_connect_resume other now (at_connect ep rest) (in_attempt a addr) c1) as [[cp1|]|] eqn:E; try done.
  apply (tol_do_connect R) in E; [|done|done]. transitivity cp1.1; [done|].
  by eapply (tol_connect_with R); [exact Hcfg|by rewrite (Hcfg _ _ E)|exact Hl|].
Qed.

(** A connection that [do_connect] has opened is at rest. *)
Lemma opened_rest lims hs c0 c :
  limits_ok lims -> opened c0 c -> runs lims hs (sinks c) (pipeline_ c) ->
  read_in_flight_ c = false -> write_in_flight_ c = false -> at_rest lims hs c.
Proof.
  intros Hlims (_ & Hst & Hstop & _ & _ & _ & Hn & Hp & Hd & H0 & _) Hr Hrf Hwf.
  constructor; try done.
  - by rewrite (ok_snapshot _ _ _ Hn).
  - destruct (runs_linked lims hs (sinks c) (pipeline_ c) Hlims Hr) as (pend & await & Hlk).
    pose proof (lk_inv _ _ _ _ _ _ Hlk) as Hi. pose proof (lk_open _ _ _ _ _ _ Hlk) as Ho.
    rewrite <- (q_elems_unique _ _ _ (inv_pend _ _ _ _ (ok_inv _ _ _ Hn)) (inv_pend _ _ _ _ Hi)) in Ho.
    rewrite <- (q_elems_unique _ _ _ (inv_await _ _ _ _ (ok_inv _ _ _ Hn)) (inv_await _ _ _ _ Hi)) in Ho.
    apply (f_equal length) in Ho. rewrite length_drop in Ho. pose proof (lk_len _ _ _ _ _ _ Hlk). simpl in Ho. lia.
  - exists (parser_ c). by repeat (split; [done|]); left.
Qed.

Lemma rest_notify lims hs w r k c : at_rest lims hs c -> at_rest lims hs (notify w r k c).
Proof. intros []. by constructor. Qed.

Lemma fresh_ready cfg :
  config_fits cfg -> 0 <= max_pending_write_bytes (queue_limits cfg) <= u64_max ->
  ready_to_connect (set_state connection_state.CONNECTING (set_actor true 0 (connection_new cfg))).
Proof.
  intros Hfit Hl. split; [by left|]. split; [exact Hfit|]. split; [done|]. split.
  - destruct (conn_ok_new cfg Hl) as [_ Hi _]. by constructor.
  - destruct (parser_new_inv (resp_limits cfg)) as [[Hwf _] Hsm]. done.
Qed.

(** A configuration with which the client works. *)
Definition usable (cfg : config) : Prop :=
  config_fits cfg /\ limits_ok (queue_limits cfg) /\ 0 < max_requests (queue_limits cfg) /\
  wire_size (request_of (handshake_commands cfg)) <= max_pending_write_bytes (queue_limits cfg).

(** Replies to the handshake that come in one read. *)
Definition hello_ok (cfg : config) (ws : list wire) : bool :=
  (length ws =? length (handshake_commands cfg))%nat && forallb (wf (resp_limits cfg)) ws && forallb (tidy false) ws &&
  (zlen (concat (encode <$> ws)) <=? prepare_default).

(** A client that [connect] has moved to [CONNECTING]. *)
Definition connecting (cfg : config) : connection :=
  set_state connection_state.CONNECTING (set_actor true 0 (client_new cfg)).

(** What a resolver with an answer, a socket that connects and writes and a
    server with some replies bring to [do_connect]. *)
Definition greeting (cfg : config) (addr : nat) (ep : endpoint) (rest : list endpoint) (ws : list wire) :
    list (connect_input endpoint) :=
  [in_resolved (Val (ep :: rest)); in_attempt (attempt_ok None None) addr;
   in_written (Val (zlen (wire_ (request_of (handshake_commands cfg))))); in_read (Val (concat (encode <$> ws)))] ++ joins cfg.

Lemma client_connects cfg now addr ep rest ws :
  usable cfg -> hello_ok cfg ws = true ->
  exists c1, connect_with other now (greeting cfg addr ep rest ws) (do_connect_begin (connecting cfg)) =
      Some (Ret (c1, finished (verdict ws))) /\ same_actor (connecting cfg) c1 /\
    match verdict ws with
    | Val _ => exists hs, at_rest (queue_limits cfg) hs c1 /\ Parser.limits_ (parser_ c1) = resp_limits cfg
    | Unexpected _ => nothing_pending c1 /\ state_ c1 = connection_state.CONNECTING
    end.
Proof.
  intros (Hfit & Hlims & Hreq & Hroom) Hws. unfold hello_ok in Hws. bool_prop.
  set (c0 := connecting cfg). assert (ready_to_connect c0) as Hready by (apply fresh_ready; [done|apply Hlims]).
  destruct (handshake_verdict other c0 Hready now addr ep rest ws) as (c1 & Hrun & Hop); try done.
  { unfold has_room. apply andb_true_iff. split; [by apply Z.ltb_lt|by apply Z.leb_le]. }
  assert (forall R : connection -> connection -> Prop, Tolerant R -> (forall c c', R c c' -> cfg_ c' = cfg_ c) -> R c0 c1) as Htol.
  { intros R HR Hcfg. change c1 with (c1, finished (endpoint:=endpoint) (verdict ws)).1.
    eapply (tol_connect_first R); [exact Hcfg|exact Hfit|done| | |exact Hrun]; [done|].
    constructor; [intros c; apply zlen_nonneg|]. constructor; [done|]. unfold joins.
    destruct (request_timeout (cfg_ c0)), (connect_timeout (cfg_ c0)); by repeat constructor. }
  destruct (Htol same_flags _) as (Hrf & Hwf' & Hact); [by intros c c' (_ & _ & _ & ?)|].
  exists c1. split; [exact Hrun|]. split; [done|]. unfold decided in Hop.
  destruct (verdict ws); [|by destruct Hop as ((_ & Hst & _) & Hn)].
  destruct (keeps_history _ _ _ (Htol (keeps (queue_limits cfg)) (keeps_tolerant _ Hlims) (keeps_cfg _)) history_new)
    as (hs & Hr & _); [constructor|].
  exists hs. split; [|by destruct Hop as (_ & _ & _ & _ & _ & _ & _ & _ & _ & _ & ->)].
  exact (opened_rest (queue_limits cfg) hs c0 c1 Hlims Hop Hr Hrf Hwf').
Qed.

(** ** Theorems *)

(** C7: a client from [connect] to the answers.  A new client with a
    configuration that fits connects to a server that accepts it and answers
    the handshake without an error, the request in one write and the replies in
    one read of at most 4096 bytes.  From then on, whatever calls are made
    ([exec] and [exec_dynamic], one after the other and several at once, within
    the limits of the queue), in whatever pieces the socket takes the requests,
    every call returns one slot per command, holding the reply to this command
    read at the type asked for, and the client stays connected.  The replies
    are values of RESP3 whose nested values come first ([tidy]); each read fits
    the span of [prepare]; a flat reply with lines below the limit may be cut
    anywhere, any other reply arrives whole ([exchange_ok], [pieces_ok] with
    capacity 0). *)
Theorem client_session cfg now addr ep rest ws :
  let hello := request_of (handshake_commands cfg) in
  config_fits cfg -> limits_ok (queue_limits cfg) ->
  0 < max_requests (queue_limits cfg) -> wire_size hello <= max_pending_write_bytes (queue_limits cfg) ->
  length ws = length (handshake_commands cfg) ->
  forallb (wf (resp_limits cfg)) ws = true -> forallb (tidy false) ws = true ->
  zlen (concat (encode <$> ws)) <= prepare_default -> verdict ws = Val tt ->
  exists c0 c1 c2, connect_begin (client_new cfg) = Ret (c0, None) /\
    connect_with (endpoint:=endpoint) other now
      ([in_resolved (Val (ep :: rest)); in_attempt (attempt_ok None None) addr;
        in_written (Val (zlen (wire_ hello))); in_read (Val (concat (encode <$> ws)))] ++ joins cfg)
      (do_connect_begin c0) = Some (Ret (c1, finished (Val tt))) /\
    connect_end now (Val tt) c1 = Ret (c2, false) /\ is_connected c2 = true /\
    forall xs wsss,
      NoDup (session_addrs xs) -> (forall a, a ∈ session_addrs xs -> sinks c2 !! a = None) ->
      Forall2 (fun x wss => exchange_ok (queue_limits cfg) (resp_limits cfg) 0 x wss = true) xs wsss ->
      exists c3, session xs c2 = Ret (zip_with (fun x wss => zip_with answer (ex_calls x) wss) xs wsss, c3) /\
        is_connected c3 = true.
Proof.
  intros hello Hfit Hlims Hreq Hroom Hlen Hwf Hti Hsz Hv.
  destruct (client_connects cfg now addr ep rest ws) as (c1 & Hrun & _ & Hc); [done| |].
  { unfold hello_ok. rewrite !andb_true_iff, Z.leb_le. repeat split; try done. by apply Nat.eqb_eq. }
  rewrite Hv in Hrun, Hc. destruct Hc as (hs & Hrest & Hl). pose proof (rest_open _ _ _ Hrest) as Hst.
  apply (rest_notify _ _ true true true) in Hrest. set (c2 := notify true true true c1) in Hrest.
  exists (connecting cfg), c1, c2. split; [done|]. split; [done|]. split; [by unfold connect_end; rewrite Hst|].
  split; [by eapply rest_connected|]. intros xs wsss Hnd Hfr Hxs.
  destruct (session_answers (queue_limits cfg) Hlims xs hs c2 wsss 0 Hrest Hnd Hfr) as (c3 & hs' & Hs & Hrest3 & _).
  - apply zlen_nonneg.
  - change (Parser.limits_ (parser_ c2)) with (Parser.limits_ (parser_ c1)). by rewrite Hl.
  - exists c3. split; [done|]. by eapply rest_connected.
Qed.

End connected.

(** Two calls at the same time, then a third: the socket takes the requests in
    four pieces, and the three short replies arrive in five, cut inside a
    header, a payload and a line end. *)
Definition demo_calls : list call :=
  [mk_call (shape_exec [TString; TInt true 64])
     (request_of [[s2b "GET"; s2b "k"]; [s2b "INCR"; s2b "n"]]) 1 20 20;
   mk_call (shape_dynamic TString) (request_of [[s2b "PING"]]) 2 21 21].

Definition demo_replies : list (list wire) :=
  [[Leaf (SBulk kind.bulk_string (s2b "2") (s2b "hi")); Leaf (SLine kind.integer (s2b "42"))];
   [Leaf (SLine kind.simple_string (s2b "PONG"))]].

Definition demo_list : wire :=
  Agg kind.array (s2b "2") [Leaf (SBulk kind.bulk_string (s2b "1") (s2b "a")); Leaf (SBulk kind.bulk_string (s2b "1") (s2b "b"))].

Definition demo_session : list exchange :=
  [mk_exchange demo_calls 22 [5; 20; 16; 14]
     [(23, s2b "$"); (24, s2b "2" ++ crlf ++ s2b "h"); (25, s2b "i" ++ take 1 crlf);
      (26, drop 1 crlf ++ s2b ":42" ++ take 1 crlf); (27, drop 1 crlf ++ s2b "+PONG" ++ crlf)];
   mk_exchange [mk_call (shape_exec [TSequence TString]) (request_of [[s2b "LRANGE"; s2b "l"]]) 3 30 30] 31 [23]
     [(32, encode demo_list)]].

Lemma demo_fresh :
  match connect_with no_message 7
      ([in_resolved (Val [0%nat; 1%nat]); in_attempt (attempt_ok None None) 0;
        in_written (Val (zlen (wire_ (request_of (handshake_commands default_config)))));
        in_read (Val (concat (encode <$> [hello_reply])))] ++ joins default_config)
      (do_connect_begin fresh_connection) with
  | Some (Ret (c1, _)) => forallb (fun a => bool_decide (sinks c1 !! a = None)) (session_addrs demo_session) = true
  | _ => False
  end.
Proof. vm_compute. reflexivity. Qed.

Lemma client_session_witness :
  exists c2 c3, is_connected c2 = true /\ session demo_session c2 =
    Ret ([[inl (mk_response [TString; TInt true 64] [Val (VString (s2b "hi")); Val (VInt 42)]);
           inr (mk_dynamic_response [Val (VString (s2b "PONG"))])];
          [inl (mk_response [TSequence TString] [Val (VSequence [VString (s2b "a"); VString (s2b "b")])])]], c3).
Proof.
  destruct (client_session no_message default_config 7 0 0%nat [1%nat] [hello_reply])
    as (c0 & c1 & c2 & H0 & H1 & H2 & Hcon & Hs).
  - by vm_compute.
  - vm_compute. split; [|split]; congruence.
  - vm_compute. reflexivity.
  - vm_compute. discriminate.
  - reflexivity.
  - vm_compute. reflexivity.
  - vm_compute. reflexivity.
  - vm_compute. discriminate.
  - vm_compute. reflexivity.
  - destruct (Hs demo_session [demo_replies; [[demo_list]]]) as (c3 & Hrun & _).
    + apply (bool_decide_unpack _). vm_compute. exact I.
    + change (connect_begin (client_new default_config)) with (Ret (fresh_connection, None (A := expected unit error_info))) in H0.
      injection H0 as <-. pose proof demo_fresh as Hf. rewrite H1 in Hf.
      unfold connect_end in H2. apply run_bind_Ret in H2 as (? & _ & [= <-]).
      intros a Ha. rewrite forallb_forall in Hf. specialize (Hf a). rewrite <- list_elem_of_In in Hf.
      exact (bool_decide_eq_true_1 _ (Hf Ha)).
    + unfold demo_session. constructor; [vm_compute; reflexivity|]. constructor; [vm_compute; reflexivity|constructor].
    + exists c2, c3. split; [exact Hcon|]. rewrite Hrun. vm_compute. reflexivity.
Defined.
