(* ===== verification/Program.v ===== *)
(** * Programs that use a client

    A program is a coroutine that prints and awaits the operations of one
    client.  [task] is its syntax, a free monad over [op]; [run_task] runs it on
    the model of the connection, one operation after the other, with what the
    resolver, the socket, the server and the clock do given as [turn]s;
    [says] tells what it prints from these turns alone, for the courses of
    events that it describes.
    [program_runs]: the first does what the second says. *)

From S2P Require Import Prelude Kind Errors Charconv Buffer Message Parser Builder Adapter.
From S2P Require Import ParserInv ParserSafety ParserViews Wire WireParse ParserResume ParserPrefix.
From S2P Require Import Request RingQueue ResponseSink Response Pipeline PipelineSpec Config Connection Connect.
From S2P Require Import ConnectionSpec ReadSpec ConnectSpec Tolerant Strand Client ConnectTheorems Session.

(** ** Syntax *)

(** [std::cout] and [std::cerr]. *)
Inductive stream : Set := cout | cerr.
Abbreviation output := (list (stream * bytes)).

(** The operations of a client that are awaited. *)
Inductive op : Type -> Type :=
| op_connect : op (expected unit error_info)
| op_exec (types : list ty) (r : request) : op response
| op_exec_args (t : ty) (cmd : bytes) (args : list arg) : op response
| op_exec_dynamic (t : ty) (r : request) : op dynamic_response
| op_close : op unit.

Inductive task (A : Type) : Type :=
| co_return (a : A)
| co_print (s : stream) (text : bytes) (k : task A)
| co_await {X : Type} (o : op X) (k : X -> task A)
| co_fault (f : fault).
Arguments co_return {A} a.
Arguments co_print {A} s text k.
Arguments co_await {A X} o k.
Arguments co_fault {A} f.

#[export] Instance task_ret : MRet task := fun A a => co_return a.

Fixpoint task_bind_ {A B} (f : A -> task B) (t : task A) : task B :=
  match t with
  | co_return a => f a
  | co_print s b k => co_print s b (task_bind_ f k)
  | co_await o k => co_await o (fun x => task_bind_ f (k x))
  | co_fault e => co_fault e
  end.
#[export] Instance task_bind : MBind task := fun A B => task_bind_.

(** [co_await c.op(...)], [stream << text], and a computation that may fault. *)
Definition await {X} (o : op X) : task X := co_await o co_return.
Definition print (s : stream) (text : bytes) : task unit := co_print s text (co_return ()).
Definition eval {A} (m : run A) : task A :=
  match m with Ret a => co_return a | Fault f => co_fault f end.

(** ** Runs *)

Section runs.

Context (other : string -> Z -> string) {endpoint : Type}.

(** What happens while an operation is awaited, with the times at which it
    does: a connection attempt with the replies [ws] to the handshake, or one
    that reaches no server, because the resolver or every endpoint fails (both
    with the three times of the [close] that follows a failure); a call that is
    written in some sizes and answered in some pieces, which encode [ws]; a call
    that is written and whose deadline passes; a call that is written and whose
    connection is then lost, the read that waits for its replies finding the
    end of the stream or an error; a call that is refused; the end of the actor
    after [close]. *)
Inductive turn : Type :=
| turn_connect (now : Z) (ep : endpoint) (rest : list endpoint) (ws : list wire) (t1 t2 t3 : Z)
| turn_unreachable (now : Z) (r : expected (list (endpoint * attempt)) io_error) (t1 t2 t3 : Z)
| turn_answer (now start written : Z) (sizes : list Z) (pieces : list (Z * bytes)) (ws : list wire)
| turn_expire (now start written : Z) (sizes : list Z) (t : Z)
| turn_lose (now start written : Z) (sizes : list Z) (e : option io_error) (t : Z)
| turn_refuse (now start : Z)
| turn_close (t1 t2 t3 : Z).

(** What the resolver and the endpoints answer to [do_connect] then. *)
Definition deaf (addr : nat) (r : expected (list (endpoint * attempt)) io_error) : list (connect_input endpoint) :=
  match r with
  | Unexpected e => [in_resolved (Unexpected e)]
  | Val l => in_resolved (Val l.*1) :: ((fun x : endpoint * attempt => in_attempt x.2 addr) <$> l)
  end.

(** The address of the next pending response. *)
Definition new_addr (c : connection) : nat := fresh (dom (D := gset nat) (sinks c)).

Definition loops_exit (now : Z) (c : connection) : bool :=
  match write_loop_head c, read_loop_head c, control_turn now c with
  | loop_exit, loop_exit, Ret (_, control_exit) => true
  | _, _, _ => false
  end.

(** [close()]: the loops end, the actor completes, the wait returns.  [None]
    when it waits forever. *)
Definition close_client (t1 t2 t3 : Z) (c : connection) : run (option connection) :=
  '(c1, w) ← close_begin t1 c;
  match w with
  | None => Ret (Some c1)
  | Some false => _ ← close_end c1; Ret (Some c1)
  | Some true =>
    if loops_exit t2 c1 then
      c2 ← actor_loop_end t2 c1;
      c3 ← actor_completed t3 None c2;
      _ ← close_end c3;
      Ret (Some c3)
    else Ret None
  end.

(** [connect()], and [close()] when it fails; [ins] is what [do_connect] meets. *)
Definition connect_client (now : Z) (ins : connection -> list (connect_input endpoint)) (t1 t2 t3 : Z)
    (c : connection) : run (option (expected unit error_info * connection)) :=
  '(c0, early) ← connect_begin c;
  match early with
  | Some res => Ret (Some (res, c0))
  | None =>
    match connect_with other now (ins c0) (do_connect_begin c0) with
    | Some (Ret (c1, finished res)) =>
      '(c2, closes) ← connect_end now res c1;
      match closes with
      | true => o ← close_client t1 t2 t3 c2; Ret (c3 ← o; Some (res, c3))
      | false => Ret (Some (res, c2))
      end
    | Some (Fault f) => Fault f
    | _ => Ret None
    end
  end.

(** One call, see [run_exchange]; a call that expires is failed by the control
    loop, which then, without reconnection, shuts the connection down; a call
    whose connection is lost is failed by the reader, and the control loop shuts
    the connection down; a call that is refused is ready at once. *)
Definition exec_client (sh : call_shape) (r : request) (tn : turn) (c : connection) :
    run (option ((response + dynamic_response) * connection)) :=
  match tn with
  | turn_answer now start written sizes pieces _ =>
    '(rs, c1) ← run_exchange (mk_exchange [mk_call sh r (new_addr c) now start] written sizes pieces) c;
    Ret (match rs with [x] => Some (x, c1) | _ => None end)
  | turn_expire now start written sizes t =>
    let cl := mk_call sh r (new_addr c) now start in
    c1 ← sent (mk_exchange [cl] written sizes []) c;
    '(c2, act) ← control_turn t c1;
    match act with
    | control_continue =>
      '(c3, act1) ← control_turn t c2;
      match act1 with
      | control_continue => x ← end_call cl c3; Ret (Some (x, c3))
      | _ => Ret None
      end
    | _ => Ret None
    end
  | turn_lose now start written sizes e t =>
    let cl := mk_call sh r (new_addr c) now start in
    c1 ← sent (mk_exchange [cl] written sizes []) c;
    '(c2, asks) ← do_read_begin c1;
    match asks with
    | true =>
      c3 ← do_read_end t (match e with Some e => Unexpected e | None => Val [] end) c2;
      '(c4, act) ← control_turn t c3;
      match act with
      | control_continue => x ← end_call cl c4; Ret (Some (x, c4))
      | _ => Ret None
      end
    | false => Ret None
    end
  | turn_refuse now start =>
    let cl := mk_call sh r (new_addr c) now start in
    c1 ← begin_call cl c;
    if exec_ready (cl_addr cl) c1 then x ← end_call cl c1; Ret (Some (x, c1)) else Ret None
  | _ => Ret None
  end.

Definition left_result (o : option ((response + dynamic_response) * connection)) : option (response * connection) :=
  match o with Some (inl x, c) => Some (x, c) | _ => None end.
Definition right_result (o : option ((response + dynamic_response) * connection)) : option (dynamic_response * connection) :=
  match o with Some (inr x, c) => Some (x, c) | _ => None end.

(** One operation of the client. *)
Definition step_client {X} (o : op X) (tn : turn) (c : connection) : run (option (X * connection)) :=
  match o in op X return run (option (X * connection)) with
  | op_connect =>
    match tn with
    | turn_connect now ep rest ws t1 t2 t3 =>
      connect_client now (fun c0 => greeting (cfg_ c0) (new_addr c0) ep rest ws) t1 t2 t3 c
    | turn_unreachable now r t1 t2 t3 => connect_client now (fun c0 => deaf (new_addr c0) r) t1 t2 t3 c
    | _ => Ret None
    end
  | op_exec types r => x ← exec_client (shape_exec types) r tn c; Ret (left_result x)
  | op_exec_args t cmd args =>
    r ← braced_request cmd args;
    x ← exec_client (shape_exec [t]) r tn c;
    Ret (left_result x)
  | op_exec_dynamic t r => x ← exec_client (shape_dynamic t) r tn c; Ret (right_result x)
  | op_close =>
    match tn with
    | turn_close t1 t2 t3 => x ← close_client t1 t2 t3 c; Ret (c1 ← x; Some ((), c1))
    | _ => Ret None
    end
  end.

(** A program runs while the turns fit what it awaits. *)
Fixpoint run_task {A} (t : task A) (tns : list turn) (c : connection) : run (option (output * A * connection)) :=
  match t with
  | co_return a => Ret (Some ([], a, c))
  | co_print s b k =>
    r ← run_task k tns c;
    Ret (match r with Some (out, a, c') => Some ((s, b) :: out, a, c') | None => None end)
  | co_await o k =>
    match tns with
    | [] => Ret None
    | tn :: tns' =>
      r ← step_client o tn c;
      match r with Some (x, c1) => run_task (k x) tns' c1 | None => Ret None end
    end
  | co_fault f => Fault f
  end.

(** ** What a program says *)

(** A client: new, connected, lost (a request expired or the connection was
    lost), closed. *)
Inductive phase : Set := ph_new | ph_open | ph_lost | ph_closed.

Context (cfg : config).

(** The results of a call whose commands all fail. *)
Definition failure (cl : call) (err : client_errc) : response + dynamic_response :=
  outcome cl (replicate (length (cl_types cl)) (reply_error (client_error err))).

(** A call that can be written, of a client that does not reconnect. *)
Definition one_shot (sh : call_shape) (r : request) (now start : Z) (sizes : list Z) : bool :=
  negb (enabled (reconnection cfg)) && call_ok (mk_call sh r 0 now start) && (1 <=? max_requests (queue_limits cfg)) &&
  (wire_size r <=? max_pending_write_bytes (queue_limits cfg)) && fills [wire_size r] sizes.

(** When a call expires. *)
Definition expires (sh : call_shape) (r : request) (now start : Z) (sizes : list Z) (t : Z) : bool :=
  let dl := deadline_after now (request_timeout cfg) in
  bool_decide (is_Some (request_timeout cfg)) && (dl <? time_max) && (dl <=? t) && one_shot sh r now start sizes.

(** The error of a connection that is lost. *)
Definition lost_error (e : option io_error) : client_errc :=
  match e with Some _ => client_errc.connection_lost | None => client_errc.connection_reset end.

(** How an attempt to connect to an endpoint fails. *)
Definition attempt_error (a : attempt) : option io_error :=
  match a with
  | attempt_failed e _ | attempt_ok (Some e) _ | attempt_ok None (Some e) => Some e
  | attempt_ok None None => None
  end.

(** The error of a [connect] that reaches no server: that of the resolver, or
    that of the last endpoint. *)
Definition unreachable_error (r : expected (list (endpoint * attempt)) io_error) : option error_info :=
  match r with
  | Unexpected io_timed_out => Some (client_error client_errc.resolve_timeout)
  | Unexpected io_operation_aborted => Some (client_error client_errc.operation_aborted)
  | Unexpected (io_other _) | Val [] => Some (client_error client_errc.resolve_failed)
  | Val l =>
    if forallb (fun x => bool_decide (is_Some (attempt_error x.2))) l then
      match last l ≫= (fun x => attempt_error x.2) with
      | Some io_timed_out => Some (client_error client_errc.connect_timeout)
      | Some io_operation_aborted => Some (client_error client_errc.operation_aborted)
      | Some (io_other m) => Some (client_error_with client_errc.connect_failed m)
      | None => None
      end
    else None
  end.

(** A call at a time when the client is connected. *)
Definition call_result (sh : call_shape) (r : request) (tn : turn) : option ((response + dynamic_response) * phase) :=
  match tn with
  | turn_answer now start written sizes pieces ws =>
    let cl := mk_call sh r 0 now start in
    if exchange_ok (queue_limits cfg) (resp_limits cfg) 0 (mk_exchange [cl] written sizes pieces) [ws]
    then Some (answer cl ws, ph_open) else None
  | turn_expire now start written sizes t =>
    if expires sh r now start sizes t
    then Some (failure (mk_call sh r 0 now start) client_errc.request_timeout, ph_lost) else None
  | turn_lose now start written sizes e t =>
    if one_shot sh r now start sizes
    then Some (failure (mk_call sh r 0 now start) (lost_error e), ph_lost) else None
  | _ => None
  end.

Definition exec_result (sh : call_shape) (r : request) (tn : turn) (ph : phase) :
    option ((response + dynamic_response) * phase) :=
  match ph, tn with
  | ph_open, _ => call_result sh r tn
  | (ph_lost | ph_closed), turn_refuse now start =>
    let cl := mk_call sh r 0 now start in
    if call_ok cl then Some (failure cl client_errc.connection_closed, ph) else None
  | _, _ => None
  end.

Definition fixed_result (o : option ((response + dynamic_response) * phase)) : option (response * phase) :=
  match o with Some (inl x, ph) => Some (x, ph) | _ => None end.

Definition step_result {X} (o : op X) (tn : turn) (ph : phase) : option (X * phase) :=
  match o in op X return option (X * phase) with
  | op_connect =>
    match ph, tn with
    | ph_new, turn_connect _ _ _ ws _ _ _ =>
      if hello_ok cfg ws
      then Some (verdict ws, match verdict ws with Val _ => ph_open | Unexpected _ => ph_closed end) else None
    | ph_new, turn_unreachable _ r _ _ _ => err ← unreachable_error r; Some (Unexpected err, ph_closed)
    | _, _ => None
    end
  | op_exec types r => fixed_result (exec_result (shape_exec types) r tn ph)
  | op_exec_args t cmd args =>
    match braced_request cmd args with
    | Ret r => fixed_result (exec_result (shape_exec [t]) r tn ph)
    | Fault _ => None
    end
  | op_exec_dynamic t r =>
    match exec_result (shape_dynamic t) r tn ph with Some (inr x, ph') => Some (x, ph') | _ => None end
  | op_close =>
    match ph, tn with
    | ph_new, _ => None
    | _, turn_close _ _ _ => Some ((), ph_closed)
    | _, _ => None
    end
  end.

Fixpoint says {A} (t : task A) (tns : list turn) (ph : phase) : option (output * A * phase) :=
  match t with
  | co_return a => Some ([], a, ph)
  | co_print s b k =>
    match says k tns ph with Some (out, a, ph') => Some ((s, b) :: out, a, ph') | None => None end
  | co_await o k =>
    match tns with
    | [] => None
    | tn :: tns' => match step_result o tn ph with Some (x, ph') => says (k x) tns' ph' | None => None end
    end
  | co_fault _ => None
  end.

(** The connection of a client in a phase. *)
Definition phase_of (ph : phase) (c : connection) : Prop :=
  match ph with
  | ph_new => c = client_new cfg
  | ph_open =>
    (exists hs, at_rest (queue_limits cfg) hs c) /\ Parser.limits_ (parser_ c) = resp_limits cfg /\ same_actor (connecting cfg) c
  | ph_lost => nothing_pending c /\ state_ c = connection_state.CLOSING /\ stop_ c = true /\ actor_running_ c = true
  | ph_closed => nothing_pending c /\ state_ c = connection_state.CLOSED /\ actor_running_ c = false
  end.

(** ** Operations *)

Lemma new_addr_fresh c : sinks c !! new_addr c = None.
Proof. apply (not_elem_of_dom_1 (D := gset nat)). unfold new_addr. apply is_fresh. Qed.

Lemma close_client_ok t1 t2 t3 c pend await_ :
  conn_ok c pend await_ -> state_ c <> connection_state.CLOSED -> actor_running_ c = true ->
  exists c', close_client t1 t2 t3 c = Ret (Some c') /\ phase_of ph_closed c'.
Proof.
  intros Hok Hst Hrun.
  destruct (close_begin_ok t1 c pend await_ Hok Hst) as (c1 & Hc & Hn1 & Hst1 & Hstop & _ & Hrun1 & _).
  destruct (transition_to_closed_ok t2 c1 [] [] Hn1) as (c2 & Ht & Hn2 & Hst2 & _).
  unfold close_client. rewrite Hc, Hrun. cbn [mbind run_bind].
  assert (loops_exit t2 c1 = true) as ->
    by (unfold loops_exit, write_loop_head, read_loop_head, control_turn; by rewrite Hstop).
  unfold actor_loop_end, actor_completed, close_end. rewrite Ht. cbn [mbind run_bind set_actor state_].
  rewrite bool_decide_false by (intros E; by apply E). cbn [mbind run_bind]. eexists.
  cbn [set_actor state_]. rewrite bool_decide_true by done. split; [done|]. split; [|done]. by destruct Hn2; constructor.
Qed.

(** A runtime error ends what is pending. *)
Lemma handle_error_clears now err c c' :
  state_ c = connection_state.OPEN -> handle_error now err c = Ret c' ->
  clear_all now err (sinks c) (pipeline_ c) = Ret (sinks c', pipeline_ c').
Proof.
  intros Hst H. unfold handle_error in H. rewrite Hst in H. unfold clear_pipeline in H. run_inv.
  destruct (emit_event_fields now ev_disconnected stage_runtime_io (Some connection_state.OPEN)
    (Some connection_state.FAILED) err (set_state connection_state.FAILED c)) as (_ & _ & E3 & E4 & _).
  rewrite close_socket_eq. cbn [notify set_socket set_pipeline sinks pipeline_].
  match goal with H : clear_all _ _ _ _ = Ret ?x |- _ => rewrite E3, E4 in H; etransitivity; [exact H|by destruct x] end.
Qed.

(** A call that was written, and a runtime error: the call fails with the error,
    and the next turn of the control loop shuts the connection down. *)
Lemma failed_call lims hs hs2 c c3 cl t err r w :
  limits_ok lims -> at_rest lims hs c -> runs lims hs2 (sinks c3) (pipeline_ c3) ->
  state_ c3 = connection_state.OPEN -> state_snapshot_ c3 = connection_state.OPEN -> stop_ c3 = false -> cfg_ c3 = cfg_ c ->
  reply_slots hs2 = reply_slots hs ++ call_slots cl -> replies hs2 = replies hs ->
  inv (sinks c3) (pipeline_ c3) [] [awaiting_of (call_item (cfg_ c) cl)] -> owns c3 cl ->
  enabled (reconnection (cfg_ c)) = false ->
  exists c4 c5, handle_error t (client_error err) c3 = Ret c4 /\
    control_turn t (set_in_flight (r c4) (w c4) c4) = Ret (c5, control_continue) /\
    end_call cl c5 = Ret (failure cl err) /\
    nothing_pending c5 /\ state_ c5 = connection_state.CLOSING /\ stop_ c5 = true /\ actor_running_ c5 = actor_running_ c3.
Proof.
  intros Hlims Hrest Hr E1 E2 E3 E6 Hsl Hrep Hi Hown Hen.
  assert (conn_ok c3 [] [awaiting_of (call_item (cfg_ c) cl)]) as Hok by (constructor; [by rewrite E1|exact Hi|by rewrite E1]).
  destruct (handle_error_open t (client_error err) c3 _ _ Hok E1)
    as (c4 & Hh & (Hn4 & Hst4 & _ & _ & Hstop4 & Hact4 & _ & Hcfg4 & _) & Hf).
  pose proof (handle_error_clears t (client_error err) c3 c4 E1 Hh) as Hc. apply (runs_clear lims hs2) in Hc; [|exact Hr].
  pose proof (rest_replied _ _ _ Hrest) as Hrr.
  assert (owns c4 cl) as Hown4.
  { destruct Hown as (s & Hs & Hty & Hwf). destruct Hf as [Hf _].
    destruct (Hf (cl_addr cl)) as (s1 & s' & Hs1 & Hs' & Hwf' & _ & Hty' & _); [by left|].
    rewrite Hs in Hs1. injection Hs1 as <-. exists s'. by rewrite Hty'. }
  exists c4, (notify true true false (set_stop true (set_state connection_state.CLOSING (set_in_flight (r c4) (w c4) c4)))).
  split; [done|]. split; [|split; [|split; [|split; [done|split; [done|exact Hact4]]]]].
  - unfold control_turn. cbn [set_in_flight stop_ state_ cfg_]. rewrite Hstop4, E3, Hst4.
    rewrite bool_decide_false by done. cbn [orb]. by rewrite bool_decide_true, Hcfg4, E6, Hen.
  - change (end_call cl c4 = Ret (outcome cl (replicate (length (cl_types cl)) (reply_error (client_error err))))).
    eapply (end_call_outcome lims Hlims cl c4 _ (reply_slots hs) [] (replies hs) []); [exact Hc|exact Hown4|..].
    + cbn [after_clear reply_slots]. by rewrite Hsl, app_nil_r.
    + cbn [after_clear replies]. rewrite Hsl, Hrep, length_app. unfold call_slots. rewrite length_fmap, length_seq, app_nil_r.
      do 2 f_equal. lia.
    + done.
    + by rewrite length_replicate.
  - destruct Hn4 as [_ Hi4 _]. by constructor.
Qed.

(** A call that was written and whose deadline passed. *)
Lemma expired_call lims hs hs2 c c3 cl t :
  limits_ok lims -> at_rest lims hs c -> same_engine c c3 -> runs lims hs2 (sinks c3) (pipeline_ c3) ->
  reply_slots hs2 = reply_slots hs ++ call_slots cl -> replies hs2 = replies hs ->
  inv (sinks c3) (pipeline_ c3) [] [awaiting_of (call_item (cfg_ c) cl)] -> owns c3 cl ->
  is_Some (request_timeout (cfg_ c)) -> enabled (reconnection (cfg_ c)) = false ->
  let dl := deadline_after (cl_now cl) (request_timeout (cfg_ c)) in
  dl < time_max -> dl <= t ->
  exists c4 c5, control_turn t c3 = Ret (c4, control_continue) /\ control_turn t c4 = Ret (c5, control_continue) /\
    end_call cl c5 = Ret (failure cl client_errc.request_timeout) /\
    nothing_pending c5 /\ state_ c5 = connection_state.CLOSING /\ stop_ c5 = true /\ actor_running_ c5 = actor_running_ c.
Proof.
  intros Hlims Hrest (E1 & E2 & E3 & E4 & E5 & E6 & E7) Hr Hsl Hrep Hi Hown Hto Hen dl Hmax Hdl.
  rewrite (rest_open _ _ _ Hrest) in E1. rewrite (rest_snapshot _ _ _ Hrest) in E2. rewrite (rest_stop _ _ _ Hrest) in E3.
  destruct (failed_call lims hs hs2 c c3 cl t client_errc.request_timeout read_in_flight_ write_in_flight_)
    as (c4 & c5 & Hh & Hc5 & Hend & Hn & Hst & Hstop & Hrun); try done.
  exists c4, c5. split; [|split; [|rewrite <- E7; done]].
  - unfold control_turn, has_expired. rewrite E3, E1. rewrite !bool_decide_false by done. cbn [orb].
    rewrite E6, !bool_decide_true by done. cbn [andb].
    assert (next_deadline (pipeline_ c3) = Ret dl) as ->.
    { rewrite (next_deadline_eq _ _ _ _ Hi). cbn. f_equal. fold dl. lia. }
    cbn [mbind run_bind]. rewrite (proj2 (Z.eqb_neq _ _)), (proj2 (Z.leb_le _ _)) by lia. cbn [negb andb]. by rewrite Hh.
  - replace c4 with (set_in_flight (read_in_flight_ c4) (write_in_flight_ c4) c4) by (by destruct c4). done.
Qed.

(** A call that was written and whose connection is lost. *)
Lemma lost_call lims hs hs2 c c3 cl t e :
  limits_ok lims -> at_rest lims hs c -> same_engine c c3 -> runs lims hs2 (sinks c3) (pipeline_ c3) ->
  reply_slots hs2 = reply_slots hs ++ call_slots cl -> replies hs2 = replies hs ->
  inv (sinks c3) (pipeline_ c3) [] [awaiting_of (call_item (cfg_ c) cl)] -> owns c3 cl ->
  enabled (reconnection (cfg_ c)) = false ->
  exists c4 c5 c6, do_read_begin c3 = Ret (c4, true) /\
    do_read_end t (match e with Some e => Unexpected e | None => Val [] end) c4 = Ret c5 /\
    control_turn t c5 = Ret (c6, control_continue) /\ end_call cl c6 = Ret (failure cl (lost_error e)) /\
    nothing_pending c6 /\ state_ c6 = connection_state.CLOSING /\ stop_ c6 = true /\ actor_running_ c6 = actor_running_ c.
Proof.
  intros Hlims Hrest (E1 & E2 & E3 & E4 & E5 & E6 & E7) Hr Hsl Hrep Hi Hown Hen.
  rewrite (rest_open _ _ _ Hrest) in E1. rewrite (rest_snapshot _ _ _ Hrest) in E2. rewrite (rest_stop _ _ _ Hrest) in E3.
  rewrite (rest_read _ _ _ Hrest) in E4. pose proof (rest_parser _ _ _ Hrest) as Hp. rewrite <- E5 in Hp.
  destruct (paused_prepare [] (parser_ c3) Hp) as (p & Hprep & _); [by vm_compute|].
  set (c4 := set_parser p (set_in_flight true (write_in_flight_ c3) c3)).
  destruct (failed_call lims hs hs2 c c4 cl t (lost_error e) (fun _ => false) write_in_flight_)
    as (c5 & c6 & Hh & Hc6 & Hend & Hn & Hst & Hstop & Hrun); try done.
  exists c4. eexists. exists c6. split; [|split; [|split; [exact Hc6|rewrite <- E7; done]]].
  - unfold do_read_begin. rewrite E1, bool_decide_false, E4 by (intros Hx; by apply Hx). cbn [negb assert mbind run_bind].
    by rewrite Hprep.
  - unfold do_read_end. destruct e as [e|]; cbn [lost_error] in Hh.
    + change (state_ c4) with (state_ c3). rewrite E1. cbn [shutting_down]. rewrite andb_false_r, Hh. done.
    + by rewrite Hh.
Qed.

(** A call on a connection that is closing or closed. *)
Lemma enqueue_impl_flags now start r addr c c1 :
  enqueue_impl now start r addr c = Ret c1 -> stop_ c1 = stop_ c /\ actor_running_ c1 = actor_running_ c.
Proof.
  unfold enqueue_impl. assert (stop_ (trace_begin r c).2 = stop_ c /\ actor_running_ (trace_begin r c).2 = actor_running_ c) as [<- <-]
    by (unfold trace_begin; by destruct (trace_hooks_enabled _)).
  destruct (trace_begin r c) as [info c0]. cbn [snd].
  assert (forall err c', reject now start info err addr c' = Ret c1 -> stop_ c1 = stop_ c' /\ actor_running_ c1 = actor_running_ c') as Hrej.
  { intros err c' H. unfold reject in H. run_inv. by destruct (_ && _). }
  destruct (refusal (state_ c0)); [apply Hrej|]. intros H. apply run_bind_Ret in H as (pb & _ & H).
  destruct (negb pb.2); [by apply Hrej in H|]. run_inv. by destruct (trace_hooks_enabled _).
Qed.

Lemma failure_slots cl err :
  zip_with slot_of (cl_types cl) (replicate (length (cl_types cl)) (reply_error err)) = replicate (length (cl_types cl)) (Unexpected err).
Proof. induction (cl_types cl) as [|t l IH]; [done|]. cbn. by rewrite IH. Qed.

Lemma refused_call cl c :
  nothing_pending c -> refusal (state_ c) = Some (client_error client_errc.connection_closed) ->
  sinks c !! cl_addr cl = None -> call_ok cl = true ->
  exists c1, begin_call cl c = Ret c1 /\ exec_ready (cl_addr cl) c1 = true /\
    end_call cl c1 = Ret (failure cl client_errc.connection_closed) /\
    nothing_pending c1 /\ state_ c1 = state_ c /\ stop_ c1 = stop_ c /\ actor_running_ c1 = actor_running_ c.
Proof.
  intros Hn Href Ha Hok. destruct (begin_call_sink cl c Hok) as (s & Hty & Hfr & ->).
  destruct (enqueue_impl_ok (cl_now cl) (cl_start cl) (cl_request cl) (cl_addr cl)
    (set_pipeline (<[cl_addr cl := s]> (sinks c)) (pipeline_ c) c) c s (length (cl_types cl)) [] []) as (c1 & He & Hout); try done.
  { by rewrite Hty in Hfr. }
  { unfold call_ok in Hok. bool_prop. unfold zlen in *. lia. }
  rewrite Href in Hout. destruct Hout as [Hr Hsn]. destruct (enqueue_impl_flags _ _ _ _ _ _ He) as [Hstop Hact].
  destruct (refused_result (cl_types cl) _ _ _ _ _ Hr) as [Hrdy Hend]. exists c1. split; [done|]. split; [done|].
  destruct Hr as (Hp & Hst & s' & Hs' & Hwf' & _). split.
  - unfold end_call, failure, outcome. rewrite failure_slots. unfold exec_end, exec_dynamic_end in *.
    destruct (deref _ _) as [as_|]; [|done]. cbn [mbind run_bind] in *. destruct (wait_result as_.2) as [slots|]; [|done].
    injection Hend as ->. by destruct (cl_shape cl).
  - split; [|done]. destruct Hn as [_ Hi Hq]. constructor; [done| |done].
    rewrite Hs', Hp. apply inv_other; [exact Hi|apply not_elem_of_nil].
Qed.

Lemma exec_refuse sh r now start ph c :
  ph = ph_lost \/ ph = ph_closed -> call_ok (mk_call sh r 0 now start) = true -> phase_of ph c ->
  exists c', exec_client sh r (turn_refuse now start) c =
      Ret (Some (failure (mk_call sh r 0 now start) client_errc.connection_closed, c')) /\ phase_of ph c'.
Proof.
  intros Hcase Hok Hph.
  assert (nothing_pending c /\ refusal (state_ c) = Some (client_error client_errc.connection_closed)) as [Hn Href].
  { destruct Hcase as [-> | ->]; destruct Hph as (Hn & Hst & _); by rewrite Hst. }
  destruct (refused_call (mk_call sh r (new_addr c) now start) c) as (c' & H1 & H2 & H3 & H4 & H5 & H6 & H7);
    [done|done|apply new_addr_fresh|done|].
  exists c'. cbn [exec_client]. rewrite H1. cbn [mbind run_bind]. rewrite H2, H3. split; [done|].
  destruct Hcase as [-> | ->]; cbn [phase_of] in *; rewrite H5, ?H6, H7; by destruct Hph as (_ & ?).
Qed.

Lemma exec_answer sh r now start written sizes pieces ws c :
  usable cfg -> phase_of ph_open c ->
  exchange_ok (queue_limits cfg) (resp_limits cfg) 0 (mk_exchange [mk_call sh r 0 now start] written sizes pieces) [ws] = true ->
  exists c', exec_client sh r (turn_answer now start written sizes pieces ws) c =
      Ret (Some (answer (mk_call sh r 0 now start) ws, c')) /\ phase_of ph_open c'.
Proof.
  intros (_ & Hlims & _) ((hs & Hrest) & Hpl & Hact) Hok.
  destruct (exchange_answers (queue_limits cfg) Hlims hs c
    (mk_exchange [mk_call sh r (new_addr c) now start] written sizes pieces) [ws] 0) as (c' & hs' & Hrun & Hrest' & Hl & _ & Ha & _).
  - exact Hrest.
  - apply NoDup_singleton.
  - intros a ->%list_elem_of_singleton. apply new_addr_fresh.
  - apply zlen_nonneg.
  - rewrite Hpl. exact Hok.
  - exists c'. cbn [exec_client]. rewrite Hrun. split; [done|]. split; [by exists hs'|]. split; [by rewrite Hl|by transitivity c].
Qed.

(** A call that is written. *)
Lemma exec_sent sh r now start written sizes c hs :
  usable cfg -> at_rest (queue_limits cfg) hs c -> same_actor (connecting cfg) c -> one_shot sh r now start sizes = true ->
  let cl := mk_call sh r (new_addr c) now start in
  exists c3 hs2, sent (mk_exchange [cl] written sizes []) c = Ret c3 /\ same_engine c c3 /\
    runs (queue_limits cfg) hs2 (sinks c3) (pipeline_ c3) /\
    reply_slots hs2 = reply_slots hs ++ call_slots cl /\ replies hs2 = replies hs /\
    inv (sinks c3) (pipeline_ c3) [] [awaiting_of (call_item (cfg_ c) cl)] /\ owns c3 cl /\
    enabled (reconnection (cfg_ c)) = false.
Proof.
  intros (_ & Hlims & _) Hrest [_ Hcfg] Hok cl. unfold one_shot in Hok. bool_prop.
  destruct (exchange_sent (queue_limits cfg) Hlims hs c (mk_exchange [cl] written sizes []))
    as (c3 & hs2 & Hsent & Heng & _ & Hr & Hsl & Hrep & Hi & Hown & _); try done.
  { apply NoDup_singleton. }
  { intros a ->%list_elem_of_singleton. apply new_addr_fresh. }
  { cbn. by rewrite andb_true_r. }
  { cbn. unfold compose. cbn. lia. }
  cbn in Hsl. rewrite app_nil_r in Hsl. apply Forall_cons in Hown as [Hown _]. exists c3, hs2.
  by repeat (split; [done|]); rewrite Hcfg.
Qed.

Lemma exec_expire sh r now start written sizes t c :
  usable cfg -> phase_of ph_open c -> expires sh r now start sizes t = true ->
  exists c', exec_client sh r (turn_expire now start written sizes t) c =
      Ret (Some (failure (mk_call sh r 0 now start) client_errc.request_timeout, c')) /\ phase_of ph_lost c'.
Proof.
  intros Hu ((hs & Hrest) & Hpl & Hact) Hok. pose proof (proj2 Hact) as Hcfg. unfold expires in Hok.
  rewrite !andb_true_iff, bool_decide_eq_true, Z.ltb_lt, Z.leb_le in Hok. destruct Hok as [[[Hto Hmax] Hdl] Hok].
  destruct (exec_sent sh r now start written sizes c hs Hu Hrest Hact Hok) as (c3 & hs2 & Hsent & Heng & Hr & Hsl & Hrep & Hi & Hown & Hen).
  pose proof Hu as (_ & Hlims & _). set (cl := mk_call sh r (new_addr c) now start) in *.
  destruct (expired_call (queue_limits cfg) hs hs2 c c3 cl t) as (c4 & c5 & Hc4 & Hc5 & Hend & Hn & Hst & Hstop & Hrun);
    try done; try by rewrite Hcfg.
  exists c5. cbn [exec_client]. fold cl. rewrite Hsent. cbn [mbind run_bind]. rewrite Hc4. cbn [mbind run_bind].
  rewrite Hc5. cbn [mbind run_bind]. rewrite Hend. split; [done|]. cbn [phase_of]. rewrite Hrun. by destruct Hact.
Qed.

Lemma exec_lose sh r now start written sizes e t c :
  usable cfg -> phase_of ph_open c -> one_shot sh r now start sizes = true ->
  exists c', exec_client sh r (turn_lose now start written sizes e t) c =
      Ret (Some (failure (mk_call sh r 0 now start) (lost_error e), c')) /\ phase_of ph_lost c'.
Proof.
  intros Hu ((hs & Hrest) & Hpl & Hact) Hok. pose proof (proj2 Hact) as Hcfg.
  destruct (exec_sent sh r now start written sizes c hs Hu Hrest Hact Hok) as (c3 & hs2 & Hsent & Heng & Hr & Hsl & Hrep & Hi & Hown & Hen).
  pose proof Hu as (_ & Hlims & _). set (cl := mk_call sh r (new_addr c) now start) in *.
  destruct (lost_call (queue_limits cfg) hs hs2 c c3 cl t e) as (c4 & c5 & c6 & Hc4 & Hc5 & Hc6 & Hend & Hn & Hst & Hstop & Hrun);
    try done.
  exists c6. cbn [exec_client]. fold cl. rewrite Hsent. cbn [mbind run_bind]. rewrite Hc4. cbn [mbind run_bind].
  rewrite Hc5. cbn [mbind run_bind]. rewrite Hc6. cbn [mbind run_bind]. rewrite Hend. split; [done|].
  cbn [phase_of]. rewrite Hrun. by destruct Hact.
Qed.

Lemma exec_client_ok sh r tn ph c x ph' :
  usable cfg -> exec_result sh r tn ph = Some (x, ph') -> phase_of ph c ->
  exists c', exec_client sh r tn c = Ret (Some (x, c')) /\ phase_of ph' c'.
Proof.
  intros Hu He Hph. destruct ph, tn; try done; cbn [exec_result call_result] in He;
    match type of He with (if ?b then _ else _) = _ => destruct b eqn:Hok; [|done] end; injection He as <- <-.
  - by apply exec_answer.
  - by apply exec_expire.
  - by apply exec_lose.
  - apply exec_refuse; auto.
  - apply exec_refuse; auto.
Qed.

(** A [connect] that fails closes the connection. *)
Lemma failed_connect now ins t1 t2 t3 c1 err :
  connect_with other now (ins (connecting cfg)) (do_connect_begin (connecting cfg)) = Some (Ret (c1, finished (Unexpected err))) ->
  nothing_pending c1 -> state_ c1 = connection_state.CONNECTING -> actor_running_ c1 = true ->
  exists c', connect_client now ins t1 t2 t3 (client_new cfg) = Ret (Some (Unexpected err, c')) /\ phase_of ph_closed c'.
Proof.
  intros Hrun Hn Hst Ha. unfold connect_client.
  change (connect_begin (client_new cfg)) with (Ret (connecting cfg, @None (expected unit error_info))). cbn [mbind run_bind].
  rewrite Hrun. cbn [connect_end mbind run_bind]. set (c2 := emit_connection_event _ _ _ _ _ _ _).
  destruct (emit_event_fields now ev_disconnected stage_connect (Some connection_state.CONNECTING)
    (Some connection_state.CLOSING) err c1) as (E1 & E2 & E3 & E4 & E5 & E6 & E7 & E8 & _). fold c2 in E1, E2, E3, E4, E5, E6, E7, E8.
  destruct (close_client_ok t1 t2 t3 c2 [] []) as (c' & Hcl & Hph).
  - destruct Hn. constructor; rewrite ?E1, ?E2, ?E3, ?E4; done.
  - by rewrite E1, Hst.
  - by rewrite E7.
  - exists c'. by rewrite Hcl.
Qed.

Lemma connect_client_ok now ep rest ws t1 t2 t3 :
  usable cfg -> hello_ok cfg ws = true ->
  exists c', connect_client now (fun c0 => greeting (cfg_ c0) (new_addr c0) ep rest ws) t1 t2 t3 (client_new cfg) =
      Ret (Some (verdict ws, c')) /\
    phase_of (match verdict ws with Val _ => ph_open | Unexpected _ => ph_closed end) c'.
Proof.
  intros Hu Hws. destruct (client_connects other cfg now (new_addr (connecting cfg)) ep rest ws Hu Hws) as (c1 & Hrun & Hact & Hc).
  destruct (verdict ws) as [[]|err].
  - destruct Hc as (hs & Hrest & Hl). unfold connect_client.
    change (connect_begin (client_new cfg)) with (Ret (connecting cfg, @None (expected unit error_info))). cbn [mbind run_bind].
    change (greeting (cfg_ (connecting cfg))) with (greeting (endpoint:=endpoint) cfg). rewrite Hrun. cbn [connect_end mbind run_bind].
    rewrite (rest_open _ _ _ Hrest). eexists. split; [done|]. split; [exists hs; by apply rest_notify|]. done.
  - destruct Hc as [Hn Hst]. apply (failed_connect now _ t1 t2 t3 c1 err); [exact Hrun|done|done|]. destruct Hact as [Ha _]. by rewrite Ha.
Qed.

(** Endpoints that all fail leave the error of the last one. *)
Lemma attempts_fail now addr l : forall x c,
  forallb (fun y : endpoint * attempt => bool_decide (is_Some (attempt_error y.2))) (x :: l) = true ->
  exists b e, (last (x :: l) ≫= fun y => attempt_error y.2) = Some e /\
    connect_with other now ((fun y : endpoint * attempt => in_attempt y.2 addr) <$> (x :: l)) (c, at_connect x.1 l.*1) =
      Some (after_attempts other now (Some e) addr (set_socket b c)).
Proof.
  induction l as [|y l IH]; intros x c Hf; cbn [forallb] in Hf; apply andb_true_iff in Hf as [Hx Hf];
    apply bool_decide_eq_true in Hx as [e He].
  - cbn [fmap list_fmap connect_with do_connect_resume fst snd last mbind option_bind].
    assert (exists b, on_attempt (endpoint:=endpoint) other now x.2 [] addr c = after_attempts other now (Some e) addr (set_socket b c)) as [b Hb].
    { unfold on_attempt, next_endpoint. destruct x as [ep [e' b|[e'|] [e''|]]]; cbn in *; simplify_eq; by eexists. }
    exists b, e. split; [done|]. cbn [list_fmap] in *. rewrite Hb. by destruct e.
  - assert (exists c', on_attempt other now x.2 (y :: l).*1 addr c = Ret (c', at_connect y.1 l.*1) /\
      exists b, c' = set_socket b c) as (c' & Hb & b & ->).
    { unfold on_attempt, next_endpoint. rewrite fmap_cons.
      destruct x as [ep [e' b|[e'|] [e''|]]]; cbn [snd attempt_error] in *; simplify_eq; rewrite close_socket_eq;
        (eexists; split; [done|by exists false]). }
    destruct (IH y (set_socket b c) Hf) as (b' & e' & Hl & Hrun). exists b', e'. split; [exact Hl|].
    rewrite fmap_cons. cbn [connect_with do_connect_resume fst snd]. rewrite Hb. exact Hrun.
Qed.

Lemma unreachable_ok now r err t1 t2 t3 :
  usable cfg -> unreachable_error r = Some err ->
  exists c', connect_client now (fun c0 => deaf (new_addr c0) r) t1 t2 t3 (client_new cfg) = Ret (Some (Unexpected err, c')) /\
    phase_of ph_closed c'.
Proof.
  intros (Hfit & [_ Hl] & _) He. destruct (fresh_ready cfg Hfit Hl) as (_ & _ & _ & Hn & _).
  assert (forall b p, nothing_pending (set_socket b (set_parser p (connecting cfg)))) as Hnp by (intros b p; destruct Hn; by constructor).
  assert (exists b p, connect_with other now (deaf (new_addr (connecting cfg)) r) (do_connect_begin (connecting cfg)) =
    Some (Ret (set_socket b (set_parser p (connecting cfg)), finished (Unexpected err)))) as (b & p & Hrun).
  { assert (forall p, set_parser p (connecting cfg) = set_socket false (set_parser p (connecting cfg))) as Hsock by done.
    unfold do_connect_begin. cbn [connecting set_state set_actor client_new connection_new stop_].
    destruct r as [[|x l]|e]; cbn [deaf connect_with do_connect_resume on_resolved fst snd unreachable_error] in *.
    - injection He as <-. eexists false, _. by rewrite <- Hsock.
    - rewrite fmap_cons. cbn [on_resolved connect_with do_connect_resume fst snd set_parser stop_]. rewrite close_socket_eq.
      destruct (forallb _ (x :: l)) eqn:Hf; [|done].
      set (c := set_socket false _). destruct (attempts_fail now (new_addr (connecting cfg)) l x c Hf) as (b & e & Hla & Hrun).
      rewrite Hla in He. exists b. eexists. etransitivity; [exact Hrun|]. destruct e; cbn [after_attempts]; injection He as <-; reflexivity.
    - eexists false, _. destruct e; injection He as <-; cbn [on_resolved]; by rewrite <- Hsock. }
  by apply (failed_connect now _ t1 t2 t3 _ err Hrun).
Qed.

Lemma close_phase t1 t2 t3 ph c :
  usable cfg -> ph <> ph_new -> phase_of ph c -> exists c', close_client t1 t2 t3 c = Ret (Some c') /\ phase_of ph_closed c'.
Proof.
  intros (_ & Hlims & _) Hne Hph. destruct ph; [done|..].
  - destruct Hph as ((hs & Hrest) & _ & Ha & _). apply (close_client_ok _ _ _ c [] []).
    + constructor; [by rewrite (rest_snapshot _ _ _ Hrest), (rest_open _ _ _ Hrest)| |done].
      by eapply nothing_queued; [exact Hlims|apply Hrest..].
    + by rewrite (rest_open _ _ _ Hrest).
    + by rewrite Ha.
  - destruct Hph as (Hn & Hst & _ & Ha). apply (close_client_ok _ _ _ c [] []); [done|by rewrite Hst|done].
  - exists c. unfold close_client, close_begin. pose proof Hph as (_ & Hst & _). by rewrite bool_decide_true.
Qed.

(** Every operation does what [step_result] says. *)
Lemma step_client_ok {X} (o : op X) tn ph c x ph' :
  usable cfg -> step_result o tn ph = Some (x, ph') -> phase_of ph c ->
  exists c', step_client o tn c = Ret (Some (x, c')) /\ phase_of ph' c'.
Proof.
  intros Hu Hs Hph. destruct o as [|types r|t cmd args|t r|]; cbn [step_result step_client] in *.
  - destruct ph; try done. destruct tn; try done; rewrite Hph.
    + destruct (hello_ok cfg ws) eqn:Hw; [|done]. injection Hs as <- <-. by apply connect_client_ok.
    + destruct (unreachable_error r) as [err|] eqn:He; [|done]. injection Hs as <- <-. by apply unreachable_ok.
  - destruct (exec_result _ _ _ _) as [[[y|y] p]|] eqn:E; try done. injection Hs as <- <-.
    destruct (exec_client_ok _ _ _ _ c _ _ Hu E Hph) as (c' & -> & Hp). by exists c'.
  - destruct (braced_request cmd args) as [r|]; [|done]. cbn [mbind run_bind].
    destruct (exec_result _ _ _ _) as [[[y|y] p]|] eqn:E; try done. injection Hs as <- <-.
    destruct (exec_client_ok _ _ _ _ c _ _ Hu E Hph) as (c' & -> & Hp). by exists c'.
  - destruct (exec_result _ _ _ _) as [[[y|y] p]|] eqn:E; try done. injection Hs as <- <-.
    destruct (exec_client_ok _ _ _ _ c _ _ Hu E Hph) as (c' & -> & Hp). by exists c'.
  - assert (ph <> ph_new /\ exists t1 t2 t3, tn = turn_close t1 t2 t3 /\ ph' = ph_closed) as (Hne & t1 & t2 & t3 & -> & ->).
    { destruct ph, tn; try done; injection Hs as <-; eauto 6. }
    destruct x. destruct (close_phase t1 t2 t3 ph c Hu Hne Hph) as (c' & -> & Hp). by exists c'.
Qed.

Lemma task_runs {A} (t : task A) : forall tns ph c out a ph',
  usable cfg -> says t tns ph = Some (out, a, ph') -> phase_of ph c ->
  exists c', run_task t tns c = Ret (Some (out, a, c')) /\ phase_of ph' c'.
Proof.
  induction t as [a|s b k IH|X o k IH|f]; intros tns ph c out a' ph' Hu Hs Hph; cbn [says run_task] in *.
  - injection Hs as <- <- <-. by exists c.
  - destruct (says k tns ph) as [[[out1 a1] ph1]|] eqn:E; [|done]. injection Hs as <- <- <-.
    destruct (IH tns ph c _ _ _ Hu E Hph) as (c' & -> & Hp). by exists c'.
  - destruct tns as [|tn tns]; [done|]. destruct (step_result o tn ph) as [[x ph1]|] eqn:E; [|done].
    destruct (step_client_ok o tn ph c x ph1 Hu E Hph) as (c1 & -> & Hp1). cbn [mbind run_bind]. by eapply IH.
  - done.
Qed.

End runs.

(** ** Theorems *)

