(* ===== verification/Examples.v ===== *)
(** * The example programs ([src/examples])

    Six programs that use the library, as tasks of [Program]: what they send,
    print and close on every answer of the server.  In tracing_hooks.cpp the
    callbacks of the tracer print too; it is not a task of this kind. *)

From S2P Require Import Prelude Kind Errors Charconv Buffer Message Parser Builder Adapter.
From S2P Require Import ParserInv ParserSafety ParserViews Wire WireParse ParserResume ParserPrefix.
From S2P Require Import Request RingQueue ResponseSink Response Pipeline PipelineSpec Config Connection Connect.
From S2P Require Import ConnectionSpec ReadSpec ConnectSpec Tolerant Strand Client ConnectTheorems Session Program.

(** ** The programs *)

Section examples.

Context (other : string -> Z -> string).

Definition nl : bytes := [LF].

(** [std::cout << v] for the strings and integers that are printed. *)
Definition text_of (v : cval) : run bytes :=
  match v with
  | VString s => Ret s
  | VInt z => Ret (print_Z z)
  | _ => Fault unreachable_reached
  end.

(** A null-terminated literal, and [e.to_string()]. *)
Definition lit (s : string) : arg := arg_cstr (Some (s2b s)).
Definition show_error (e : error_info) : bytes := error_info_to_string other e.

(** [std::cerr << what << e.to_string() << '\n'] *)
Definition complain (what : string) (e : error_info) : task unit :=
  print cerr (s2b what ++ show_error e ++ nl).

(** The configuration of the examples. *)
Definition example_config : config :=
  let d := default_config in
  let p := reconnection d in
  mk_config (s2b "127.0.0.1") 6379 (username d) (password d) (database d) (client_name d)
    (resolve_timeout d) (connect_timeout d) (request_timeout d) (no_delay d) (keep_alive d)
    (resp_limits d) (queue_limits d)
    (mk_policy false (immediate_attempts p) (initial_delay p) (max_delay p) (backoff_factor p) (jitter_ratio p))
    (trace_hooks d) (connection_hooks d).

(** ping.cpp *)
Definition ping_task : task unit :=
  cr ← await op_connect;
  match cr with
  | Unexpected e => complain "connect failed: " e
  | Val _ =>
    resp ← await (op_exec_args TString (s2b "PING") []);
    r ← eval (response_get 0 resp);
    match r with
    | Unexpected e => complain "PING failed: " e
    | Val v =>
      s ← eval (text_of v);
      _ ← print cout (s2b "PING => " ++ s ++ nl);
      await op_close
    end
  end.

(** static_response.cpp *)
Definition static_response_task : task unit :=
  cr ← await op_connect;
  match cr with
  | Unexpected e => complain "connect failed: " e
  | Val _ =>
    set_resp ← await (op_exec_args TString (s2b "SET") [lit "rediscoro:example:counter"; lit "41"]);
    r ← eval (response_get 0 set_resp);
    match r with
    | Unexpected e => _ ← complain "SET failed: " e; await op_close
    | Val _ =>
      req1 ← eval (push_args (s2b "INCR") [lit "rediscoro:example:counter"] request_new);
      req ← eval (push_args (s2b "GET") [lit "rediscoro:example:counter"] req1);
      resp ← await (op_exec [TInt true 64; TString] req);
      r0 ← eval (response_get 0 resp);
      match r0 with
      | Unexpected e => _ ← complain "INCR failed: " e; await op_close
      | Val v0 =>
        r1 ← eval (response_get 1 resp);
        match r1 with
        | Unexpected e => _ ← complain "GET failed: " e; await op_close
        | Val v1 =>
          s0 ← eval (text_of v0);
          _ ← print cout (s2b "INCR => " ++ s0 ++ nl);
          s1 ← eval (text_of v1);
          _ ← print cout (s2b "GET  => " ++ s1 ++ nl);
          await op_close
        end
      end
    end
  end.

(** dynamic_response.cpp: the loop over the replies, from index [i] with [n]
    turns to go. *)
Fixpoint incr_loop (n i : nat) (resp : dynamic_response) : task unit :=
  match n with
  | O => await op_close
  | Datatypes.S n' =>
    r ← eval (dynamic_index i resp);
    let number := s2b "INCR #" ++ print_Z (Z.of_nat i) in
    match r with
    | Unexpected e =>
      _ ← print cerr (number ++ s2b " failed: " ++ show_error e ++ nl);
      await op_close
    | Val v =>
      s ← eval (text_of v);
      _ ← print cout (number ++ s2b " => " ++ s ++ nl);
      incr_loop n' (i + 1) resp
    end
  end.

Definition dynamic_response_task : task unit :=
  cr ← await op_connect;
  match cr with
  | Unexpected e => complain "connect failed: " e
  | Val _ =>
    set_a ← await (op_exec_args TString (s2b "SET") [lit "rediscoro:example:counter:a"; lit "0"]);
    ra ← eval (response_get 0 set_a);
    match ra with
    | Unexpected e => _ ← complain "SET counter a failed: " e; await op_close
    | Val _ =>
      set_b ← await (op_exec_args TString (s2b "SET") [lit "rediscoro:example:counter:b"; lit "100"]);
      rb ← eval (response_get 0 set_b);
      match rb with
      | Unexpected e => _ ← complain "SET counter b failed: " e; await op_close
      | Val _ =>
        req1 ← eval (push_args (s2b "INCR") [lit "rediscoro:example:counter:a"] request_new);
        req2 ← eval (push_args (s2b "INCR") [lit "rediscoro:example:counter:b"] req1);
        req ← eval (push_args (s2b "INCR") [lit "rediscoro:example:counter:a"] req2);
        resp ← await (op_exec_dynamic (TInt true 64) req);
        incr_loop (dynamic_size resp) 0 resp
      end
    end
  end.

(** pipeline_mixed_results.cpp *)
Definition mixed_key : arg := lit "rediscoro:example:mixed:counter".

(** Both replies are reported, whatever they are. *)
Definition report_both (resp : response) : task unit :=
  r0 ← eval (response_get 0 resp);
  _ ← match r0 with
      | Val v => s ← eval (text_of v); print cout (s2b "GET  succeeded: " ++ s ++ nl)
      | Unexpected e => print cout (s2b "GET  failed: " ++ show_error e ++ nl)
      end;
  r1 ← eval (response_get 1 resp);
  match r1 with
  | Val v => s ← eval (text_of v); print cout (s2b "INCR succeeded unexpectedly: " ++ s ++ nl)
  | Unexpected e => print cout (s2b "INCR failed as expected: " ++ show_error e ++ nl)
  end.

Definition pipeline_mixed_results_task : task unit :=
  cr ← await op_connect;
  match cr with
  | Unexpected e => complain "connect failed: " e
  | Val _ =>
    seed ← await (op_exec_args TString (s2b "SET") [mixed_key; lit "not-an-integer"]);
    r ← eval (response_get 0 seed);
    match r with
    | Unexpected e => _ ← complain "SET failed: " e; await op_close
    | Val _ =>
      req1 ← eval (push_args (s2b "GET") [mixed_key] request_new);
      req ← eval (push_args (s2b "INCR") [mixed_key] req1);
      resp ← await (op_exec [TString; TInt true 64] req);
      _ ← report_both resp;
      await op_close
    end
  end.

(** request_timeout.cpp *)
Definition request_timeout_config : config :=
  let d := example_config in
  mk_config (host d) (port d) (username d) (password d) (database d) (client_name d)
    (resolve_timeout d) (connect_timeout d) (Some 100) (no_delay d) (keep_alive d)
    (resp_limits d) (queue_limits d) (reconnection d) (trace_hooks d) (connection_hooks d).

Definition request_timeout_task : task unit :=
  cr ← await op_connect;
  match cr with
  | Unexpected e => complain "connect failed: " e
  | Val _ =>
    resp ← await (op_exec_args TIgnore (s2b "BLPOP") [lit "rediscoro:example:missing-list"; lit "5"]);
    r ← eval (response_get 0 resp);
    _ ← match r with
        | Val _ => print cout (s2b "BLPOP returned before timeout (unexpected for this demo)" ++ nl)
        | Unexpected err =>
          _ ← print cout (s2b "BLPOP failed: " ++ show_error err ++ nl);
          if bool_decide (code err = make_client_error_code client_errc.request_timeout)
          then print cout (s2b "Observed expected error: client_errc::request_timeout" ++ nl)
          else co_return ()
        end;
    await op_close
  end.

(** adapter_containers.cpp *)
Definition list_key : arg := lit "rediscoro:example:list".
Definition hash_key : arg := lit "rediscoro:example:hash".

(** The loops over a vector and over a [std::map], which is ordered by key. *)
Fixpoint print_items (l : list cval) : task unit :=
  match l with
  | [] => co_return ()
  | item :: l' =>
    s ← eval (text_of item);
    _ ← print cout (s2b "  - " ++ s ++ nl);
    print_items l'
  end.

Fixpoint bytes_ltb (a b : bytes) : bool :=
  match a, b with
  | _, [] => false
  | [], _ :: _ => true
  | x :: a', y :: b' =>
    (N_of_ascii x <? N_of_ascii y)%N || ((N_of_ascii x =? N_of_ascii y)%N && bytes_ltb a' b')
  end.

Definition key_ltb (k1 k2 : cval) : bool :=
  match k1, k2 with VString a, VString b => bytes_ltb a b | _, _ => false end.

Fixpoint map_insert (kv : cval * cval) (l : list (cval * cval)) : list (cval * cval) :=
  match l with
  | [] => [kv]
  | kv' :: l' => if key_ltb kv.1 kv'.1 then kv :: l else kv' :: map_insert kv l'
  end.

Definition in_key_order (l : list (cval * cval)) : list (cval * cval) := foldr map_insert [] l.

Fixpoint print_entries (l : list (cval * cval)) : task unit :=
  match l with
  | [] => co_return ()
  | (k, v) :: l' =>
    sk ← eval (text_of k);
    sv ← eval (text_of v);
    _ ← print cout (s2b "  " ++ sk ++ s2b " = " ++ sv ++ nl);
    print_entries l'
  end.

(** The elements of a vector and the entries of a map. *)
Definition as_sequence (v : cval) : run (list cval) :=
  match v with VSequence l => Ret l | _ => Fault unreachable_reached end.
Definition as_map (v : cval) : run (list (cval * cval)) :=
  match v with VMap l => Ret (in_key_order l) | _ => Fault unreachable_reached end.

(** The second half of the program: the hash. *)
Definition hash_part : task unit :=
  hset ← await (op_exec_args (TInt true 64) (s2b "HSET") [hash_key; lit "name"; lit "rediscoro"; lit "lang"; lit "cpp"]);
  r ← eval (response_get 0 hset);
  match r with
  | Unexpected e => _ ← complain "HSET failed: " e; await op_close
  | Val _ =>
    map_resp ← await (op_exec_args (TMap TString TString) (s2b "HGETALL") [hash_key]);
    m ← eval (response_get 0 map_resp);
    match m with
    | Unexpected e => _ ← complain "HGETALL failed: " e; await op_close
    | Val v =>
      _ ← print cout (s2b "HGETALL -> map<string, string>:" ++ nl);
      kvs ← eval (as_map v);
      _ ← print_entries kvs;
      await op_close
    end
  end.

Definition adapter_containers_task : task unit :=
  cr ← await op_connect;
  match cr with
  | Unexpected e => complain "connect failed: " e
  | Val _ =>
    clear ← await (op_exec_args (TInt true 64) (s2b "DEL") [list_key; hash_key]);
    r ← eval (response_get 0 clear);
    match r with
    | Unexpected e => _ ← complain "DEL failed: " e; await op_close
    | Val _ =>
      rpush ← await (op_exec_args (TInt true 64) (s2b "RPUSH") [list_key; lit "alpha"; lit "beta"; lit "gamma"]);
      r1 ← eval (response_get 0 rpush);
      match r1 with
      | Unexpected e => _ ← complain "RPUSH failed: " e; await op_close
      | Val _ =>
        list_resp ← await (op_exec_args (TSequence TString) (s2b "LRANGE") [list_key; lit "0"; lit "-1"]);
        r2 ← eval (response_get 0 list_resp);
        match r2 with
        | Unexpected e => _ ← complain "LRANGE failed: " e; await op_close
        | Val v =>
          _ ← print cout (s2b "LRANGE -> vector<string>:" ++ nl);
          items ← eval (as_sequence v);
          _ ← print_items items;
          hash_part
        end
      end
    end
  end.

End examples.

(** ** How they end *)

(** Whatever is answered, the client is closed when the task returns. *)
Definition ends_closed {endpoint A} (cfg : config) (t : task A) : Prop :=
  forall (tns : list (turn (endpoint:=endpoint))) ph out a ph',
    ph <> ph_new -> says cfg t tns ph = Some (out, a, ph') -> ph' = ph_closed.

Section ends.

Context {endpoint : Type} (cfg : config).

Lemma exec_phase sh r (tn : turn (endpoint:=endpoint)) ph y p :
  exec_result cfg sh r tn ph = Some (y, p) -> p <> ph_new /\ (ph = ph_open -> p = ph_open \/ p = ph_lost).
Proof. unfold exec_result, call_result. destruct ph, tn; try done; case_match; try done; intros [= _ <-]; auto. Qed.

Lemma step_not_new {X} (o : op X) (tn : turn (endpoint:=endpoint)) ph x ph' :
  step_result cfg o tn ph = Some (x, ph') -> ph' <> ph_new.
Proof.
  assert (forall sh r y p, exec_result cfg sh r tn ph = Some (y, p) -> p <> ph_new) as He.
  { intros sh r y p H. by apply exec_phase in H as [? _]. }
  destruct o; cbn [step_result]; intros H.
  - destruct ph, tn; try done.
    + destruct (hello_ok _ _); [|done]. injection H as _ <-. by destruct (verdict _).
    + destruct (unreachable_error _); [|done]. by injection H as _ <-.
  - destruct (exec_result _ _ _ _ _) as [[[]]|] eqn:E; try done. injection H as <- <-. by eapply He.
  - destruct (braced_request _ _); [|done]. destruct (exec_result _ _ _ _ _) as [[[]]|] eqn:E; try done. injection H as <- <-. by eapply He.
  - destruct (exec_result _ _ _ _ _) as [[[]]|] eqn:E; try done. injection H as <- <-. by eapply He.
  - destruct ph, tn; try done; by injection H as _ <-.
Qed.

Abbreviation closed_end := (ends_closed (endpoint:=endpoint) cfg).

Lemma closed_close : closed_end (await op_close).
Proof.
  intros [|tn tns] ph out a ph' Hne H; [done|]. cbn [await says] in H. destruct (step_result cfg op_close tn ph) as [[x p]|] eqn:E; [|done].
  injection H as _ _ <-. cbn [step_result] in E. destruct ph, tn; try done; by injection E.
Qed.

Lemma closed_slot {A T E} (r : expected T E) (k1 : E -> task A) (k2 : T -> task A) :
  (forall e, closed_end (k1 e)) -> (forall v, closed_end (k2 v)) ->
  closed_end (match r with Unexpected e => k1 e | Val v => k2 v end).
Proof. intros H1 H2. destruct r; auto. Qed.

Lemma closed_bind {X A} (t : task X) (k : X -> task A) : (forall x, closed_end (k x)) -> closed_end (t ≫= k).
Proof.
  intros Hk. induction t as [x|s b t IH|Y o k' IH|f].
  - apply Hk.
  - intros tns ph out a ph' Hne H. cbn in H. change (task_bind_ k t) with (t ≫= k) in H.
    destruct (says cfg (t ≫= k) tns ph) as [[[out1 a1] p]|] eqn:E; [|done]. injection H as _ _ <-. by eapply IH.
  - intros [|tn tns] ph out a ph' Hne H; [done|]. cbn in H. destruct (step_result cfg o tn ph) as [[x p]|] eqn:E; [|done].
    eapply IH; [by eapply step_not_new|exact H].
  - intros tns ph out a ph' _ H. done.
Qed.

(** A program that connects, complains when that fails, and goes on otherwise. *)
Definition connects (what : error_info -> bytes) (body : unit -> task unit) : task unit :=
  cr ← await op_connect;
  match cr with
  | Unexpected e => print cerr (what e)
  | Val u => body u
  end.

Lemma connects_inv what body (tns : list (turn (endpoint:=endpoint))) out a ph :
  says cfg (connects what body) tns ph_new = Some (out, a, ph) ->
  (exists e, out = [(cerr, what e)] /\ ph = ph_closed) \/
  exists tns' : list (turn (endpoint:=endpoint)), says cfg (body ()) tns' ph_open = Some (out, a, ph).
Proof.
  destruct tns as [|tn tns]; [done|]. cbn. destruct tn; try done.
  - destruct (hello_ok cfg ws); [|done].
    destruct (verdict ws) as [[]|e]; cbn [says task_bind_]; [by right; exists tns|]. intros [= <- _ <-]. left. by exists e.
  - destruct (unreachable_error r) as [e|]; [|done]. cbn. intros [= <- _ <-]. left. by exists e.
Qed.

Lemma connects_closed what body (tns : list (turn (endpoint:=endpoint))) out a ph :
  closed_end (body ()) -> says cfg (connects what body) tns ph_new = Some (out, a, ph) -> ph = ph_closed.
Proof.
  intros Hb H. apply connects_inv in H as [(e & _ & H)|(tns' & H)]; [done|]. by eapply Hb; [|exact H].
Qed.

End ends.

(** The tasks are binds and case distinctions that end in [close]. *)
Ltac closing :=
  repeat first
    [ apply closed_close
    | apply closed_bind; intros ?
    | apply closed_slot; intros ? ].

Section closed.

Context (other : string -> Z -> string) {endpoint : Type} (cfg : config).

Lemma incr_loop_closed n : forall i resp, ends_closed (endpoint:=endpoint) cfg (incr_loop other n i resp).
Proof. induction n as [|n IH]; intros i resp; cbn [incr_loop]; [closing|]. closing. apply IH. Qed.

Lemma examples_closed t :
  t ∈ [static_response_task other; dynamic_response_task other; pipeline_mixed_results_task other;
       request_timeout_task other; adapter_containers_task other] ->
  exists what body, t = connects what body /\ ends_closed (endpoint:=endpoint) cfg (body ()).
Proof.
  intros Ht. repeat (apply elem_of_cons in Ht as [->|Ht]); [..|by apply elem_of_nil in Ht].
  all: eexists _, _; split; [reflexivity|]; cbv beta; closing.
  apply incr_loop_closed.
Qed.

End closed.

(** ** Theorems *)


(** ** Dialogues *)

(** A server that is reached at once and greets, and a call that is written and
    answered at once. *)
Definition greets : turn (endpoint:=nat) := turn_connect 7 0%nat [1%nat] [hello_reply] 8 9 10.

Definition replies_to (cmds : list (list string)) (ws : list wire) : turn (endpoint:=nat) :=
  turn_answer 20 20 21 [wire_size (request_of (map (map s2b) cmds))] [(22, concat (encode <$> ws))] ws.

Definition ends : turn (endpoint:=nat) := turn_close 90 91 92.

Definition w_simple (s : string) : wire := Leaf (SLine kind.simple_string (s2b s)).
Definition w_error (s : string) : wire := Leaf (SLine kind.simple_error (s2b s)).
Definition w_int (z : Z) : wire := Leaf (SLine kind.integer (print_Z z)).
Definition w_bulk (s : string) : wire := Leaf (SBulk kind.bulk_string (print_Z (zlen (s2b s))) (s2b s)).
Definition w_array (ws : list wire) : wire := Agg kind.array (print_Z (zlen ws)) ws.
Definition w_map (ws : list wire) : wire := Agg kind.map (print_Z (zlen ws / 2)) ws.

Definition line (s : string) : bytes := s2b s ++ nl.

Definition static_dialogue : list (turn (endpoint:=nat)) :=
  [greets; replies_to [["SET"; "rediscoro:example:counter"; "41"]] [w_simple "OK"];
   replies_to [["INCR"; "rediscoro:example:counter"]; ["GET"; "rediscoro:example:counter"]] [w_int 42; w_bulk "42"]; ends]%string.

Definition dynamic_dialogue : list (turn (endpoint:=nat)) :=
  [greets; replies_to [["SET"; "rediscoro:example:counter:a"; "0"]] [w_simple "OK"];
   replies_to [["SET"; "rediscoro:example:counter:b"; "100"]] [w_simple "OK"];
   replies_to [["INCR"; "rediscoro:example:counter:a"]; ["INCR"; "rediscoro:example:counter:b"]; ["INCR"; "rediscoro:example:counter:a"]]
     [w_int 1; w_int 101; w_int 2]; ends]%string.

Definition mixed_dialogue : list (turn (endpoint:=nat)) :=
  [greets; replies_to [["SET"; "rediscoro:example:mixed:counter"; "not-an-integer"]] [w_simple "OK"];
   replies_to [["GET"; "rediscoro:example:mixed:counter"]; ["INCR"; "rediscoro:example:mixed:counter"]]
     [w_bulk "not-an-integer"; w_error "ERR value is not an integer or out of range"]; ends]%string.

(** Redis blocks on BLPOP: the request, written in two pieces, expires after
    100 ms. *)
Definition timeout_dialogue : list (turn (endpoint:=nat)) :=
  [greets; turn_expire 1000 1000 1001 [30; 29] 100001000; ends].

Definition containers_dialogue : list (turn (endpoint:=nat)) :=
  [greets; replies_to [["DEL"; "rediscoro:example:list"; "rediscoro:example:hash"]] [w_int 0];
   replies_to [["RPUSH"; "rediscoro:example:list"; "alpha"; "beta"; "gamma"]] [w_int 3];
   replies_to [["LRANGE"; "rediscoro:example:list"; "0"; "-1"]] [w_array [w_bulk "alpha"; w_bulk "beta"; w_bulk "gamma"]];
   replies_to [["HSET"; "rediscoro:example:hash"; "name"; "rediscoro"; "lang"; "cpp"]] [w_int 2];
   replies_to [["HGETALL"; "rediscoro:example:hash"]] [w_map [w_bulk "name"; w_bulk "rediscoro"; w_bulk "lang"; w_bulk "cpp"]];
   ends]%string.

Lemma example_config_usable : usable example_config /\ usable request_timeout_config.
Proof. by vm_compute. Qed.

(** What the programs print in these dialogues. *)
Theorem dialogue_outputs :
  says example_config (dynamic_response_task no_message) dynamic_dialogue ph_new =
    Some ([(cout, line "INCR #0 => 1"); (cout, line "INCR #1 => 101"); (cout, line "INCR #2 => 2")], (), ph_closed) /\
  says example_config (pipeline_mixed_results_task no_message) mixed_dialogue ph_new =
    Some ([(cout, line "GET  succeeded: not-an-integer");
           (cout, line "INCR failed as expected: rediscoro.server: redis error reply (ERR value is not an integer or out of range)")],
      (), ph_closed) /\
  says example_config (adapter_containers_task no_message) containers_dialogue ph_new =
    Some ([(cout, line "LRANGE -> vector<string>:"); (cout, line "  - alpha"); (cout, line "  - beta"); (cout, line "  - gamma");
           (cout, line "HGETALL -> map<string, string>:"); (cout, line "  lang = cpp"); (cout, line "  name = rediscoro")],
      (), ph_closed).
Proof. vm_compute. repeat split. Qed.

(** A PING that the server refuses: ping.cpp returns, and the connection stays
    open with nothing to stop its actor. *)
Definition refused_ping : list (turn (endpoint:=nat)) :=
  [greets; replies_to [["PING"]] [w_error "NOPERM this user has no permissions"]]%string.

Theorem ping_leaves_open :
  let out := [(cerr, line "PING failed: rediscoro.server: redis error reply (NOPERM this user has no permissions)")] in
  exists c, run_task no_message (ping_task no_message) refused_ping (client_new example_config) = Ret (Some (out, (), c)) /\
    is_connected c = true /\ stop_ c = false /\ actor_running_ c = true.
Proof.
  intros out.
  destruct (task_runs no_message example_config (ping_task no_message) refused_ping ph_new (client_new example_config) out () ph_open)
    as (c & Hr & (hs & Hrest) & _ & Ha & _); [apply example_config_usable|vm_compute; reflexivity|reflexivity|].
  exists c. split; [exact Hr|]. split; [by eapply rest_connected|]. by split; [apply Hrest|].
Qed.


