(* ===== verification/ReconnectTheorems.v ===== *)
(** * Theorems about reconnecting

    Every run of [do_reconnect]: its invariant at each suspension, its states,
    and the backoff between two attempts. *)

From S2P Require Import Prelude Kind Errors Charconv Buffer Message Parser Builder Adapter.
From S2P Require Import ParserInv ParserSafety ParserViews Wire WireParse.
From S2P Require Import Request RingQueue ResponseSink Pipeline PipelineSpec Config Connection Connect.
From S2P Require Import ConnectionSpec ConnectSpec ConnectTheorems.

(** ** Reconnecting *)

Section reconnect.

Context (other : string -> Z -> string) {endpoint : Type}.
Context (pow : double -> double -> double) (unspecified : double -> Z).

(** The delay the policy gives after [count] attempts. *)
Definition delay_ms (c : connection) (jitter count : Z) : Z :=
  (calculate_reconnect_delay pow unspecified (reconnection (cfg_ c)) count (generation_ c) jitter).1.

(** A connection that may be reconnected: failed, nothing pending. *)
Definition may_reconnect (c : connection) : Prop :=
  config_fits (cfg_ c) /\ stop_ c = false /\ nothing_pending c /\ storage_ok (parser_ c) /\
  state_ c = connection_state.FAILED.

(** The start of an attempt. *)
Definition attempting (c c' : connection) : Prop :=
  c' = set_parser (parser_reset (parser_ c)) (set_state connection_state.RECONNECTING c).

Lemma reconnect_attempt_ok jitter c :
  may_reconnect c ->
  exists c', reconnect_attempt (endpoint:=endpoint) jitter c = (c', jitter, at_attempt at_resolve) /\
    attempting c c' /\ ready_to_connect (set_state connection_state.RECONNECTING c) /\
    connect_inv (endpoint:=endpoint) (set_state connection_state.RECONNECTING c) c' at_resolve.
Proof.
  intros (Hfit & Hstop & Hn & Hsto & Hst). unfold reconnect_attempt. rewrite Hstop, Hst, bool_decide_false by done.
  cbn [orb]. set (ca := set_state connection_state.RECONNECTING c).
  assert (ready_to_connect ca) as Hr.
  { split; [by right|]. split; [done|]. split; [done|]. split; [|done]. destruct Hn as [? ? ?]. by constructor. }
  pose proof Hr as (_ & _ & _ & Hn' & _).
  destruct (do_connect_begin_ok (endpoint:=endpoint) ca ca eq_refl Hstop Hn' Hsto) as (c1 & Hb & Hinv).
  assert (c1 = set_parser (parser_reset (parser_ c)) ca) as ->.
  { unfold do_connect_begin in Hb. cbn [ca set_state stop_] in Hb. rewrite Hstop in Hb. by injection Hb as <-. }
  rewrite Hb. by eexists.
Qed.

(** The heads of the two loops, for a connection nobody closes. *)
Lemma backoff_turn_ok now deadline jitter c :
  may_reconnect c ->
  (now < deadline -> backoff_turn (endpoint:=endpoint) now deadline jitter c = (c, jitter, at_backoff deadline)) /\
  (deadline <= now -> backoff_turn (endpoint:=endpoint) now deadline jitter c = reconnect_attempt jitter c).
Proof.
  intros (_ & Hstop & _ & _ & Hst). unfold backoff_turn. rewrite Hstop, Hst, bool_decide_true by done.
  cbn [negb andb]. split; intros Hlt; destruct (deadline <=? now) eqn:E; bool_prop; try done; lia.
Qed.

Lemma reconnect_head_ok now jitter c :
  may_reconnect c ->
  exists jitter1, reconnect_head (endpoint:=endpoint) pow unspecified now jitter c = Ret (
    let d := delay_ms c jitter (reconnect_count_ c) in
    if 0 <? d then (c, jitter1, at_backoff (now + d * 1000000)) else reconnect_attempt jitter1 c).
Proof.
  intros Hm. pose proof Hm as (_ & Hstop & _ & _ & Hst). unfold reconnect_head, delay_ms.
  rewrite Hstop, Hst, bool_decide_false, bool_decide_true by done. cbn [orb assert mbind run_bind].
  destruct (calculate_reconnect_delay _ _ _ _ _ _) as [d j1]. cbn [fst]. exists j1. f_equal.
  destruct (0 <? d) eqn:E; [|done]. bool_prop. apply backoff_turn_ok; [done|lia].
Qed.

Section reconnect_run.

Context (c0 : connection) (Hm0 : may_reconnect c0).

Definition same_life (c : connection) : Prop :=
  cfg_ c = cfg_ c0 /\ generation_ c = generation_ c0 /\ Parser.limits_ (parser_ c) = Parser.limits_ (parser_ c0).

(** What each point of [do_reconnect] knows. *)
Definition reconnect_inv (c : connection) (pt : reconnect_point endpoint) : Prop :=
  match pt with
  | at_backoff _ => may_reconnect c /\ same_life c
  | at_attempt cp =>
    (forall res, cp <> finished res) /\
    exists ca, ready_to_connect ca /\ state_ ca = connection_state.RECONNECTING /\ same_life ca /\
      connect_inv ca c cp
  | reconnect_done => opened c0 c
  end.

Definition reconnect_ok (r : run (reconnect_result (endpoint:=endpoint))) : Prop :=
  exists c j pt, r = Ret (c, j, pt) /\ reconnect_inv c pt.

Lemma reconnect_attempt_inv jitter c :
  may_reconnect c -> same_life c -> reconnect_ok (Ret (reconnect_attempt jitter c)).
Proof.
  intros Hm Hl. destruct (reconnect_attempt_ok jitter c Hm) as (c' & -> & _ & Hr & Hinv).
  eexists _, _, _. split; [done|]. split; [done|]. by eexists.
Qed.

Lemma reconnect_head_inv now jitter c :
  may_reconnect c -> same_life c -> reconnect_ok (reconnect_head pow unspecified now jitter c).
Proof.
  intros Hm Hl. destruct (reconnect_head_ok now jitter c Hm) as [j1 ->]. cbv zeta.
  destruct (0 <? _); [by eexists _, _, _|by apply reconnect_attempt_inv].
Qed.

Lemma reconnect_after_inv now jitter ca c res :
  ready_to_connect ca -> same_life ca -> connect_inv (endpoint:=endpoint) ca c (finished res) ->
  reconnect_ok (reconnect_after pow unspecified now jitter res c).
Proof.
  intros (Hcs & Hfit & _) (Hl1 & Hl2 & Hl3) Hinv. destruct res as [[]|e]; cbn [connect_inv reconnect_after] in *.
  - destruct Hinv as (Hcfg & Hst & Hstop & Hso & Hgen & _ & Hn & Hp & Hd & H0 & Hlim). rewrite bool_decide_true by done.
    cbn [assert mbind run_bind]. eexists _, _, _. split; [done|].
    unfold reconnect_inv, opened. cbn. rewrite Hcfg, Hgen, Hl1, Hl2. do 6 (split; [done|]).
    split; [destruct Hn as [? ? ?]; by constructor|]. do 3 (split; [done|]). by rewrite Hlim.
  - destruct Hinv as ((Hcfg & Hst & Hstop & Hgen & Hwf & Hlim) & Hsm & Hn). apply reconnect_head_inv.
    + split; [cbn; by rewrite Hcfg|]. split; [done|]. split; [destruct Hn as [? ? ?]; by constructor|done].
    + split; [|split]; cbn; congruence.
Qed.

(** What the environment may resume [do_reconnect] with. *)
Definition reconnect_input_ok (pt : reconnect_point endpoint) (i : connect_input endpoint) (c : connection) : Prop :=
  match pt with at_attempt cp => input_ok cp i c | _ => True end.

Lemma reconnect_calm c c' pt :
  calm c c' -> pt <> reconnect_done -> reconnect_inv c pt -> reconnect_inv c' pt.
Proof.
  intros Hc Hpt. pose proof Hc as (H1 & H2 & H3 & H4 & H5 & _ & H7 & H8 & _).
  destruct pt as [d|cp|]; [| |done]; cbn [reconnect_inv].
  - unfold may_reconnect, same_life. rewrite H1, H2, H4, H5, H8. intros ((? & ? & Hn & ?) & ?).
    split; [|done]. split; [done|]. split; [done|]. split; [|done]. by eapply calm_conn_ok.
  - intros (Hf & ca & Hr & Hst & Hl & Hinv). split; [done|]. exists ca. do 3 (split; [done|]). by eapply calm_inv.
Qed.

Lemma do_reconnect_resume_inv now jitter pt i c r :
  reconnect_inv c pt -> reconnect_input_ok pt i c ->
  do_reconnect_resume other pow unspecified now jitter pt i c = Some r -> reconnect_ok r.
Proof.
  intros Hinv Hi Hr. destruct pt as [d|cp|]; cbn [do_reconnect_resume reconnect_inv reconnect_input_ok] in *; [| |done].
  - destruct Hinv as [Hm Hl]. destruct i; try done. injection Hr as <-.
    destruct (backoff_turn_ok now d jitter c Hm) as [Hlt Hge].
    destruct (Z.lt_ge_cases now d) as [Hd|Hd]; [rewrite Hlt by done; by eexists _, _, _|].
    rewrite Hge by done. by apply reconnect_attempt_inv.
  - destruct Hinv as (Hf & ca & Hrc & Hst & Hl & Hinv).
    destruct (do_connect_resume other now cp i c) as [r0|] eqn:E; [|done]. injection Hr as <-.
    pose proof Hrc as (Hcs & Hfit & _).
    destruct (do_connect_resume_ok other ca Hcs Hfit now cp i c r0 Hinv Hi E) as (c2 & cp2 & -> & Hinv2).
    cbn [mbind run_bind fst snd].
    destruct cp2; try (eexists _, _, _; split; [done|]; split; [done|]; by exists ca).
    by eapply reconnect_after_inv.
Qed.

(** The states a call of [do_reconnect] on [c0] goes through; the jitter state
    belongs to the thread, so others may advance it. *)
Inductive reconnect_run : connection -> reconnect_point endpoint -> Prop :=
| rec_begin now jitter c j pt :
    reconnect_head pow unspecified now jitter c0 = Ret (c, j, pt) -> reconnect_run c pt
| rec_resume now jitter i c c1 pt c2 j2 pt' :
    reconnect_run c pt -> calm c c1 -> reconnect_input_ok pt i c1 ->
    do_reconnect_resume other pow unspecified now jitter pt i c1 = Some (Ret (c2, j2, pt')) ->
    reconnect_run c2 pt'.

Lemma reconnect_run_inv c pt : reconnect_run c pt -> reconnect_inv c pt.
Proof.
  induction 1 as [now jitter c j pt Hh|now jitter i c c1 pt c2 j2 pt' _ IH Hcalm Hi Hr].
  - destruct (reconnect_head_inv now jitter c0 Hm0 (conj eq_refl (conj eq_refl eq_refl))) as (c' & j' & pt' & Hh' & Hinv).
    rewrite Hh in Hh'. by injection Hh' as -> -> ->.
  - assert (reconnect_inv c1 pt) as Hinv.
    { eapply reconnect_calm; [exact Hcalm| |exact IH]. by intros ->. }
    destruct (do_reconnect_resume_inv now jitter pt i c1 _ Hinv Hi Hr) as (c' & j' & pt2 & [= -> -> ->] & Hok). done.
Qed.

(** C22: reconnecting is safe and never gives up.  In every run of
    [do_reconnect] that nobody closes, and in which no attempt reads bytes
    after the buffer was moved under a half-read value with texts
    ([reconnect_input_ok], [input_ok]), however many attempts fail and for
    whatever other reason, no assertion fails; while it sleeps the state is
    [FAILED], during an attempt it is [RECONNECTING], and when it returns the
    connection is open in the next generation with nothing pending and the
    attempt count reset.  (The reads left out fault, see
    [split_handshake_faults].) *)
Theorem do_reconnect_safe c pt :
  reconnect_run c pt ->
  (forall now jitter i c1 r, calm c c1 -> reconnect_input_ok pt i c1 ->
     do_reconnect_resume other pow unspecified now jitter pt i c1 = Some r ->
     exists c2 j pt', r = Ret (c2, j, pt')) /\
  match pt with
  | at_backoff _ => state_ c = connection_state.FAILED /\ nothing_pending c
  | at_attempt _ => state_ c = connection_state.RECONNECTING
  | reconnect_done => opened c0 c
  end.
Proof.
  intros Hrun. pose proof (reconnect_run_inv c pt Hrun) as Hinv. split.
  - intros now jitter i c1 r Hcalm Hi Hr.
    assert (reconnect_inv c1 pt) as Hinv1.
    { eapply reconnect_calm; [exact Hcalm| |exact Hinv]. by intros ->. }
    destruct (do_reconnect_resume_inv now jitter pt i c1 r Hinv1 Hi Hr) as (c2 & j & pt' & -> & _). eauto.
  - destruct pt as [d|cp|]; cbn [reconnect_inv] in Hinv; [|destruct Hinv as (Hf & ca & _ & Hst & _ & Hinv)|done].
    + destruct Hinv as [(_ & _ & Hn & _ & Hst) _]. done.
    + rewrite <- Hst. destruct cp as [|ep rest|slot buf|slot|slot [|]|slot|res]; try apply Hinv. by destruct (Hf res).
Qed.

End reconnect_run.

(** C23: the backoff is respected.  After an attempt failed at time [now], the
    attempt count has grown by one and the state is [FAILED]; if the policy
    gives a delay for that count, no wake-up before it has passed ends the
    sleep (unless it is a [close], which is not [calm]), and the first one
    after it starts the next attempt; without a delay the next attempt starts
    at once. *)
Theorem backoff_respected now jitter err c :
  config_fits (cfg_ c) -> stop_ c = false -> nothing_pending c -> storage_ok (parser_ c) ->
  let c1 := set_attempts (generation_ c) (reconnect_count_ c + 1) (set_state connection_state.FAILED c) in
  let d := delay_ms c jitter (reconnect_count_ c + 1) in
  exists j, reconnect_after (endpoint:=endpoint) pow unspecified now jitter (Unexpected err) c =
      Ret (if 0 <? d then (c1, j, at_backoff (now + d * 1000000)) else reconnect_attempt j c1) /\
    (forall c2 now2 j2, calm c1 c2 ->
       (now2 < now + d * 1000000 ->
          backoff_turn (endpoint:=endpoint) now2 (now + d * 1000000) j2 c2 = (c2, j2, at_backoff (now + d * 1000000))) /\
       (now + d * 1000000 <= now2 ->
          exists c3, backoff_turn (endpoint:=endpoint) now2 (now + d * 1000000) j2 c2 = (c3, j2, at_attempt at_resolve) /\
            attempting c2 c3)).
Proof.
  intros Hfit Hstop Hn Hsto c1 d. subst c1.
  set (c1 := set_attempts _ _ _).
  assert (may_reconnect c1) as Hm.
  { split; [done|]. split; [done|]. split; [destruct Hn as [? ? ?]; by constructor|done]. }
  destruct (reconnect_head_ok now jitter c1 Hm) as [j Hj]. exists j. split; [exact Hj|].
  intros c2 now2 j2 Hc. assert (may_reconnect c2) as Hm2.
  { pose proof Hc as (H1 & H2 & _ & H4 & _ & _ & _ & H8 & _).
    destruct Hm as (E1 & E2 & E3 & E4 & E5). unfold may_reconnect. rewrite H1, H2, H4, H8.
    split; [done|]. split; [done|]. split; [|done]. by eapply calm_conn_ok. }
  destruct (backoff_turn_ok now2 (now + d * 1000000) j2 c2 Hm2) as [Hlt Hge]. split; [exact Hlt|].
  intros Hle. rewrite (Hge Hle). destruct (reconnect_attempt_ok j2 c2 Hm2) as (c3 & Ha & Hat & _). eauto.
Qed.

End reconnect.

(** ** A failed connection *)

Definition failed_connection : connection :=
  set_state connection_state.FAILED (set_actor true 0 (connection_new default_config)).

Lemma failed_connection_ok : may_reconnect failed_connection.
Proof.
  split; [by vm_compute|]. split; [done|]. split; [|split; [|done]].
  - destruct (conn_ok_new default_config) as [_ Hi _]; [vm_compute; split; congruence|]. by constructor.
  - destruct (parser_new_inv default_limits) as [[Hwf _] Hsm]. done.
Qed.

(** The first attempt is immediate; its resolution fails, and so the next. *)
Lemma do_reconnect_safe_witness :
  exists c j pt, reconnect_head (endpoint:=nat) sample_pow (fun _ => 0) 1 jitter_seed failed_connection =
      Ret (c, j, pt) /\
    state_ c = connection_state.RECONNECTING /\
    exists c2 j2 pt2, do_reconnect_resume no_message sample_pow (fun _ => 0) 2 j pt
      (in_resolved (Unexpected io_timed_out)) c = Some (Ret (c2, j2, pt2)).
Proof.
  destruct (reconnect_head_ok (endpoint:=nat) sample_pow (fun _ => 0) 1 jitter_seed failed_connection
    failed_connection_ok) as [j Hj].
  destruct (reconnect_attempt_ok (endpoint:=nat) j failed_connection failed_connection_ok) as (c & Ha & _).
  assert (reconnect_head (endpoint:=nat) sample_pow (fun _ => 0) 1 jitter_seed failed_connection =
    Ret (c, j, at_attempt at_resolve)) as Hh by (rewrite Hj; cbv zeta; rewrite <- Ha; reflexivity).
  destruct (do_reconnect_safe no_message sample_pow (fun _ => 0) failed_connection failed_connection_ok c
    (at_attempt at_resolve) (rec_begin _ _ _ _ _ _ _ _ _ Hh)) as [Hs Hst].
  exists c, j, (at_attempt at_resolve). split; [exact Hh|]. split; [exact Hst|].
  destruct (Hs 2 j (in_resolved (Unexpected io_timed_out)) c _ ltac:(done) I eq_refl) as (c2 & j2 & pt2 & Hr).
  exists c2, j2, pt2. cbn [do_reconnect_resume do_connect_resume]. f_equal. exact Hr.
Defined.

Lemma backoff_respected_witness :
  exists j, reconnect_after (endpoint:=nat) sample_pow (fun _ => 0) 7 jitter_seed
      (Unexpected (client_error client_errc.connect_failed)) (set_attempts 1 5 failed_connection) =
    Ret (set_attempts 1 6 failed_connection, j, at_backoff (7 + 199 * 1000000)).
Proof.
  destruct (backoff_respected (endpoint:=nat) sample_pow (fun _ => 0) 7 jitter_seed
    (client_error client_errc.connect_failed) (set_attempts 1 5 failed_connection)) as (j & Hr & _).
  - vm_compute. repeat split; discriminate.
  - reflexivity.
  - destruct failed_connection_ok as (_ & _ & [H1 H2 H3] & _). constructor; [exact H1|exact H2|exact H3].
  - apply failed_connection_ok.
  - exists j. rewrite Hr.
    replace (delay_ms _ _ _ _ _) with 199 by (vm_compute; reflexivity). reflexivity.
Defined.
