(* ===== verification/ActorSpec.v ===== *)
(** * The invariant of the system

    What the environment and the callers promise ([allowed]), what holds of the
    connection and its coroutines between two events ([sys_inv]), and that
    every piece of the loops keeps it. *)

From S2P Require Import Prelude Kind Errors Charconv Buffer Message Parser Builder Adapter.
From S2P Require Import ParserInv ParserSafety ParserViews Wire WireParse.
From S2P Require Import Request RingQueue ResponseSink Pipeline PipelineSpec Config Connection Connect.
From S2P Require Import ConnectionSpec ConnectSpec Tolerant Strand Actor ConnectTheorems ReconnectTheorems.

(** ** Frames *)

(** What only the loops, [connect] and [close] change, and notifications are
    not lost. *)
Definition core (c : connection) : config * bool * bool * bool * bool * nat :=
  (cfg_ c, stop_ c, read_in_flight_ c, write_in_flight_ c, actor_running_ c, actor_done_ c).

Definition same_core (c c' : connection) : Prop :=
  core c' = core c /\ (write_wakeup_ c <= write_wakeup_ c')%nat /\
  (read_wakeup_ c <= read_wakeup_ c')%nat /\ (control_wakeup_ c <= control_wakeup_ c')%nat.

Lemma core_fields c c' :
  core c' = core c ->
  cfg_ c' = cfg_ c /\ stop_ c' = stop_ c /\ read_in_flight_ c' = read_in_flight_ c /\
  write_in_flight_ c' = write_in_flight_ c /\ actor_running_ c' = actor_running_ c /\ actor_done_ c' = actor_done_ c.
Proof. unfold core. intros H. by injection H. Qed.

#[export] Instance same_core_preorder : PreOrder same_core.
Proof.
  split; [done|]. intros c1 c2 c3 (H1 & ? & ? & ?) (K1 & ? & ? & ?). split; [congruence|lia].
Qed.

Lemma same_core_event now k st f t e c : same_core c (emit_connection_event now k st f t e c).
Proof. unfold emit_connection_event. by destruct (negb _). Qed.

#[export] Instance same_core_tolerant : Tolerant same_core.
Proof.
  constructor; [constructor; try apply _; try done|done..].
  - intros w r k c. split; [done|]. destruct w, r, k; cbn; lia.
  - intros. apply same_core_event.
  - intros now c. unfold connect_succeeded, emit_connection_event. by destruct (negb _).
  - intros now err c c' H. unfold clear_pipeline in H. by run_inv.
Qed.

(** A request touches the pipeline, the sinks and the traces. *)
Definition shell (c : connection) :=
  (core c, socket_open c, state_ c, state_snapshot_ c, generation_ c, parser_ c, reconnect_count_ c).

Lemma shell_fields c c' :
  shell c' = shell c ->
  core c' = core c /\ socket_open c' = socket_open c /\ state_ c' = state_ c /\
  state_snapshot_ c' = state_snapshot_ c /\ generation_ c' = generation_ c /\ parser_ c' = parser_ c /\
  reconnect_count_ c' = reconnect_count_ c.
Proof. unfold shell, core. intros H. injection H. intros. repeat split; congruence. Qed.

Lemma reject_shell now start info err addr c c' :
  reject now start info err addr c = Ret c' -> shell c' = shell c.
Proof. unfold reject. intros H. run_inv. by destruct (_ && _). Qed.

Lemma trace_begin_shell r c : shell (trace_begin r c).2 = shell c.
Proof. unfold trace_begin. by destruct (trace_hooks_enabled _). Qed.

Lemma enqueue_impl_shell now start r addr c c' :
  enqueue_impl now start r addr c = Ret c' -> shell c' = shell c.
Proof.
  unfold enqueue_impl. pose proof (trace_begin_shell r c) as Hs. destruct (trace_begin r c) as [info c1]. cbn [snd] in Hs.
  rewrite <- Hs. clear Hs. intros H. destruct (refusal (state_ c1)); [by eapply reject_shell|].
  apply run_bind_Ret in H as ([p b] & _ & H). destruct b; cbn [negb fst snd] in H; [|by apply reject_shell in H].
  run_inv. by destruct (trace_hooks_enabled _).
Qed.

(** Nothing but sinks was added. *)
Definition still (c c' : connection) : Prop :=
  shell c' = shell c /\ pipeline_ c' = pipeline_ c /\
  (forall a s, sinks c !! a = Some s -> sinks c' !! a = Some s).

Lemma still_calm c c' : still c c' -> calm c c'.
Proof.
  intros (Hs & Hp & Hk). apply shell_fields in Hs as (Hc & H1 & H2 & H3 & H4 & H5 & H6).
  apply core_fields in Hc as (H7 & H8 & _). done.
Qed.

Lemma refused_still n err addr c c' :
  sinks c !! addr = None -> shell c' = shell c -> refused n err addr c c' -> still c c'.
Proof.
  intros Ha Hs (Hp & _ & s' & Hk & _). split; [done|]. split; [done|]. intros a s Has. rewrite Hk.
  rewrite lookup_insert_ne; [done|congruence].
Qed.

(** ** What is promised *)

Section system.

Context (other : string -> Z -> string) {endpoint : Type}.
Context (pow : double -> double -> double) (unspecified : double -> Z).

Abbreviation system := (system endpoint).
Abbreviation event := (event endpoint).

(** An operation on the socket succeeds only while the socket has not been
    closed since it began. *)
Definition io_ok (pt : connect_point endpoint) (live : bool) (i : connect_input endpoint) (c : connection) : Prop :=
  input_ok pt i c /\
  match i with in_written (Val _) | in_read (Val _) => live = true | _ => True end.

(** [connect] is called when no [connect], [close] or actor is around, or in a
    state in which it returns at once; not while the connection recovers from
    an error.  Without reconnection an actor may end unjoined and leave
    [actor_done_] notified: then [connect] must not follow. *)
Definition connect_allowed (s : system) : Prop :=
  match state_ (conn s) with
  | connection_state.OPEN | connection_state.CONNECTING | connection_state.CLOSING => True
  | connection_state.INIT | connection_state.CLOSED =>
    actor_running_ (conn s) = false /\ closers s = 0%nat /\
    (enabled (reconnection (cfg_ (conn s))) = true \/ actor_done_ (conn s) = 0%nat)
  | connection_state.FAILED | connection_state.RECONNECTING => False
  end.

(** [do_connect] has returned to [connect]. *)
Definition finishing (s : system) : bool :=
  match connector s with c_run (finished _) _ => true | _ => false end.

(** What the callers and the environment promise of an event: sinks are new,
    requests have commands, sizes fit, dead operations do not succeed;
    [connect] goes on as soon as [do_connect] has returned; [close] is not
    called before or during [connect]; the parser's storage is below 4 GiB and
    did not move under a half-read value. *)
Definition allowed (e : event) (s : system) : Prop :=
  let c := conn s in
  small (parser_ c) /\
  match e with
  | ev_connect_end _ => True
  | ev_enqueue _ _ types r addr =>
    finishing s = false /\ sinks c !! addr = None /\ types <> [] /\ reply_count r = zlen types
  | ev_enqueue_dynamic _ _ _ r addr => finishing s = false /\ sinks c !! addr = None /\ 0 < reply_count r
  | ev_enqueue_throws _ types _ _ addr => finishing s = false /\ sinks c !! addr = None /\ types <> []
  | ev_connect => finishing s = false /\ connect_allowed s
  | ev_close _ => connector s = c_idle /\ state_ c <> connection_state.INIT
  | ev_written _ r =>
    finishing s = false /\
    match r, writer s with
    | Val n, w_io buf live => live = true /\ 0 <= n <= zlen buf
    | _, _ => True
    end
  | ev_read _ r =>
    finishing s = false /\
    match r, reader s with
    | Val bs, r_io live =>
      live = true /\ texts_live (parser_ c) /\
      (length bs <= length (buffer_ (buf_ (parser_ c))) - write_pos_ (buf_ (parser_ c)))%nat
    | _, _ => True
    end
  | ev_connect_io _ i =>
    finishing s = false /\ match connector s with c_run pt live => io_ok pt live i c | _ => True end
  | ev_reconnect_io _ i =>
    finishing s = false /\
    match controller s with k_reconnect (at_attempt pt) live => io_ok pt live i c | _ => True end
  | _ => finishing s = false
  end.

(** The events of the three loops, a connection attempt apart. *)
Definition loop_event (e : event) : bool :=
  match e with
  | ev_writer | ev_written _ _ | ev_reader | ev_read _ _ | ev_control _ | ev_timer _ | ev_backoff _ _ => true
  | _ => false
  end.

#[export] Instance texts_live_dec p : Decision (texts_live p).
Proof. unfold texts_live, view_live. apply _. Defined.

#[export] Instance small_dec p : Decision (small p).
Proof. unfold small. apply _. Defined.

#[export] Instance io_ok_dec pt live i c : Decision (io_ok pt live i c).
Proof.
  unfold io_ok. apply and_dec; [|destruct i as [| |[]|[]| |]; apply _].
  destruct pt, i as [| |[]|[]| |]; cbn; apply _.
Defined.

#[export] Instance connector_idle_dec (k : connector_pc endpoint) : Decision (k = c_idle).
Proof. destruct k; [by left|by right..]. Defined.

#[export] Instance allowed_dec e s : Decision (allowed e s).
Proof.
  unfold allowed. cbv zeta. apply and_dec; [apply _|].
  destruct e as [| | | | | | | | | | |? r| |? r| | | |? i| |]; try apply _.
  - apply and_dec; [apply _|]. unfold connect_allowed. destruct (state_ (conn s)); apply _.
  - apply and_dec; [apply _|]. destruct (connector s); apply _.
  - apply and_dec; [apply _|]. destruct r, (writer s); apply _.
  - apply and_dec; [apply _|]. destruct r, (reader s); apply _.
  - apply and_dec; [apply _|]. destruct (controller s) as [| | |[]|]; apply _.
Defined.

(** ** The invariant *)

Definition is_w_io (w : writer_pc) : bool := match w with w_io _ _ => true | _ => false end.
Definition is_r_io (r : reader_pc) : bool := match r with r_io _ => true | _ => false end.

(** The guard of [do_write] is held while the writer is in it; a live write on
    an open socket is of the front of the queue, on an open connection. *)
Definition writer_ok (w : writer_pc) (c : connection) : Prop :=
  write_in_flight_ c = is_w_io w /\ (is_w_io w = true -> was_open (state_ c) = true) /\
  (forall buf, w = w_io buf true -> socket_open c = true ->
     state_ c = connection_state.OPEN /\ has_pending_write (pipeline_ c) = true /\
     next_write_buffer (pipeline_ c) = Ret buf).

Definition reader_ok (r : reader_pc) (c : connection) : Prop :=
  read_in_flight_ c = is_r_io r /\ (is_r_io r = true -> was_open (state_ c) = true) /\
  (r = r_io true -> socket_open c = true -> state_ c = connection_state.OPEN).

(** Some loop has ended. *)
Definition some_stopped (s : system) : bool :=
  match writer s, reader s, controller s with
  | w_stop, _, _ | _, r_stop, _ | _, _, k_stop => true
  | _, _, _ => false
  end.

(** The life of an actor: without one the state is [INIT] or [CLOSED]; it ends
    its loops only when a stop was requested, and only its end writes
    [CLOSED]. *)
Record life_ok (s : system) : Prop := {
  life_none : actor_running_ (conn s) = false ->
    loops_over s = true /\ ended s = false /\ connector s = c_idle /\
    (state_ (conn s) = connection_state.INIT /\ stop_ (conn s) = false \/ state_ (conn s) = connection_state.CLOSED);
  life_started : actor_running_ (conn s) = true -> state_ (conn s) <> connection_state.INIT;
  life_ended : ended s = true ->
    loops_over s = true /\ connector s = c_idle /\ state_ (conn s) = connection_state.CLOSED;
  life_closed : actor_running_ (conn s) = true -> state_ (conn s) = connection_state.CLOSED -> ended s = true;
  life_stopped : actor_running_ (conn s) = true -> some_stopped s = true -> stop_ (conn s) = true;
}.

(** A connection attempt that [close] has cut off: a stop is requested, and
    whoever waits for the handshake has its result. *)
Definition shaken (c : connection) (pt : connect_point endpoint) (live : bool) : Prop :=
  nothing_pending c /\ state_ c = connection_state.CLOSING /\ stop_ c = true /\
  match pt with
  | at_write slot _ | at_read slot => (live = true -> socket_open c = false) /\ collected slot c
  | at_join slot (Val _) | at_wait slot => collected slot c
  | finished _ => False
  | _ => True
  end.

(** The connection under [connect] and the control loop. *)
Definition mode_ok (k : connector_pc endpoint) (l : control_pc endpoint) (c : connection) : Prop :=
  match k with
  | c_spawned => ready_to_connect c /\ state_ c = connection_state.CONNECTING
  | c_run pt _ =>
    exists c0, ready_to_connect c0 /\ state_ c0 = connection_state.CONNECTING /\ connect_inv c0 c pt
  | c_close =>
    state_ c = connection_state.CONNECTING /\ nothing_pending c /\ actor_running_ c = true
  | c_idle =>
    match l with
    | k_reconnect (at_backoff _) _ =>
      may_reconnect c \/ state_ c = connection_state.CLOSING /\ stop_ c = true
    | k_reconnect (at_attempt pt) live =>
      (exists c0, ready_to_connect c0 /\ state_ c0 = connection_state.RECONNECTING /\ connect_inv c0 c pt /\
         forall res, pt <> finished res) \/
      shaken c pt live
    | k_reconnect reconnect_done _ => False
    | _ =>
      match state_ c with
      | connection_state.CONNECTING | connection_state.RECONNECTING => False
      | connection_state.CLOSING => stop_ c = true
      | _ => True
      end
    end
  end.

(** A [connect] has an actor, and no reconnection beside it. *)
Definition connector_ok (s : system) : Prop :=
  connector s <> c_idle ->
  actor_running_ (conn s) = true /\ stop_ (conn s) = false /\ forall rp live, controller s <> k_reconnect rp live.

(** [actor_done_] is notified once per actor; with reconnection only [close]
    stops an actor, so somebody waits for it. *)
Definition done_ok (n : nat) (c : connection) : Prop :=
  (actor_running_ c = true -> actor_done_ c = 0%nat) /\
  ((0 < actor_done_ c)%nat -> state_ c = connection_state.CLOSED) /\
  (enabled (reconnection (cfg_ c)) = true ->
     (actor_done_ c <= n)%nat /\ (actor_running_ c = true -> stop_ c = true -> (0 < n)%nat)).

Record sys_inv (s : system) : Prop := {
  si_fits : config_fits (cfg_ (conn s));
  si_ok : exists pend await, conn_ok (conn s) pend await;
  si_buf : buffer_wf (buf_ (parser_ (conn s)));
  si_parser : state_ (conn s) = connection_state.OPEN -> parser_inv (parser_ (conn s));
  si_writer : writer_ok (writer s) (conn s);
  si_reader : reader_ok (reader s) (conn s);
  si_life : life_ok s;
  si_connector : connector_ok s;
  si_mode : mode_ok (connector s) (controller s) (conn s);
  si_done : done_ok (closers s) (conn s);
}.

Lemma sys_inv_new cfg :
  config_fits cfg -> 0 <= max_pending_write_bytes (queue_limits cfg) <= u64_max -> sys_inv (system_new cfg).
Proof.
  intros Hf Hl. destruct (parser_new_inv (resp_limits cfg)) as [Hp _]. constructor; try done.
  - eexists _, _. by apply conn_ok_new.
  - apply Hp.
  - constructor; try done. intros _. repeat (split; [done|]). by left.
  - by split; [|split; [cbn; lia|split; [cbn; lia|]]].
Qed.

(** Ending what is in flight on a closed socket. *)
Lemma settle_inv s : sys_inv s -> sys_inv (settle s).
Proof.
  intros [H1 H2 H3 H4 H5 H6 [L1 L2 L3 L4 L5] H7 H8 H9]. destruct s as [c w r k cn e n j]. unfold settle. cbn in *.
  constructor; cbn; try done.
  - destruct w as [| |buf live|]; try done. destruct H5 as (? & ? & Hb). split; [done|]. split; [done|].
    intros buf' [= <- Hl]. apply andb_true_iff in Hl as [-> ?]. by apply Hb.
  - destruct r as [| |live|]; try done. destruct H6 as (? & ? & Hb). split; [done|]. split; [done|].
    intros [= Hl]. apply andb_true_iff in Hl as [-> ?]. by apply Hb.
  - constructor; cbn; try done.
    + intros Hr. destruct (L1 Hr) as (Ho & He & -> & Hst). split; [|done].
      unfold loops_over in *. cbn in *. by destruct w, r, k.
    + intros He. destruct (L3 He) as (Ho & -> & Hst). split; [|done]. unfold loops_over in *. cbn in *. by destruct w, r, k.
    + intros Hr Hs. apply L5; [done|]. unfold some_stopped in *. cbn in *. by destruct w, r, k.
  - intros Hc. destruct H7 as (? & ? & Hk); [by destruct cn|]. split; [done|]. split; [done|].
    intros rp live. destruct k as [| | |rp' live'|]; try done. by destruct (Hk rp' live').
  - destruct cn as [| |pt live|]; try done. destruct k as [| | |[d|pt|] live|]; try done. cbn in *.
    destruct H8 as [?|(Hn & Hst & Hsp & Hpt)]; [by left|right]. split; [done|]. split; [done|]. split; [done|].
    destruct pt; try done; destruct Hpt as [Hl ?]; (split; [|done]); intros [-> Hup]%andb_true_iff; by auto.
Qed.

(** ** Requests *)

Lemma collected_mono slot c c' :
  (forall a s, sinks c !! a = Some s -> sinks c' !! a = Some s) -> collected slot c -> collected slot c'.
Proof. intros Hk (s & Hs & Hw & Hc). exists s. by split; [apply Hk|]. Qed.

Lemma shaken_calm c c' pt live : calm c c' -> shaken c pt live -> shaken c' pt live.
Proof.
  intros Hc (Hn & Hst & Hsp & Hpt). pose proof Hc as (_ & H2 & _ & H4 & _ & H6 & _ & _ & _ & Hk).
  split; [by eapply calm_conn_ok|]. unfold shaken. rewrite H2, H4, H6. do 2 (split; [done|]).
  pose proof (fun slot => collected_mono slot c c' Hk) as Hm.
  destruct pt as [| | | |slot [|]| |]; naive_solver.
Qed.

Lemma may_reconnect_calm c c' : calm c c' -> may_reconnect c -> may_reconnect c'.
Proof.
  intros Hc. pose proof Hc as (H1 & H2 & _ & H4 & _ & _ & _ & H8 & _). intros (? & ? & Hn & ? & ?).
  unfold may_reconnect. rewrite H1, H2, H4, H8. do 2 (split; [done|]). split; [by eapply calm_conn_ok|done].
Qed.

Lemma mode_calm k l c c' :
  mode_ok k l c -> (forall res live, k <> c_run (finished res) live) -> calm c c' ->
  actor_running_ c' = actor_running_ c -> mode_ok k l c'.
Proof.
  intros Hm Hf Hc Hr. pose proof Hc as (H1 & H2 & _ & H4 & _ & _ & _ & H8 & _).
  pose proof (fun pend await => calm_conn_ok c c' pend await Hc) as Hok.
  destruct k as [| |pt live|]; cbn [mode_ok] in *.
  - destruct l as [| | |[d|pt|] live|]; rewrite ?H2, ?H4; try done.
    + destruct Hm as [Hm|?]; [left; by eapply may_reconnect_calm|by right].
    + destruct Hm as [(c0 & ? & ? & Hi & ?)|Hm]; [left; exists c0; by eauto using calm_inv|right; by eapply shaken_calm].
  - destruct Hm as [(? & ? & ? & Hn & ?) ?]. unfold ready_to_connect, connecting_state.
    rewrite H1, H2, H4, H8. split; [|done]. do 3 (split; [done|]). split; [by apply Hok|done].
  - destruct Hm as (c0 & ? & ? & Hi). exists c0. split; [done|]. split; [done|].
    eapply calm_inv; [exact Hc| |exact Hi]. intros res ->. by eapply Hf.
  - destruct Hm as (? & Hn & ?). rewrite H2, Hr. split; [done|]. by split; [apply Hok|].
Qed.

Lemma not_finishing s : finishing s = false -> forall res live, connector s <> c_run (finished res) live.
Proof. unfold finishing. intros H res live E. by rewrite E in H. Qed.

(** The rest of the invariant, when the coroutines stay where they are. *)
Lemma still_inv s c' :
  sys_inv s -> finishing s = false -> still (conn s) c' -> sys_inv (with_conn c' s).
Proof.
  intros [H1 (pend & await & H2) H3 H4 H5 H6 [L1 L2 L3 L4 L5] H7 H8 H9] Hfin Hs.
  pose proof (still_calm _ _ Hs) as Hc. destruct Hs as (Hs & Hp & _).
  apply shell_fields in Hs as (Hcore & E1 & E2 & E3 & E4 & E5 & E6).
  apply core_fields in Hcore as (K1 & K2 & K3 & K4 & K5 & K6).
  constructor; cbn [with_conn conn writer reader controller connector closers].
  - by rewrite K1.
  - exists pend, await. by eapply calm_conn_ok.
  - by rewrite E5.
  - rewrite E2, E5. done.
  - unfold writer_ok. rewrite K4, E1, E2, Hp. done.
  - unfold reader_ok. rewrite K3, E1, E2. done.
  - constructor; cbn [with_conn conn]; rewrite ?K5, ?E2, ?K2; done.
  - unfold connector_ok. cbn [with_conn conn connector controller]. rewrite K5, K2. done.
  - eapply mode_calm; [exact H8|by apply not_finishing|exact Hc|exact K5].
  - unfold done_ok. rewrite K1, K5, K6, E2, K2. done.
Qed.

(** In [OPEN] nobody connects. *)
Lemma open_mode s :
  sys_inv s -> finishing s = false -> state_ (conn s) = connection_state.OPEN ->
  connector s = c_idle /\ forall rp live, controller s <> k_reconnect rp live.
Proof.
  intros Hi Hf Ho. pose proof (si_mode _ Hi) as Hm.
  destruct (connector s) as [| |pt live|] eqn:Ek; cbn [mode_ok] in Hm.
  - split; [done|]. intros rp live El. rewrite El in Hm. destruct rp as [d|pt|]; [| |done].
    + destruct Hm as [(_ & _ & _ & _ & Hst)|[Hst _]]; by rewrite Ho in Hst.
    + destruct Hm as [(c0 & _ & Hst & Hci & Hnf)|(_ & Hst & _)]; [|by rewrite Ho in Hst].
      assert (state_ (conn s) = state_ c0) as E; [|by rewrite Ho, Hst in E].
      destruct pt as [|ep rest|slot buf|slot|slot [|]|slot|res]; try apply Hci. by destruct (Hnf res).
  - destruct Hm as [_ Hst]. by rewrite Ho in Hst.
  - exfalso. destruct Hm as (c0 & _ & Hst & Hci). unfold finishing in Hf. rewrite Ek in Hf.
    assert (state_ (conn s) = state_ c0) as E; [|by rewrite Ho, Hst in E].
    destruct pt as [|ep rest|slot buf|slot|slot [|]|slot|res]; try apply Hci. done.
  - destruct Hm as [Hst _]. by rewrite Ho in Hst.
Qed.

(** A loop is not over. *)
Definition alive (s : system) : Prop := actor_running_ (conn s) = true /\ ended s = false.

Lemma loops_alive s : sys_inv s -> loops_over s = false -> alive s.
Proof.
  intros Hi Ho. destruct (si_life _ Hi) as [L1 L2 L3 L4 L5]. split.
  - destruct (actor_running_ (conn s)) eqn:E; [done|]. destruct (L1 eq_refl) as [H _]. congruence.
  - destruct (ended s) eqn:E; [|done]. destruct (L3 eq_refl) as [H _]. congruence.
Qed.

Lemma writer_alive s : sys_inv s -> writer s <> w_stop -> alive s.
Proof. intros Hi Hw. apply loops_alive; [done|]. unfold loops_over. by destruct (writer s). Qed.

Lemma reader_alive s : sys_inv s -> reader s <> r_stop -> alive s.
Proof. intros Hi Hr. apply loops_alive; [done|]. unfold loops_over. by destruct (writer s), (reader s). Qed.

Lemma controller_alive s : sys_inv s -> controller s <> k_stop -> alive s.
Proof. intros Hi Hr. apply loops_alive; [done|]. unfold loops_over. by destruct (writer s), (reader s), (controller s). Qed.

Lemma alive_state s : sys_inv s -> alive s ->
  state_ (conn s) <> connection_state.INIT /\ state_ (conn s) <> connection_state.CLOSED.
Proof.
  intros Hi [Hr He]. destruct (si_life _ Hi) as [L1 L2 L3 L4 L5]. split; [by apply L2|].
  intros Hc. specialize (L4 Hr Hc). congruence.
Qed.

(** What belongs to [connect], [close] and the actor. *)
Definition owner (c : connection) : config * bool * bool * nat := (cfg_ c, stop_ c, actor_running_ c, actor_done_ c).

Lemma owner_fields c c' :
  owner c' = owner c ->
  cfg_ c' = cfg_ c /\ stop_ c' = stop_ c /\ actor_running_ c' = actor_running_ c /\ actor_done_ c' = actor_done_ c.
Proof. unfold owner. intros H. by injection H. Qed.

Lemma core_owner c c' : core c' = core c -> owner c' = owner c.
Proof. intros H. apply core_fields in H as (H1 & H2 & _ & _ & H3 & H4). unfold owner. congruence. Qed.

(** The loops of a running actor go on. *)
Lemma rebuild s c' w r k j :
  sys_inv s -> alive s -> owner c' = owner (conn s) ->
  (exists pend await, conn_ok c' pend await) -> buffer_wf (buf_ (parser_ c')) ->
  (state_ c' = connection_state.OPEN -> parser_inv (parser_ c')) ->
  state_ c' <> connection_state.INIT -> state_ c' <> connection_state.CLOSED ->
  writer_ok w c' -> reader_ok r c' ->
  (some_stopped (mk_system c' w r k (connector s) (ended s) (closers s) j) = true -> stop_ c' = true) ->
  mode_ok (connector s) k c' -> (connector s <> c_idle -> forall rp live, k <> k_reconnect rp live) ->
  sys_inv (mk_system c' w r k (connector s) (ended s) (closers s) j).
Proof.
  intros [H1 H2 H3 H4 H5 H6 [L1 L2 L3 L4 L5] H7 H8 H9] [Hr He] Ho Hok Hb Hp Hi Hc Hw Hrd Hst Hm Hk.
  apply owner_fields in Ho as (E1 & E2 & E3 & E4). constructor; cbn; try done.
  - by rewrite E1.
  - constructor; cbn; try done.
    + by rewrite E3, Hr.
    + by rewrite He.
  - intros Hcn. destruct (H7 Hcn) as (K1 & K2 & _). cbn in *. rewrite E2, E3. by auto.
  - destruct H9 as (D1 & D2 & D3). unfold done_ok. rewrite E1, E2, E3, E4. split; [done|]. split; [|done].
    rewrite (D1 Hr). lia.
Qed.

(** ** The writer *)

Lemma write_loop_spec c pend await :
  conn_ok c pend await -> write_in_flight_ c = false ->
  exists c' w, write_loop c = Ret (c', w) /\
    ((w = w_stop /\ c' = c /\ (stop_ c = true \/ state_ c = connection_state.CLOSED)) \/
     (w = w_wait /\ c' = c /\ stop_ c = false /\
        (state_ c <> connection_state.OPEN \/ has_pending_write (pipeline_ c) = false)) \/
     (exists buf, w = w_io buf true /\ c' = set_in_flight (read_in_flight_ c) true c /\
        state_ c = connection_state.OPEN /\ has_pending_write (pipeline_ c) = true /\
        next_write_buffer (pipeline_ c) = Ret buf)).
Proof.
  intros Hok Hfl. unfold write_loop, write_loop_head.
  destruct (stop_ c) eqn:Hs; cbn [orb]; [eexists _, _; split; [done|]; by left; auto|].
  case_bool_decide as Hcl; [eexists _, _; split; [done|]; by left; auto|].
  case_bool_decide as Hop; cbn [orb]; [eexists _, _; split; [done|]; by right; left; auto|].
  destruct (has_pending_write (pipeline_ c)) eqn:Hp; cbn [negb]; [|eexists _, _; split; [done|]; right; left; auto].
  assert (state_ c = connection_state.OPEN) as Ho by (by destruct (decide (state_ c = connection_state.OPEN))).
  destruct (has_pending_write_front _ _ _ _ (ok_inv _ _ _ Hok) Hp) as (it & pend' & ->).
  pose proof (next_write_buffer_eq _ _ _ _ _ (ok_inv _ _ _ Hok)) as Hb.
  unfold do_write_begin. rewrite bool_decide_false by (intros Hx; by apply Hx). rewrite Hfl. cbn [negb assert mbind run_bind].
  unfold do_write_next. cbn [set_in_flight stop_ state_ pipeline_]. rewrite Hs, bool_decide_true, Hp by done.
  cbn [negb andb]. rewrite Hb. cbn [mbind run_bind]. eexists _, _. split; [done|]. right. right. by eexists.
Qed.

Lemma in_flight_calm c r w : calm c (set_in_flight r w c).
Proof. by repeat split. Qed.

Lemma flags_conn_ok r w c pend await : conn_ok c pend await -> conn_ok (set_in_flight r w c) pend await.
Proof. intros [? ? ?]. by constructor. Qed.

Lemma writer_head_inv s :
  sys_inv s -> finishing s = false -> writer s = w_head \/ writer s = w_wait ->
  exists c' w, write_loop (conn s) = Ret (c', w) /\ sys_inv (with_writer c' w s).
Proof.
  intros Hi Hf Hw. assert (writer s <> w_stop /\ is_w_io (writer s) = false) as [Hns Hnio]
    by (by destruct Hw as [-> | ->]).
  pose proof (writer_alive s Hi Hns) as Hal.
  destruct (alive_state s Hi Hal) as [Hni Hnc]. destruct (si_ok _ Hi) as (pend & await & Hok).
  destruct (si_writer _ Hi) as (Hfl & _). rewrite Hnio in Hfl.
  assert (forall w c', calm (conn s) c' -> owner c' = owner (conn s) -> read_in_flight_ c' = read_in_flight_ (conn s) ->
    writer_ok w c' -> (w = w_stop -> stop_ (conn s) = true) -> sys_inv (with_writer c' w s)) as Hgo.
  { intros w c' Hc Ho Hrf Hwk Hst. pose proof Hc as (_ & E2 & _ & E4 & _ & E6 & _ & E8 & _).
    pose proof (owner_fields _ _ Ho) as (_ & _ & E3 & _).
    apply rebuild; try done; rewrite ?E2, ?E8.
    - exists pend, await. by eapply calm_conn_ok.
    - apply Hi.
    - apply Hi.
    - done.
    - done.
    - unfold reader_ok. rewrite E2, E6, Hrf. apply (si_reader _ Hi).
    - rewrite E4. intros Hs. assert (w = w_stop \/ some_stopped s = true) as [Hx|Hx]
        by (unfold some_stopped in *; cbn in Hs; destruct Hw as [-> | ->]; destruct w; auto); [by apply Hst|].
      apply (life_stopped _ (si_life _ Hi)); [apply Hal|done].
    - eapply mode_calm; [apply Hi|by apply not_finishing|exact Hc|done].
    - intros Hcn. apply (si_connector _ Hi Hcn). }
  destruct (write_loop_spec (conn s) pend await Hok Hfl) as (c' & w & Hr & Hcase). exists c', w. split; [exact Hr|].
  destruct Hcase as [(-> & -> & Hst)|[(-> & -> & _)|(buf & -> & -> & Hop & Hp & Hb)]]; apply Hgo; try done.
  - intros _. destruct Hst as [?|Hst]; [done|by rewrite Hst in Hnc].
  - split; [done|]. split; [cbn; by rewrite Hop|]. by intros buf' [= <-].
Qed.

(** What is live is on an open socket. *)
Definition settled (s : system) : Prop :=
  (forall buf, writer s = w_io buf true -> socket_open (conn s) = true) /\
  (reader s = r_io true -> socket_open (conn s) = true) /\
  (forall pt, controller s = k_reconnect pt true -> socket_open (conn s) = true).

Lemma settle_settled s : settled (settle s).
Proof.
  destruct s as [c w r k cn e n j]. unfold settled, settle. cbn.
  split; [|split]; [intros buf H|intros H|intros pt H].
  - destruct w; try done. injection H as _ H. by apply andb_true_iff in H as [_ ?].
  - destruct r; try done. injection H as H. by apply andb_true_iff in H as [_ ?].
  - destruct k; try done. injection H as _ H. by apply andb_true_iff in H as [_ ?].
Qed.

(** An error reported to [handle_error]: ignored, or the connection fails. *)
Lemma handle_error_effect now err c pend await :
  conn_ok c pend await -> was_open (state_ c) = true ->
  exists c1, handle_error now err c = Ret c1 /\ same_core c c1 /\
    ((state_ c <> connection_state.OPEN /\ c1 = c) \/
     (state_ c = connection_state.OPEN /\ state_ c1 = connection_state.FAILED /\ nothing_pending c1 /\
      socket_open c1 = false /\ parser_ c1 = parser_ c)).
Proof.
  intros Hok Hw. destruct (handle_error_ok now err c pend await Hok Hw) as (c1 & Hh & Hd & _).
  exists c1. split; [done|]. split; [exact (tol_handle_error same_core now err c c1 Hh)|].
  destruct Hd as [?|[Ho (Hn & Hst & Hso & _ & _ & _ & Hp & _)]]; [by left|right]. done.
Qed.

(** After a read or a write: nothing changed, or an open connection goes on or
    has failed. *)
Lemma io_rebuild s c' w r :
  sys_inv s -> finishing s = false -> alive s -> owner c' = owner (conn s) ->
  (exists pend await, conn_ok c' pend await) -> buffer_wf (buf_ (parser_ c')) ->
  (state_ c' = connection_state.OPEN -> parser_inv (parser_ c')) ->
  calm (conn s) c' \/
    state_ (conn s) = connection_state.OPEN /\
    (state_ c' = connection_state.OPEN \/ state_ c' = connection_state.FAILED) ->
  writer_ok w c' -> reader_ok r c' -> (w = w_stop -> writer s = w_stop \/ stop_ (conn s) = true) ->
  (r = r_stop -> reader s = r_stop \/ stop_ (conn s) = true) ->
  sys_inv (mk_system c' w r (controller s) (connector s) (ended s) (closers s) (jitter s)).
Proof.
  intros Hi Hf Hal Ho Hok Hb Hp Hd Hw Hr Hws Hrs. destruct (alive_state s Hi Hal) as [Hni Hnc].
  pose proof (owner_fields _ _ Ho) as (_ & E2 & E3 & _). apply rebuild; try done.
  - destruct Hd as [(_ & -> & _)|(_ & [-> | ->])]; done.
  - destruct Hd as [(_ & -> & _)|(_ & [-> | ->])]; done.
  - rewrite E2. intros Hs. destruct (some_stopped s) eqn:Hx; [apply (life_stopped _ (si_life _ Hi)); [apply Hal|done]|].
    unfold some_stopped in *. cbn in Hs.
    assert (w = w_stop \/ r = r_stop) as [Hy|Hy]
      by (destruct w, r, (writer s), (reader s), (controller s); auto; done).
    + destruct (Hws Hy) as [Hz|?]; [|done]. by rewrite Hz in Hx.
    + destruct (Hrs Hy) as [Hz|?]; [|done]. rewrite Hz in Hx. by destruct (writer s).
  - destruct Hd as [Hc|(Hop & Hst)].
    + eapply mode_calm; [apply Hi|by apply not_finishing|exact Hc|exact E3].
    + destruct (open_mode s Hi Hf Hop) as [-> Hk]. cbn [mode_ok].
      destruct (controller s) as [| | |rp live|]; try (by destruct Hst as [-> | ->]). by destruct (Hk rp live).
  - intros Hcn. apply (si_connector _ Hi Hcn).
Qed.

(** A write completed: up to the head of the loop, or the next write. *)
Lemma written_inv n s buf live :
  sys_inv s -> settled s -> finishing s = false -> writer s = w_io buf live -> live = true -> 0 <= n <= zlen buf ->
  exists c1, on_write_done n (pipeline_ (conn s)) = Ret c1 /\
    forall c2, c2 = set_pipeline (sinks (conn s)) c1 (conn s) \/
        c2 = notify false true false (set_pipeline (sinks (conn s)) c1 (conn s)) ->
    (forall buf', has_pending_write c1 = true -> next_write_buffer c1 = Ret buf' ->
       sys_inv (with_writer c2 (w_io buf' true) s)) /\
    sys_inv (with_writer (set_in_flight (read_in_flight_ c2) false c2) w_head s) /\
    (has_pending_write c1 = true -> exists buf', next_write_buffer c1 = Ret buf').
Proof.
  intros Hi (Hso & _) Hf Hw -> Hn. pose proof (writer_alive s Hi ltac:(by rewrite Hw)) as Hal.
  destruct (si_writer _ Hi) as (Hfl & _ & Hlive). rewrite Hw in Hfl.
  destruct (Hlive buf Hw (Hso buf Hw)) as (Hop & Hpw & Hnb). destruct (si_ok _ Hi) as (pend & await & Hok).
  destruct (has_pending_write_front _ _ _ _ (ok_inv _ _ _ Hok) Hpw) as (it & pend' & ->).
  rewrite (next_write_buffer_eq _ _ _ _ _ (ok_inv _ _ _ Hok)) in Hnb. injection Hnb as <-.
  destruct (on_write_done_inv _ _ _ _ _ n (ok_inv _ _ _ Hok) Hn) as (p' & Hd & _ & Hi').
  exists p'. split; [exact Hd|]. intros c2 Hc2.
  assert (exists pend2 await2, inv (sinks (conn s)) p' pend2 await2) as (pend2 & await2 & Hi2)
    by (destruct (_ =? _); eauto). clear Hi'.
  assert (forall fl, conn_ok (set_in_flight (read_in_flight_ c2) fl c2) pend2 await2 /\ conn_ok c2 pend2 await2) as Hok2.
  { intros fl. destruct Hok as [Hs _ _]. destruct Hc2 as [-> | ->]; split; constructor; try done; cbn; by rewrite Hop. }
  assert (state_ c2 = connection_state.OPEN /\ parser_ c2 = parser_ (conn s) /\ core c2 = core (conn s) /\
    pipeline_ c2 = p' /\ socket_open c2 = socket_open (conn s)) as (E1 & E2 & E3 & E4 & E5)
    by (destruct Hc2 as [-> | ->]; cbn; by repeat split).
  pose proof (core_fields _ _ E3) as (_ & _ & F1 & F2 & _).
  assert (reader_ok (reader s) c2) as Hrd.
  { assert (state_ c2 = state_ (conn s)) as E1' by congruence. unfold reader_ok. rewrite F1, E1', E5. apply (si_reader _ Hi). }
  split; [|split].
  - intros buf' Hp' Hb'. unfold with_writer. apply io_rebuild; try done; last by left.
    + by apply core_owner.
    + eexists _, _. apply (Hok2 true).
    + rewrite E2. apply Hi.
    + rewrite E2. intros _. by apply Hi.
    + right. by rewrite E1; auto.
    + split; [by rewrite F2, Hfl|]. rewrite E1, E4. split; [done|]. by intros ? [= <-].
  - unfold with_writer. apply io_rebuild; try done; last by left.
    + by apply core_owner in E3.
    + eexists _, _. apply (Hok2 false).
    + cbn. rewrite E2. apply Hi.
    + cbn. rewrite E2. intros _. by apply Hi.
    + right. cbn. by rewrite E1; auto.
  - intros Hp'. destruct (has_pending_write_front _ _ _ _ Hi2 Hp') as (it2 & pend3 & ->).
    eexists. by eapply next_write_buffer_eq.
Qed.

(** A reader or a writer in flight survives an error of the other. *)
Lemma reader_errored r c c1 w :
  reader_ok r c -> read_in_flight_ c1 = read_in_flight_ c ->
  c1 = c \/ state_ c1 = connection_state.FAILED /\ socket_open c1 = false ->
  reader_ok r (set_in_flight (read_in_flight_ c1) w c1).
Proof.
  intros (H1 & H2 & H3) Hf [-> | [Hst Hso]]; [done|]. unfold reader_ok. cbn. rewrite Hf, Hst, Hso. done.
Qed.

Lemma writer_failed_inv now e s buf live :
  sys_inv s -> finishing s = false -> writer s = w_io buf live ->
  exists c1, do_write_resume now (Unexpected e) (conn s) = Ret (c1, None) /\ sys_inv (with_writer c1 w_head s).
Proof.
  intros Hi Hf Hw. pose proof (writer_alive s Hi ltac:(by rewrite Hw)) as Hal.
  destruct (si_writer _ Hi) as (_ & Hwo & _). rewrite Hw in Hwo. specialize (Hwo eq_refl).
  destruct (si_ok _ Hi) as (pend & await & Hok).
  assert (exists c1, (if is_aborted e && shutting_down (state_ (conn s)) then Ret (conn s)
      else handle_error now (client_error client_errc.write_error) (conn s)) = Ret c1 /\ same_core (conn s) c1 /\
    (c1 = conn s \/ (state_ (conn s) = connection_state.OPEN /\ state_ c1 = connection_state.FAILED /\
       nothing_pending c1 /\ socket_open c1 = false /\ parser_ c1 = parser_ (conn s)))) as (c1 & Hc1 & Hs & Hd).
  { destruct (_ && _); [eexists; split; [done|]; split; [done|by left]|].
    destruct (handle_error_effect now (client_error client_errc.write_error) _ _ _ Hok Hwo)
      as (c1 & ? & ? & [[_ ?]|?]); eauto 10. }
  cbn [do_write_resume]. rewrite Hc1. cbn [mbind run_bind]. eexists. split; [done|].
  destruct Hs as (Hs & _). pose proof (core_fields _ _ Hs) as (_ & _ & F1 & _).
  apply core_owner in Hs. unfold with_writer. apply io_rebuild; try done; last by left.
  - destruct Hd as [-> | (_ & _ & Hn & _)]; eexists _, _; by apply flags_conn_ok.
  - destruct Hd as [-> | (_ & _ & _ & _ & Hp)]; [apply Hi|]. cbn. rewrite Hp. apply Hi.
  - destruct Hd as [-> | (_ & Hst & _)]; [apply Hi|]. cbn. by rewrite Hst.
  - destruct Hd as [-> | (Hop & Hst & _)]; [left; apply in_flight_calm|right; cbn; auto].
  - eapply reader_errored; [apply Hi|done|]. destruct Hd as [?|(_ & ? & _ & ? & _)]; auto.
Qed.

Lemma writer_resume_inv now r s buf live :
  sys_inv s -> settled s -> finishing s = false -> writer s = w_io buf live ->
  (forall n, r = Val n -> live = true /\ 0 <= n <= zlen buf) ->
  exists c' w, write_loop_resume now r (conn s) = Ret (c', w) /\ sys_inv (with_writer c' w s).
Proof.
  intros Hi Hs Hf Hw Hr. unfold write_loop_resume.
  assert (forall c1, sys_inv (with_writer c1 w_head s) ->
    exists c' w, write_loop c1 = Ret (c', w) /\ sys_inv (with_writer c' w s)) as Hhead.
  { intros c1 Hi1. by destruct (writer_head_inv _ Hi1 Hf (or_introl eq_refl)) as (c' & w & ? & ?); exists c', w. }
  destruct r as [n|e].
  - destruct (Hr n eq_refl) as [Hl Hn]. destruct (written_inv n s buf live Hi Hs Hf Hw Hl Hn) as (p1 & Hd & Hnext).
    cbn [do_write_resume]. rewrite Hd. cbn [mbind run_bind].
    set (c2 := if has_pending_read p1 then _ else _).
    destruct (Hnext c2) as (Hio & Hh & Hbuf); [unfold c2; destruct (has_pending_read p1); auto|].
    assert (pipeline_ c2 = p1) as Hp by (unfold c2; by destruct (has_pending_read p1)).
    unfold do_write_next. rewrite Hp.
    destruct (negb (stop_ c2) && bool_decide (state_ c2 = connection_state.OPEN)); cbn [andb]; [|by apply Hhead].
    destruct (has_pending_write p1); [|by apply Hhead]. destruct (Hbuf eq_refl) as (buf' & Hb). rewrite Hb.
    cbn [mbind run_bind]. exists c2, (w_io buf' true). split; [done|]. by apply Hio.
  - destruct (writer_failed_inv now e s buf live Hi Hf Hw) as (c1 & H1 & Hi1). rewrite H1. cbn [mbind run_bind].
    by apply Hhead.
Qed.

(** ** The reader *)

Lemma read_loop_spec c :
  read_in_flight_ c = false -> small (parser_ c) -> (state_ c = connection_state.OPEN -> parser_inv (parser_ c)) ->
  exists c' r, read_loop c = Ret (c', r) /\
    ((r = r_stop /\ c' = c /\ (stop_ c = true \/ state_ c = connection_state.CLOSED)) \/
     (r = r_wait /\ c' = c /\ stop_ c = false /\ state_ c <> connection_state.OPEN) \/
     (exists b, r = r_io true /\ c' = set_parser (set_buf b (parser_ c)) (set_in_flight true (write_in_flight_ c) c) /\
        state_ c = connection_state.OPEN /\ parser_inv (set_buf b (parser_ c)) /\ buffer_wf b)).
Proof.
  intros Hfl Hsm Hp. unfold read_loop, read_loop_head.
  destruct (stop_ c) eqn:Hs; cbn [orb]; [eexists _, _; split; [done|]; by left; auto|].
  case_bool_decide as Hcl; [eexists _, _; split; [done|]; by left; auto|].
  case_bool_decide as Hop; [eexists _, _; split; [done|]; by right; left; auto|].
  assert (state_ c = connection_state.OPEN) as Ho by (by destruct (decide (state_ c = connection_state.OPEN))).
  unfold do_read_begin. rewrite bool_decide_false by (intros Hx; by apply Hx). rewrite Hfl. cbn [negb assert mbind run_bind].
  destruct (parser_prepare_inv (parser_ c) prepare_default (Hp Ho) Hsm) as (b & Hb & Hpi & Hwf); [by vm_compute|].
  rewrite Hb. cbn [mbind run_bind]. eexists _, _. split; [done|]. right. right. by exists b.
Qed.

(** A reader at the head of its loop. *)
Lemma reader_head_inv s :
  sys_inv s -> finishing s = false -> reader s = r_head \/ reader s = r_wait -> small (parser_ (conn s)) ->
  exists c' r, read_loop (conn s) = Ret (c', r) /\ sys_inv (with_reader c' r s).
Proof.
  intros Hi Hf Hr Hsm. assert (reader s <> r_stop /\ is_r_io (reader s) = false) as [Hns Hnio]
    by (by destruct Hr as [-> | ->]).
  pose proof (reader_alive s Hi Hns) as Hal.
  destruct (alive_state s Hi Hal) as [Hni Hnc]. destruct (si_reader _ Hi) as (Hfl & _). rewrite Hnio in Hfl.
  destruct (read_loop_spec (conn s) Hfl Hsm (si_parser _ Hi)) as (c' & r & Hl & Hcase). exists c', r. split; [exact Hl|].
  destruct Hcase as [(-> & -> & Hst)|[(-> & -> & _)|(b & -> & -> & Hop & Hp & Hb)]]; apply io_rebuild; try done;
    try apply Hi; auto.
  - by left.
  - intros _. destruct Hst as [?|Hst]; [by right|by rewrite Hst in Hnc].
  - by left.
  - destruct (si_ok _ Hi) as (pend & await & [? ? ?]). exists pend, await. by constructor.
  - split; [done|]. cbn. by rewrite Hop.
Qed.

Lemma do_read_end_core now r c c1 :
  do_read_end now r c = Ret c1 -> exists c', same_core c c' /\ c1 = set_in_flight false (write_in_flight_ c') c'.
Proof.
  unfold do_read_end. intros H. apply run_bind_Ret in H as (c' & H & [= <-]). exists c'. split; [|done].
  destruct r as [[|b bs]|e]; [exact (tol_handle_error same_core _ _ _ _ H)| |].
  - apply run_bind_Ret in H as (p1 & _ & H). exact (tol_read_loop same_core _ _ (set_parser p1 c) _ H).
  - destruct (_ && _); [by run_inv|exact (tol_handle_error same_core _ _ _ _ H)].
Qed.

(** The front of the queue is written as long as the queue has the same front
    and the connection is open. *)
Lemma writer_kept w c c' pend extra await await' :
  writer_ok w c -> conn_ok c pend await -> conn_ok c' (pend ++ extra) await' ->
  state_ c = connection_state.OPEN -> state_ c' = connection_state.OPEN ->
  write_in_flight_ c' = write_in_flight_ c -> (forall buf, w = w_io buf true -> socket_open c = true) -> writer_ok w c'.
Proof.
  intros (H1 & H2 & H3) Hok Hok' Ho Ho' Hf Hs. unfold writer_ok. rewrite Hf, Ho'. split; [done|]. split; [done|].
  intros buf Hw Hso. destruct (H3 buf Hw (Hs buf Hw)) as (_ & Hp & Hb). split; [done|].
  destruct (has_pending_write_front _ _ _ _ (ok_inv _ _ _ Hok) Hp) as (it & pend' & ->).
  rewrite (next_write_buffer_eq _ _ _ _ _ (ok_inv _ _ _ Hok)) in Hb.
  rewrite (next_write_buffer_eq _ _ _ _ _ (ok_inv _ _ _ Hok')). split; [|done].
  unfold has_pending_write. by rewrite (front_empty _ _ _ (inv_pend _ _ _ _ (ok_inv _ _ _ Hok'))).
Qed.

Lemma writer_failed w c c1 :
  writer_ok w c -> write_in_flight_ c1 = write_in_flight_ c ->
  state_ c1 = connection_state.FAILED -> socket_open c1 = false -> writer_ok w c1.
Proof. intros (H1 & H2 & H3) Hf Hst Hso. unfold writer_ok. rewrite Hf, Hst, Hso. done. Qed.

(** A read completed. *)
Lemma reader_done_inv now r s live :
  sys_inv s -> settled s -> finishing s = false -> small (parser_ (conn s)) -> reader s = r_io live ->
  (forall bs, r = Val bs -> live = true /\ texts_live (parser_ (conn s)) /\
     (length bs <= length (buffer_ (buf_ (parser_ (conn s)))) - write_pos_ (buf_ (parser_ (conn s))))%nat) ->
  exists c1, do_read_end now r (conn s) = Ret c1 /\ small (parser_ c1) /\ sys_inv (with_reader c1 r_head s).
Proof.
  intros Hi (Hsw & Hso & _) Hf Hsm Hr Hv. pose proof (reader_alive s Hi ltac:(by rewrite Hr)) as Hal.
  destruct (si_reader _ Hi) as (Hfl & Hwo & Hlive). rewrite Hr in Hfl, Hwo, Hlive, Hso. specialize (Hwo eq_refl).
  destruct (si_ok _ Hi) as (pend & await & Hok).
  destruct (decide (state_ (conn s) = connection_state.OPEN)) as [Hop|Hno].
  - destruct (do_read_end_ok now r (conn s) pend await Hok Hwo)
      as (c1 & Hd & Hrf & (pend' & await' & Hok' & Hpe) & Hst & [Hbw Hsm1] & Hp).
    { intros bs Hbs. destruct (Hv bs Hbs) as (_ & Htl & Hfit). split; [|done]. split; [by apply Hi|done]. }
    { split; [apply Hi|done]. }
    { apply Hi. }
    exists c1. split; [done|]. split; [done|]. unfold with_reader.
    apply io_rebuild; try done; try apply Hi; auto.
    + destruct (do_read_end_core now r _ _ Hd) as (c' & [Hc _] & ->). by apply core_owner in Hc.
    + eauto.
    + right. split; [done|]. rewrite <- Hop. destruct Hst as [?|[? _]]; auto.
    + destruct (do_read_end_core now r _ _ Hd) as (c' & [Hc _] & ->). apply core_fields in Hc as (_ & _ & _ & Hw & _).
      destruct Hst as [Hst|[Hst Hs1]]; [|by eapply writer_failed; [apply Hi|..]].
      rewrite Hop in Hst. rewrite (Hpe Hst), <- (app_nil_r pend) in Hok'.
      eapply writer_kept; [apply Hi|exact Hok|exact Hok'|done..].
  - assert (exists e, r = Unexpected e) as (e & ->).
    { destruct r as [bs|e]; [|by exists e]. destruct (Hv bs eq_refl) as [-> _]. by destruct Hno; apply Hlive, Hso. }
    exists (set_in_flight false (write_in_flight_ (conn s)) (conn s)). split; [|split; [done|]].
    + unfold do_read_end. destruct (_ && _); [done|].
      destruct (handle_error_effect now (client_error client_errc.connection_lost) _ _ _ Hok Hwo)
        as (c1 & -> & _ & [[_ ->]|[? _]]); done.
    + unfold with_reader. apply io_rebuild; try done; try apply Hi; auto.
      * eexists _, _. by apply flags_conn_ok.
      * left. apply in_flight_calm.
Qed.

Lemma reader_resume_inv now r s live :
  sys_inv s -> settled s -> finishing s = false -> small (parser_ (conn s)) -> reader s = r_io live ->
  (forall bs, r = Val bs -> live = true /\ texts_live (parser_ (conn s)) /\
     (length bs <= length (buffer_ (buf_ (parser_ (conn s)))) - write_pos_ (buf_ (parser_ (conn s))))%nat) ->
  exists c' r', read_loop_resume now r (conn s) = Ret (c', r') /\ sys_inv (with_reader c' r' s).
Proof.
  intros Hi Hs Hf Hsm Hr Hv. destruct (reader_done_inv now r s live Hi Hs Hf Hsm Hr Hv) as (c1 & Hd & Hsm1 & Hi1).
  unfold read_loop_resume. rewrite Hd. cbn [mbind run_bind].
  by destruct (reader_head_inv _ Hi1 Hf (or_introl eq_refl) Hsm1) as (c' & r' & ? & ?); exists c', r'.
Qed.

(** ** Requests *)

Lemma open_alive s : sys_inv s -> state_ (conn s) = connection_state.OPEN -> alive s.
Proof.
  intros Hi Ho. destruct (si_life _ Hi) as [L1 _ L3 _ _]. split.
  - destruct (actor_running_ (conn s)) eqn:E; [done|]. destruct (L1 eq_refl) as (_ & _ & _ & [[H _]|H]); by rewrite Ho in H.
  - destruct (ended s) eqn:E; [|done]. destruct (L3 eq_refl) as (_ & _ & H). by rewrite Ho in H.
Qed.

Lemma enqueue_impl_inv now start r addr s x n :
  sys_inv s -> settled s -> finishing s = false -> sinks (conn s) !! addr = None ->
  fresh_for n x -> reply_count r = Z.of_nat n ->
  exists c', enqueue_impl now start r addr (set_pipeline (<[addr := x]> (sinks (conn s))) (pipeline_ (conn s)) (conn s)) = Ret c' /\
    sys_inv (with_conn c' s).
Proof.
  intros Hi Hs Hf Ha Hx Hn. destruct (si_ok _ Hi) as (pend & await & Hok).
  destruct (enqueue_impl_ok now start r addr _ (conn s) x n pend await Hok Ha eq_refl Hx Hn) as (c' & He & Hres).
  exists c'. split; [done|]. apply enqueue_impl_shell in He.
  assert (forall err, refused n err addr (conn s) c' -> sys_inv (with_conn c' s)) as Hrf.
  { intros err Hr. apply still_inv; [done|done|]. by eapply refused_still. }
  destruct (refusal (state_ (conn s))) eqn:Eref; [by eapply Hrf; apply Hres|].
  destruct (has_room r (pipeline_ (conn s))); [|by eapply Hrf; apply Hres].
  assert (state_ (conn s) = connection_state.OPEN) as Hop by (by destruct (state_ (conn s))).
  destruct Hres as (Hst & Hok' & _). pose proof (open_alive s Hi Hop) as Hal.
  apply shell_fields in He as (Hc & E1 & E2 & E3 & E4 & E5 & E6). cbn in Hc, E1, E5.
  pose proof (core_fields _ _ Hc) as (_ & _ & F1 & F2 & _). cbn in F1, F2.
  unfold with_conn. apply io_rebuild; try done; auto.
  - by apply core_owner in Hc.
  - eauto.
  - rewrite E5. apply Hi.
  - rewrite E5. intros _. by apply Hi.
  - right. rewrite Hst. auto.
  - eapply writer_kept; [apply Hi|exact Hok|exact Hok'|done|by rewrite Hst|done|apply Hs].
  - unfold reader_ok. rewrite F1, E1, Hst. apply Hi.
Qed.

Lemma enqueue_inv now start types r addr s :
  sys_inv s -> settled s -> finishing s = false -> sinks (conn s) !! addr = None -> types <> [] ->
  reply_count r = zlen types ->
  exists c', enqueue now start types r addr (conn s) = Ret c' /\ sys_inv (with_conn c' s).
Proof.
  intros Hi Hs Hf Ha Hne Hc. unfold enqueue. rewrite (proj2 (Z.eqb_eq _ _) Hc). cbn [assert mbind run_bind].
  eapply enqueue_impl_inv; [done..|by apply fixed_sink_fresh|exact Hc].
Qed.

Lemma enqueue_dynamic_inv now start t r addr s :
  sys_inv s -> settled s -> finishing s = false -> sinks (conn s) !! addr = None -> 0 < reply_count r ->
  exists c', enqueue_dynamic now start t r addr (conn s) = Ret c' /\ sys_inv (with_conn c' s).
Proof. intros Hi Hs Hf Ha Hc. eapply enqueue_impl_inv; [done..|apply dynamic_sink_fresh|]; lia. Qed.

Lemma enqueue_throws_inv now types r ep addr s :
  sys_inv s -> finishing s = false -> sinks (conn s) !! addr = None -> types <> [] ->
  exists c', enqueue_throws now types r ep addr (conn s) = Ret c' /\ sys_inv (with_conn c' s).
Proof.
  intros Hi Hf Ha Hne. unfold enqueue_throws, enqueue_caught, fail_sink_with_current_exception.
  destruct (fixed_sink_fresh types Hne) as (Hwf & _). set (c0 := set_pipeline _ _ (conn s)).
  pose proof (trace_begin_fields r c0) as Ht. pose proof (trace_begin_shell r c0) as Hsh.
  destruct (trace_begin r c0) as [info c1]. cbv zeta in Ht. cbn [snd] in *. destruct Ht as (_ & _ & Hs & Hp & _).
  rewrite (deref_at _ addr (fixed_sink types)) by (rewrite Hs; apply lookup_insert_eq). cbn [mbind run_bind fst snd].
  destruct (fail_all_spec now (make_internal_error (Some ep) (s2b "enqueue dispatch")) _ Hwf) as (x & Hx & _).
  rewrite Hx. cbn [mbind run_bind]. eexists. split; [done|]. apply still_inv; [done|done|]. split; [exact Hsh|].
  split; [exact Hp|]. intros a y Hy. cbn. rewrite Hs. cbn. rewrite !lookup_insert_ne; [done|congruence..].
Qed.

(** ** The control loop *)

(** A notification is consumed. *)
Lemma wake_inv s w r k :
  sys_inv s -> finishing s = false -> sys_inv (with_conn (set_wakeups w r k (conn s)) s).
Proof. intros Hi Hf. by apply still_inv. Qed.

(** Not reconnecting. *)
Definition is_reconnect (k : control_pc endpoint) : bool := match k with k_reconnect _ _ => true | _ => false end.

Lemma mode_resting cn k k' c :
  is_reconnect k = false -> is_reconnect k' = false -> mode_ok cn k c -> mode_ok cn k' c.
Proof. intros H H'. destruct cn; [|done..]. by destruct k, k'. Qed.

(** While the connection is not open nothing is live. *)
Lemma dead_io s :
  sys_inv s -> settled s -> state_ (conn s) <> connection_state.OPEN ->
  (forall buf, writer s <> w_io buf true) /\ reader s <> r_io true.
Proof.
  intros Hi (Hw & Hr & _) Hno. split; [intros buf E|intros E]; apply Hno.
  - apply (si_writer _ Hi) with buf; [done|]. by eapply Hw.
  - apply (si_reader _ Hi); [done|]. by apply Hr.
Qed.

Lemma dead_writer_ok w c c' :
  writer_ok w c -> (forall buf, w <> w_io buf true) -> write_in_flight_ c' = write_in_flight_ c ->
  was_open (state_ c') = true -> writer_ok w c'.
Proof. intros (H1 & _) Hd Hf Hst. unfold writer_ok. rewrite Hf, Hst. split; [done|]. split; [done|]. intros buf E. by destruct (Hd buf). Qed.

Lemma dead_reader_ok r c c' :
  reader_ok r c -> r <> r_io true -> read_in_flight_ c' = read_in_flight_ c ->
  was_open (state_ c') = true -> reader_ok r c'.
Proof. intros (H1 & _) Hd Hf Hst. unfold reader_ok. rewrite Hf, Hst. done. Qed.

(** The control loop goes on while the connection is not open. *)
Lemma control_rebuild s c' k j :
  sys_inv s -> settled s -> alive s -> state_ (conn s) <> connection_state.OPEN ->
  core c' = core (conn s) -> (exists pend await, conn_ok c' pend await) -> buffer_wf (buf_ (parser_ c')) ->
  (state_ c' = connection_state.OPEN -> parser_inv (parser_ c')) ->
  was_open (state_ c') = true -> state_ c' <> connection_state.CLOSED ->
  (k = k_stop -> stop_ (conn s) = true) -> controller s <> k_stop -> mode_ok (connector s) k c' ->
  (connector s <> c_idle -> is_reconnect k = false) -> sys_inv (with_controller c' k j s).
Proof.
  intros Hi Hs Hal Hno Hc Hok Hb Hp Hst Hcl Hk Hks Hm Hcn. destruct (dead_io s Hi Hs Hno) as [Hdw Hdr].
  pose proof (core_fields _ _ Hc) as (_ & E1 & E2 & E3 & _). unfold with_controller. apply rebuild; try done.
  - by apply core_owner.
  - intros E. by rewrite E in Hst.
  - by eapply dead_writer_ok; [apply Hi|..].
  - by eapply dead_reader_ok; [apply Hi|..].
  - rewrite E1. intros Hx. destruct (some_stopped s) eqn:Ex; [apply (life_stopped _ (si_life _ Hi)); [apply Hal|done]|].
    apply Hk. unfold some_stopped in *. cbn in Hx. by destruct (writer s), (reader s), k.
  - intros Hx rp live ->. by specialize (Hcn Hx).
Qed.

(** What [do_reconnect] leaves, at a suspension or at its end. *)
Lemma reconnect_inv_kept c0 c pt :
  reconnect_inv (endpoint:=endpoint) c0 c pt ->
  (exists pend await, conn_ok c pend await) /\ buffer_wf (buf_ (parser_ c)) /\
  (state_ c = connection_state.OPEN -> parser_inv (parser_ c)) /\ was_open (state_ c) = true /\
  state_ c <> connection_state.CLOSED /\
  mode_ok c_idle (match pt with reconnect_done => k_head | _ => k_reconnect pt true end) c.
Proof.
  destruct pt as [d|cp|]; cbn [reconnect_inv].
  - intros [Hm _]. pose proof Hm as (_ & _ & Hn & [Hb _] & Hst). rewrite Hst. split; [by eexists _, _|]. do 4 (split; [done|]). by left.
  - intros (Hnf & ca & Hr & Hst & _ & Hinv).
    assert (in_progress ca c /\ exists pend await, conn_ok c pend await) as [Hip Hok]
      by (destruct cp as [| | | |slot [|]| |res]; cbn [connect_inv] in Hinv; [naive_solver eauto..|by destruct (Hnf res)]).
    pose proof Hip as (_ & E & _ & _ & Hb & _). rewrite E, Hst. split; [done|]. do 4 (split; [done|]). left. by exists ca.
  - intros (_ & Hst & _ & _ & _ & _ & Hn & Hp & _). cbn [mode_ok]. rewrite Hst. split; [by eexists _, _|]. split; [apply Hp|].
    split; [intros _; by apply ready_inv|done].
Qed.

Lemma reconnecting_inv s c0 c' pt j :
  sys_inv s -> settled s -> alive s -> connector s = c_idle -> state_ (conn s) <> connection_state.OPEN ->
  controller s <> k_stop -> same_core (conn s) c' -> reconnect_inv (endpoint:=endpoint) c0 c' pt ->
  sys_inv (set_controller s (after_reconnect (c', j, pt))).
Proof.
  intros Hi Hs Hal Hcn Hno Hks [Hc _] Hr. destruct (reconnect_inv_kept c0 c' pt Hr) as (H1 & H2 & H3 & H4 & H5 & H6).
  apply control_rebuild; try done.
  - by destruct pt.
  - by rewrite Hcn.
Qed.

(** The control loop moves, the connection does not. *)
Lemma resting_inv s k j :
  sys_inv s -> alive s -> is_reconnect (controller s) = false -> controller s <> k_stop -> is_reconnect k = false ->
  (k = k_stop -> stop_ (conn s) = true) -> sys_inv (with_controller (conn s) k j s).
Proof.
  intros Hi Hal Hr Hks Hk Hst. destruct (alive_state s Hi Hal) as [Hni Hnc].
  unfold with_controller. apply rebuild; try done; try apply Hi.
  - intros Hx. destruct (some_stopped s) eqn:Ex; [apply (life_stopped _ (si_life _ Hi)); [apply Hal|done]|].
    apply Hst. unfold some_stopped in *. cbn in Hx. by destruct (writer s), (reader s), k.
  - eapply mode_resting; [exact Hr|exact Hk|apply Hi].
  - intros _ rp live ->. done.
Qed.

Lemma connector_idle s :
  sys_inv s -> finishing s = false -> state_ (conn s) <> connection_state.CONNECTING -> connector s = c_idle.
Proof.
  intros Hi Hf Hno. pose proof (si_mode _ Hi) as Hm. unfold finishing in Hf.
  destruct (connector s) as [| |pt live|]; cbn [mode_ok] in Hm; [done|by destruct Hm as [_ Hm]| |by destruct Hm as [Hm _]].
  destruct Hm as (c0 & _ & Hst & Hinv). destruct Hno. rewrite <- Hst.
  destruct pt as [| | | |slot [|]| |res]; try apply Hinv. done.
Qed.

(** Without reconnection the control loop asks everybody to stop. *)
Lemma give_up_inv s j :
  sys_inv s -> settled s -> finishing s = false -> alive s -> state_ (conn s) = connection_state.FAILED ->
  enabled (reconnection (cfg_ (conn s))) = false ->
  sys_inv (with_controller (notify true true false (set_stop true (set_state connection_state.CLOSING (conn s)))) k_head j s).
Proof.
  intros Hi Hs Hf Hal Hst Hen. assert (connector s = c_idle) as Hcn by (apply connector_idle; [done|done|by rewrite Hst]).
  destruct (dead_io s Hi Hs ltac:(by rewrite Hst)) as [Hdw Hdr]. destruct Hal as [Hrun Hend].
  pose proof Hi as [H1 (pend & await & [K1 K2 K3]) H3 H4 H5 H6 _ H7 H8 (D1 & D2 & D3)].
  rewrite Hst in K3. destruct (K3 eq_refl) as [-> ->].
  constructor; cbn; try done.
  - exists [], []. by constructor.
  - by eapply dead_writer_ok.
  - by eapply dead_reader_ok.
  - constructor; cbn; try done; rewrite ?Hrun, ?Hend; done.
  - by rewrite Hcn.
  - split; [done|]. cbn. split; [rewrite D1 by done; lia|by rewrite Hen].
Qed.

(** A request timed out. *)
Lemma timed_out_inv now s j :
  sys_inv s -> finishing s = false -> is_reconnect (controller s) = false -> controller s <> k_stop ->
  state_ (conn s) = connection_state.OPEN ->
  exists c1, handle_error now (client_error client_errc.request_timeout) (conn s) = Ret c1 /\
    sys_inv (with_controller c1 k_head j s).
Proof.
  intros Hi Hf Hr Hks Hop. pose proof (controller_alive s Hi Hks) as Hal. destruct (si_ok _ Hi) as (pend & await & Hok).
  destruct (handle_error_effect now (client_error client_errc.request_timeout) _ _ _ Hok ltac:(by rewrite Hop))
    as (c1 & Hh & [Hc _] & [[? _]|(_ & Hst & Hn & Hso & Hp)]); [done|].
  exists c1. split; [done|]. pose proof (core_fields _ _ Hc) as (_ & _ & E2 & E3 & _).
  assert (sys_inv (with_conn c1 s)) as Hi1.
  { unfold with_conn. apply io_rebuild; try done; auto.
    - by apply core_owner.
    - by eexists _, _.
    - rewrite Hp. apply Hi.
    - by rewrite Hst.
    - by eapply writer_failed; [apply Hi|..].
    - unfold reader_ok. rewrite E2, Hst, Hso. split; [apply Hi|done]. }
  refine (resting_inv (with_conn c1 s) k_head j Hi1 _ Hr Hks eq_refl _); [|done].
  by apply controller_alive.
Qed.

Lemma control_loop_inv now s :
  sys_inv s -> settled s -> finishing s = false -> small (parser_ (conn s)) ->
  is_reconnect (controller s) = false -> controller s <> k_stop ->
  exists c' k j, control_loop pow unspecified now (jitter s) (conn s) = Ret (c', k, j) /\
    sys_inv (with_controller c' k j s).
Proof.
  intros Hi Hs Hf Hsm Hr Hks. pose proof (controller_alive s Hi Hks) as Hal.
  destruct (alive_state s Hi Hal) as [Hni Hnc]. destruct (si_ok _ Hi) as (pend & await & Hok).
  assert (forall k, is_reconnect k = false -> (k = k_stop -> stop_ (conn s) = true) ->
    exists c' k' j, Ret (conn s, k, jitter s) = Ret (c', k', j) /\ sys_inv (with_controller c' k' j s)) as Hrest.
  { intros k Hk Hst. eexists _, _, _. split; [done|]. by apply resting_inv. }
  unfold control_loop, control_turn. destruct (stop_ (conn s)) eqn:Hstop; cbn [orb]; [by apply Hrest|].
  rewrite bool_decide_false by done. case_bool_decide as Hfa; [destruct (enabled _) eqn:Hen; cbn [negb mbind run_bind]|].
  - assert (may_reconnect (conn s)) as Hm.
    { split; [apply Hi|]. split; [done|]. split; [|split; [split; [apply Hi|done]|done]].
      destruct (ok_quiet _ _ _ Hok) as [-> ->]; [by rewrite Hfa|done]. }
    destruct (reconnect_head_inv (endpoint:=endpoint) pow unspecified (conn s) now (jitter s) (conn s) Hm (conj eq_refl (conj eq_refl eq_refl)))
      as (c' & j & pt & Hh & Hinv). rewrite Hh. eexists _, _, _. split; [done|].
    eapply (reconnecting_inv s); try done.
    + apply connector_idle; [done|done|by rewrite Hfa].
    + by rewrite Hfa.
    + exact (tol_reconnect_head same_core pow unspecified now (jitter s) _ _ Hh).
  - eexists _, _, _. split; [done|]. by apply give_up_inv.
  - destruct (decide (state_ (conn s) = connection_state.OPEN)) as [Hop|Hop];
      [rewrite (bool_decide_true (state_ _ = connection_state.OPEN)) by done
      |rewrite (bool_decide_false (state_ _ = connection_state.OPEN)) by done]; cbn [andb].
    + destruct (bool_decide (is_Some _)); cbn [mbind run_bind]; [|rewrite bool_decide_false by (by rewrite Hop); by apply (Hrest k_wait)].
      unfold has_expired. rewrite (next_deadline_eq _ _ _ _ (ok_inv _ _ _ Hok)). cbn [mbind run_bind].
      destruct (negb _ && _); [|destruct (negb _); [by apply (Hrest (k_timer _))|by apply (Hrest k_wait)]].
      destruct (timed_out_inv now s (jitter s) Hi Hf Hr Hks Hop) as (c1 & Hh & Hi1). rewrite Hh. by eexists _, _, _.
    + cbn [mbind run_bind]. case_bool_decide as Hcl; [|by apply (Hrest k_wait)].
      apply (Hrest k_stop); [done|]. intros _. pose proof (si_mode _ Hi) as Hm. rewrite connector_idle in Hm; [|done|done|by rewrite Hcl].
      cbn [mode_ok] in Hm. rewrite Hcl in Hm. rewrite Hstop in Hm. by destruct (controller s) in Hm, Hr.
Qed.

(** ** Reconnecting *)

Lemma reconnect_idle s rp live : sys_inv s -> controller s = k_reconnect rp live -> connector s = c_idle.
Proof.
  intros Hi Hk. destruct (connector s) eqn:E; [done|..];
    (destruct (si_connector _ Hi) as (_ & _ & H); [by rewrite E|]; by destruct (H rp live)).
Qed.

(** [close] came during a wait of the backoff, or during an attempt: the attempt
    is given up. *)
Lemma stopped_inv s c' k j :
  sys_inv s -> settled s -> connector s = c_idle -> controller s <> k_stop -> stop_ (conn s) = true ->
  state_ (conn s) <> connection_state.OPEN -> core c' = core (conn s) ->
  nothing_pending c' -> buffer_wf (buf_ (parser_ c')) ->
  state_ c' = connection_state.FAILED \/ state_ c' = connection_state.CLOSING \/
    state_ c' = connection_state.OPEN /\ parser_inv (parser_ c') ->
  k = k_head \/ (exists pt, k = k_reconnect (at_attempt pt) true /\ shaken c' pt true) ->
  sys_inv (with_controller c' k j s).
Proof.
  intros Hi Hs Hcn Hks Hsp Hno Hc Hn Hb Hst Hk. pose proof (controller_alive s Hi Hks) as Hal.
  pose proof (core_fields _ _ Hc) as (_ & E & _). apply control_rebuild; try done.
  - by eexists _, _.
  - intros Ho. destruct Hst as [H|[H|[_ H]]]; [by rewrite Ho in H..|done].
  - by destruct Hst as [-> |[-> |[-> _]]].
  - by destruct Hst as [-> |[-> |[-> _]]].
  - rewrite Hcn. destruct Hk as [-> |(pt & -> & Hsh)]; cbn [mode_ok]; [|by right].
    rewrite E, Hsp. by destruct Hst as [-> |[-> |[-> _]]].
Qed.

Lemma backoff_inv now s d live :
  sys_inv s -> settled s -> controller s = k_reconnect (at_backoff d) live ->
  sys_inv (set_controller s (after_reconnect (backoff_turn now d (jitter s) (conn s)))).
Proof.
  intros Hi Hs Hk. pose proof (reconnect_idle s _ _ Hi Hk) as Hcn.
  assert (controller s <> k_stop) as Hks by (by rewrite Hk). pose proof (controller_alive s Hi Hks) as Hal.
  pose proof (si_mode _ Hi) as Hm. rewrite Hcn, Hk in Hm. cbn [mode_ok] in Hm.
  destruct Hm as [Hm|[Hst Hsp]].
  - assert (state_ (conn s) <> connection_state.OPEN) as Hno by (by destruct Hm as (_ & _ & _ & _ & ->)).
    pose proof (tol_backoff_turn (endpoint:=endpoint) same_core now d (jitter s) (conn s)) as Hc.
    destruct (do_reconnect_resume_inv (endpoint:=endpoint) other pow unspecified (conn s) now (jitter s) (at_backoff d)
      in_continue (conn s) _ (conj Hm (conj eq_refl (conj eq_refl eq_refl))) I eq_refl) as (c' & j & pt & [= E] & Hinv).
    rewrite E in *. by eapply reconnecting_inv.
  - unfold backoff_turn, reconnect_attempt. rewrite Hsp. cbn [negb andb orb].
    destruct (si_ok _ Hi) as (pend & await & Hok). destruct (ok_quiet _ _ _ Hok) as [-> ->]; [by rewrite Hst|].
    apply stopped_inv; try done; [by rewrite Hst|apply Hi|by auto|by left].
Qed.

(** How many times [do_connect] is still resumed once [close] has cut it off. *)
Definition rounds (pt : connect_point endpoint) : nat :=
  match pt with
  | at_resolve | at_wait _ => 1
  | at_connect _ rest => 1 + length rest
  | at_write _ _ | at_read _ => 3
  | at_join _ _ => 2
  | finished _ => 0
  end.

(** What it does then: [p] is the parser before, [n] bounds the rounds left. *)
Definition cut_off (n : nat) (p : parser) (r : run (connection * connect_point endpoint)) : Prop :=
  exists c pt, r = Ret (c, pt) /\ (rounds pt < n)%nat /\ nothing_pending c /\
    match pt with
    | finished (Val _) => state_ c = connection_state.OPEN /\ parser_ c = parser_reset p
    | finished (Unexpected _) => state_ c = connection_state.CLOSING /\ parser_ c = p
    | _ => shaken c pt true /\ parser_ c = p
    end.

Lemma cut_off_fail n now err c p :
  (0 < n)%nat -> nothing_pending c -> state_ c = connection_state.CLOSING -> parser_ c = p -> cut_off n p (fail_handshake now err c).
Proof.
  intros Hpos Hn Hst Hp. unfold fail_handshake. destruct (clear_pipeline_ok now err c [] [] (ok_inv _ _ _ Hn)) as (h & q & -> & Hi & _).
  cbn [mbind run_bind]. eexists _, _. split; [done|]. split; [done|]. split; [|done]. constructor; [apply Hn|done|done].
Qed.

Lemma cut_off_return now slot e c :
  nothing_pending c -> state_ c = connection_state.CLOSING -> stop_ c = true ->
  cut_off 3 (parser_ c) (handshake_return other now slot (Unexpected e) c).
Proof.
  intros Hn Hst Hsp. unfold handshake_return, handshake_end.
  destruct (request_timeout (cfg_ c)), (connect_timeout (cfg_ c)); [..|apply cut_off_fail; done || lia];
    (eexists _, _; split; [done|]; split; [cbn; lia|done]).
Qed.

Lemma cut_off_attempt now a (rest : list endpoint) addr c :
  nothing_pending c -> state_ c = connection_state.CLOSING -> stop_ c = true ->
  cut_off (1 + length rest) (parser_ c) (on_attempt other now a rest addr c).
Proof.
  intros Hn Hst Hsp.
  assert (forall b e, cut_off (1 + length rest) (parser_ c) (next_endpoint other now e rest addr (set_socket b c))) as Hnext.
  { intros b e. pose proof (pending_socket b c Hn) as Hn1. destruct rest as [|ep rest']; cbn [next_endpoint].
    - destruct e; (eexists _, _; split; [done|]; split; [cbn; lia|done]).
    - rewrite close_socket_eq. eexists _, _. split; [done|]. split; [cbn; lia|]. pose proof (pending_socket false _ Hn1). done. }
  destruct a as [e b|[e|] [e'|]]; cbn [on_attempt]; try apply Hnext.
  cbn [after_attempts]. cbn [stop_ set_socket]. rewrite Hsp. eexists _, _. split; [done|]. split; [cbn; lia|].
  split; [by apply pending_socket|done].
Qed.

Lemma cut_off_replies now slot c :
  nothing_pending c -> state_ c = connection_state.CLOSING -> collected slot c -> storage_ok (parser_ c) ->
  cut_off 1 (parser_ c) (check_replies other now slot c).
Proof.
  intros Hn Hst Hcol Hsto. unfold check_replies. destruct (collected_deref slot c Hcol) as (x & Hd & _ & Hw).
  rewrite Hd. cbn [mbind run_bind snd]. rewrite Hw. cbn [mbind run_bind]. destruct (first_failure _) as [err|].
  - case_bool_decide; [eexists _, _; split; [done|]; split; [cbn; lia|done]|apply cut_off_fail; done || lia].
  - eexists _, _. split; [done|]. split; [cbn; lia|]. unfold connect_succeeded.
    destruct (emit_event_fields now ev_connected stage_handshake (Some (state_ c)) (Some connection_state.OPEN)
      no_error_info (set_attempts (u64 (generation_ c + 1)) 0 (set_state connection_state.OPEN c)))
      as (He1 & He2 & He3 & He4 & He5 & He6 & He7 & He8 & He9 & He10 & He11 & _).
    cbn [set_parser state_ parser_]. rewrite He1, He11. split; [|done].
    constructor; cbn [set_parser state_ state_snapshot_ sinks pipeline_]; rewrite ?He1, ?He2, ?He3, ?He4; [done|apply Hn|done].
Qed.

Lemma shaken_resume now pt live i c r :
  shaken c pt live -> (live = true -> socket_open c = true) -> io_ok pt live i c -> storage_ok (parser_ c) ->
  do_connect_resume other now pt i c = Some r -> cut_off (rounds pt) (parser_ c) r.
Proof.
  intros (Hn & Hst & Hsp & Hpt) Hup [Hin Hl] Hsto Hr.
  destruct pt as [|ep rest|slot buf|slot|slot res|slot|res], i as [r0|a addr|r0|r0| |];
    cbn [do_connect_resume] in Hr; simplify_eq.
  - destruct r0 as [[|ep rest]|[]]; cbn [on_resolved]; rewrite ?Hsp; (eexists _, _; split; [done|]; split; [cbn; lia|done]).
  - by apply cut_off_attempt.
  - destruct r0 as [n|e]; cbn [on_written]; [|by apply cut_off_return].
    destruct Hpt as [Hpt _]. specialize (Hup Hl). specialize (Hpt Hl). congruence.
  - destruct (request_timeout (cfg_ c)), (connect_timeout (cfg_ c)); simplify_eq; apply cut_off_fail; done || (cbn; lia).
  - destruct r0 as [bs|e]; cbn [on_read]; [|by apply cut_off_return].
    destruct Hpt as [Hpt _]. specialize (Hup Hl). specialize (Hpt Hl). congruence.
  - destruct (request_timeout (cfg_ c)), (connect_timeout (cfg_ c)); simplify_eq; apply cut_off_fail; done || (cbn; lia).
  - destruct res as [v|e]; cbn [handshake_end]; [|apply cut_off_fail; done || (cbn; lia)].
    destruct (collected_deref slot c Hpt) as (x & Hd & Hx & _). rewrite Hd. cbn [mbind run_bind snd]. rewrite Hx.
    eexists _, _. split; [done|]. split; [cbn; lia|done].
  - by apply cut_off_replies.
Qed.

Lemma input_ok_sane now pt i c r :
  input_ok (endpoint:=endpoint) pt i c -> do_connect_resume other now pt i c = Some r -> input_sane i c.
Proof. intros H Hr. destruct pt, i as [|?|[n|]| | |]; cbn in *; try done. lia. Qed.

Lemma cut_off_after n now j p r :
  cut_off n p r -> storage_ok p ->
  (forall c1 pt1, r = Ret (c1, pt1) -> stop_ c1 = true) ->
  exists c' pt, (cp ← r;
       match cp.2 with
       | finished res => reconnect_after pow unspecified now j res cp.1
       | pt' => Ret (cp.1, j, at_attempt pt')
       end) = Ret (c', j, pt) /\ nothing_pending c' /\ buffer_wf (buf_ (parser_ c')) /\
    (state_ c' = connection_state.FAILED \/ state_ c' = connection_state.CLOSING \/
     state_ c' = connection_state.OPEN /\ parser_inv (parser_ c')) /\
    (pt = reconnect_done \/ exists pt', pt = at_attempt pt' /\ shaken c' pt' true /\ (rounds pt' < n)%nat).
Proof.
  intros (c1 & pt1 & -> & Hlt & Hn & Hpt) Hsto Hsp. specialize (Hsp c1 pt1 eq_refl). cbn [mbind run_bind fst snd].
  destruct pt1 as [|ep rest|slot buf|slot|slot res|slot|[v|e]];
    try (destruct Hpt as [Hsh Hp]; pose proof Hsh as (_ & Hst & _); eexists _, _; split; [done|];
         split; [done|]; split; [rewrite Hp; apply Hsto|]; split; [by auto|]; right; by eexists).
  - destruct Hpt as [Hst Hp]. cbn [reconnect_after]. rewrite bool_decide_true by done. cbn [assert mbind run_bind].
    destruct (reset_ready _ Hsto) as [Hrd _]. rewrite <- Hp in Hrd.
    eexists _, _. split; [done|]. split; [destruct Hn; by constructor|]. split; [apply Hrd|]. split; [|by left].
    right. right. split; [done|by apply ready_inv].
  - destruct Hpt as [Hst Hp]. cbn [reconnect_after]. unfold reconnect_head.
    cbn [set_attempts set_state stop_]. rewrite Hsp. cbn [orb]. eexists _, _. split; [done|].
    destruct Hn as [Hn1 Hn2 _]. split; [by constructor|]. cbn. rewrite Hp. split; [apply Hsto|]. split; [by left|by left].
Qed.

Lemma reconnect_io_inv now i s pt live r :
  sys_inv s -> settled s -> small (parser_ (conn s)) -> controller s = k_reconnect (at_attempt pt) live ->
  io_ok pt live i (conn s) ->
  do_reconnect_resume other pow unspecified now (jitter s) (at_attempt pt) i (conn s) = Some r ->
  exists x, r = Ret x /\ sys_inv (set_controller s (after_reconnect x)).
Proof.
  intros Hi Hs Hsm Hk Hio Hr. pose proof (reconnect_idle s _ _ Hi Hk) as Hcn.
  assert (controller s <> k_stop) as Hks by (by rewrite Hk). pose proof (controller_alive s Hi Hks) as Hal.
  pose proof (si_mode _ Hi) as Hm. rewrite Hcn, Hk in Hm. cbn [mode_ok] in Hm.
  pose proof (fun x H => tol_do_reconnect same_core other pow unspecified now (jitter s) (at_attempt pt) i (conn s) x
    (si_fits _ Hi) H) as Htol.
  pose proof Hr as Hr0. cbn [do_reconnect_resume] in Hr0.
  destruct (do_connect_resume other now pt i (conn s)) as [r1|] eqn:E; [|done]. injection Hr0 as <-.
  pose proof (input_ok_sane now pt i (conn s) r1 (proj1 Hio) E) as Hsane.
  destruct Hm as [(ca & Hrc & Hst & Hinv & Hnf)|Hsh].
  - pose proof Hrc as (_ & Hfit & Hstop & Hn & Hsto).
    assert (may_reconnect (set_state connection_state.FAILED ca)) as Hm.
    { split; [done|]. split; [done|]. split; [|done]. destruct Hn as [? ? _]. by constructor. }
    destruct (do_reconnect_resume_inv other pow unspecified (set_state connection_state.FAILED ca) now (jitter s)
      (at_attempt pt) i (conn s) _ (conj Hnf (ex_intro _ ca (conj Hrc (conj Hst (conj (conj eq_refl (conj eq_refl eq_refl)) Hinv)))))
      (proj1 Hio) Hr) as (c' & j & pt' & Heq & Hinv').
    rewrite Heq in *. eexists. split; [done|]. eapply reconnecting_inv; try done; [|by apply (Htol (c', j, pt'))].
    assert (state_ (conn s) = state_ ca) as ->; [|by rewrite Hst].
    destruct pt as [| | | |slot [|]| |res]; try apply Hinv. by destruct (Hnf res).
  - pose proof Hsh as (_ & Hst & Hsp & _). assert (storage_ok (parser_ (conn s))) as Hsto by (split; [apply Hi|done]).
    pose proof (shaken_resume now pt live i (conn s) r1 Hsh) as Hcut. specialize (Hcut ltac:(intros ->; by eapply Hs) Hio Hsto E).
    destruct (cut_off_after _ now (jitter s) _ _ Hcut Hsto) as (c' & pt' & Heq & Hn & Hb & Hst' & Hpt).
    { intros c1 pt1 ->. assert (same_core (conn s) c1) as [Hc _]
        by exact (tol_do_connect same_core other now pt i (conn s) (c1, pt1) (si_fits _ Hi) Hsane E).
      apply core_fields in Hc as (_ & -> & _). done. }
    exists (c', jitter s, pt'). split; [exact Heq|].
    destruct (Htol (c', jitter s, pt') Hsane (eq_trans Hr (f_equal Some Heq))) as [Hc _].
    apply stopped_inv; try done; [by rewrite Hst|].
    destruct Hpt as [-> |(pt2 & -> & Hsh' & _)]; [by left|right; by eexists].
Qed.

End system.
