(* ===== verification/ActorLife.v ===== *)
(** * Connecting, closing and the end of the actor

    That [connect], [close] and the end of the actor keep the invariant of
    [ActorSpec], and what every event does. *)

From S2P Require Import Prelude Kind Errors Charconv Buffer Message Parser Builder Adapter.
From S2P Require Import ParserInv ParserSafety ParserViews Wire WireParse.
From S2P Require Import Request RingQueue ResponseSink Pipeline PipelineSpec Config Connection Connect.
From S2P Require Import ConnectionSpec ConnectSpec Tolerant Strand Actor ConnectTheorems ReconnectTheorems ActorSpec.

Section life.

Context (other : string -> Z -> string) {endpoint : Type}.
Context (pow : double -> double -> double) (unspecified : double -> Z).

Abbreviation system := (system endpoint).
Abbreviation event := (event endpoint).

(** ** [connect()] *)

Lemma with_conn_same (s : system) : with_conn (conn s) s = s.
Proof. by destruct s. Qed.

Lemma with_connector_same (s : system) : connector s = c_idle -> with_connector (conn s) c_idle s = s.
Proof. intros H. destruct s. cbn in *. by subst. Qed.

Lemma loops_over_pcs (s : system) :
  loops_over s = true -> writer s = w_stop /\ reader s = r_stop /\ controller s = k_stop.
Proof. unfold loops_over. by destruct (writer s), (reader s), (controller s). Qed.

Lemma idle_nothing_pending (s : system) :
  sys_inv s -> quiet (state_ (conn s)) = true -> nothing_pending (conn s).
Proof.
  intros Hi Hq. destruct (si_ok _ Hi) as (pend & await & Hok). by destruct (ok_quiet _ _ _ Hok Hq) as [-> ->].
Qed.

(** In [CLOSING] a stop has been requested. *)
Lemma closing_stopped (s : system) :
  sys_inv s -> finishing s = false -> state_ (conn s) = connection_state.CLOSING -> stop_ (conn s) = true.
Proof.
  intros Hi Hf Hst. pose proof (si_mode _ Hi) as Hm. rewrite (connector_idle s Hi Hf) in Hm by (by rewrite Hst).
  cbn [mode_ok] in Hm. rewrite Hst in Hm.
  destruct (controller s) as [| | |[d|pt|] live|]; try done.
  - destruct Hm as [(_ & _ & _ & _ & Hx)|[_ ?]]; [by rewrite Hst in Hx|done].
  - destruct Hm as [(c0 & _ & Hx & Hinv & Hnf)|(_ & _ & ? & _)]; [|done].
    assert (state_ (conn s) = state_ c0) as E; [|by rewrite Hst, Hx in E].
    destruct pt as [| | | |slot [|]| |res]; try apply Hinv. by destruct (Hnf res).
Qed.

(** A new actor. *)
Lemma spawn_inv (s : system) c1 :
  sys_inv s -> small (parser_ (conn s)) -> actor_running_ (conn s) = false -> closers s = 0%nat ->
  enabled (reconnection (cfg_ (conn s))) = true \/ actor_done_ (conn s) = 0%nat ->
  c1 = conn s \/ c1 = set_stop false (set_attempts (generation_ (conn s)) 0 (set_state connection_state.INIT (conn s))) ->
  stop_ c1 = false ->
  sys_inv (mk_system (set_state connection_state.CONNECTING (set_actor true (actor_done_ c1) c1))
             w_head r_head k_head c_spawned false (closers s) (jitter s) : system).
Proof.
  intros Hi Hsm Hrun Hcl Hen Hc1 Hstop. destruct (life_none _ (si_life _ Hi) Hrun) as (Hlo & _ & _ & Hst).
  destruct (loops_over_pcs s Hlo) as (Hw & Hr & _).
  destruct (si_writer _ Hi) as (Hwf & _). destruct (si_reader _ Hi) as (Hrf & _). rewrite Hw in Hwf. rewrite Hr in Hrf.
  assert (nothing_pending (conn s)) as [N1 N2 _] by (apply idle_nothing_pending; [done|by destruct Hst as [[-> _]| ->]]).
  destruct (si_done _ Hi) as (_ & _ & D3).
  assert (actor_done_ (conn s) = 0%nat) as Hd by (destruct Hen as [He|]; [destruct (D3 He); lia|done]).
  assert (cfg_ c1 = cfg_ (conn s) /\ parser_ c1 = parser_ (conn s) /\ write_in_flight_ c1 = false /\
    read_in_flight_ c1 = false /\ actor_done_ c1 = 0%nat /\ sinks c1 = sinks (conn s) /\ pipeline_ c1 = pipeline_ (conn s))
    as (E1 & E2 & E3 & E4 & E5 & E6 & E7) by (by destruct Hc1 as [-> | ->]).
  assert (nothing_pending (set_state connection_state.CONNECTING (set_actor true (actor_done_ c1) c1))) as Hn.
  { constructor; cbn; [done|by rewrite E6, E7|done]. }
  constructor; cbn; rewrite ?E1, ?E2; try done; try apply Hi.
  - by eexists _, _.
  - split; [|done]. split; [by left|]. cbn. rewrite E1, E2. split; [apply Hi|]. split; [done|]. split; [done|]. split; [apply Hi|done].
  - split; [done|]. split; [cbn; rewrite E5; intros ?; lia|]. cbn. rewrite E5, Hstop. intros _. split; [lia|done].
Qed.
Lemma connect_inv_call (s : system) :
  sys_inv s -> small (parser_ (conn s)) -> finishing s = false -> connect_allowed s ->
  exists s', connect_call s = Ret s' /\ sys_inv s'.
Proof.
  intros Hi Hsm Hf Ha. unfold connect_call, connect_begin, connect_allowed in *.
  assert (sys_inv (with_conn (conn s) s)) as Hsame by (by rewrite with_conn_same).
  destruct (state_ (conn s)) eqn:Hst; try done; cbn [bool_decide decide mbind run_bind].
  - destruct Ha as (Hrun & Hcl & Hen). destruct (life_none _ (si_life _ Hi) Hrun) as (_ & _ & _ & Hsp).
    destruct Hsp as [[_ Hsp]|Hsp]; [|by rewrite Hst in Hsp].
    repeat (rewrite bool_decide_false by done). unfold run_actor. rewrite Hsp, Hrun. cbn [negb assert mbind run_bind].
    eexists. split; [done|]. apply (spawn_inv s (conn s)); auto.
  - rewrite bool_decide_false, bool_decide_true by done. by eexists.
  - rewrite bool_decide_true by done. by eexists.
  - repeat (rewrite bool_decide_false by done). rewrite (closing_stopped s Hi Hf Hst). by eexists.
  - destruct Ha as (Hrun & Hcl & Hen). do 2 (rewrite bool_decide_false by done). rewrite bool_decide_true by done.
    unfold run_actor. cbn [set_stop stop_ set_attempts set_state actor_running_]. rewrite Hrun.
    cbn [negb assert mbind run_bind]. eexists. split; [done|]. apply (spawn_inv s _ Hi Hsm Hrun Hcl Hen); [by right|done].
Qed.

(** [do_connect] under [connect]. *)
Lemma connecting_no_io (s : system) c' :
  sys_inv s -> was_open (state_ (conn s)) = false -> core c' = core (conn s) ->
  writer_ok (writer s) c' /\ reader_ok (reader s) c'.
Proof.
  intros Hi Hst Hc. destruct (si_writer _ Hi) as (Hwf & Hw & _). destruct (si_reader _ Hi) as (Hrf & Hr & _).
  rewrite Hst in *. apply core_fields in Hc as (_ & _ & E3 & E4 & _). unfold writer_ok, reader_ok. rewrite E3, E4.
  destruct (writer s), (reader s); naive_solver.
Qed.

Lemma connector_rebuild (s : system) c' cn :
  sys_inv s -> connector s <> c_idle -> writer_ok (writer s) c' -> reader_ok (reader s) c' ->
  core c' = core (conn s) -> (exists pend await, conn_ok c' pend await) -> buffer_wf (buf_ (parser_ c')) ->
  (state_ c' = connection_state.OPEN -> parser_inv (parser_ c')) ->
  state_ c' <> connection_state.INIT -> state_ c' <> connection_state.CLOSED ->
  mode_ok cn (controller s) c' -> sys_inv (with_connector c' cn s).
Proof.
  intros Hi Hcn Hw Hr Hc Hok Hb Hp Hni Hnc Hm. pose proof Hi as [H1 H2 H3 H4 H5 H6 [L1 L2 L3 L4 L5] H7 H8 H9].
  destruct (H7 Hcn) as (Hrun & Hsp & Hk). apply core_fields in Hc as (E1 & E2 & E3 & E4 & E5 & E6).
  assert (ended s = false) as He by (destruct (ended s); [|done]; by destruct (L3 eq_refl) as (_ & ? & _)).
  constructor; cbn; try done.
  - by rewrite E1.
  - constructor; cbn; rewrite ?E5, ?He, ?E2; try done. by rewrite Hrun.
  - intros _. cbn. by rewrite E5, E2.
  - destruct H9 as (D1 & D2 & D3). unfold done_ok. rewrite E1, E2, E5, E6. split; [done|]. split; [rewrite D1 by done; lia|done].
Qed.

Lemma spawned_inv (s : system) :
  sys_inv s -> connector s = c_spawned ->
  exists c1 pt, do_connect_begin (conn s) = (c1, pt) /\ sys_inv (with_connector c1 (c_run pt true) s).
Proof.
  intros Hi Hcn. pose proof (si_mode _ Hi) as Hm. rewrite Hcn in Hm. cbn [mode_ok] in Hm. destruct Hm as [Hr Hst].
  pose proof Hr as (_ & _ & Hsp & Hn & Hsto).
  destruct (do_connect_begin_ok (endpoint:=endpoint) (conn s) (conn s) eq_refl Hsp Hn Hsto) as (c1 & Hb & Hinv).
  exists c1, at_resolve. split; [done|]. destruct (tol_do_connect_begin (endpoint:=endpoint) same_core (conn s)) as [Hc _]. rewrite Hb in Hc.
  destruct (connecting_no_io s c1 Hi ltac:(by rewrite Hst) Hc) as [Hw Hrd].
  pose proof Hinv as ((_ & E & _ & _ & Hwf & _) & Hn1 & _). rewrite Hst in E.
  apply connector_rebuild; try done; rewrite ?E; try done.
  - by rewrite Hcn.
  - by eexists _, _.
  - by exists (conn s).
Qed.

(** What a point of [do_connect] knows of the connection. *)
Lemma connect_inv_kept c0 c (pt : connect_point endpoint) :
  connect_inv c0 c pt ->
  (exists pend await, conn_ok c pend await) /\ buffer_wf (buf_ (parser_ c)) /\
  (state_ c = connection_state.OPEN -> state_ c0 = connection_state.OPEN \/ parser_inv (parser_ c)) /\
  (state_ c = state_ c0 \/ state_ c = connection_state.OPEN).
Proof.
  destruct pt as [| | | |slot [|]| |[v|e]]; cbn [connect_inv]; intros Hinv;
    try (assert (in_progress c0 c /\ exists pend await, conn_ok c pend await) as [(_ & -> & _ & _ & Hb & _) Hok]
           by (naive_solver eauto); by auto).
  destruct Hinv as (_ & Hst & _ & _ & _ & _ & Hn & Hp & _). split; [by eexists _, _|]. split; [apply Hp|].
  split; [|by right]. intros _. right. by apply ready_inv.
Qed.

Lemma connect_io_inv now i (s : system) pt live r :
  sys_inv s -> finishing s = false -> connector s = c_run pt live -> io_ok pt live i (conn s) ->
  do_connect_resume other now pt i (conn s) = Some r ->
  exists x, r = Ret x /\ sys_inv (with_connector x.1 (c_run x.2 true) s).
Proof.
  intros Hi Hf Hcn [Hio _] Hr. pose proof (si_mode _ Hi) as Hm. rewrite Hcn in Hm. cbn [mode_ok] in Hm.
  destruct Hm as (c0 & Hrc & Hst & Hinv). pose proof Hrc as (Hcs & Hfit & _).
  destruct (do_connect_resume_ok other c0 Hcs Hfit now pt i (conn s) r Hinv Hio Hr) as (c' & pt' & -> & Hinv').
  exists (c', pt'). split; [done|]. cbn [fst snd].
  assert (state_ (conn s) = connection_state.CONNECTING) as Hcc.
  { unfold finishing in Hf. rewrite Hcn in Hf. rewrite <- Hst. by destruct pt as [| | | |slot [|]| |]; try apply Hinv. }
  destruct (tol_do_connect same_core other now pt i (conn s) (c', pt') (si_fits _ Hi)
    (input_ok_sane other now pt i _ _ Hio Hr) Hr) as [Hc _].
  destruct (connecting_no_io s c' Hi ltac:(by rewrite Hcc) Hc) as [Hw Hrd].
  destruct (connect_inv_kept c0 c' pt' Hinv') as (Hok & Hwf & Hp & Hs').
  apply connector_rebuild; try done; try (by destruct Hs' as [-> | ->]; rewrite ?Hst).
  - by rewrite Hcn.
  - intros Ho. destruct (Hp Ho) as [E|?]; [by rewrite Hst in E|done].
  - by exists c0.
Qed.

Lemma connect_end_inv now (s : system) res live :
  sys_inv s -> connector s = c_run (finished res) live ->
  exists x : connection * bool, connect_end now res (conn s) = Ret x /\
    sys_inv (with_connector x.1 (if x.2 then c_close else c_idle) s).
Proof.
  intros Hi Hcn. pose proof (si_mode _ Hi) as Hm. rewrite Hcn in Hm. cbn [mode_ok] in Hm.
  destruct Hm as (c0 & Hrc & Hst & Hinv). destruct (si_connector _ Hi) as (Hrun & _ & Hk); [by rewrite Hcn|].
  destruct res as [v|e]; cbn [connect_end].
  - pose proof Hinv as (_ & Ho & _ & _ & _ & _ & Hn & Hp & _). rewrite bool_decide_true by done. cbn [assert mbind run_bind].
    eexists. split; [done|]. cbn [fst snd]. apply connector_rebuild; try done; try apply Hi.
    + by rewrite Hcn.
    + exists [], []. destruct Hn. by constructor.
    + done.
    + cbn. by rewrite Ho.
    + cbn [mode_ok notify state_]. rewrite Ho. destruct (controller s) as [| | |rp l|]; try done. by destruct (Hk rp l).
  - pose proof Hinv as ((_ & Ho & _ & _ & _) & _ & Hn). rewrite Hst in Ho. eexists. split; [done|]. cbn [fst snd].
    destruct (emit_event_fields now ev_disconnected stage_connect (Some connection_state.CONNECTING)
      (Some connection_state.CLOSING) e (conn s)) as (F1 & F2 & F3 & F4 & _ & _ & F7 & _ & _ & _ & F11 & _).
    pose proof (same_core_event now ev_disconnected stage_connect (Some connection_state.CONNECTING)
      (Some connection_state.CLOSING) e (conn s)) as [Hc _].
    set (c1 := emit_connection_event _ _ _ _ _ _ _) in *.
    assert (nothing_pending c1) as Hn1 by (destruct Hn as [N1 N2 N3]; constructor; rewrite ?F1, ?F2, ?F3, ?F4; done).
    destruct (connecting_no_io s c1 Hi ltac:(by rewrite Ho) Hc) as [Hw Hrd].
    apply connector_rebuild; try done; rewrite ?F1, ?F11, ?Ho; try done.
    + by rewrite Hcn.
    + by eexists _, _.
    + apply Hi.
    + cbn [mode_ok]. by rewrite F1, F7.
Qed.

(** ** [close()] *)

Lemma close_begin_frame now c c' w :
  close_begin now c = Ret (c', w) ->
  cfg_ c' = cfg_ c /\ parser_ c' = parser_ c /\ read_in_flight_ c' = read_in_flight_ c /\
  write_in_flight_ c' = write_in_flight_ c /\ actor_done_ c' = actor_done_ c.
Proof.
  unfold close_begin, clear_pipeline. intros H. destruct (bool_decide _); run_inv; [done|].
  rewrite close_socket_eq. done.
Qed.

(** A sink that has its result keeps it; one that waits gets one. *)
Lemma failed_collected err l c c' slot :
  failed err l (sinks c) (sinks c') -> Some slot ∈ l \/ collected slot c -> collected slot c'.
Proof.
  intros [Hin Hout] Hs. destruct (decide (Some slot ∈ l)) as [Hl|Hl].
  - destruct (Hin slot Hl) as (x & x' & _ & Hx & Hwf & Hc & _). by exists x'.
  - destruct Hs as [?|(x & Hx & ?)]; [done|]. exists x. by rewrite (Hout slot Hl).
Qed.

(** [close] has run: everything pending got [err]. *)
Definition closed_off (err : error_info) (pend : list pending_item) (await : list awaiting_item) (c c' : connection) : Prop :=
  nothing_pending c' /\ state_ c' = connection_state.CLOSING /\ stop_ c' = true /\ socket_open c' = false /\
  failed err (ptrs pend await) (sinks c) (sinks c').

(** It cuts an attempt off. *)
Lemma shake c (pt : connect_point endpoint) live err :
  (exists c0, connect_inv c0 c pt /\ forall res, pt <> finished res) \/ shaken c pt live ->
  exists pend await, conn_ok c pend await /\ forall c', closed_off err pend await c c' -> shaken c' pt live.
Proof.
  assert (forall pend await, conn_ok c pend await ->
    match pt with
    | at_write slot _ | at_read slot | at_join slot (Val _) | at_wait slot =>
      Some slot ∈ ptrs pend await \/ collected slot c
    | finished _ => False
    | _ => True
    end ->
    exists pend await, conn_ok c pend await /\ forall c', closed_off err pend await c c' -> shaken c' pt live) as Hgo.
  { intros pend await Hok Hpt. exists pend, await. split; [done|]. intros c' (Hn & Hst & Hsp & Hso & Hfl).
    split; [done|]. split; [done|]. split; [done|]. pose proof (fun slot => failed_collected err (ptrs pend await) c c' slot Hfl) as Hcol.
    destruct pt as [| | | |slot [|]| |]; naive_solver. }
  intros [(c0 & Hinv & Hnf)|(Hn & _ & _ & Hpt)].
  - destruct pt as [|ep rest|slot buf|slot|slot [|]|slot|res]; [..|by destruct (Hnf res)]; cbn [connect_inv] in Hinv.
    + destruct Hinv as (_ & Hok & _). by eapply Hgo.
    + destruct Hinv as (_ & Hok & _). by eapply Hgo.
    + destruct Hinv as (_ & _ & _ & it & Hok & Hs & _). eapply Hgo; [done|]. left. unfold ptrs. rewrite <- Hs. set_solver.
    + destruct Hinv as (_ & _ & _ & ai & Hok & Hs). eapply Hgo; [done|]. left. unfold ptrs. rewrite <- Hs. set_solver.
    + destruct Hinv as (_ & _ & Hok & _ & Hc). eapply Hgo; [done|]. by right.
    + destruct Hinv as (_ & _ & pend & await & Hok). by eapply Hgo.
    + destruct Hinv as (_ & _ & Hok & _ & Hc). eapply Hgo; [done|]. by right.
  - apply (Hgo [] [] Hn). destruct pt as [| | | |slot [|]| |]; naive_solver.
Qed.

Lemma close_mode err cn (k : control_pc endpoint) c :
  mode_ok cn k c -> cn = c_idle \/ cn = c_close -> (exists pend await, conn_ok c pend await) ->
  (cn <> c_idle -> is_reconnect k = false) ->
  exists pend await, conn_ok c pend await /\ forall c', closed_off err pend await c c' -> mode_ok c_idle k c'.
Proof.
  intros Hm Hcn (pend & await & Hok) Hk.
  assert ((forall c', closed_off err pend await c c' -> mode_ok c_idle k c') ->
    exists pend await, conn_ok c pend await /\ forall c', closed_off err pend await c c' -> mode_ok c_idle k c') as Hgo
    by eauto.
  destruct k as [| | |[d|pt|] live|]; try (apply Hgo; intros c' (_ & Hst & Hsp & _); cbn [mode_ok]; by rewrite Hst).
  - apply Hgo. intros c' (_ & Hst & Hsp & _). by right.
  - destruct Hcn as [-> | ->]; [|by specialize (Hk ltac:(done))]. cbn [mode_ok] in *.
    destruct (shake c pt live err) as (pend1 & await1 & Hok1 & Hs).
    { destruct Hm as [(c0 & _ & _ & Hinv & Hnf)|Hm]; [left; by exists c0|by right]. }
    exists pend1, await1. split; [done|]. intros c' Hc. right. by apply Hs.
  - destruct Hcn as [-> | ->]; [done|by specialize (Hk ltac:(done))].
Qed.

Lemma close_inv now (s : system) :
  sys_inv s -> connector s = c_idle \/ connector s = c_close -> state_ (conn s) <> connection_state.INIT ->
  exists s', close_call now (with_connector (conn s) c_idle s) = Ret s' /\ sys_inv s'.
Proof.
  intros Hi Hcn Hni. unfold close_call. cbn [conn with_connector].
  destruct (decide (state_ (conn s) = connection_state.CLOSED)) as [Hcl|Hncl].
  - unfold close_begin. rewrite bool_decide_true by done. cbn [mbind run_bind]. eexists. split; [done|].
    assert (connector s = c_idle) as Hid.
    { destruct Hcn as [?|Hcn]; [done|]. pose proof (si_mode _ Hi) as Hm. rewrite Hcn in Hm. destruct Hm as [Hx _]. by rewrite Hcl in Hx. }
    replace (with_conn _ _) with s; [done|]. destruct s. cbn in *. by subst.
  - destruct (close_mode (client_error client_errc.connection_closed) _ _ _ (si_mode _ Hi) Hcn (si_ok _ Hi))
      as (pend & await & Hok & Hm).
    { intros Hx. destruct (si_connector _ Hi Hx) as (_ & _ & Hk). destruct (controller s) as [| | |rp l|]; try done. by destruct (Hk rp l). }
    destruct (close_begin_ok now (conn s) pend await Hok Hncl) as (c' & Hb & Hn & Hst & Hsp & Hso & Hrun & Hfl).
    specialize (Hm c' (conj Hn (conj Hst (conj Hsp (conj Hso Hfl))))). rewrite Hb. cbn [mbind run_bind].
    pose proof Hi as [H1 H2 H3 H4 H5 H6 [L1 L2 L3 L4 L5] H7 H8 (D1 & D2 & D3)].
    destruct (actor_running_ (conn s)) eqn:Er; [|destruct (L1 eq_refl) as (_ & _ & _ & [[? _]|?]); done].
    eexists. split; [done|]. apply close_begin_frame in Hb as (E1 & E2 & E3 & E4 & E5).
    assert (ended s = false) as He by (destruct (ended s); [|done]; by destruct (L3 eq_refl) as (_ & _ & ?)).
    constructor; cbn; try done.
    + by rewrite E1.
    + by eexists _, _.
    + by rewrite E2.
    + by rewrite Hst.
    + unfold writer_ok. rewrite E4, Hst, Hso. split; [apply H5|done].
    + unfold reader_ok. rewrite E3, Hst, Hso. split; [apply H6|done].
    + constructor; cbn; rewrite ?Hrun, ?Hst, ?He; done.
    + split; [by rewrite E5; auto|]. rewrite E5, D1 by done. split; [lia|]. intros _. split; [lia|]. intros _ _. lia.
Qed.

Lemma close_resume_inv (s : system) n c1 :
  sys_inv s -> closers s = Datatypes.S n -> wake_done (conn s) = Some c1 ->
  close_end c1 = Ret tt /\
  sys_inv (mk_system c1 (writer s) (reader s) (controller s) (connector s) (ended s) n (jitter s)).
Proof.
  intros Hi Hn Hw. unfold wake_done in Hw. destruct (actor_done_ (conn s)) as [|m] eqn:Ed; [done|]. injection Hw as <-.
  pose proof Hi as [H1 (pend & await & [N1 N2 N3]) H3 H4 H5 H6 [L1 L2 L3 L4 L5] H7 H8 (D1 & D2 & D3)].
  rewrite Ed in *. assert (state_ (conn s) = connection_state.CLOSED) as Hst by (apply D2; lia).
  assert (actor_running_ (conn s) = false) as Hrun by (destruct (actor_running_ (conn s)); [by discriminate D1|done]).
  split; [unfold close_end; cbn; by rewrite bool_decide_true by done|].
  destruct (L1 Hrun) as (Hlo & He & Hcn & _). destruct (loops_over_pcs s Hlo) as (_ & _ & Hk).
  constructor; cbn; try done.
  - exists pend, await. by constructor.
  - rewrite Hcn, Hk. cbn. by rewrite Hst.
  - split; [by rewrite Hrun|]. split; [done|]. cbn. intros Hx. rewrite Hn in D3. destruct (D3 Hx). split; [lia|by rewrite Hrun].
Qed.

(** ** The end of the actor *)

Lemma transition_parser now c c' : transition_to_closed now c = Ret c' -> parser_ c' = parser_ c.
Proof.
  unfold transition_to_closed, clear_pipeline. intros H. run_inv.
  destruct (emit_event_fields now ev_closed stage_close (Some (state_ c)) (Some connection_state.CLOSED) no_error_info
    (close_socket (set_pipeline x0.1 x0.2 (set_state connection_state.CLOSED c)))) as (_ & _ & _ & _ & _ & _ & _ & _ & _ & _ & -> & _).
  by rewrite close_socket_eq.
Qed.

Lemma actor_end_inv now (s : system) :
  sys_inv s -> actor_running_ (conn s) = true -> ended s = false -> loops_over s = true ->
  exists c1, actor_loop_end now (conn s) = Ret c1 /\
    sys_inv (mk_system c1 (writer s) (reader s) (controller s) (connector s) true (closers s) (jitter s)).
Proof.
  intros Hi Hrun He Hlo. pose proof Hi as [H1 (pend & await & Hok) H3 H4 H5 H6 [L1 L2 L3 L4 L5] H7 H8 (D1 & D2 & D3)].
  destruct (loops_over_pcs s Hlo) as (Hw & Hr & Hk).
  assert (stop_ (conn s) = true) as Hsp by (apply L5; [done|]; unfold some_stopped; by rewrite Hw).
  assert (connector s = c_idle) as Hcn.
  { destruct (connector s) eqn:E; [done|..]; (destruct H7 as (_ & Hx & _); [by rewrite E|]; by rewrite Hsp in Hx). }
  unfold actor_loop_end. destruct (transition_to_closed_ok now (conn s) pend await Hok)
    as (c1 & Ht & Hn & Hst & Hso & Hsp1 & Hrun1 & Hd1 & _).
  exists c1. split; [done|]. pose proof (transition_parser _ _ _ Ht) as Hp.
  apply (tol_transition same_core) in Ht as [Hc _]. apply core_fields in Hc as (E1 & E2 & E3 & E4 & E5 & E6).
  constructor; cbn; try done.
  - by rewrite E1.
  - by eexists _, _.
  - by rewrite Hp.
  - by rewrite Hst.
  - unfold writer_ok. rewrite E4, Hw. rewrite Hw in H5. split; [apply H5|done].
  - unfold reader_ok. rewrite E3, Hr. rewrite Hr in H6. split; [apply H6|done].
  - constructor; cbn; rewrite ?Hrun1, ?Hrun, ?Hst, ?Hsp1; done.
  - rewrite Hcn, Hk. cbn. by rewrite Hst.
  - unfold done_ok. rewrite E1, E2, E5, E6. split; [done|]. split; [by rewrite Hst|done].
Qed.

Lemma actor_done_inv now (s : system) :
  sys_inv s -> ended s = true ->
  exists c1, actor_completed now None (conn s) = Ret c1 /\
    sys_inv (mk_system c1 (writer s) (reader s) (controller s) (connector s) false (closers s) (jitter s)).
Proof.
  intros Hi He. pose proof Hi as [H1 (pend & await & [N1 N2 N3]) H3 H4 H5 H6 [L1 L2 L3 L4 L5] H7 H8 (D1 & D2 & D3)].
  destruct (L3 He) as (Hlo & Hcn & Hst). destruct (loops_over_pcs s Hlo) as (Hw & Hr & Hk).
  assert (actor_running_ (conn s) = true) as Hrun
    by (destruct (actor_running_ (conn s)) eqn:E; [done|]; destruct (L1 eq_refl) as (_ & Hx & _); congruence).
  assert (stop_ (conn s) = true) as Hsp by (apply L5; [done|]; unfold some_stopped; by rewrite Hw).
  unfold actor_completed. cbn [mbind run_bind set_actor state_ actor_done_].
  rewrite bool_decide_false by (intros Hx; by apply Hx). cbn [mbind run_bind]. eexists. split; [done|].
  constructor; cbn; try done.
  - exists pend, await. by constructor.
  - constructor; cbn; try done. intros _. by auto.
  - rewrite Hcn, Hk. cbn. by rewrite Hst.
  - split; [done|]. split; [done|]. cbn. intros Hx. rewrite D1 by done. destruct (D3 Hx) as [_ Hc]. specialize (Hc Hrun Hsp).
    split; [lia|done].
Qed.

(** ** Every event *)

Lemma writer_event (s : system) m :
  (exists c' w, m = Ret (c', w) /\ sys_inv (with_writer c' w s)) -> exists s', (set_writer s <$> m) = Ret s' /\ sys_inv s'.
Proof. intros (c' & x & -> & Hi). by eexists. Qed.

Lemma reader_event (s : system) m :
  (exists c' r, m = Ret (c', r) /\ sys_inv (with_reader c' r s)) -> exists s', (set_reader s <$> m) = Ret s' /\ sys_inv s'.
Proof. intros (c' & x & -> & Hi). by eexists. Qed.

Lemma control_event (s : system) m :
  (exists c' k j, m = Ret (c', k, j) /\ sys_inv (with_controller c' k j s)) ->
  exists s', (set_controller s <$> m) = Ret s' /\ sys_inv s'.
Proof. intros (c' & k & j & -> & Hi). by eexists. Qed.

Lemma conn_event (m : run connection) (f : connection -> system) :
  (exists c', m = Ret c' /\ sys_inv (f c')) -> exists s', (f <$> m) = Ret s' /\ sys_inv s'.
Proof. intros (c' & -> & Hi). by eexists. Qed.

Lemma waking_control now (s : system) r :
  sys_inv s -> settled s -> finishing s = false -> small (parser_ (conn s)) ->
  is_reconnect (controller s) = false -> controller s <> k_stop ->
  (fun c1 => set_controller s <$> control_loop pow unspecified now (jitter s) c1) <$> wake_control (conn s) = Some r ->
  exists s', r = Ret s' /\ sys_inv s'.
Proof.
  intros Hi Hs Hf Hsm Hk Hks Hr. unfold wake_control in Hr. destruct (control_wakeup_ (conn s)) as [|n]; [done|].
  injection Hr as <-.
  destruct (control_loop_inv pow unspecified now
    (with_conn (set_wakeups (write_wakeup_ (conn s)) (read_wakeup_ (conn s)) n (conn s)) s))
    as (c' & k & j & E & Hi1); [by apply wake_inv|done..|]. cbn [conn with_conn jitter] in E. rewrite E. by eexists.
Qed.

Lemma loops_inv e (s : system) r :
  sys_inv s -> settled s -> allowed e s -> loop_event e = true -> react other pow unspecified e s = Some r ->
  exists s', r = Ret s' /\ sys_inv s'.
Proof.
  intros Hi Hs [Hsm Ha] He Hr. destruct e; try done; cbn [react] in Hr; cbn zeta in Hr.
  - destruct (writer s) eqn:Hw; try done.
    + injection Hr as <-. apply writer_event, writer_head_inv; auto.
    + unfold wake_write in Hr. destruct (write_wakeup_ (conn s)); [done|]. injection Hr as <-.
      destruct (writer_head_inv (with_conn (set_wakeups n (read_wakeup_ (conn s)) (control_wakeup_ (conn s)) (conn s)) s))
        as (c' & w & E & Hi1); [by apply wake_inv|done|by right|]. cbn [conn with_conn] in E. rewrite E. by eexists.
  - destruct (writer s) eqn:Hw; try done. injection Hr as <-. destruct Ha as [Hf Ha]. apply writer_event.
    eapply writer_resume_inv; [done..|]. intros n ->. done.
  - destruct (reader s) eqn:Hw; try done.
    + injection Hr as <-. apply reader_event, reader_head_inv; auto.
    + unfold wake_read in Hr. destruct (read_wakeup_ (conn s)); [done|]. injection Hr as <-.
      destruct (reader_head_inv (with_conn (set_wakeups (write_wakeup_ (conn s)) n (control_wakeup_ (conn s)) (conn s)) s))
        as (c' & w & E & Hi1); [by apply wake_inv|done|by right|done|]. cbn [conn with_conn] in E. rewrite E. by eexists.
  - destruct (reader s) eqn:Hw; try done. injection Hr as <-. destruct Ha as [Hf Ha]. apply reader_event.
    eapply reader_resume_inv; [done..|]. intros bs ->. done.
  - destruct (controller s) as [| |d|rp live|] eqn:Hk; try done.
    + injection Hr as <-. apply control_event, control_loop_inv; by rewrite ?Hk.
    + by apply (waking_control now s r Hi Hs Ha Hsm); rewrite ?Hk.
    + by apply (waking_control now s r Hi Hs Ha Hsm); rewrite ?Hk.
  - destruct (controller s) as [| |d|rp live|] eqn:Hk; try done. destruct (d <=? now); [|done]. injection Hr as <-.
    apply control_event, control_loop_inv; by rewrite ?Hk.
  - destruct (controller s) as [| |d|[d|pt|] live|] eqn:Hk; try done. destruct by_wakeup.
    + unfold wake_control in Hr. destruct (control_wakeup_ (conn s)) as [|n]; [done|]. injection Hr as <-. eexists. split; [done|].
      by apply (backoff_inv other pow unspecified now
        (with_conn (set_wakeups (write_wakeup_ (conn s)) (read_wakeup_ (conn s)) n (conn s)) s) d live); [apply wake_inv|..].
    + injection Hr as <-. eexists. split; [done|]. by eapply backoff_inv.
Qed.

Lemma react_inv e (s : system) r :
  sys_inv s -> settled s -> allowed e s -> react other pow unspecified e s = Some r ->
  exists s', r = Ret s' /\ sys_inv s'.
Proof.
  intros Hi Hs Hal Hr. destruct (loop_event e) eqn:He; [by eapply loops_inv|].
  destruct Hal as [Hsm Ha]. destruct e; try done; cbn [react] in Hr; cbn zeta in Hr.
  - injection Hr as <-. destruct Ha as (Hf & Had & Hne & Hc). by apply conn_event, enqueue_inv.
  - injection Hr as <-. destruct Ha as (Hf & Had & Hc). by apply conn_event, enqueue_dynamic_inv.
  - injection Hr as <-. destruct Ha as (Hf & Had & Hne). by apply conn_event, enqueue_throws_inv.
  - injection Hr as <-. destruct Ha as [Hf Ha]. by apply connect_inv_call.
  - destruct (connector s) eqn:Hcn; try done. destruct (spawned_inv s Hi Hcn) as (c1 & pt & Hb & Hi1).
    rewrite Hb in Hr. injection Hr as <-. by eexists.
  - destruct (connector s) eqn:Hcn; try done. destruct (do_connect_resume _ _ _ _ _) as [r1|] eqn:E; [|done].
    injection Hr as <-. destruct Ha as [Hf Ha]. destruct (connect_io_inv now i s _ _ _ Hi Hf Hcn Ha E) as (x & -> & Hi1). by eexists.
  - destruct (connector s) as [| |[| | | | | |res] live|] eqn:Hcn; try done. injection Hr as <-.
    destruct (connect_end_inv now s res live Hi Hcn) as (x & -> & Hi1). by eexists.
  - destruct (connector s) eqn:Hcn; try done. injection Hr as <-. apply close_inv; [done|by right|].
    pose proof (si_mode _ Hi) as Hm. rewrite Hcn in Hm. by destruct Hm as [-> _].
  - injection Hr as <-. destruct Ha as [Hcn Hst]. 
    replace (close_call now s) with (close_call now (with_connector (conn s) c_idle s)) by (by rewrite with_connector_same).
    apply close_inv; auto.
  - destruct (closers s) as [|n] eqn:Hn; [done|]. destruct (wake_done (conn s)) as [c1|] eqn:Hw; [|done]. injection Hr as <-.
    destruct (close_resume_inv s n c1 Hi Hn Hw) as [-> Hi1]. by eexists.
  - destruct (controller s) as [| |d|[d|pt|] live|] eqn:Hk; try done.
    destruct (do_reconnect_resume _ _ _ _ _ _ _ _) as [r1|] eqn:E; [|done]. injection Hr as <-. destruct Ha as [Hf Ha].
    destruct (reconnect_io_inv other pow unspecified now i s pt live r1 Hi Hs Hsm Hk Ha E) as (x & -> & Hi1). by eexists.
  - destruct (actor_running_ (conn s)) eqn:Hrun; [|done]. destruct (ended s) eqn:Hen; [done|].
    destruct (loops_over s) eqn:Hlo; [|done]. injection Hr as <-. by apply conn_event, actor_end_inv.
  - destruct (ended s) eqn:Hen; [|done]. injection Hr as <-. by apply conn_event, actor_done_inv.
Qed.

End life.
