(* ===== verification/ActorWake.v ===== *)
(** * Wake-ups are not lost

    A loop waits for its event only while there is nothing for it to do, or the
    event has been notified: [awake] holds of every state of the system. *)

From S2P Require Import Prelude Kind Errors Charconv Buffer Message Parser Builder Adapter.
From S2P Require Import ParserInv ParserSafety ParserViews Wire WireParse.
From S2P Require Import Request RingQueue ResponseSink Pipeline PipelineSpec Config Connection Connect.
From S2P Require Import ConnectionSpec ConnectSpec Tolerant Strand Actor ConnectTheorems ReconnectTheorems.
From S2P Require Import ActorSpec ActorLife.

(** ** What each loop waits for *)

Definition stop_asked (c : connection) : Prop := stop_ c = true.
Definition is_open (c : connection) : Prop := state_ c = connection_state.OPEN.
Definition is_failed (c : connection) : Prop := state_ c = connection_state.FAILED.
Definition to_write (c : connection) : Prop := is_open c /\ has_pending_write (pipeline_ c) = true.

(** Between [c] and [c'] the condition [P] did not become true without a
    notification of the event that [wakeups] counts. *)
Definition hears (wakeups : connection -> nat) (P : connection -> Prop) (c c' : connection) : Prop :=
  (wakeups c <= wakeups c')%nat /\ (P c' -> P c \/ (0 < wakeups c')%nat).

#[export] Instance hears_preorder wk P : PreOrder (hears wk P).
Proof.
  split; [intros c; split; [done|by left]|].
  intros c1 c2 c3 [H1 H2] [K1 K2]. split; [lia|]. intros [H|?]%K2; [|by right].
  destruct (H2 H) as [?|?]; [by left|right; lia].
Qed.

Definition hears_write (c c' : connection) : Prop :=
  hears write_wakeup_ stop_asked c c' /\ hears write_wakeup_ to_write c c'.
Definition hears_read (c c' : connection) : Prop :=
  hears read_wakeup_ stop_asked c c' /\ hears read_wakeup_ is_open c c'.
Definition hears_control (c c' : connection) : Prop :=
  hears control_wakeup_ stop_asked c c' /\ hears control_wakeup_ is_failed c c'.

#[export] Instance both_preorder {A} (R S : relation A) :
  PreOrder R -> PreOrder S -> PreOrder (fun x y => R x y /\ S x y).
Proof. intros HR HS. split; [intros x; by split|]. intros x y z [? ?] [? ?]. split; by etransitivity. Qed.

Lemma hears_kept wk P c c' : (wk c <= wk c')%nat -> (P c' -> P c) -> hears wk P c c'.
Proof. intros H1 H2. split; [done|]. auto. Qed.

Lemma hears_notified wk P c c' : (wk c < wk c')%nat -> hears wk P c c'.
Proof. intros H. split; [lia|]. intros _. right. lia. Qed.

(** The loops hear everything that goes on. *)
Definition heard (c c' : connection) : Prop := hears_write c c' /\ hears_read c c' /\ hears_control c c'.

#[export] Instance heard_preorder : PreOrder heard.
Proof.
  split; [intros c; by repeat split; try left|].
  intros c1 c2 c3 ((? & ?) & (? & ?) & ? & ?) ((? & ?) & (? & ?) & ? & ?).
  split; [|split]; split; by etransitivity.
Qed.

Lemma heard_same c c' :
  stop_ c' = stop_ c -> state_ c' = state_ c ->
  (has_pending_write (pipeline_ c') = true -> has_pending_write (pipeline_ c) = true) ->
  (write_wakeup_ c <= write_wakeup_ c')%nat -> (read_wakeup_ c <= read_wakeup_ c')%nat ->
  (control_wakeup_ c <= control_wakeup_ c')%nat -> heard c c'.
Proof.
  intros H1 H2 H3 H4 H5 H6.
  split; [|split]; split; apply hears_kept; try done; unfold stop_asked, to_write, is_open, is_failed; rewrite ?H1, ?H2;
    naive_solver.
Qed.

Lemma heard_notified c c' :
  (write_wakeup_ c < write_wakeup_ c')%nat -> (read_wakeup_ c < read_wakeup_ c')%nat ->
  (control_wakeup_ c < control_wakeup_ c')%nat -> heard c c'.
Proof. intros. split; [|split]; split; by apply hears_notified. Qed.

(** A state in which no loop has anything to do. *)
Lemma heard_quiet c c' :
  same_core c c' -> state_ c' <> connection_state.OPEN -> state_ c' <> connection_state.FAILED -> heard c c'.
Proof.
  intros (Hc & H1 & H2 & H3) Ho Hf. apply core_fields in Hc as (_ & Hs & _).
  split; [|split]; split; apply hears_kept; try done; unfold stop_asked, to_write, is_open, is_failed; rewrite ?Hs; naive_solver.
Qed.

(** ** The pieces of the connection *)

Lemma heard_error now ec c c' : handle_error now ec c = Ret c' -> heard c c'.
Proof.
  intros H. pose proof (fun c1 => tol_clear (R:=same_core) now ec c1) as Hcl. unfold handle_error in H.
  destruct (state_ c); run_inv; try done;
    (match goal with H : clear_pipeline _ _ ?c1 = Ret ?c2 |- _ =>
       pose proof (Hcl _ _ H) as (_ & Hw & Hr & Hk);
       pose proof (same_core_event now ev_disconnected stage_runtime_io (Some connection_state.OPEN)
         (Some connection_state.FAILED) ec (set_state connection_state.FAILED c)) as (_ & ? & ? & ?) end);
    rewrite close_socket_eq; cbn in *; apply heard_notified; cbn; lia.
Qed.

Lemma reply_pending {f h} {p : conn_pipeline} {x} :
  on_reply f h p = Ret x -> has_pending_write x.2 = has_pending_write p.
Proof. unfold on_reply. intros H. run_inv. by destruct (is_complete _); run_inv. Qed.

Lemma heard_parser p c : heard c (set_parser p c).
Proof. by apply heard_same. Qed.

Lemma heard_reply f c x : on_reply f (sinks c) (pipeline_ c) = Ret x -> heard c (set_pipeline x.1 x.2 c).
Proof. intros H. apply reply_pending in H. apply heard_same; try done. cbn. by rewrite H. Qed.

Lemma heard_read_loop fuel now : forall c c', do_read_loop fuel now c = Ret c' -> heard c c'.
Proof.
  induction fuel as [|fuel IH]; intros c c' H; [done|]. cbn [do_read_loop] in H.
  apply run_bind_Ret in H as ([p1 parsed] & _ & H). transitivity (set_parser p1 c); [apply heard_parser|].
  set (c1 := set_parser p1 c) in *. destruct parsed as [[root|]|e]; cbv zeta in H.
  - destruct (negb _); [by eapply heard_error|]. do 2 apply run_bind_Ret in H as (? & _ & H).
    apply run_bind_Ret in H as (hp & Hr & H). apply run_bind_Ret in H as (p2 & _ & H). apply IH in H.
    etransitivity; [exact (heard_reply _ _ _ Hr)|]. etransitivity; [apply heard_parser|exact H].
  - by run_inv.
  - apply run_bind_Ret in H as (c2 & Hc & H). etransitivity; [|by eapply heard_error].
    destruct (has_pending_read _); run_inv; [|done]. by eapply heard_reply.
Qed.

Lemma heard_in_flight r w c : heard c (set_in_flight r w c).
Proof. by apply heard_same. Qed.

Lemma heard_read_end now r c c' : do_read_end now r c = Ret c' -> heard c c'.
Proof.
  unfold do_read_end. intros H. apply run_bind_Ret in H as (c1 & H & [= <-]).
  etransitivity; [|apply heard_in_flight]. destruct r as [[|b bs]|e]; [by eapply heard_error| |].
  - apply run_bind_Ret in H as (p1 & _ & H). apply heard_read_loop in H. etransitivity; [apply heard_parser|exact H].
  - destruct (_ && _); [by run_inv|by eapply heard_error].
Qed.

Lemma heard_pipeline h p c :
  (has_pending_write p = true -> has_pending_write (pipeline_ c) = true) -> heard c (set_pipeline h p c).
Proof. intros H. by apply heard_same. Qed.

Lemma heard_reject now start info err addr c c' : reject now start info err addr c = Ret c' -> heard c c'.
Proof.
  unfold reject. intros H. run_inv. by destruct (_ && _); apply heard_same.
Qed.

Lemma heard_trace r c : heard c (trace_begin r c).2.
Proof. unfold trace_begin. destruct (trace_hooks_enabled _); [by apply heard_same|done]. Qed.

(** Only the writer and the control loop are notified of a request. *)
Lemma heard_enqueue_impl now start r addr c c' : enqueue_impl now start r addr c = Ret c' -> heard c c'.
Proof.
  unfold enqueue_impl. pose proof (heard_trace r c) as Ht. destruct (trace_begin r c) as [info c1]. cbn [snd] in Ht.
  intros H. etransitivity; [exact Ht|]. clear Ht. destruct (refusal (state_ c1)); [by eapply heard_reject|].
  apply run_bind_Ret in H as (pb & Hp & H). destruct pb.2 eqn:Hb; cbn [negb] in H.
  - apply run_bind_Ret in H as (as_ & _ & [= <-]).
    set (c3 := if trace_hooks_enabled _ then _ else _).
    assert (write_wakeup_ c3 = write_wakeup_ c1 /\ read_wakeup_ c3 = read_wakeup_ c1 /\ control_wakeup_ c3 = control_wakeup_ c1 /\
      stop_ c3 = stop_ c1 /\ state_ c3 = state_ c1) as (E1 & E2 & E3 & E4 & E5) by (unfold c3; by destruct (trace_hooks_enabled _)).
    split; [|split]; split; try (apply hears_notified; cbn; lia); apply hears_kept; cbn; try lia;
      unfold stop_asked, is_open; cbn; congruence.
  - apply heard_reject in H. etransitivity; [|exact H]. apply heard_pipeline.
    destruct pb as [p1 b1]. cbn in Hb. subst b1. by rewrite (push_refused _ _ _ _ _ _ Hp).
Qed.

Lemma heard_enqueue now start types r addr c c' : enqueue now start types r addr c = Ret c' -> heard c c'.
Proof.
  unfold enqueue. intros H. apply run_bind_Ret in H as (u & _ & H). apply heard_enqueue_impl in H.
  etransitivity; [|exact H]. by apply heard_pipeline.
Qed.

Lemma heard_enqueue_dynamic now start t r addr c c' : enqueue_dynamic now start t r addr c = Ret c' -> heard c c'.
Proof. intros H. apply heard_enqueue_impl in H. etransitivity; [|exact H]. by apply heard_pipeline. Qed.

Lemma heard_enqueue_throws now types r ep addr c c' : enqueue_throws now types r ep addr c = Ret c' -> heard c c'.
Proof.
  unfold enqueue_throws, enqueue_caught. intros H. apply run_bind_Ret in H as (h1 & _ & [= <-]).
  etransitivity; [|by apply heard_pipeline]. etransitivity; [|apply heard_trace]. by apply heard_pipeline.
Qed.

Lemma heard_close now c c' w : close_begin now c = Ret (c', w) -> heard c c'.
Proof.
  unfold close_begin. intros H. destruct (bool_decide _); [by run_inv|]. apply run_bind_Ret in H as (c1 & H & [= <- _]).
  apply (tol_clear (R:=same_core)) in H as (_ & H1 & H2 & H3). rewrite close_socket_eq. cbn in *.
  apply heard_notified; cbn; lia.
Qed.

(** ** The invariant *)

Section awake.

Context (other : string -> Z -> string) {endpoint : Type}.
Context (pow : double -> double -> double) (unspecified : double -> Z).

Abbreviation system := (system endpoint).
Abbreviation event := (event endpoint).

Definition aw_write (w : writer_pc) (c : connection) : Prop :=
  w = w_wait -> stop_asked c \/ to_write c -> (0 < write_wakeup_ c)%nat.

(** [connect] notifies when it goes on. *)
Definition aw_read (r : reader_pc) (finishing : bool) (c : connection) : Prop :=
  r = r_wait -> stop_asked c \/ is_open c /\ finishing = false -> (0 < read_wakeup_ c)%nat.

Definition aw_control (k : control_pc endpoint) (c : connection) : Prop :=
  match k with
  | k_wait | k_timer _ => stop_asked c \/ is_failed c -> (0 < control_wakeup_ c)%nat
  | k_reconnect (at_backoff _) _ => stop_asked c -> (0 < control_wakeup_ c)%nat
  | _ => True
  end.

Definition awake (s : system) : Prop :=
  aw_write (writer s) (conn s) /\ aw_read (reader s) (finishing s) (conn s) /\ aw_control (controller s) (conn s).

Lemma aw_write_heard w c c' : aw_write w c -> hears_write c c' -> aw_write w c'.
Proof.
  intros Ha [[Hm H1] [_ H2]] Hw Ht. specialize (Ha Hw).
  destruct Ht as [Ht|Ht]; [destruct (H1 Ht)|destruct (H2 Ht)]; try done; (eapply Nat.lt_le_trans; [apply Ha|done]); auto.
Qed.

Lemma aw_read_heard r f c c' : aw_read r f c -> hears_read c c' -> aw_read r f c'.
Proof.
  intros Ha [[Hm H1] [_ H2]] Hw Ht. specialize (Ha Hw).
  destruct Ht as [Ht|[Ht ?]]; [destruct (H1 Ht)|destruct (H2 Ht)]; try done; (eapply Nat.lt_le_trans; [apply Ha|done]); auto.
Qed.

Lemma aw_control_heard k c c' : aw_control k c -> hears_control c c' -> aw_control k c'.
Proof.
  intros Ha [[Hm H1] [_ H2]]. destruct k as [| | |[d|pt|] live|]; try done; cbn [aw_control] in *.
  - intros [Ht|Ht]; [destruct (H1 Ht)|destruct (H2 Ht)]; try done; (eapply Nat.lt_le_trans; [apply Ha|done]); auto.
  - intros [Ht|Ht]; [destruct (H1 Ht)|destruct (H2 Ht)]; try done; (eapply Nat.lt_le_trans; [apply Ha|done]); auto.
  - intros Ht. destruct (H1 Ht); try done; (eapply Nat.lt_le_trans; [apply Ha|done]); auto.
Qed.

(** A loop that waits has just seen that there is nothing to do. *)
Lemma write_loop_awake c c' w :
  write_loop c = Ret (c', w) -> aw_write w c' /\ heard c c'.
Proof.
  unfold write_loop, write_loop_head. destruct (stop_ c) eqn:Hs; cbn [orb]; [by intros [= <- <-]|].
  case_bool_decide as Hc; [by intros [= <- <-]|]. destruct (bool_decide _ || _) eqn:Hw.
  - intros [= <- <-]. split; [|done]. intros _ [Hx|[Ho Hp]]; [by unfold stop_asked in Hx; congruence|].
    unfold is_open in Ho. rewrite Ho, Hp in Hw. rewrite bool_decide_false in Hw by (intros Hx; by apply Hx). done.
  - intros H. apply run_bind_Ret in H as ([c1 b] & H & [= <- <-]). split; [by destruct b|].
    unfold do_write_begin in H. destruct (bool_decide _); [by run_inv|]. apply run_bind_Ret in H as (u & _ & H).
    unfold do_write_next in H. destruct (_ && _); run_inv; [apply heard_in_flight|].
    etransitivity; apply heard_in_flight.
Qed.

Lemma read_loop_awake c c' r f :
  read_loop c = Ret (c', r) -> aw_read r f c' /\ heard c c'.
Proof.
  unfold read_loop, read_loop_head. destruct (stop_ c) eqn:Hs; cbn [orb]; [by intros [= <- <-]|].
  case_bool_decide as Hc; [by intros [= <- <-]|]. case_bool_decide as Hw.
  - intros [= <- <-]. split; [|done]. by intros _ [Hx|[Ho _]]; [unfold stop_asked in Hx; congruence|].
  - intros H. apply run_bind_Ret in H as ([c1 b] & H & [= <- <-]). split; [by destruct b|].
    unfold do_read_begin in H. destruct (bool_decide _); [by run_inv|]. run_inv.
    etransitivity; [apply heard_in_flight|apply heard_parser].
Qed.

Lemma backoff_turn_awake now d j c x :
  backoff_turn (endpoint:=endpoint) now d j c = x -> aw_control (after_reconnect x).1.2 (after_reconnect x).1.1.
Proof.
  intros <-. unfold backoff_turn, reconnect_attempt. destruct (stop_ c) eqn:Hs; cbn [negb andb orb]; [done|].
  destruct (bool_decide _ && _); [cbn; unfold stop_asked; congruence|]. destruct (bool_decide _); [done|].
  by destruct (do_connect_begin _).
Qed.

Lemma reconnect_head_awake now j c x :
  reconnect_head (endpoint:=endpoint) pow unspecified now j c = Ret x -> aw_control (after_reconnect x).1.2 (after_reconnect x).1.1.
Proof.
  unfold reconnect_head. destruct (stop_ c || _) eqn:Hs; [by intros [= <-]|]. intros H. apply run_bind_Ret in H as (u & _ & H).
  destruct (calculate_reconnect_delay _ _ _ _ _ _) as [delay j1]. injection H as <-. apply orb_false_iff in Hs as [Hs _].
  destruct (0 <? delay); [by eapply backoff_turn_awake|]. unfold reconnect_attempt. rewrite Hs. cbn [orb].
  destruct (bool_decide _); [done|]. by destruct (do_connect_begin _).
Qed.

Lemma control_loop_awake now j c c' k j' :
  control_loop (endpoint:=endpoint) pow unspecified now j c = Ret (c', k, j') -> aw_control k c'.
Proof.
  unfold control_loop. intros H. apply run_bind_Ret in H as ([c1 act] & Ht & H). unfold control_turn in Ht.
  destruct (stop_ c) eqn:Hs; cbn [orb] in Ht; [by run_inv|].
  destruct (bool_decide (state_ c = connection_state.CLOSED)); [by run_inv|].
  destruct (bool_decide (state_ c = connection_state.FAILED)) eqn:Hf.
  - destruct (negb _); run_inv; [done|]. destruct (reconnect_head _ _ _ _ _) as [x|] eqn:E; [|done].
    apply reconnect_head_awake in E. injection H as Hx. by rewrite Hx in E.
  - apply bool_decide_eq_false in Hf.
    assert (act <> control_reconnect /\ (act = control_continue \/ act = control_exit \/ c1 = c)) as [Hnr Hact].
    { apply run_bind_Ret in Ht as ([[[] next]|] & _ & Ht); [run_inv; auto|destruct (negb _); run_inv; auto|].
      destruct (bool_decide _); run_inv; auto. }
    destruct Hact as [-> |[-> | ->]]; [by run_inv..|].
    destruct act; run_inv; try done; cbn; unfold stop_asked, is_failed; intros [?|?]; congruence.
Qed.

(** What the writer and the reader hear of the control loop. *)
Definition heard_io (c c' : connection) : Prop := hears_write c c' /\ hears_read c c'.

Lemma heard_io_quiet c c' : same_core c c' -> state_ c' <> connection_state.OPEN -> heard_io c c'.
Proof.
  intros (Hc & H1 & H2 & H3) Ho. apply core_fields in Hc as (_ & Hs & _).
  split; split; apply hears_kept; try done; unfold stop_asked, to_write, is_open; rewrite ?Hs; naive_solver.
Qed.

Lemma reconnect_attempt_open j c : 
  state_ (reconnect_attempt (endpoint:=endpoint) j c).1.1 = connection_state.OPEN -> (reconnect_attempt (endpoint:=endpoint) j c).1.1 = c.
Proof.
  unfold reconnect_attempt. destruct (_ || _); [done|]. unfold do_connect_begin. by destruct (stop_ _).
Qed.

Lemma backoff_turn_open now d j c :
  state_ (backoff_turn (endpoint:=endpoint) now d j c).1.1 = connection_state.OPEN -> (backoff_turn (endpoint:=endpoint) now d j c).1.1 = c.
Proof. unfold backoff_turn. destruct (_ && _); [done|apply reconnect_attempt_open]. Qed.

Lemma reconnect_head_open now j c x :
  reconnect_head (endpoint:=endpoint) pow unspecified now j c = Ret x -> state_ x.1.1 = connection_state.OPEN -> x.1.1 = c.
Proof.
  unfold reconnect_head. destruct (_ || _); [by intros [= <-]|]. intros H. apply run_bind_Ret in H as (u & _ & H).
  destruct (calculate_reconnect_delay _ _ _ _ _ _) as [delay j1]. injection H as <-.
  destruct (0 <? delay); [apply backoff_turn_open|apply reconnect_attempt_open].
Qed.

Lemma heard_io_open c c' : same_core c c' -> (state_ c' = connection_state.OPEN -> heard_io c c') -> heard_io c c'.
Proof.
  intros Hc Ho. destruct (decide (state_ c' = connection_state.OPEN)) as [?|?]; [by apply Ho|by apply heard_io_quiet].
Qed.

Lemma heard_io_refl c : heard_io c c.
Proof. by split; split; apply hears_kept. Qed.

Lemma heard_heard_io c c' : heard c c' -> heard_io c c'.
Proof. by intros (? & ? & _). Qed.

Lemma control_loop_heard now j c c' k j' :
  control_loop (endpoint:=endpoint) pow unspecified now j c = Ret (c', k, j') -> heard_io c c'.
Proof.
  unfold control_loop. intros H. apply run_bind_Ret in H as ([c1 act] & Ht & H). unfold control_turn in Ht.
  destruct (_ || _); [run_inv; apply heard_io_refl|].
  destruct (bool_decide (state_ c = connection_state.FAILED)).
  - destruct (negb _); run_inv; [split; split; apply hears_notified; cbn; lia|].
    destruct (reconnect_head _ _ _ _ _) as [x|] eqn:E; [|done]. cbn in H. injection H as Hx.
    assert (c' = x.1.1) as -> by (unfold after_reconnect in Hx; destruct x as [[? ?] ?]; by injection Hx as <-).
    apply heard_io_open; [exact (tol_reconnect_head same_core _ _ _ _ _ _ E)|].
    intros Ho. rewrite (reconnect_head_open _ _ _ _ E Ho). apply heard_io_refl.
  - apply run_bind_Ret in Ht as ([[[] next]|] & _ & Ht).
    + run_inv. apply heard_heard_io. by eapply heard_error.
    + destruct (negb _); run_inv; apply heard_io_refl.
    + destruct (bool_decide _); run_inv; apply heard_io_refl.
Qed.

(** A reconnection that ends open notifies everybody. *)
Lemma reconnect_after_loud now j res c x :
  reconnect_after (endpoint:=endpoint) pow unspecified now j res c = Ret x -> state_ x.1.1 = connection_state.OPEN ->
  x.1.1 = notify true true true (set_attempts (generation_ c) 0 c).
Proof.
  destruct res; cbn [reconnect_after]; intros H Ho; [by run_inv|].
  pose proof (reconnect_head_open _ _ _ _ H Ho) as E. by rewrite E in Ho.
Qed.

Lemma reconnect_resume_heard now j pt i c c' j' :
  config_fits (cfg_ c) -> input_sane i c ->
  do_reconnect_resume (endpoint:=endpoint) other pow unspecified now j (at_attempt pt) i c = Some (Ret (c', j', reconnect_done)) ->
  heard_io c c'.
Proof.
  intros Hfit Hi H. apply heard_io_open; [exact (tol_do_reconnect same_core _ _ _ _ _ _ _ _ _ Hfit Hi H)|]. intros Ho.
  cbn [do_reconnect_resume] in H. destruct (do_connect_resume _ _ _ _ _) as [r|] eqn:E; [|done]. injection H as H.
  apply run_bind_Ret in H as ([c1 pt1] & -> & H). cbn [fst snd] in H.
  destruct (tol_do_connect same_core _ _ _ _ _ _ Hfit Hi E) as (_ & H1 & H2 & _). cbn [fst] in *.
  destruct pt1; try done. pose proof (reconnect_after_loud _ _ _ _ _ H Ho) as Hx. cbn [fst] in Hx. subst c'.
  split; split; apply hears_notified; cbn; lia.
Qed.

Lemma reconnect_resume_awake now j pt i c x :
  do_reconnect_resume (endpoint:=endpoint) other pow unspecified now j (at_attempt pt) i c = Some (Ret x) ->
  aw_control (after_reconnect x).1.2 (after_reconnect x).1.1.
Proof.
  cbn [do_reconnect_resume]. intros H. destruct (do_connect_resume _ _ _ _ _) as [r|]; [|done]. injection H as H.
  apply run_bind_Ret in H as ([c1 pt1] & -> & H). cbn [fst snd] in H. destruct pt1 as [| | | | | |res]; try (by injection H as <-).
  destruct res; cbn [reconnect_after] in H; [by run_inv|]. by apply reconnect_head_awake in H.
Qed.

(** *** Every event *)

Lemma awake_conn (s : system) c' : awake s -> heard (conn s) c' -> awake (with_conn c' s).
Proof.
  intros (Hw & Hr & Hk) (H1 & H2 & H3). split; [by eapply aw_write_heard|]. split; [by eapply aw_read_heard|by eapply aw_control_heard].
Qed.

(** What the reader and the control loop hear of the writer. *)
Definition heard_others (c c' : connection) : Prop := hears_read c c' /\ hears_control c c'.

#[local] Instance heard_others_preorder : PreOrder heard_others.
Proof.
  split; [intros c; by repeat split; try left|].
  intros c1 c2 c3 ((? & ?) & ? & ?) ((? & ?) & ? & ?). split; split; by etransitivity.
Qed.

Lemma heard_heard_others c c' : heard c c' -> heard_others c c'.
Proof. by intros (_ & ? & ?). Qed.

Lemma others_same c c' :
  stop_ c' = stop_ c -> state_ c' = state_ c -> (read_wakeup_ c <= read_wakeup_ c')%nat ->
  (control_wakeup_ c <= control_wakeup_ c')%nat -> heard_others c c'.
Proof.
  intros H1 H2 H3 H4. split; split; apply hears_kept; try done; unfold stop_asked, is_open, is_failed; by rewrite ?H1, ?H2.
Qed.

Lemma write_resume_heard now r c x : do_write_resume now r c = Ret x -> heard_others c x.1.
Proof.
  destruct r as [n|e]; cbn [do_write_resume]; intros H.
  - apply run_bind_Ret in H as (p1 & _ & H). cbv zeta in H. set (c1 := if has_pending_read p1 then _ else _) in H.
    transitivity c1; [unfold c1; destruct (has_pending_read p1); apply others_same; cbn; lia || done|].
    unfold do_write_next in H. destruct (_ && _); run_inv; [done|]. apply heard_heard_others, heard_in_flight.
  - apply run_bind_Ret in H as (c1 & H & [= <-]). apply heard_heard_others. etransitivity; [|apply heard_in_flight].
    destruct (_ && _); [by run_inv|by eapply heard_error].
Qed.

Lemma write_loop_resume_awake now r c c' w :
  write_loop_resume now r c = Ret (c', w) -> aw_write w c' /\ heard_others c c'.
Proof.
  unfold write_loop_resume. intros H. apply run_bind_Ret in H as ([c1 b] & H1 & H).
  apply write_resume_heard in H1. cbn [fst] in H1. destruct b as [buf|]; [by injection H as <- <-|].
  apply write_loop_awake in H as [Hw Hh]. split; [done|]. etransitivity; [exact H1|by apply heard_heard_others].
Qed.

Lemma read_loop_resume_awake now r f c c' r' :
  read_loop_resume now r c = Ret (c', r') -> aw_read r' f c' /\ heard c c'.
Proof.
  unfold read_loop_resume. intros H. apply run_bind_Ret in H as (c1 & H1 & H).
  apply heard_read_end in H1. apply (read_loop_awake _ _ _ f) in H as [Hr Hh]. split; [done|by etransitivity].
Qed.

(** The events of the loops. *)
Lemma awake_writer (s s' : system) c m :
  aw_read (reader s) (finishing s) c -> aw_control (controller s) c -> set_writer s <$> m = Ret s' ->
  (forall c' w, m = Ret (c', w) -> aw_write w c' /\ heard_others c c') -> awake s'.
Proof.
  intros Hr Hk H Hm. apply fmap_run_Ret in H as ([c' w] & H & ->). destruct (Hm c' w H) as (Hw & H2 & H3).
  split; [done|]. split; [by eapply aw_read_heard|by eapply aw_control_heard].
Qed.

Lemma awake_reader (s s' : system) c m :
  aw_write (writer s) c -> aw_control (controller s) c -> set_reader s <$> m = Ret s' ->
  (forall c' r, m = Ret (c', r) -> aw_read r (finishing s) c' /\ heard c c') -> awake s'.
Proof.
  intros Hw Hk H Hm. apply fmap_run_Ret in H as ([c' r] & H & ->). destruct (Hm c' r H) as (Hr & H2 & _ & H3).
  split; [by eapply aw_write_heard|]. split; [done|by eapply aw_control_heard].
Qed.

Lemma awake_controller (s s' : system) c m :
  aw_write (writer s) c -> aw_read (reader s) (finishing s) c -> set_controller s <$> m = Ret s' ->
  (forall c' k j, m = Ret (c', k, j) -> aw_control k c' /\ heard_io c c') -> awake s'.
Proof.
  intros Hw Hr H Hm. apply fmap_run_Ret in H as ([[c' k] j] & H & ->). destruct (Hm c' k j H) as (Hk & H2 & H3).
  split; [by eapply aw_write_heard|]. split; [by eapply aw_read_heard|done].
Qed.

Lemma control_loop_both now j c c' k j' :
  control_loop (endpoint:=endpoint) pow unspecified now j c = Ret (c', k, j') -> aw_control k c' /\ heard_io c c'.
Proof. intros H. split; [by eapply control_loop_awake|by eapply control_loop_heard]. Qed.

Lemma backoff_turn_both now d j c :
  let x := backoff_turn (endpoint:=endpoint) now d j c in
  aw_control (after_reconnect x).1.2 (after_reconnect x).1.1 /\ heard_io c (after_reconnect x).1.1.
Proof.
  intros x. split; [by eapply backoff_turn_awake|].
  replace (after_reconnect x).1.1 with x.1.1 by (by destruct x as [[? ?] ?]).
  apply heard_io_open; [apply (tol_backoff_turn same_core)|]. intros Ho. unfold x in *. rewrite backoff_turn_open by done.
  apply heard_io_refl.
Qed.

Lemma loops_awake e (s s' : system) :
  awake s -> loop_event e = true -> react other pow unspecified e s = Some (Ret s') -> awake s'.
Proof.
  intros (Aw & Ar & Ak) He Hr. destruct e; try done; cbn [react] in Hr; cbv zeta in Hr.
  - destruct (writer s); try done; [injection Hr as Hr|unfold wake_write in Hr; destruct (write_wakeup_ (conn s)); [done|]; injection Hr as Hr];
      (match type of Hr with context [write_loop ?c0] => eapply (awake_writer s s' c0) end;
       [exact Ar|exact Ak|exact Hr|]; intros c' w H; apply write_loop_awake in H as [? ?];
       split; [done|by apply heard_heard_others]).
  - destruct (writer s); try done. injection Hr as Hr. eapply awake_writer; [exact Ar|exact Ak|exact Hr|].
    intros c' w. apply write_loop_resume_awake.
  - destruct (reader s); try done; [injection Hr as Hr|unfold wake_read in Hr; destruct (read_wakeup_ (conn s)); [done|]; injection Hr as Hr];
      (match type of Hr with context [read_loop ?c0] => eapply (awake_reader s s' c0) end;
       [exact Aw|exact Ak|exact Hr|]; intros c' w; apply read_loop_awake).
  - destruct (reader s); try done. injection Hr as Hr. eapply awake_reader; [exact Aw|exact Ak|exact Hr|].
    intros c' w. apply read_loop_resume_awake.
  - destruct (controller s); try done; [injection Hr as Hr|unfold wake_control in Hr; destruct (control_wakeup_ (conn s)); [done|]; injection Hr as Hr..];
      (match type of Hr with context [control_loop _ _ _ _ ?c0] => eapply (awake_controller s s' c0) end;
       [exact Aw|exact Ar|exact Hr|]; intros c' k j; apply control_loop_both).
  - destruct (controller s); try done. destruct (_ <=? now); [|done]. injection Hr as Hr.
    eapply awake_controller; [exact Aw|exact Ar|exact Hr|]. intros c' k j. apply control_loop_both.
  - destruct (controller s) as [| | |[d|pt|] live|]; try done. destruct by_wakeup; [unfold wake_control in Hr; destruct (control_wakeup_ (conn s)); [done|]|];
      injection Hr as <-;
      (match goal with |- awake (set_controller s (after_reconnect (backoff_turn _ _ _ ?c0))) =>
         pose proof (backoff_turn_both now d (jitter s) c0) as Hb; eapply (awake_controller s _ c0 (Ret _)) end;
       [exact Aw|exact Ar|reflexivity|]; intros c' k j [= H]; cbv zeta in Hb; by rewrite H in Hb).
Qed.

Lemma aw_read_change r f f' c c' :
  aw_read r f c -> hears read_wakeup_ stop_asked c c' -> (is_open c' -> f' = true \/ (0 < read_wakeup_ c')%nat) ->
  aw_read r f' c'.
Proof.
  intros Ha [Hm Hs] Ho Hr [Ht|[Ht Hf]].
  - destruct (Hs Ht) as [?|?]; [|done]. eapply Nat.lt_le_trans; [apply Ha; auto|done].
  - destruct (Ho Ht) as [?|?]; [congruence|done].
Qed.

Lemma over_awake (s : system) : loops_over s = true -> awake s.
Proof. intros (Hw & Hr & Hk)%loops_over_pcs. unfold awake. rewrite Hw, Hr, Hk. done. Qed.

Lemma close_awake now (s s' : system) :
  awake s -> finishing s = false -> close_call now (with_connector (conn s) c_idle s) = Ret s' -> awake s'.
Proof.
  intros (Aw & Ar & Ak) Hf H. unfold close_call in H. apply run_bind_Ret in H as ([c1 w] & Hc & H).
  apply heard_close in Hc as (H1 & H2 & H3). cbn [conn with_connector] in *. rewrite Hf in Ar.
  assert (aw_write (writer s) c1 /\ aw_read (reader s) false c1 /\ aw_control (controller s) c1) as Ha.
  { split; [by eapply aw_write_heard|]. split; [by eapply aw_read_heard|by eapply aw_control_heard]. }
  destruct w as [[]|]; run_inv; exact Ha.
Qed.

Lemma connect_io_awake (s s' : system) c' pt :
  sys_inv s' -> awake s -> s' = with_connector c' (c_run pt true) s -> same_core (conn s) c' -> awake s'.
Proof.
  intros Hi (Aw & Ar & Ak) -> Hc. pose proof (si_mode _ Hi) as Hm. cbn [connector conn with_connector mode_ok] in Hm.
  destruct Hm as (c0 & _ & Hst & Hinv).
  assert (state_ c' = connection_state.CONNECTING \/
    (exists v, pt = finished (Val v)) /\ state_ c' = connection_state.OPEN /\ has_pending_write (pipeline_ c') = false) as Hcase.
  { destruct pt as [| | | |slot [|]| |[v|e]]; try (left; rewrite <- Hst; by apply Hinv). right. split; [by exists v|].
    destruct Hinv as (_ & Ho & _ & _ & _ & _ & Hn & _). split; [done|]. unfold has_pending_write.
    by rewrite (proj2 (q_empty_elems _ _ (inv_pend _ _ _ _ (ok_inv _ _ _ Hn)))). }
  pose proof Hc as (Hcore & M1 & M2 & M3). apply core_fields in Hcore as (_ & Hs & _).
  assert (hears write_wakeup_ stop_asked (conn s) c' /\ hears read_wakeup_ stop_asked (conn s) c' /\
    hears control_wakeup_ stop_asked (conn s) c') as (S1 & S2 & S3)
    by (split; [|split]; apply hears_kept; try done; unfold stop_asked; by rewrite Hs).
  split; [|split]; cbn [writer reader controller conn with_connector].
  - eapply aw_write_heard; [exact Aw|]. split; [done|]. apply hears_kept; [done|]. intros [Ho Hp].
    unfold is_open in Ho. destruct Hcase as [Hx|(_ & _ & Hx)]; congruence.
  - eapply aw_read_change; [exact Ar|done|]. intros Ho. left. unfold is_open in Ho.
    destruct Hcase as [Hx|((v & ->) & _)]; [congruence|done].
  - eapply aw_control_heard; [exact Ak|]. split; [done|]. apply hears_kept; [done|]. unfold is_failed.
    destruct Hcase as [Hx|(_ & Hx & _)]; congruence.
Qed.

Lemma connect_awake (s s' : system) :
  sys_inv s -> awake s -> finishing s = false -> connect_allowed s -> connect_call s = Ret s' -> awake s'.
Proof.
  intros Hi Hw Hf Ha H. unfold connect_call in H. apply run_bind_Ret in H as ([c1 r] & Hb & H). unfold connect_begin in Hb.
  destruct (bool_decide (state_ (conn s) = connection_state.OPEN)) eqn:E1; [run_inv; by apply awake_conn|].
  destruct (bool_decide (state_ (conn s) = connection_state.CONNECTING)) eqn:E2; [run_inv; by apply awake_conn|].
  apply bool_decide_eq_false in E1, E2. unfold connect_allowed in Ha.
  destruct (state_ (conn s)) eqn:Hst; try done; cbv zeta in Hb.
  - rewrite bool_decide_false in Hb by done. destruct (stop_ (conn s)); [run_inv; by apply awake_conn|].
    destruct Ha as [Hrun _]. rewrite Hrun in *. run_inv. done.
  - rewrite bool_decide_false in Hb by done. destruct (stop_ (conn s)) eqn:Hsp; [run_inv; by apply awake_conn|].
    rewrite closing_stopped in Hsp; done.
  - rewrite bool_decide_true in Hb by done. cbn [stop_ set_stop] in Hb. destruct Ha as [Hrun _]. rewrite Hrun in *.
    run_inv. done.
Qed.

Lemma connect_end_awake now res live (s s' : system) :
  sys_inv s -> awake s -> connector s = c_run (finished res) live ->
  ((fun x : connection * bool => with_connector x.1 (if x.2 then c_close else c_idle) s) <$> connect_end now res (conn s)) = Ret s' ->
  awake s'.
Proof.
  intros Hi (Aw & Ar & Ak) Hcn H. apply fmap_run_Ret in H as ([c1 b] & H & ->). destruct res as [v|e]; cbn [connect_end] in H.
  - apply run_bind_Ret in H as (u & _ & [= <- <-]). split; [|split]; cbn.
    + intros _ _. cbn. lia.
    + intros _ _. cbn. lia.
    + destruct (controller s) as [| | |[]|]; cbn; try done; intros; lia.
  - injection H as <- <-. pose proof (si_mode _ Hi) as Hm. rewrite Hcn in Hm. destruct Hm as (c0 & _ & Hst & (_ & Hs & _) & _).
    rewrite Hst in Hs.
    destruct (emit_event_fields now ev_disconnected stage_connect (Some connection_state.CONNECTING)
      (Some connection_state.CLOSING) e (conn s)) as (F1 & _).
    pose proof (same_core_event now ev_disconnected stage_connect (Some connection_state.CONNECTING)
      (Some connection_state.CLOSING) e (conn s)) as Hc. set (c1 := emit_connection_event _ _ _ _ _ _ _) in *.
    rewrite Hs in F1. destruct (heard_quiet (conn s) c1 Hc) as (H1 & H2 & H3); [by rewrite F1..|].
    split; [by eapply aw_write_heard|]. split; [|by eapply aw_control_heard]. cbn.
    eapply aw_read_change; [exact Ar|apply H2|]. unfold is_open. by rewrite F1.
Qed.

Lemma react_awake e (s s' : system) :
  sys_inv s -> settled s -> allowed e s -> awake s -> react other pow unspecified e s = Some (Ret s') -> awake s'.
Proof.
  intros Hi Hset Ha Hw Hr. destruct (loop_event e) eqn:He; [by eapply loops_awake|].
  destruct (react_inv other pow unspecified e s _ Hi Hset Ha Hr) as (s1 & [= <-] & Hi').
  pose proof Hw as (Aw & Ar & Ak). destruct Ha as [Hsm Ha]. destruct e; try done; cbn [react] in Hr; cbv zeta in Hr.
  - injection Hr as Hr. apply fmap_run_Ret in Hr as (c' & H & ->). apply awake_conn; [done|by eapply heard_enqueue].
  - injection Hr as Hr. apply fmap_run_Ret in Hr as (c' & H & ->). apply awake_conn; [done|by eapply heard_enqueue_dynamic].
  - injection Hr as Hr. apply fmap_run_Ret in Hr as (c' & H & ->). apply awake_conn; [done|by eapply heard_enqueue_throws].
  - injection Hr as Hr. exact (connect_awake s s' Hi Hw (proj1 Ha) (proj2 Ha) Hr).
  - destruct (connector s) eqn:Hcn; try done.
    pose proof (tol_do_connect_begin (endpoint:=endpoint) same_core (conn s)) as Hc.
    destruct (do_connect_begin (conn s)) as [c1 pt]. injection Hr as Hr. by eapply connect_io_awake.
  - destruct (connector s) as [| |pt live|] eqn:Hcn; try done. destruct (do_connect_resume _ _ _ _ _) as [r|] eqn:E; [|done].
    injection Hr as Hr. apply fmap_run_Ret in Hr as (x & -> & ->). destruct Ha as [_ [Ha _]].
    eapply connect_io_awake; [done|done|reflexivity|].
    exact (tol_do_connect same_core _ _ _ _ _ _ (si_fits _ Hi) (input_ok_sane other now pt i _ _ Ha E) E).
  - destruct (connector s) as [| |[| | | | | |res] live|] eqn:Hcn; try done. injection Hr as Hr. exact (connect_end_awake now res live s s' Hi Hw Hcn Hr).
  - destruct (connector s) eqn:Hcn; try done. injection Hr as Hr. by eapply close_awake.
  - injection Hr as Hr. destruct Ha as [Hcn _]. eapply close_awake; [done|unfold finishing; by rewrite Hcn|].
    rewrite with_connector_same; [exact Hr|done].
  - destruct (closers s) as [|n]; [done|]. unfold wake_done in Hr. destruct (actor_done_ (conn s)) as [|m]; [done|].
    injection Hr as Hr. apply run_bind_Ret in Hr as (u & _ & [= <-]). done.
  - destruct (controller s) as [| | |[d|pt|] live|] eqn:Hk; try done.
    destruct (do_reconnect_resume _ _ _ _ _ _ _ _) as [r|] eqn:E; [|done]. injection Hr as Hr.
    apply fmap_run_Ret in Hr as (x & -> & ->). destruct Ha as [Hf [Ha _]].
    assert (input_sane i (conn s)) as Hsane.
    { pose proof E as E1. cbn [do_reconnect_resume] in E1. destruct (do_connect_resume _ _ _ _ _) eqn:E2; [|done].
      exact (input_ok_sane other now pt i _ _ Ha E2). }
    eapply (awake_controller s _ (conn s) (Ret _)); [done|done|reflexivity|]. intros c' k j [= Hx].
    pose proof (reconnect_resume_awake _ _ _ _ _ _ E) as Hb. split; [by rewrite Hx in Hb|].
    destruct x as [[c1 j1] pt1]. assert (c1 = c') as -> by (by injection Hx).
    destruct (decide (state_ c' = connection_state.OPEN)) as [Ho|Ho];
      [|apply heard_io_quiet; [exact (tol_do_reconnect same_core _ _ _ _ _ _ _ _ _ (si_fits _ Hi) Hsane E)|done]].
    destruct pt1 as [d|pt1|]; [| |by eapply reconnect_resume_heard; [apply Hi|..]];
      (destruct (open_mode _ Hi' Hf Ho) as [_ Hnk]; by destruct (Hnk _ _ eq_refl)).
  - destruct (_ && _) eqn:E; [|done]. injection Hr as Hr. apply fmap_run_Ret in Hr as (c' & H & ->). apply over_awake.
    by apply andb_true_iff in E as [_ E].
  - destruct (ended s) eqn:E; [|done]. injection Hr as Hr. apply fmap_run_Ret in Hr as (c' & H & ->). apply over_awake.
    by apply (life_ended _ (si_life _ Hi)).
Qed.

End awake.
