(* ===== verification/ActorShutdown.v ===== *)
(** * The actor ends

    Once a stop has been requested, every event of the actor brings it closer
    to its end, and until then there is always one that can happen. *)

From S2P Require Import Prelude Kind Errors Charconv Buffer Message Parser Builder Adapter.
From S2P Require Import ParserInv ParserSafety ParserViews Wire WireParse.
From S2P Require Import Request RingQueue ResponseSink Pipeline PipelineSpec Config Connection Connect.
From S2P Require Import ConnectionSpec ConnectSpec Tolerant Strand Actor ConnectTheorems ReconnectTheorems.
From S2P Require Import ActorSpec ActorLife ActorWake.

Section shutdown.

Context (other : string -> Z -> string) {endpoint : Type}.
Context (pow : double -> double -> double) (unspecified : double -> Z).

Abbreviation system := (system endpoint).
Abbreviation event := (event endpoint).

(** ** How far the actor is from its end *)

Definition writer_left (w : writer_pc) : nat := match w with w_stop => 0 | _ => 1 end.
Definition reader_left (r : reader_pc) : nat := match r with r_stop => 0 | _ => 1 end.

Definition control_left (k : control_pc endpoint) : nat :=
  match k with
  | k_stop => 0
  | k_reconnect (at_backoff _) _ => 2
  | k_reconnect (at_attempt pt) _ => 2 + rounds pt
  | _ => 1
  end.

(** The events of the actor that are still to come once a stop has been
    requested. *)
Definition left_to_do (s : system) : nat :=
  if actor_running_ (conn s) then
    writer_left (writer s) + reader_left (reader s) + control_left (controller s) + (if ended s then 1 else 2)
  else 0.

Definition actor_event (e : event) : bool :=
  match e with
  | ev_writer | ev_written _ _ | ev_reader | ev_read _ _ | ev_control _ | ev_timer _ | ev_backoff _ _
  | ev_reconnect_io _ _ | ev_actor_end _ | ev_actor_done _ => true
  | _ => false
  end.

(** ** Each event of the actor is progress *)

Lemma same_core_stop c c' : same_core c c' -> stop_ c' = stop_ c /\ actor_running_ c' = actor_running_ c.
Proof. intros [Hc _]. by apply core_fields in Hc as (_ & ? & _ & _ & ? & _). Qed.

Lemma write_loop_stops c : stop_ c = true -> write_loop c = Ret (c, w_stop).
Proof. intros H. unfold write_loop, write_loop_head. by rewrite H. Qed.

Lemma read_loop_stops c : stop_ c = true -> read_loop c = Ret (c, r_stop).
Proof. intros H. unfold read_loop, read_loop_head. by rewrite H. Qed.

Lemma control_loop_stops now j c :
  stop_ c = true -> control_loop (endpoint:=endpoint) pow unspecified now j c = Ret (c, k_stop, j).
Proof. intros H. unfold control_loop, control_turn. by rewrite H. Qed.

Lemma write_resume_stops now r c c' w :
  stop_ c = true -> write_loop_resume now r c = Ret (c', w) ->
  w = w_stop /\ stop_ c' = true /\ actor_running_ c' = actor_running_ c.
Proof.
  intros Hs H. unfold write_loop_resume in H. apply run_bind_Ret in H as ([c1 b] & Hr & H).
  assert (b = None /\ stop_ c1 = true /\ actor_running_ c1 = actor_running_ c) as (-> & H1 & H2).
  { destruct r as [n|e]; cbn [do_write_resume] in Hr.
    - apply run_bind_Ret in Hr as (p1 & _ & Hr). unfold do_write_next in Hr.
      set (c2 := if has_pending_read p1 then _ else _) in Hr.
      assert (stop_ c2 = true /\ actor_running_ c2 = actor_running_ c) as [E1 E2]
        by (unfold c2; by destruct (has_pending_read p1)).
      cbv zeta in Hr. fold c2 in Hr. rewrite E1 in Hr. cbn [negb andb] in Hr. by injection Hr as <- <-.
    - apply run_bind_Ret in Hr as (c2 & Hc & [= <- <-]). split; [done|]. cbn. destruct (_ && _); [by run_inv|].
      apply (tol_handle_error same_core), same_core_stop in Hc as [-> ->]. done. }
  rewrite write_loop_stops in H by done. by injection H as <- <-.
Qed.

Lemma read_resume_stops now r c c' x :
  stop_ c = true -> read_loop_resume now r c = Ret (c', x) ->
  x = r_stop /\ stop_ c' = true /\ actor_running_ c' = actor_running_ c.
Proof.
  intros Hs H. unfold read_loop_resume in H. apply run_bind_Ret in H as (c1 & Hr & H).
  destruct (do_read_end_core now r c c1 Hr) as (c2 & Hc & ->). apply same_core_stop in Hc as [E1 E2].
  rewrite read_loop_stops in H by (cbn; congruence). injection H as <- <-. cbn. split; [done|]. split; congruence.
Qed.

(** While a stop is requested a reconnection has been cut off. *)
Lemma stopped_shaken (s : system) pt live :
  sys_inv s -> stop_ (conn s) = true -> controller s = k_reconnect (at_attempt pt) live -> shaken (conn s) pt live.
Proof.
  intros Hi Hs Hk. pose proof (si_mode _ Hi) as Hm. rewrite (reconnect_idle s _ _ Hi Hk), Hk in Hm. cbn [mode_ok] in Hm.
  destruct Hm as [(c0 & _ & _ & Hinv & Hnf)|?]; [|done].
  assert (in_progress c0 (conn s)) as (_ & _ & Hx & _); [|congruence].
  destruct pt as [| | | |slot [|]| |res]; try apply Hinv. by destruct (Hnf res).
Qed.

Lemma reconnect_rounds now i (s : system) pt live x :
  sys_inv s -> settled s -> small (parser_ (conn s)) -> stop_ (conn s) = true ->
  controller s = k_reconnect (at_attempt pt) live -> io_ok pt live i (conn s) ->
  do_reconnect_resume other pow unspecified now (jitter s) (at_attempt pt) i (conn s) = Some (Ret x) ->
  (control_left (after_reconnect x).1.2 < control_left (controller s))%nat /\
  stop_ x.1.1 = true /\ actor_running_ x.1.1 = actor_running_ (conn s).
Proof.
  intros Hi Hs Hsm Hsp Hk Hio Hr. pose proof (stopped_shaken s pt live Hi Hsp Hk) as Hsh. pose proof Hr as Hr0.
  cbn [do_reconnect_resume] in Hr0. destruct (do_connect_resume other now pt i (conn s)) as [r1|] eqn:E; [|done].
  injection Hr0 as Hr0. assert (storage_ok (parser_ (conn s))) as Hsto by (split; [apply Hi|done]).
  pose proof (input_ok_sane other now pt i (conn s) r1 (proj1 Hio) E) as Hsane.
  assert (live = true -> socket_open (conn s) = true) as Hup by (intros ->; by eapply Hs).
  pose proof (shaken_resume other now pt live i (conn s) r1 Hsh Hup Hio Hsto E) as Hcut.
  destruct (cut_off_after pow unspecified _ now (jitter s) _ _ Hcut Hsto) as (c' & pt' & Heq & _ & _ & _ & Hpt).
  { intros c1 pt1 ->.
    destruct (same_core_stop (conn s) c1) as [-> _]; [|done].
    exact (tol_do_connect same_core other now pt i (conn s) (c1, pt1) (si_fits _ Hi) Hsane E). }
  assert (x = (c', jitter s, pt')) as -> by (assert (Ret x = Ret (c', jitter s, pt')) as [= ->]; [|done];
    etransitivity; [symmetry; exact Hr0|exact Heq]).
  destruct (same_core_stop (conn s) c') as [E1 E2].
  { exact (tol_do_reconnect same_core _ _ _ _ _ _ _ _ _ (si_fits _ Hi) Hsane Hr). }
  cbn [fst]. rewrite E1, E2. split; [|done]. rewrite Hk. destruct Hpt as [-> |(pt2 & -> & _ & Hlt)]; cbn in *; lia.
Qed.

(** The actor goes on towards its end, or has ended. *)
Definition winding_up (c : connection) : Prop :=
  actor_running_ c = true /\ stop_ c = true \/
  actor_running_ c = false /\ state_ c = connection_state.CLOSED /\ (0 < actor_done_ c)%nat.

(** A loop moved on. *)
Lemma left_less (s : system) c' w r k j :
  alive s -> stop_ c' = true -> actor_running_ c' = actor_running_ (conn s) ->
  (writer_left w + reader_left r + control_left k <
   writer_left (writer s) + reader_left (reader s) + control_left (controller s))%nat ->
  (left_to_do (mk_system c' w r k (connector s) (ended s) (closers s) j) < left_to_do s)%nat /\ winding_up c'.
Proof.
  intros [Hrun He] Hs Hr Hlt. split; [|left; by rewrite Hr]. unfold left_to_do. cbn [conn writer reader controller ended].
  rewrite Hr, Hrun, He. lia.
Qed.

Definition closer (s s' : system) : Prop :=
  (left_to_do s' < left_to_do s)%nat /\ winding_up (conn s').

Lemma writer_closer (s s' : system) :
  sys_inv s -> stop_ (conn s) = true -> (exists now r, react other pow unspecified (ev_written now r) s = Some (Ret s')) \/
    react other pow unspecified ev_writer s = Some (Ret s') -> closer s s'.
Proof.
  intros Hi Hs Hr. assert (forall c', stop_ c' = true -> actor_running_ c' = actor_running_ (conn s) -> writer s <> w_stop ->
    closer s (with_writer c' w_stop s)) as Hgo.
  { intros c' E1 E2 Hw. apply left_less; [by apply writer_alive|done|done|]. destruct (writer s); cbn; done || lia. }
  destruct Hr as [(now & r & Hr)|Hr]; cbn [react] in Hr; cbv zeta in Hr; destruct (writer s) eqn:Hw; try done.
  - injection Hr as Hr. apply fmap_run_Ret in Hr as ([c' w] & H & ->). apply write_resume_stops in H as (-> & E1 & E2); [|done].
    by apply Hgo.
  - injection Hr as Hr. rewrite write_loop_stops in Hr by done. injection Hr as <-. by apply Hgo.
  - unfold wake_write in Hr. destruct (write_wakeup_ (conn s)); [done|]. injection Hr as Hr.
    rewrite write_loop_stops in Hr by done. injection Hr as <-. by apply Hgo.
Qed.

Lemma reader_closer (s s' : system) :
  sys_inv s -> stop_ (conn s) = true -> (exists now r, react other pow unspecified (ev_read now r) s = Some (Ret s')) \/
    react other pow unspecified ev_reader s = Some (Ret s') -> closer s s'.
Proof.
  intros Hi Hs Hr. assert (forall c', stop_ c' = true -> actor_running_ c' = actor_running_ (conn s) -> reader s <> r_stop ->
    closer s (with_reader c' r_stop s)) as Hgo.
  { intros c' E1 E2 Hw. apply left_less; [by apply reader_alive|done|done|]. destruct (reader s); cbn; done || lia. }
  destruct Hr as [(now & r & Hr)|Hr]; cbn [react] in Hr; cbv zeta in Hr; destruct (reader s) eqn:Hw; try done.
  - injection Hr as Hr. apply fmap_run_Ret in Hr as ([c' w] & H & ->). apply read_resume_stops in H as (-> & E1 & E2); [|done].
    by apply Hgo.
  - injection Hr as Hr. rewrite read_loop_stops in Hr by done. injection Hr as <-. by apply Hgo.
  - unfold wake_read in Hr. destruct (read_wakeup_ (conn s)); [done|]. injection Hr as Hr.
    rewrite read_loop_stops in Hr by done. injection Hr as <-. by apply Hgo.
Qed.

Lemma control_closer e (s s' : system) :
  sys_inv s -> stop_ (conn s) = true ->
  match e with ev_control _ | ev_timer _ | ev_backoff _ _ => True | _ => False end ->
  react other pow unspecified e s = Some (Ret s') -> closer s s'.
Proof.
  intros Hi Hs He Hr. assert (forall c' k j, stop_ c' = true -> actor_running_ c' = actor_running_ (conn s) ->
    controller s <> k_stop -> (control_left k < control_left (controller s))%nat ->
    closer s (with_controller c' k j s)) as Hgo.
  { intros c' k j E1 E2 Hw Hlt. apply left_less; [by apply controller_alive|done|done|lia]. }
  destruct e; try done; cbn [react] in Hr; cbv zeta in Hr; destruct (controller s) as [| |d|[d|pt|] live|] eqn:Hk; try done.
  - injection Hr as Hr. rewrite control_loop_stops in Hr by done. injection Hr as <-. apply Hgo; cbn; done || lia.
  - unfold wake_control in Hr. destruct (control_wakeup_ (conn s)); [done|]. injection Hr as Hr.
    rewrite control_loop_stops in Hr by done. injection Hr as <-. apply Hgo; cbn; done || lia.
  - unfold wake_control in Hr. destruct (control_wakeup_ (conn s)); [done|]. injection Hr as Hr.
    rewrite control_loop_stops in Hr by done. injection Hr as <-. apply Hgo; cbn; done || lia.
  - destruct (d <=? now); [|done]. injection Hr as Hr. rewrite control_loop_stops in Hr by done. injection Hr as <-.
    apply Hgo; cbn; done || lia.
  - assert (exists c1, (if by_wakeup then wake_control (conn s) else Some (conn s)) = Some c1 /\ stop_ c1 = true /\
      actor_running_ c1 = actor_running_ (conn s)) as (c1 & Hc1 & E1 & E2).
    { destruct by_wakeup; [|by eexists]. unfold wake_control in *. destruct (control_wakeup_ (conn s)); [done|by eexists]. }
    rewrite Hc1 in Hr. injection Hr as <-. unfold backoff_turn, reconnect_attempt. rewrite E1. cbn [negb andb orb].
    apply Hgo; cbn; done || lia.
Qed.

Lemma actor_closer e (s s' : system) :
  sys_inv s -> settled s -> allowed e s -> stop_ (conn s) = true -> actor_event e = true ->
  react other pow unspecified e s = Some (Ret s') -> closer s s'.
Proof.
  intros Hi Hset [Hsm Ha] Hs He Hr. destruct e; try done.
  - apply writer_closer; auto.
  - apply writer_closer; eauto.
  - apply reader_closer; auto.
  - apply reader_closer; eauto.
  - exact (control_closer (ev_control _) s s' Hi Hs I Hr).
  - exact (control_closer (ev_timer _) s s' Hi Hs I Hr).
  - exact (control_closer (ev_backoff _ _) s s' Hi Hs I Hr).
  - cbn [react] in Hr; cbv zeta in Hr. destruct (controller s) as [| |d|[d|pt|] live|] eqn:Hk; try done.
    destruct (do_reconnect_resume _ _ _ _ _ _ _ _) as [r|] eqn:E; [|done]. injection Hr as Hr.
    apply fmap_run_Ret in Hr as (x & -> & ->). destruct Ha as [_ Ha].
    destruct (reconnect_rounds now i s pt live x Hi Hset Hsm Hs Hk Ha E) as (Hlt & E1 & E2).
    destruct x as [[c' j] pt']. apply left_less; [apply controller_alive; [done|by rewrite Hk]|done|done|]. apply Nat.add_lt_mono_l. exact Hlt.
  - cbn [react] in Hr; cbv zeta in Hr. destruct (_ && _) eqn:E; [|done]. injection Hr as Hr. apply fmap_run_Ret in Hr as (c' & H & ->).
    apply andb_true_iff in E as [E Hlo]. apply andb_true_iff in E as [Hrun He'].
    apply (tol_transition same_core), same_core_stop in H as [E1 E2].
    split; [|left; cbn; by rewrite E1, E2]. unfold left_to_do. cbn. rewrite E2, Hrun. destruct (ended s); [done|]. lia.
  - cbn [react] in Hr; cbv zeta in Hr. destruct (ended s) eqn:E; [|done]. injection Hr as Hr. apply fmap_run_Ret in Hr as (c' & H & ->).
    destruct (life_ended _ (si_life _ Hi) E) as (_ & _ & Hst).
    assert (actor_running_ (conn s) = true) as Hrun
      by (destruct (actor_running_ (conn s)) eqn:Ex; [done|]; destruct (life_none _ (si_life _ Hi) Ex) as (_ & Hx & _); congruence).
    unfold actor_completed in H. cbn [mbind run_bind set_actor state_] in H.
    rewrite bool_decide_false in H by (intros Hx; by apply Hx). run_inv.
    split; [|right; split; [done|]; split; [done|cbn; lia]]. unfold left_to_do. cbn. rewrite Hrun, E. lia.
Qed.

(** ** The other events leave the actor alone *)

Lemma stopped_idle (s : system) :
  sys_inv s -> stop_ (conn s) = true -> connector s = c_idle.
Proof.
  intros Hi Hs. destruct (connector s) eqn:E; [done|..];
    (destruct (si_connector _ Hi) as (_ & Hx & _); [by rewrite E|congruence]).
Qed.

Lemma close_keeps now (s s' : system) :
  stop_ (conn s) = true -> close_call now s = Ret s' -> left_to_do s' = left_to_do s /\ stop_ (conn s') = true.
Proof.
  intros Hs H. unfold close_call in H. apply run_bind_Ret in H as ([c1 w] & Hc & H).
  assert (stop_ c1 = true /\ actor_running_ c1 = actor_running_ (conn s)) as [E1 E2].
  { unfold close_begin in Hc. destruct (bool_decide _); [by run_inv|]. apply run_bind_Ret in Hc as (c2 & Hc & [= <- _]).
    apply (tol_clear (R:=same_core)), same_core_stop in Hc as [E1 E2]. by rewrite close_socket_eq. }
  destruct w as [[]|]; run_inv; unfold left_to_do; cbn; by rewrite E2.
Qed.

Lemma connect_keeps (s s' : system) :
  stop_ (conn s) = true -> actor_running_ (conn s) = true -> connect_allowed s -> connect_call s = Ret s' ->
  left_to_do s' = left_to_do s /\ stop_ (conn s') = true.
Proof.
  intros Hs Hrun Ha H. unfold connect_call, connect_begin in H. unfold connect_allowed in Ha.
  destruct (state_ (conn s)) eqn:Hst; try done; cbv zeta in H.
  - destruct Ha as [Hx _]. congruence.
  - rewrite bool_decide_false, bool_decide_true in H by done. by run_inv.
  - rewrite bool_decide_true in H by done. by run_inv.
  - do 3 (rewrite bool_decide_false in H by done). rewrite Hs in H. by run_inv.
  - destruct Ha as [Hx _]. congruence.
Qed.

Lemma other_keeps e (s s' : system) :
  sys_inv s -> allowed e s -> stop_ (conn s) = true -> actor_running_ (conn s) = true -> actor_event e = false ->
  react other pow unspecified e s = Some (Ret s') -> left_to_do s' = left_to_do s /\ stop_ (conn s') = true.
Proof.
  intros Hi [Hsm Ha] Hs Hrun He Hr. pose proof (stopped_idle s Hi Hs) as Hcn.
  assert (forall c c', shell c' = shell c -> stop_ c = true -> actor_running_ c = actor_running_ (conn s) ->
    left_to_do (with_conn c' s) = left_to_do s /\ stop_ (conn (with_conn c' s)) = true) as Hsh.
  { intros c c' (Hc & _)%shell_fields E1 E2. apply core_fields in Hc as (_ & K1 & _ & _ & K2 & _).
    unfold left_to_do. cbn. by rewrite K1, K2, E1, E2. }
  destruct e; try done; cbn [react] in Hr; cbv zeta in Hr; rewrite ?Hcn in Hr; try done.
  - injection Hr as Hr. apply fmap_run_Ret in Hr as (c' & H & ->). unfold enqueue in H. apply run_bind_Ret in H as (u & _ & H).
    apply enqueue_impl_shell in H. by eapply Hsh.
  - injection Hr as Hr. apply fmap_run_Ret in Hr as (c' & H & ->). apply enqueue_impl_shell in H. by eapply Hsh.
  - injection Hr as Hr. apply fmap_run_Ret in Hr as (c' & H & ->). unfold enqueue_throws, enqueue_caught in H.
    apply run_bind_Ret in H as (h & _ & [= <-]). eapply Hsh; [|done|done]. cbn. etransitivity; [apply trace_begin_shell|done].
  - injection Hr as Hr. destruct Ha as [_ Ha]. by eapply connect_keeps.
  - injection Hr as Hr. by eapply close_keeps.
  - destruct (closers s); [done|]. unfold wake_done in Hr. destruct (actor_done_ (conn s)); [done|]. injection Hr as Hr.
    apply run_bind_Ret in Hr as (u & _ & [= <-]). by split.
Qed.

(** ** There is always an event *)

(** What an operation in flight may always report. *)
Definition giving_up (pt : connect_point endpoint) (c : connection) : connect_input endpoint :=
  match pt with
  | at_resolve => in_resolved (Unexpected io_operation_aborted)
  | at_connect _ _ => in_attempt (attempt_failed io_operation_aborted false) (fresh (dom (sinks c)))
  | at_write _ _ => in_written (Unexpected io_operation_aborted)
  | at_read _ => in_read (Unexpected io_operation_aborted)
  | _ => in_continue
  end.

Definition next_event (s : system) : event :=
  match writer s, reader s, controller s with
  | (w_head | w_wait), _, _ => ev_writer
  | w_io _ _, _, _ => ev_written 0 (Unexpected io_operation_aborted)
  | _, (r_head | r_wait), _ => ev_reader
  | _, r_io _, _ => ev_read 0 (Unexpected io_operation_aborted)
  | _, _, (k_head | k_wait | k_timer _) => ev_control 0
  | _, _, k_reconnect (at_attempt pt) _ => ev_reconnect_io 0 (giving_up pt (conn s))
  | _, _, k_reconnect _ _ => ev_backoff 0 false
  | _, _, k_stop => if ended s then ev_actor_done 0 else ev_actor_end 0
  end.

Lemma giving_up_ok pt live c :
  small (parser_ c) -> (forall res, pt <> finished res) ->
  io_ok pt live (giving_up pt c) c /\ exists r, do_connect_resume other 0 pt (giving_up pt c) c = Some r.
Proof.
  intros Hsm Hnf. destruct pt as [|ep rest|slot buf|slot|slot res|slot|res]; [..|by destruct (Hnf res)];
    (split; [|by eexists]); (split; [|done]); cbn; try done.
  apply not_elem_of_dom. apply is_fresh.
Qed.

Lemma next_event_fires (s : system) :
  sys_inv s -> awake s -> small (parser_ (conn s)) -> actor_running_ (conn s) = true -> stop_ (conn s) = true ->
  actor_event (next_event s) = true /\ allowed (next_event s) s /\
  exists r, react other pow unspecified (next_event s) s = Some r.
Proof.
  intros Hi (Aw & Ar & Ak) Hsm Hrun Hs. pose proof (stopped_idle s Hi Hs) as Hcn.
  assert (finishing s = false) as Hf by (unfold finishing; by rewrite Hcn).
  unfold next_event. destruct (writer s) eqn:Hw; cbn [actor_event allowed react].
  - rewrite Hw. split; [done|]. split; [done|]. by eexists.
  - rewrite Hw. split; [done|]. split; [done|]. unfold wake_write. specialize (Aw eq_refl (or_introl Hs)).
    destruct (write_wakeup_ (conn s)); [lia|by eexists].
  - rewrite Hw. split; [done|]. split; [done|]. by eexists.
  - destruct (reader s) eqn:Hr; cbn [actor_event allowed react].
    + rewrite Hr. split; [done|]. split; [done|]. by eexists.
    + rewrite Hr. split; [done|]. split; [done|]. unfold wake_read. specialize (Ar eq_refl (or_introl Hs)).
      destruct (read_wakeup_ (conn s)); [lia|by eexists].
    + rewrite Hr. split; [done|]. split; [done|]. by eexists.
    + destruct (controller s) as [| |d|[d|pt|] live|] eqn:Hk; cbn [actor_event allowed react].
      * rewrite Hk. split; [done|]. split; [done|]. by eexists.
      * rewrite Hk. split; [done|]. split; [done|]. unfold wake_control. specialize (Ak (or_introl Hs)).
        destruct (control_wakeup_ (conn s)); [lia|by eexists].
      * rewrite Hk. split; [done|]. split; [done|]. unfold wake_control. specialize (Ak (or_introl Hs)).
        destruct (control_wakeup_ (conn s)); [lia|by eexists].
      * rewrite Hk. split; [done|]. split; [done|]. by eexists.
      * destruct (stopped_shaken s pt live Hi Hs Hk) as (_ & _ & _ & Hpt).
        destruct (giving_up_ok pt live (conn s) Hsm) as [Hio (r & Hr')]; [by intros res ->|].
        rewrite Hk. split; [done|]. split; [split; [exact Hsm|]; split; [exact Hf|rewrite Hk; exact Hio]|]. cbn [do_reconnect_resume]. rewrite Hr'. by eexists.
      * pose proof (si_mode _ Hi) as Hm. by rewrite Hcn, Hk in Hm.
      * destruct (ended s) eqn:He; cbn [actor_event allowed react].
        { rewrite He. split; [done|]. split; [done|]. by eexists. }
        rewrite Hrun, He. unfold loops_over. rewrite Hw, Hr, Hk. split; [done|]. split; [done|]. by eexists.
Qed.

(** ** Nothing grows on the way *)

Lemma handle_error_parser now err c c' : handle_error now err c = Ret c' -> parser_ c' = parser_ c.
Proof.
  unfold handle_error, clear_pipeline. intros H. destruct (state_ c); run_inv; try done.
  rewrite close_socket_eq. cbn.
  by destruct (emit_event_fields now ev_disconnected stage_runtime_io (Some connection_state.OPEN)
    (Some connection_state.FAILED) err (set_state connection_state.FAILED c)) as (_ & _ & _ & _ & _ & _ & _ & _ & _ & _ & -> & _).
Qed.

(** A connection attempt that has been cut off leaves the parser or resets it. *)
Lemma reconnect_parser now i (s : system) pt live x :
  sys_inv s -> settled s -> small (parser_ (conn s)) -> stop_ (conn s) = true ->
  controller s = k_reconnect (at_attempt pt) live -> io_ok pt live i (conn s) ->
  do_reconnect_resume other pow unspecified now (jitter s) (at_attempt pt) i (conn s) = Some (Ret x) ->
  small (parser_ x.1.1).
Proof.
  intros Hi Hs Hsm Hsp Hk Hio Hr. pose proof (stopped_shaken s pt live Hi Hsp Hk) as Hsh.
  cbn [do_reconnect_resume] in Hr. destruct (do_connect_resume other now pt i (conn s)) as [r1|] eqn:E; [|done].
  injection Hr as Hr. assert (storage_ok (parser_ (conn s))) as Hsto by (split; [apply Hi|done]).
  pose proof (input_ok_sane other now pt i (conn s) r1 (proj1 Hio) E) as Hsane.
  assert (live = true -> socket_open (conn s) = true) as Hup by (intros ->; by eapply Hs).
  destruct (shaken_resume other now pt live i (conn s) r1 Hsh Hup Hio Hsto E) as (c1 & pt1 & -> & _ & _ & Hpt).
  destruct (same_core_stop (conn s) c1) as [E1 _].
  { exact (tol_do_connect same_core other now pt i (conn s) (c1, pt1) (si_fits _ Hi) Hsane E). }
  rewrite Hsp in E1. cbn [mbind run_bind fst snd] in Hr.
  destruct pt1 as [| | | | | |[v|e]]; try (injection Hr as <-; destruct Hpt as [_ Hp]; cbn; by rewrite Hp).
  - cbn [reconnect_after] in Hr. run_inv. destruct Hpt as [_ Hp]. cbn. by rewrite Hp.
  - cbn [reconnect_after] in Hr. unfold reconnect_head in Hr. cbn [set_attempts set_state stop_] in Hr. rewrite E1 in Hr.
    cbn [orb] in Hr. injection Hr as <-. destruct Hpt as [_ Hp]. cbn. by rewrite Hp.
Qed.

Lemma next_event_small (s s' : system) :
  sys_inv s -> settled s -> awake s -> small (parser_ (conn s)) -> actor_running_ (conn s) = true -> stop_ (conn s) = true ->
  react other pow unspecified (next_event s) s = Some (Ret s') ->
  small (parser_ (conn s')) /\ closers s' = closers s.
Proof.
  intros Hi Hset Haw Hsm Hrun Hs Hr. destruct (next_event_fires s Hi Haw Hsm Hrun Hs) as (_ & Hal & _).
  unfold next_event in *.
  destruct (writer s) eqn:Hw; [| | |destruct (reader s) eqn:Hrd; [| | |
    destruct (controller s) as [| |d|[d|pt|] live|] eqn:Hk; [..|destruct (ended s) eqn:He]]];
    cbn [react] in Hr; cbv zeta in Hr; rewrite ?Hw, ?Hrd, ?Hk, ?He in Hr; try done.
  - rewrite write_loop_stops in Hr by done. by injection Hr as <-.
  - unfold wake_write in Hr. destruct (write_wakeup_ (conn s)); [done|]. injection Hr as Hr.
    rewrite write_loop_stops in Hr by done. by injection Hr as <-.
  - injection Hr as Hr. apply fmap_run_Ret in Hr as ([c' w] & H & ->). split; [|done]. cbn [set_writer with_writer conn fst].
    pose proof H as H0. apply write_resume_stops in H0 as (-> & H1 & _); [|done].
    unfold write_loop_resume in H. apply run_bind_Ret in H as ([c1 b] & Hd & H). cbn [do_write_resume] in Hd.
    apply run_bind_Ret in Hd as (c2 & Hc & [= <- <-]).
    assert (parser_ c2 = parser_ (conn s)) as Hp by (destruct (_ && _); [by run_inv|by eapply handle_error_parser]).
    unfold write_loop in H. destruct (write_loop_head _); [discriminate H| |injection H as <-; cbn; by rewrite Hp].
    apply run_bind_Ret in H as ([c3 [b|]] & _ & [=]).
  - rewrite read_loop_stops in Hr by done. by injection Hr as <-.
  - unfold wake_read in Hr. destruct (read_wakeup_ (conn s)); [done|]. injection Hr as Hr.
    rewrite read_loop_stops in Hr by done. by injection Hr as <-.
  - injection Hr as Hr. apply fmap_run_Ret in Hr as ([c' w] & H & ->). split; [|done]. cbn [set_reader with_reader conn fst].
    unfold read_loop_resume in H. apply run_bind_Ret in H as (c1 & Hd & H).
    destruct (do_read_end_core _ _ _ _ Hd) as (c2 & Hc & ->). apply same_core_stop in Hc as [E1 _].
    unfold do_read_end in Hd. apply run_bind_Ret in Hd as (c3 & Hd & Heq).
    assert (parser_ c2 = parser_ (conn s)) as Hp.
    { replace (parser_ c2) with (parser_ c3) by (by injection Heq).
      destruct (_ && _); [by run_inv|by eapply handle_error_parser]. }
    rewrite read_loop_stops in H by (cbn; congruence). injection H as <- _. cbn. by rewrite Hp.
  - rewrite control_loop_stops in Hr by done. by injection Hr as <-.
  - unfold wake_control in Hr. destruct (control_wakeup_ (conn s)); [done|]. injection Hr as Hr.
    rewrite control_loop_stops in Hr by done. by injection Hr as <-.
  - unfold wake_control in Hr. destruct (control_wakeup_ (conn s)); [done|]. injection Hr as Hr.
    rewrite control_loop_stops in Hr by done. by injection Hr as <-.
  - injection Hr as <-. unfold backoff_turn, reconnect_attempt. rewrite Hs. done.
  - destruct (do_reconnect_resume _ _ _ _ _ _ _ _) as [r|] eqn:E; [|done]. injection Hr as Hr.
    apply fmap_run_Ret in Hr as (x & -> & ->). split; [|done]. destruct Hal as (_ & _ & Hio). rewrite Hk in Hio.
    pose proof (reconnect_parser _ _ s pt live x Hi Hset Hsm Hs Hk Hio E). by destruct x as [[c' j] pt'].
  - injection Hr as Hr. apply fmap_run_Ret in Hr as (c' & H & ->). split; [|done]. cbn.
    unfold actor_completed in H. cbn [mbind run_bind] in H. destruct (life_ended _ (si_life _ Hi) He) as (_ & _ & Hst).
    cbn [set_actor state_] in H. rewrite bool_decide_false in H by (intros Hx; by apply Hx). by run_inv.
  - destruct (_ && _); [|done]. injection Hr as Hr. apply fmap_run_Ret in Hr as (c' & H & ->). split; [|done]. cbn.
    by rewrite (transition_parser _ _ _ H).
Qed.

End shutdown.
