(* ===== verification/ActorOrder.v ===== *)
(** * The system runs a schedule of the strand

    Every event of the system is a sequence of tasks in the sense of [Strand],
    so what holds under every schedule holds of the system. *)

From S2P Require Import Prelude Kind Errors Charconv Buffer Message Parser Builder Adapter.
From S2P Require Import Request RingQueue ResponseSink Pipeline PipelineSpec Config Connection Connect.
From S2P Require Import ConnectionSpec ConnectSpec Tolerant Strand Actor ActorSpec.

Section order.

Context (other : string -> Z -> string) {endpoint : Type}.
Context (pow : double -> double -> double) (unspecified : double -> Z).

Abbreviation system := (system endpoint).
Abbreviation event := (event endpoint).
Abbreviation reaches := (reaches (endpoint:=endpoint) other pow unspecified).
Abbreviation run_task := (run_task (endpoint:=endpoint) other pow unspecified).

Context (c0 : connection).

(** One task more. *)
Lemma then_task t c c' : reaches c0 c -> task_ok t c -> run_task t c = Some (Ret c') -> reaches c0 c'.
Proof. apply reaches_task. Qed.

Lemma then_fst {A} t c (m : run (connection * A)) c' x :
  reaches c0 c -> task_ok t c -> run_task t c = Some (fst <$> m) -> m = Ret (c', x) -> reaches c0 c'.
Proof. intros Hr Hok Ht Hm. eapply then_task; [exact Hr|exact Hok|]. rewrite Ht, Hm. done. Qed.

Lemma then_woken w r k d c : reaches c0 c -> reaches c0 (set_wakeups w r k (set_actor (actor_running_ c) d c)).
Proof. intros Hr. by apply (then_task (task_woken w r k d) c). Qed.

Lemma then_waked w r k c : reaches c0 c -> reaches c0 (set_wakeups w r k c).
Proof. intros Hr. apply (then_woken w r k (actor_done_ c)) in Hr. by destruct c. Qed.

Lemma write_loop_reaches c c' w : reaches c0 c -> write_loop c = Ret (c', w) -> reaches c0 c'.
Proof.
  intros Hr H. unfold write_loop in H. destruct (write_loop_head c); [by run_inv| |by run_inv].
  apply run_bind_Ret in H as ([c1 b] & H & [= <- _]). by eapply (then_fst task_write_begin).
Qed.

Lemma read_loop_reaches c c' r : reaches c0 c -> read_loop c = Ret (c', r) -> reaches c0 c'.
Proof.
  intros Hr H. unfold read_loop in H. destruct (read_loop_head c); [by run_inv| |by run_inv].
  apply run_bind_Ret in H as ([c1 b] & H & [= <- _]). by eapply (then_fst task_read_begin).
Qed.

Lemma write_resume_reaches now r c c' w :
  reaches c0 c -> (forall n, r = Val n -> 0 <= n) -> write_loop_resume now r c = Ret (c', w) -> reaches c0 c'.
Proof.
  intros Hr Hn H. unfold write_loop_resume in H. apply run_bind_Ret in H as ([c1 b] & H1 & H).
  assert (reaches c0 c1) as Hr1.
  { eapply (then_fst (task_write_resume now r)); [exact Hr| |done|exact H1]. destruct r; cbn; auto. }
  destruct b; [by injection H as <- _|by eapply write_loop_reaches].
Qed.

Lemma read_resume_reaches now r c c' x : reaches c0 c -> read_loop_resume now r c = Ret (c', x) -> reaches c0 c'.
Proof.
  intros Hr H. unfold read_loop_resume in H. apply run_bind_Ret in H as (c1 & H1 & H).
  eapply read_loop_reaches; [|exact H]. eapply (then_task (task_read_end now r)); [exact Hr|done|]. cbn [Strand.run_task]. by rewrite H1.
Qed.

Lemma after_reconnect_conn (x : reconnect_result (endpoint:=endpoint)) : (after_reconnect x).1.1 = x.1.1.
Proof. by destruct x as [[? ?] ?]. Qed.

Lemma control_loop_reaches now j c x :
  reaches c0 c -> control_loop (endpoint:=endpoint) pow unspecified now j c = Ret x -> reaches c0 x.1.1.
Proof.
  intros Hr H. unfold control_loop in H. apply run_bind_Ret in H as ([c1 act] & H1 & H).
  assert (reaches c0 c1) as Hr1 by (by eapply (then_fst (task_control now))).
  destruct act; try by injection H as <-.
  apply fmap_run_Ret in H as (y & Hy & ->). rewrite after_reconnect_conn.
  eapply (then_task (task_reconnect_head now j)); [exact Hr1|done|]. cbn [Strand.run_task]. by rewrite Hy.
Qed.

Lemma close_reaches now (s s' : system) : reaches c0 (conn s) -> close_call now s = Ret s' -> reaches c0 (conn s').
Proof.
  intros Hr H. unfold close_call in H. apply run_bind_Ret in H as ([c1 w] & H1 & H).
  assert (reaches c0 c1) as Hr1 by (by eapply (then_fst (task_close_begin now))). destruct w as [[]|]; run_inv; done.
Qed.

Lemma connect_reaches (s s' : system) : reaches c0 (conn s) -> connect_call s = Ret s' -> reaches c0 (conn s').
Proof.
  intros Hr H. unfold connect_call in H. apply run_bind_Ret in H as ([c1 w] & H1 & H).
  assert (reaches c0 c1) as Hr1 by (by eapply (then_fst task_connect_begin)).
  destruct w; run_inv; [done|]. by destruct (actor_running_ (conn s)).
Qed.

Lemma loops_reach e (s s' : system) :
  allowed e s -> reaches c0 (conn s) -> loop_event e = true -> react other pow unspecified e s = Some (Ret s') ->
  reaches c0 (conn s').
Proof.
  intros [_ Ha] Hr He H. destruct e; try done; cbn [react] in H; cbv zeta in H.
  - destruct (writer s); try done; [injection H as H|unfold wake_write in H; destruct (write_wakeup_ (conn s)); [done|]; injection H as H];
      apply fmap_run_Ret in H as ([c1 w] & H & ->); (eapply write_loop_reaches; [|exact H]); by try apply then_waked.
  - destruct (writer s); try done. injection H as H. apply fmap_run_Ret in H as ([c1 w] & H & ->).
    eapply write_resume_reaches; [exact Hr| |exact H]. intros n ->. lia.
  - destruct (reader s); try done; [injection H as H|unfold wake_read in H; destruct (read_wakeup_ (conn s)); [done|]; injection H as H];
      apply fmap_run_Ret in H as ([c1 w] & H & ->); (eapply read_loop_reaches; [|exact H]); by try apply then_waked.
  - destruct (reader s); try done. injection H as H. apply fmap_run_Ret in H as ([c1 w] & H & ->).
    by eapply read_resume_reaches.
  - destruct (controller s); try done; [injection H as H|unfold wake_control in H; destruct (control_wakeup_ (conn s)); [done|]; injection H as H..];
      apply fmap_run_Ret in H as (x & H & ->); (eapply control_loop_reaches; [|exact H]); by try apply then_waked.
  - destruct (controller s); try done. destruct (_ <=? now); [|done]. injection H as H.
    apply fmap_run_Ret in H as (x & H & ->). by eapply control_loop_reaches.
  - destruct (controller s) as [| | |[d|pt|] live|]; try done.
    assert (exists c1, (if by_wakeup then wake_control (conn s) else Some (conn s)) = Some c1 /\ reaches c0 c1) as (c1 & Hc1 & Hr1).
    { destruct by_wakeup; [|by eexists]. unfold wake_control in *. destruct (control_wakeup_ (conn s)); [done|].
      eexists. split; [done|]. by apply then_waked. }
    rewrite Hc1 in H. injection H as <-. cbn [conn set_controller with_controller]. rewrite after_reconnect_conn.
    by eapply (then_task (task_reconnect now (jitter s) (at_backoff d) in_continue)).
Qed.

Lemma react_reaches e (s s' : system) :
  allowed e s -> reaches c0 (conn s) -> react other pow unspecified e s = Some (Ret s') -> reaches c0 (conn s').
Proof.
  intros Hal Hr H. destruct (loop_event e) eqn:He; [exact (loops_reach e s s' Hal Hr He H)|].
  destruct Hal as [_ Ha]. destruct e; try done; cbn [react] in H; cbv zeta in H.
  - injection H as H. apply fmap_run_Ret in H as (c' & H & ->). destruct Ha as (_ & Had & Hne & Hc).
    eapply (then_task (task_enqueue now start types r addr)); [exact Hr| |cbn [Strand.run_task]; by rewrite H].
    split; [done|]. rewrite Hc. destruct types; [done|]. unfold zlen. cbn. lia.
  - injection H as H. apply fmap_run_Ret in H as (c' & H & ->).
    eapply (then_task (task_enqueue_dynamic now start t r addr)); [exact Hr|apply Ha|cbn [Strand.run_task]; by rewrite H].
  - injection H as H. apply fmap_run_Ret in H as (c' & H & ->).
    eapply (then_task (task_enqueue_throws now types r ep addr)); [exact Hr|apply Ha|cbn [Strand.run_task]; by rewrite H].
  - injection H as H. by eapply connect_reaches.
  - destruct (connector s); try done. destruct (do_connect_begin (conn s)) as [c1 pt] eqn:E. injection H as <-.
    eapply (then_task task_do_connect_begin); [exact Hr|done|]. cbn [Strand.run_task]. by rewrite E.
  - destruct (connector s) as [| |pt live|] eqn:Hcn; try done. destruct (do_connect_resume _ _ _ _ _) as [m|] eqn:E; [|done].
    injection H as H. apply fmap_run_Ret in H as (x & -> & ->). destruct Ha as [_ [Ha _]].
    eapply (then_task (task_do_connect now pt i)); [exact Hr|exact (input_ok_sane other now pt i _ _ Ha E)|].
    cbn [Strand.run_task]. by rewrite E.
  - destruct (connector s) as [| |[| | | | | |res] live|]; try done. injection H as H.
    apply fmap_run_Ret in H as ([c1 b] & H & ->). by eapply (then_fst (task_connect_end now res)).
  - destruct (connector s); try done. injection H as H. eapply close_reaches; [|exact H]. exact Hr.
  - injection H as H. eapply close_reaches; [|exact H]. exact Hr.
  - destruct (closers s); [done|]. unfold wake_done in H. destruct (actor_done_ (conn s)) as [|m]; [done|]. injection H as H.
    apply run_bind_Ret in H as (u & _ & [= <-]).
    apply (then_woken (write_wakeup_ (conn s)) (read_wakeup_ (conn s)) (control_wakeup_ (conn s)) m) in Hr. exact Hr.
  - destruct (controller s) as [| | |[d|pt|] live|]; try done.
    destruct (do_reconnect_resume _ _ _ _ _ _ _ _) as [m|] eqn:E; [|done]. injection H as H.
    apply fmap_run_Ret in H as (x & -> & ->). destruct Ha as [_ [Ha _]]. cbn [conn set_controller with_controller].
    rewrite after_reconnect_conn. eapply (then_task (task_reconnect now (jitter s) (at_attempt pt) i)); [exact Hr| |].
    + pose proof E as E1. cbn [do_reconnect_resume] in E1. destruct (do_connect_resume _ _ _ _ _) eqn:E2; [|done].
      exact (input_ok_sane other now pt i _ _ Ha E2).
    + cbn [Strand.run_task]. by rewrite E.
  - destruct (_ && _); [|done]. injection H as H. apply fmap_run_Ret in H as (c' & H & ->).
    eapply (then_task (task_actor_end now)); [exact Hr|done|]. cbn [Strand.run_task]. by rewrite H.
  - destruct (ended s); [|done]. injection H as H. apply fmap_run_Ret in H as (c' & H & ->).
    eapply (then_task (task_actor_completed now None)); [exact Hr|done|]. cbn [Strand.run_task]. by rewrite H.
Qed.

End order.
