(* ===== verification/Journal.v ===== *)
(** * The journal of a run

    What the history of the pipeline has to do with the world outside: the
    slots promised to the callers, the bytes the socket took and the messages
    found in the bytes the socket delivered.  [entry_of] reads these off an
    event and the state it meets, without looking at what the event does;
    [notes] says that a piece of the connection changed the history by such an
    entry and nothing else (but errors for the replies that are missing). *)

From S2P Require Import Prelude Kind Errors Charconv Buffer Message Parser Builder Adapter.
From S2P Require Import ParserInv ParserSafety ParserViews Wire WireParse.
From S2P Require Import Request RingQueue ResponseSink Pipeline PipelineSpec Config Connection Connect.
From S2P Require Import ConnectionSpec ConnectSpec Tolerant Strand Actor ConnectTheorems ActorSpec.

(** ** Entries *)

Record entry : Type := mk_entry {
  promised : list (nat * nat);
  sent : bytes;
  heard : list (message bytes);
}.

Definition silent : entry := mk_entry [] [] [].
Definition hears (ms : list (message bytes)) : entry := mk_entry [] [] ms.
Definition sends (bs : bytes) : entry := mk_entry [] bs [].
Definition promises (slots : list (nat * nat)) : entry := mk_entry slots [] [].

(** The slots of a sink for [n] replies. *)
Definition slots_of (addr n : nat) : list (nat * nat) := pair addr <$> seq 0 n.

(** The messages that the bytes of a parser hold, one after the other. *)
Fixpoint values (fuel : nat) (p : parser) : list (message bytes) :=
  match fuel with
  | O => []
  | Datatypes.S fuel' =>
    match parse_one p with
    | Ret (p1, Val (Some root)) =>
      match (m ← build_message (view_bytes (buf_ p1)) (tree_ p1) root;
             or_fault dangling_view (resolve (view_bytes (buf_ p1)) m)), reclaim p1 with
      | Ret msg, Ret p2 => msg :: values fuel' p2
      | _, _ => []
      end
    | _ => []
    end
  end.

(** The messages that a read completes. *)
Definition messages_in (bs : bytes) (p : parser) : list (message bytes) :=
  match bs with
  | [] => []
  | _ => match commit_read bs p with Ret p1 => values (read_fuel p1) p1 | Fault _ => [] end
  end.

(** The elements of a queue. *)
Fixpoint q_list {Q} `{Fifo Q} {A} (n : nat) (q : Q A) : list A :=
  match n with
  | O => []
  | Datatypes.S n' =>
    match q_front q, q_pop q with
    | Ret x, Ret q' => x :: q_list n' q'
    | _, _ => []
    end
  end.

(** How many replies the requests that were written still miss. *)
Definition awaited (c : connection) : nat :=
  let q := awaiting_read_ (pipeline_ c) in
  length (outstanding (sinks c) (ai_sink <$> q_list (q_size q) q)).

Lemma q_list_elems {Q} `{Fifo Q} {A} l : forall q : Q A, q_elems q l -> q_list (q_size q) q = l.
Proof.
  induction l as [|x l IH]; intros q Hq; rewrite (q_size_elems q _ Hq); [done|]. cbn [length q_list].
  rewrite (q_front_elems q _ _ Hq). destruct (q_pop_elems q _ _ Hq) as (q' & -> & Hq').
  f_equal. rewrite <- (q_size_elems q' _ Hq'). by apply IH.
Qed.

Lemma awaited_eq c pend await :
  inv (sinks c) (pipeline_ c) pend await -> awaited c = length (outstanding (sinks c) (ai_sink <$> await)).
Proof. intros Hi. unfold awaited. by rewrite (q_list_elems _ _ (inv_await _ _ _ _ Hi)). Qed.

Lemma awaited_pending c pend await :
  inv (sinks c) (pipeline_ c) pend await -> has_pending_read (pipeline_ c) = false -> awaited c = 0%nat.
Proof.
  intros Hi Hp. rewrite (awaited_eq c pend await Hi). unfold has_pending_read in Hp. apply negb_false_iff in Hp.
  by rewrite (proj1 (q_empty_elems _ _ (inv_await _ _ _ _ Hi)) Hp).
Qed.

Section notes.

Context (lims : pipeline_limits).

Definition notes (n : entry) (c c' : connection) : Prop :=
  forall hs, runs lims hs (sinks c) (pipeline_ c) ->
    exists hs' errs, runs lims hs' (sinks c') (pipeline_ c') /\
      reply_slots hs' = reply_slots hs ++ promised n /\
      written_bytes hs' = written_bytes hs ++ sent n /\
      replies hs' = replies hs ++ (reply_message <$> heard n) ++ (reply_error <$> errs).

(** ** Composition *)

Lemma notes_refl c c' : sinks c' = sinks c -> pipeline_ c' = pipeline_ c -> notes silent c c'.
Proof. intros E1 E2 hs Hr. exists hs, []. rewrite E1, E2. cbn. by rewrite !app_nil_r. Qed.

Lemma notes_then n c c1 c2 : notes n c c1 -> notes silent c1 c2 -> notes n c c2.
Proof.
  intros H1 H2 hs Hr. destruct (H1 hs Hr) as (hs1 & e1 & Hr1 & A1 & B1 & C1).
  destruct (H2 hs1 Hr1) as (hs2 & e2 & Hr2 & A2 & B2 & C2). exists hs2, (e1 ++ e2). split; [done|].
  rewrite A2, B2, C2, A1, B1, C1. cbn. rewrite !app_nil_r, fmap_app, <- !app_assoc. done.
Qed.

Lemma notes_before n c c1 c2 : sinks c1 = sinks c -> pipeline_ c1 = pipeline_ c -> notes n c1 c2 -> notes n c c2.
Proof. intros E1 E2 H hs Hr. apply H. by rewrite E1, E2. Qed.

#[export] Instance silent_preorder : PreOrder (notes silent).
Proof. split; [intros c; by apply notes_refl|]. intros c1 c2 c3. apply notes_then. Qed.

(** ** The operations of the pipeline *)

Lemma notes_clear now err c c' : clear_pipeline now err c = Ret c' -> notes silent c c'.
Proof.
  unfold clear_pipeline. intros H. run_inv. destruct x as [h p]. intros hs Hr.
  exists (after_clear err hs), (replicate (length (reply_slots hs) - length (replies hs)) err).
  split; [by eapply runs_clear|]. cbn. by rewrite !app_nil_r, fmap_replicate.
Qed.

Lemma notes_error now e c h p :
  has_pending_read (pipeline_ c) = true -> on_error now e (sinks c) (pipeline_ c) = Ret (h, p) ->
  notes silent c (set_pipeline h p c).
Proof.
  intros Hp H hs Hr. exists (after_reply (reply_error e) hs), [e]. split; [by eapply runs_reply|].
  cbn. by rewrite !app_nil_r.
Qed.

Lemma notes_succeeded now c : notes silent c (connect_succeeded now c).
Proof. apply notes_refl; unfold connect_succeeded, emit_connection_event; by destruct (negb _). Qed.

#[export] Instance notes_calm : Calm (notes silent).
Proof.
  constructor; try apply _; try (intros; by apply notes_refl).
  - intros now k st f t e c _. apply notes_refl; unfold emit_connection_event; by destruct (negb _).
  - apply notes_succeeded.
  - apply notes_clear.
  - apply notes_error.
Qed.

(** A message, and what follows. *)
Lemma notes_message now m ms c h p c2 :
  has_pending_read (pipeline_ c) = true -> on_message now m (sinks c) (pipeline_ c) = Ret (h, p) ->
  notes (hears ms) (set_pipeline h p c) c2 -> notes (hears (m :: ms)) c c2.
Proof.
  intros Hp Hm H hs Hr. destruct (H (after_reply (reply_message m) hs)) as (hs2 & errs & Hr2 & A & B & C).
  { exact (runs_reply lims hs (sinks c) (pipeline_ c) now (reply_message m) h p Hr Hp Hm). }
  exists hs2, errs. split; [done|]. split; [done|]. split; [done|]. rewrite C. cbn. by rewrite <- app_assoc.
Qed.

Lemma notes_write n buf c p :
  has_pending_write (pipeline_ c) = true -> next_write_buffer (pipeline_ c) = Ret buf -> 0 <= n <= zlen buf ->
  on_write_done n (pipeline_ c) = Ret p -> notes (sends (take (Z.to_nat n) buf)) c (set_pipeline (sinks c) p c).
Proof.
  intros Hp Hb Hn Hw hs Hr. exists (after_write (take (Z.to_nat n) buf) hs), []. split; [by eapply runs_write|].
  cbn. by rewrite !app_nil_r.
Qed.

Lemma notes_push c addr s r dl p b :
  sinks c !! addr = None -> sink_wf s -> sink_slots s = [] -> is_complete s = false ->
  reply_count r = Z.of_nat (length (sink_types s)) ->
  push r (Some addr) dl (<[addr := s]> (sinks c)) (pipeline_ c) = Ret (p, b) ->
  notes (promises (if b then slots_of addr (length (sink_types s)) else [])) c (set_pipeline (<[addr := s]> (sinks c)) p c).
Proof.
  intros Ha Hwf Hsl Hc Hcnt Hp hs Hr. destruct b.
  - exists (after_push addr r (length (sink_types s)) dl hs), []. split; [by eapply runs_push|]. cbn. by rewrite !app_nil_r.
  - exists hs, []. split; [by eapply runs_refused|]. cbn. by rewrite !app_nil_r.
Qed.

Lemma notes_store c a s :
  sinks c !! a = None -> no_value s -> notes silent c (set_pipeline (<[a := s]> (sinks c)) (pipeline_ c) c).
Proof. intros Ha Hs hs Hr. exists hs, []. split; [by apply runs_store|]. cbn. by rewrite !app_nil_r. Qed.

(** ** Reading *)

(** One message more leaves one reply less to wait for. *)
Lemma message_awaited now m c h p pend await :
  inv (sinks c) (pipeline_ c) pend await -> has_pending_read (pipeline_ c) = true ->
  on_message now m (sinks c) (pipeline_ c) = Ret (h, p) ->
  awaited c = Datatypes.S (awaited (set_pipeline h p c)) /\
  exists await', inv h p pend await' /\
    (forall slot, ai_sink <$> await = [Some slot] ->
       exists s, h !! slot = Some s /\ (is_complete s = true -> await' = []) /\
         (is_complete s = false -> ai_sink <$> await' = [Some slot])).
Proof.
  intros Hi Hp Hm. destruct (has_pending_read_front _ _ _ _ Hi Hp) as (ai & rest & ->).
  destruct (on_reply_inv now (reply_message m) _ _ _ _ _ Hi) as (a & s & s' & p1 & Ha & Hs & Hwf & Hd & Hr1 & _ & Hi1).
  change (on_reply (deliver_reply now (reply_message m)) (sinks c) (pipeline_ c))
    with (on_message now m (sinks c) (pipeline_ c)) in Hr1. rewrite Hm in Hr1. injection Hr1 as -> <-.
  pose proof (inv_nodup _ _ _ _ Hi) as Hnd. change (ptrs pend (ai :: rest)) with (ai_sink ai :: ptrs pend rest) in Hnd.
  apply NoDup_cons in Hnd as [Hfr _]. rewrite Ha in Hfr.
  assert (Some a ∉ ai_sink <$> rest) as Hfr' by (unfold ptrs in Hfr; set_solver).
  split.
  - rewrite (awaited_eq c _ _ Hi), (awaited_eq (set_pipeline _ _ c) _ _ Hi1). cbn [set_pipeline sinks].
    rewrite fmap_cons, outstanding_cons, Ha, (open_slots_delivered _ _ a s s' Hs Hd). cbn [app length]. f_equal.
    rewrite <- (outstanding_other _ a s' _ Hfr'). destruct (is_complete s') eqn:Hc.
    + rewrite (open_slots_complete _ a s'); [done|apply lookup_insert_eq|apply Hd|done].
    + by rewrite fmap_cons, outstanding_cons, Ha.
  - eexists. split; [exact Hi1|]. intros slot Hsl. rewrite fmap_cons, Ha in Hsl. injection Hsl as <- Hrest.
    exists s'. split; [apply lookup_insert_eq|]. destruct (is_complete s'); split; try done.
    + intros _. by apply fmap_nil_inv in Hrest.
    + intros _. by rewrite fmap_cons, Ha, Hrest.
Qed.

Lemma notes_read_loop fuel now : forall c c' pend await,
  inv (sinks c) (pipeline_ c) pend await -> do_read_loop fuel now c = Ret c' ->
  notes (hears (take (awaited c) (values fuel (parser_ c)))) c c'.
Proof.
  induction fuel as [|fuel IH]; intros c c' pend await Hi H; [done|]. cbn [do_read_loop values] in *.
  apply run_bind_Ret in H as ([p1 parsed] & Hp1 & H). rewrite Hp1. set (c1 := set_parser p1 c) in *. cbv zeta in H.
  assert (notes silent c1 c' -> notes (hears []) c c') as Hquiet by (apply notes_before; done).
  destruct parsed as [[root|]|e].
  - destruct (has_pending_read (pipeline_ c1)) eqn:Hpr; cbn [negb] in H.
    + apply run_bind_Ret in H as (m & Hm & H). apply run_bind_Ret in H as (msg & Hmsg & H).
      apply run_bind_Ret in H as ([h p] & Hon & H). apply run_bind_Ret in H as (p2 & Hp2 & H).
      destruct (message_awaited now msg c1 h p pend await Hi Hpr Hon) as (Haw & await' & Hi' & _).
      rewrite Hm. cbn [mbind run_bind]. rewrite Hmsg, Hp2. change (awaited c) with (awaited c1). rewrite Haw. cbn [take].
      eapply (notes_message now msg _ c h p c'); [exact Hpr|exact Hon|].
      eapply (notes_before _ _ (set_parser p2 (set_pipeline h p c1))); [done|done|].
      exact (IH (set_parser p2 (set_pipeline h p c1)) c' pend await' Hi' H).
    + change (awaited c) with (awaited c1). rewrite (awaited_pending c1 pend await Hi Hpr). apply Hquiet.
      by eapply (tol_handle_error (notes silent)).
  - rewrite take_nil. apply Hquiet. by run_inv.
  - rewrite take_nil. apply Hquiet. apply run_bind_Ret in H as (c2 & H2 & H).
    transitivity c2; [by eapply (tol_reply_error (notes silent))|by eapply (tol_handle_error (notes silent))].
Qed.

Lemma notes_handshake_parse slot fuel now : forall c r await,
  inv (sinks c) (pipeline_ c) [] await -> ai_sink <$> await = [Some slot] ->
  handshake_parse fuel now slot c = Ret r ->
  notes (hears (take (awaited c) (values fuel (parser_ c)))) c r.1.
Proof.
  induction fuel as [|fuel IH]; intros c r await Hi Hsl H; [done|]. cbn [handshake_parse values] in *.
  apply run_bind_Ret in H as ([p1 parsed] & Hp1 & H). rewrite Hp1. set (c1 := set_parser p1 c) in *. cbv zeta in H.
  assert (notes silent c1 r.1 -> notes (hears []) c r.1) as Hquiet by (apply notes_before; done).
  destruct parsed as [[root|]|e].
  - destruct (has_pending_read (pipeline_ c1)) eqn:Hpr; cbn [negb] in H.
    + apply run_bind_Ret in H as (m & Hm & H). apply run_bind_Ret in H as (msg & Hmsg & H).
      apply run_bind_Ret in H as ([h p] & Hon & H). apply run_bind_Ret in H as (p2 & Hp2 & H).
      apply run_bind_Ret in H as (as_ & Hd & H).
      destruct (message_awaited now msg c1 h p [] await Hi Hpr Hon) as (Haw & await' & Hi' & Hdone).
      destruct (Hdone slot Hsl) as (s & Hs & Hcomp & Hmore).
      rewrite Hm. cbn [mbind run_bind]. rewrite Hmsg, Hp2. change (awaited c) with (awaited c1). rewrite Haw. cbn [take].
      eapply (notes_message now msg _ c h p r.1); [exact Hpr|exact Hon|].
      eapply (notes_before _ _ (set_parser p2 (set_pipeline h p c1))); [done|done|].
      cbn [fst snd set_parser set_pipeline sinks] in Hd. rewrite (deref_at _ _ _ Hs) in Hd. injection Hd as <-. cbn [snd] in H.
      destruct (is_complete s).
      * rewrite (awaited_eq (set_pipeline h p c1) [] await' Hi'), (Hcomp eq_refl). run_inv. by apply notes_refl.
      * exact (IH (set_parser p2 (set_pipeline h p c1)) r await' Hi' (Hmore eq_refl) H).
    + change (awaited c) with (awaited c1). rewrite (awaited_pending c1 [] await Hi Hpr). apply Hquiet. by run_inv.
  - rewrite take_nil. apply Hquiet. by run_inv.
  - rewrite take_nil. apply Hquiet. apply run_bind_Ret in H as (c2 & H2 & [= <-]).
    by eapply (tol_reply_error (notes silent)).
Qed.

(** ** Requests *)

Lemma notes_reject now start info err addr c c0 c' s n :
  sinks c0 !! addr = None -> fresh_for n s -> sinks c = <[addr := s]> (sinks c0) -> pipeline_ c = pipeline_ c0 ->
  reject now start info err addr c = Ret c' -> notes silent c0 c'.
Proof.
  intros Ha (Hwf & Hsl & _) Hs Hp H. unfold reject in H. rewrite (deref_at _ addr s) in H by (rewrite Hs; apply lookup_insert_eq).
  cbn [mbind run_bind snd] in H. apply run_bind_Ret in H as (s1 & Hf1 & [= <-]).
  assert (no_value s1) as Hnv.
  { destruct (fail_all_spec now err s Hwf) as (s2 & Hf2 & _ & _ & _ & Hsl2). rewrite Hf1 in Hf2. injection Hf2 as <-.
    intros i v. rewrite Hsl2, Hsl. by intros [? _]%lookup_replicate. }
  assert (notes silent c0 (set_pipeline (<[addr := s1]> (<[addr := s]> (sinks c0))) (pipeline_ c0) c0)) as Hk.
  { rewrite insert_twice. by apply notes_store. }
  eapply notes_then; [exact Hk|]. apply notes_refl; destruct (_ && _); cbn; congruence.
Qed.

(** What a request promises. *)
Definition request_entry (r : request) (addr n : nat) (c : connection) : entry :=
  if bool_decide (state_ c = connection_state.OPEN) && has_room r (pipeline_ c) then promises (slots_of addr n) else silent.

Lemma refusal_open st : refusal st = None <-> st = connection_state.OPEN.
Proof. by destruct st. Qed.

Lemma notes_enqueue_impl now start r addr c c' s n pend await :
  inv (sinks c) (pipeline_ c) pend await -> sinks c !! addr = None -> fresh_for n s -> reply_count r = Z.of_nat n ->
  enqueue_impl now start r addr (set_pipeline (<[addr := s]> (sinks c)) (pipeline_ c) c) = Ret c' ->
  notes (request_entry r addr n c) c c'.
Proof.
  intros Hi Ha Hfr Hcnt H. pose proof Hfr as (Hwf & Hsl & Hc & Hlen). unfold enqueue_impl in H.
  set (c0 := set_pipeline _ _ c) in *. pose proof (trace_begin_fields r c0) as Hf. cbv zeta in Hf.
  destruct (trace_begin r c0) as [info c1]. cbn [snd] in *. destruct Hf as (Hst & Hsn & Hs & Hp & Hcfg).
  cbn [c0 set_pipeline sinks pipeline_ state_] in Hs, Hp, Hst. unfold request_entry. rewrite <- Hst.
  destruct (refusal (state_ c1)) as [err|] eqn:Eref.
  { rewrite bool_decide_false by (intros Ho; by rewrite Ho in Eref). cbn [andb]. by eapply notes_reject. }
  apply refusal_open in Eref. rewrite bool_decide_true by done. cbn [andb].
  pose proof (fresh_ptr _ addr _ Ha (inv_ptrs _ _ _ _ Hi)) as Hfresh.
  destruct (push_inv (<[addr := s]> (sinks c)) (pipeline_ c) pend await r addr s
    (deadline_after now (request_timeout (cfg_ c1))) (inv_other addr s Hi Hfresh)) as (p' & Hpush & _);
    [apply lookup_insert_eq|done|done|done|by rewrite Hlen|].
  pose proof (notes_push c addr s r _ p' _ Ha Hwf Hsl Hc ltac:(by rewrite Hlen) Hpush) as Hn. rewrite Hlen in Hn.
  rewrite Hs, Hp, Hpush in H. cbn [mbind run_bind fst snd] in H. destruct (has_room r (pipeline_ c)); cbn [negb] in H.
  - rewrite (deref_at _ addr s) in H by apply lookup_insert_eq. cbn [mbind run_bind snd] in H. injection H as <-.
    assert (forall s', sink_wf s' -> sink_types s' = sink_types s -> sink_slots s' = sink_slots s ->
      forall c2, sinks c2 = <[addr := s']> (<[addr := s]> (sinks c)) -> pipeline_ c2 = p' ->
      notes silent (set_pipeline (<[addr := s]> (sinks c)) p' c) c2) as Htag.
    { intros s' Hwf' Hty' Hsl' c2 E1 E2 hs Hr. exists hs, []. rewrite E1, E2. cbn. rewrite !app_nil_r. split; [|done].
      eapply runs_retag; [exact Hr|apply lookup_insert_eq|exact Hwf|done..]. }
    eapply notes_then; [exact Hn|]. destruct (trace_hooks_enabled _).
    + refine (Htag (pending_set_trace _ _ _ s) _ _ _ _ _ _); [by apply pending_set_trace_wf|done|done| |done]. done.
    + apply (Htag s); [done..| |done]. cbn. by rewrite insert_twice.
  - apply push_refused in Hpush. subst p'.
    by eapply (notes_reject _ _ _ _ _ (set_pipeline (<[addr := s]> (sinks c)) (pipeline_ c) c1) c c' s n Ha Hfr); [..|exact H].
Qed.

(** ** Connecting *)

Section connecting.

Context (other : string -> Z -> string) {endpoint : Type}.
Context (pow : double -> double -> double) (unspecified : double -> Z).

(** What resuming [do_connect] sends, hears and promises. *)
Definition connect_entry (pt : connect_point endpoint) (i : connect_input endpoint) (c : connection) : entry :=
  match pt, i with
  | at_connect _ _, in_attempt (attempt_ok None None) addr =>
    if negb (stop_ c) && has_room (request_of (handshake_commands (cfg_ c))) (pipeline_ c)
    then promises (slots_of addr (length (handshake_commands (cfg_ c)))) else silent
  | at_write _ buf, in_written (Val n) => sends (take (Z.to_nat n) buf)
  | at_read _, in_read (Val bs) => hears (take (awaited c) (messages_in bs (parser_ c)))
  | _, _ => silent
  end.

(** What is known where something is sent, heard or promised. *)
Definition connect_known (pt : connect_point endpoint) (i : connect_input endpoint) (c : connection) : Prop :=
  match pt, i with
  | at_connect _ _, in_attempt _ addr =>
    sinks c !! addr = None /\ exists pend await, inv (sinks c) (pipeline_ c) pend await
  | at_write _ buf, in_written (Val n) =>
    has_pending_write (pipeline_ c) = true /\ next_write_buffer (pipeline_ c) = Ret buf /\ 0 <= n <= zlen buf
  | at_read slot, in_read (Val _) =>
    exists await, inv (sinks c) (pipeline_ c) [] await /\ ai_sink <$> await = [Some slot]
  | _, _ => True
  end.

Lemma notes_start_handshake now addr c r pend await :
  config_fits (cfg_ c) -> inv (sinks c) (pipeline_ c) pend await -> sinks c !! addr = None ->
  start_handshake (endpoint:=endpoint) other now addr c = Ret r ->
  notes (promises (if has_room (request_of (handshake_commands (cfg_ c))) (pipeline_ c)
                   then slots_of addr (length (handshake_commands (cfg_ c))) else [])) c r.1.
Proof.
  intros Hfit Hi Ha H. unfold start_handshake in H. rewrite (handshake_request_ok _ Hfit) in H. cbn [mbind run_bind] in H.
  set (cmds := handshake_commands (cfg_ c)) in *. pose proof (handshake_commands_count (cfg_ c)) as Hcnt. fold cmds in Hcnt.
  assert (Z.to_nat (reply_count (request_of cmds)) = length cmds) as Hrc
    by (unfold reply_count, request_of, zlen; cbn [command_count_]; lia).
  rewrite Hrc in H. destruct (dynamic_sink_fresh TIgnore (length cmds)) as (Hwf & Hsl & Hc & Hlen); [lia|].
  set (s := dynamic_sink TIgnore (length cmds)) in *.
  assert (reply_count (request_of cmds) = Z.of_nat (length (sink_types s))) as Hn
    by (rewrite Hlen; unfold reply_count, request_of, zlen; cbn [command_count_]; lia).
  pose proof (fresh_ptr _ addr _ Ha (inv_ptrs _ _ _ _ Hi)) as Hfresh.
  destruct (push_inv (<[addr := s]> (sinks c)) (pipeline_ c) pend await (request_of cmds) addr s time_max
    (inv_other addr s Hi Hfresh)) as (p' & Hpush & _); [apply lookup_insert_eq|done|done|done|done|].
  pose proof (notes_push c addr s _ time_max p' _ Ha Hwf Hsl Hc Hn Hpush) as Hnote. rewrite Hlen in Hnote.
  unfold push_no_deadline in H. rewrite Hpush in H. cbn [mbind run_bind fst snd] in H.
  eapply notes_then; [exact Hnote|]. destruct (has_room _ _); cbn [negb] in H.
  - by eapply (tol_handshake_write (notes silent)).
  - unfold fail_connect in H. by run_inv.
Qed.

Lemma notes_next_endpoint now ec rest addr c r :
  next_endpoint (endpoint:=endpoint) other now ec rest addr c = Ret r -> notes silent c r.1.
Proof.
  destruct rest; cbn [next_endpoint after_attempts]; intros H.
  - unfold fail_connect in H. destruct ec; by run_inv.
  - run_inv. apply (tol_close_socket (notes silent)).
Qed.

Lemma notes_do_connect now pt i c r :
  config_fits (cfg_ c) -> connect_known pt i c ->
  do_connect_resume (endpoint:=endpoint) other now pt i c = Some (Ret r) -> notes (connect_entry pt i c) c r.1.
Proof.
  intros Hfit Hk H. unfold do_connect_resume in H.
  destruct pt as [|ep rest|slot buf|slot|slot res|slot|res], i as [rr|a addr|w|rd| |]; try done; try injection H as H;
    cbn [connect_entry connect_known] in *.
  - unfold on_resolved, fail_connect in H. destruct rr as [[|ep rest]|[]]; try by run_inv.
    destruct (stop_ c); run_inv; [done|apply (tol_close_socket (notes silent))].
  - destruct Hk as (Ha & pend & await & Hi). assert (forall b, notes silent c (set_socket b c)) as Hs by (intros b; by apply notes_refl).
    destruct a as [e b|[e|] [e'|]]; cbn [on_attempt] in H;
      try (apply notes_next_endpoint in H; eapply notes_then; [apply Hs|exact H]).
    cbn [after_attempts set_socket stop_] in H. destruct (stop_ c); cbn [negb andb].
    { unfold fail_connect in H. run_inv. by apply notes_refl. }
    apply (notes_before _ c (set_socket true c)); [done|done|].
    pose proof (notes_start_handshake now addr (set_socket true c) r pend await Hfit Hi Ha H) as Hn.
    cbn [set_socket cfg_ pipeline_] in Hn. by destruct (has_room _ _).
  - destruct w as [n|e]; cbn [on_written] in H; [|by eapply (tol_handshake_return (notes silent))].
    destruct Hk as (Hp & Hb & Hn). apply run_bind_Ret in H as (p1 & H1 & H).
    eapply notes_then; [exact (notes_write n buf c p1 Hp Hb Hn H1)|by eapply (tol_handshake_write (notes silent))].
  - destruct (request_timeout (cfg_ c)), (connect_timeout (cfg_ c)); try done;
      injection H as H; exact (tol_handshake_end (notes silent) other now slot (Unexpected (hs_io io_timed_out)) c r H).
  - destruct rd as [[|b bs]|e]; cbn [on_read messages_in] in *; rewrite ?take_nil;
      [by eapply (tol_handshake_return (notes silent))| |by eapply (tol_handshake_return (notes silent))].
    destruct Hk as (await & Hi & Hsl). apply run_bind_Ret in H as (p1 & Hp1 & H). apply run_bind_Ret in H as ([c2 e] & H2 & H).
    cbn [fst snd] in H. rewrite Hp1. apply (notes_before _ c (set_parser p1 c)); [done|done|].
    pose proof (notes_handshake_parse slot (read_fuel p1) now (set_parser p1 c) (c2, e) await Hi Hsl H2) as Hn.
    eapply notes_then; [exact Hn|].
    destruct e; [by eapply (tol_handshake_return (notes silent))|by eapply (tol_handshake_read (notes silent))].
  - destruct (request_timeout (cfg_ c)), (connect_timeout (cfg_ c)); try done;
      injection H as H; exact (tol_handshake_end (notes silent) other now slot (Unexpected (hs_io io_timed_out)) c r H).
  - by eapply (tol_handshake_end (notes silent)).
  - by eapply (tol_check_replies (notes silent)).
Qed.

Lemma notes_do_reconnect now jitter pt i c r :
  config_fits (cfg_ c) -> connect_known pt i c ->
  do_reconnect_resume (endpoint:=endpoint) other pow unspecified now jitter (at_attempt pt) i c = Some (Ret r) ->
  notes (connect_entry pt i c) c r.1.1.
Proof.
  intros Hfit Hk H. cbn [do_reconnect_resume] in H.
  destruct (do_connect_resume other now pt i c) as [x|] eqn:Hx; [|done]. injection H as H.
  apply run_bind_Ret in H as ([c1 pt1] & -> & H). apply notes_do_connect in Hx; [|done..].
  eapply notes_then; [exact Hx|]. destruct pt1; cbn [fst snd] in H; [by run_inv..|by eapply (tol_reconnect_after (notes silent))].
Qed.

End connecting.

(** ** The other pieces *)

Lemma notes_read_begin c r : do_read_begin c = Ret r -> notes silent c r.1.
Proof. unfold do_read_begin. intros H. case_bool_decide; run_inv; [done|by apply notes_refl]. Qed.

Lemma notes_write_next c r : do_write_next c = Ret r -> notes silent c r.1.
Proof. unfold do_write_next. destruct (_ && _); intros H; run_inv; [done|by apply notes_refl]. Qed.

Lemma notes_write_begin c r : do_write_begin c = Ret r -> notes silent c r.1.
Proof.
  unfold do_write_begin. intros H. case_bool_decide; [by run_inv|]. apply run_bind_Ret in H as (? & _ & H).
  etransitivity; [|by eapply notes_write_next]. by apply notes_refl.
Qed.

Lemma notes_control now c r : control_turn now c = Ret r -> notes silent c r.1.
Proof.
  unfold control_turn. intros H. destruct (_ || _); [by run_inv|]. case_bool_decide.
  { destruct (negb _); run_inv; [by apply notes_refl|done]. }
  apply run_bind_Ret in H as (x & _ & H). destruct x as [[[] d]|].
  - apply run_bind_Ret in H as (c1 & H1 & [= <-]). by eapply (tol_handle_error (notes silent)).
  - destruct (negb _); by run_inv.
  - case_bool_decide; by run_inv.
Qed.

Lemma notes_close now c r : close_begin now c = Ret r -> notes silent c r.1.
Proof.
  unfold close_begin. intros H. case_bool_decide; run_inv; [done|].
  transitivity (set_state connection_state.CLOSING (set_stop true c)); [by apply notes_refl|].
  etransitivity; [by eapply notes_clear|]. etransitivity; [apply (tol_close_socket (notes silent))|by apply notes_refl].
Qed.

Lemma notes_actor_completed now c c' : actor_completed now None c = Ret c' -> notes silent c c'.
Proof.
  unfold actor_completed. set (c0 := set_actor false (actor_done_ c) c). intros H. cbn [mbind run_bind] in H.
  apply run_bind_Ret in H as (c2 & H2 & [= <-]). transitivity c0; [by apply notes_refl|].
  transitivity c2; [|by apply notes_refl]. case_bool_decide; [by eapply (tol_transition (notes silent))|by run_inv].
Qed.

Lemma notes_connect_begin c r : connect_begin c = Ret r -> notes silent c r.1.
Proof.
  unfold connect_begin. intros H. case_bool_decide; [by run_inv|]. case_bool_decide; [by run_inv|].
  set (c1 := if bool_decide _ then _ else _) in *.
  assert (notes silent c c1) as Hk by (unfold c1; case_bool_decide; by apply notes_refl). clearbody c1.
  destruct (stop_ c1); [by run_inv|]. apply run_bind_Ret in H as (c2 & H2 & H). run_inv.
  etransitivity; [exact Hk|]. etransitivity; [|by apply (notes_refl c2)].
  destruct (negb _); [unfold run_actor in H2; run_inv; by apply notes_refl|by run_inv].
Qed.

Lemma notes_connect_end now res c r : connect_end now res c = Ret r -> notes silent c r.1.
Proof.
  destruct res; cbn [connect_end]; intros H; run_inv; [by apply notes_refl|]. by apply tol_event.
Qed.

Lemma notes_enqueue_throws now types r ep addr c c' :
  sinks c !! addr = None -> types <> [] -> enqueue_throws now types r ep addr c = Ret c' -> notes silent c c'.
Proof.
  intros Ha Hne H. unfold enqueue_throws, enqueue_caught, fail_sink_with_current_exception in H.
  destruct (fixed_sink_fresh types Hne) as (Hwf & Hsl & _). set (s := fixed_sink types) in *. set (c0 := set_pipeline _ _ c) in *.
  pose proof (trace_begin_fields r c0) as Hf. cbv zeta in Hf. destruct (trace_begin r c0) as [info c1].
  cbn [snd] in *. destruct Hf as (_ & _ & Hs & Hp & _). cbn [c0 set_pipeline sinks pipeline_] in Hs, Hp.
  rewrite (deref_at _ addr s) in H by (rewrite Hs; apply lookup_insert_eq). cbn [mbind run_bind fst snd] in H.
  destruct (fail_all_spec now (make_internal_error (Some ep) (s2b "enqueue dispatch")) s Hwf)
    as (s1 & Hf1 & _ & _ & _ & Hsl1). rewrite Hf1 in H. cbn [mbind run_bind] in H. injection H as <-.
  transitivity (set_pipeline (<[addr := s1]> (sinks c)) (pipeline_ c) c).
  - apply notes_store; [done|]. intros i v. rewrite Hsl1, Hsl. by intros [? _]%lookup_replicate.
  - apply notes_refl; cbn; [by rewrite Hs, insert_twice|done].
Qed.

(** ** Events *)

Section events.

Context (other : string -> Z -> string) {endpoint : Type}.
Context (pow : double -> double -> double) (unspecified : double -> Z).

Abbreviation system := (system endpoint).
Abbreviation event := (event endpoint).

(** What an event that meets [s] promises, sends and hears: a request its slots
    when it is taken; a completed write the part of its buffer that the socket
    took; a completed read the messages that its bytes complete, as many as are
    awaited; the same for the handshake of [connect] and of a reconnection. *)
Definition entry_of (e : event) (s : system) : entry :=
  let c := conn s in
  match e with
  | ev_enqueue _ _ types r addr => request_entry r addr (length types) c
  | ev_enqueue_dynamic _ _ _ r addr => request_entry r addr (Z.to_nat (reply_count r)) c
  | ev_written _ (Val n) =>
    match writer s with w_io buf _ => sends (take (Z.to_nat n) buf) | _ => silent end
  | ev_read _ (Val bs) => hears (take (awaited c) (messages_in bs (parser_ c)))
  | ev_connect_io _ i =>
    match connector s with c_run pt _ => connect_entry pt i c | _ => silent end
  | ev_reconnect_io _ i =>
    match controller s with k_reconnect (at_attempt pt) _ => connect_entry pt i c | _ => silent end
  | _ => silent
  end.

Lemma notes_write_loop c r : write_loop c = Ret r -> notes silent c r.1.
Proof.
  intros H. unfold write_loop in H. destruct (write_loop_head c); [by run_inv| |by run_inv].
  apply run_bind_Ret in H as ([c1 b] & H & [= <-]). exact (notes_write_begin c (c1, b) H).
Qed.

Lemma notes_read_loop_head c r : read_loop c = Ret r -> notes silent c r.1.
Proof.
  intros H. unfold read_loop in H. destruct (read_loop_head c); [by run_inv| |by run_inv].
  apply run_bind_Ret in H as ([c1 b] & H & [= <-]). exact (notes_read_begin c (c1, b) H).
Qed.

Lemma notes_written now n buf c x :
  has_pending_write (pipeline_ c) = true -> next_write_buffer (pipeline_ c) = Ret buf -> 0 <= n <= zlen buf ->
  write_loop_resume now (Val n) c = Ret x -> notes (sends (take (Z.to_nat n) buf)) c x.1.
Proof.
  intros Hp Hb Hn H. unfold write_loop_resume in H. apply run_bind_Ret in H as ([c1 b] & H1 & H). cbn [do_write_resume] in H1.
  apply run_bind_Ret in H1 as (p1 & Hw & H1). eapply notes_then; [exact (notes_write n buf c p1 Hp Hb Hn Hw)|].
  transitivity c1; [|destruct b; [by injection H as <-|by eapply notes_write_loop]].
  apply notes_write_next in H1. etransitivity; [|exact H1]. destruct (has_pending_read p1); by apply notes_refl.
Qed.

Lemma notes_write_failed now e c x : write_loop_resume now (Unexpected e) c = Ret x -> notes silent c x.1.
Proof.
  intros H. unfold write_loop_resume in H. apply run_bind_Ret in H as ([c1 b] & H1 & H). cbn [do_write_resume] in H1.
  apply run_bind_Ret in H1 as (c2 & Hc & [= <- <-]). apply notes_write_loop in H. etransitivity; [|exact H].
  transitivity c2; [|by apply notes_refl]. destruct (_ && _); [by run_inv|by eapply (tol_handle_error (notes silent))].
Qed.

Lemma notes_read now r c x pend await :
  inv (sinks c) (pipeline_ c) pend await -> read_loop_resume now r c = Ret x ->
  notes (match r with Val bs => hears (take (awaited c) (messages_in bs (parser_ c))) | Unexpected _ => silent end) c x.1.
Proof.
  intros Hi H. unfold read_loop_resume in H. apply run_bind_Ret in H as (c1 & H1 & H). apply notes_read_loop_head in H.
  eapply notes_then; [|exact H]. clear H. unfold do_read_end in H1. apply run_bind_Ret in H1 as (c2 & H2 & [= <-]).
  apply (notes_then _ c c2); [|by apply notes_refl]. destruct r as [[|b bs]|e].
  - cbn [messages_in]. rewrite take_nil. by eapply (tol_handle_error (notes silent)).
  - apply run_bind_Ret in H2 as (p1 & Hp1 & H2). cbn [messages_in]. rewrite Hp1.
    apply (notes_before _ c (set_parser p1 c)); [done|done|]. exact (notes_read_loop _ now (set_parser p1 c) c2 pend await Hi H2).
  - destruct (_ && _); [by run_inv|by eapply (tol_handle_error (notes silent))].
Qed.

Lemma notes_control_loop now j c x :
  control_loop (endpoint:=endpoint) pow unspecified now j c = Ret x -> notes silent c x.1.1.
Proof.
  intros H. unfold control_loop in H. apply run_bind_Ret in H as ([c1 act] & H1 & H). apply notes_control in H1.
  etransitivity; [exact H1|]. destruct act; try by injection H as <-.
  apply fmap_run_Ret in H as ([[c2 j2] pt] & Hy & ->). exact (tol_reconnect_head (notes silent) _ _ _ _ _ _ Hy).
Qed.

Lemma notes_close_call now (s s' : system) : close_call now s = Ret s' -> notes silent (conn s) (conn s').
Proof.
  intros H. unfold close_call in H. apply run_bind_Ret in H as ([c1 w] & H1 & H). apply notes_close in H1.
  destruct w as [[]|]; run_inv; exact H1.
Qed.

Lemma notes_connect_call (s s' : system) : connect_call s = Ret s' -> notes silent (conn s) (conn s').
Proof.
  intros H. unfold connect_call in H. apply run_bind_Ret in H as ([c1 w] & H1 & H). apply notes_connect_begin in H1.
  destruct w; run_inv; [exact H1|]. by destruct (actor_running_ (conn s)).
Qed.

(** A connection attempt knows what it needs to. *)
Lemma inv_known c0 pt i c : connect_inv (endpoint:=endpoint) c0 c pt -> input_ok pt i c -> connect_known pt i c.
Proof.
  intros Hinv Hin. destruct pt as [|ep rest|slot buf|slot| | |], i as [| |[]|[]| |]; cbn [connect_inv input_ok connect_known] in *; try done.
  - split; [done|]. destruct Hinv as (_ & Hn & _). exists [], []. apply Hn.
  - destruct Hinv as (_ & _ & _ & it & Hok & _ & ->). unfold has_pending_write.
    rewrite (front_empty _ _ _ (inv_pend _ _ _ _ (ok_inv _ _ _ Hok))).
    by rewrite (next_write_buffer_eq _ _ _ _ _ (ok_inv _ _ _ Hok)).
  - destruct Hinv as (_ & _ & _ & ai & Hok & Ha). exists [ai]. split; [apply Hok|]. cbn. by rewrite Ha.
Qed.

Lemma shaken_known pt live i c :
  shaken c pt live -> io_ok (endpoint:=endpoint) pt live i c -> (live = true -> socket_open c = true) -> connect_known pt i c.
Proof.
  intros (Hn & _ & _ & Hpt) [Hin Hl] Hup.
  destruct pt as [|ep rest|slot buf|slot| | |], i as [| |[]|[]| |]; cbn [input_ok connect_known] in *; try done.
  - split; [done|]. exists [], []. apply Hn.
  - destruct Hpt as [Hpt _]. specialize (Hup Hl). specialize (Hpt Hl). congruence.
  - destruct Hpt as [Hpt _]. specialize (Hup Hl). specialize (Hpt Hl). congruence.
Qed.

Lemma loops_note e (s s' : system) :
  sys_inv s -> settled s -> allowed e s -> loop_event e = true -> react other pow unspecified e s = Some (Ret s') ->
  notes (entry_of e s) (conn s) (conn s').
Proof.
  intros Hi Hset [_ Ha] He H. destruct (si_ok _ Hi) as (pend & await & Hok).
  assert (forall w r k, notes silent (conn s) (set_wakeups w r k (conn s))) as Hwake by (intros; by apply notes_refl).
  destruct e; try done; cbn [react entry_of] in *; cbv zeta in H |- *.
  - destruct (writer s); try done; [injection H as H|unfold wake_write in H; destruct (write_wakeup_ (conn s)); [done|]; injection H as H];
      apply fmap_run_Ret in H as (x & H & ->); apply notes_write_loop in H; [exact H|]. by etransitivity; [apply Hwake|exact H].
  - destruct (writer s) as [| |buf live|] eqn:Hw; try done. injection H as H. apply fmap_run_Ret in H as (x & H & ->).
    destruct r as [n|e]; [|by apply notes_write_failed in H]. destruct Ha as (_ & -> & Hn).
    destruct (si_writer _ Hi) as (_ & _ & Hl). destruct (Hl buf Hw) as (_ & Hp & Hb); [by apply (proj1 Hset) with buf|].
    by eapply notes_written.
  - destruct (reader s); try done; [injection H as H|unfold wake_read in H; destruct (read_wakeup_ (conn s)); [done|]; injection H as H];
      apply fmap_run_Ret in H as (x & H & ->); apply notes_read_loop_head in H; [exact H|]. by etransitivity; [apply Hwake|exact H].
  - destruct (reader s); try done. injection H as H. apply fmap_run_Ret in H as (x & H & ->).
    apply (notes_read _ _ _ _ _ _ (ok_inv _ _ _ Hok)) in H. by destruct r.
  - destruct (controller s); try done; [injection H as H|unfold wake_control in H; destruct (control_wakeup_ (conn s)); [done|]; injection H as H..];
      apply fmap_run_Ret in H as (x & H & ->); apply notes_control_loop in H; [exact H|..]; by etransitivity; [apply Hwake|exact H].
  - destruct (controller s); try done. destruct (_ <=? now); [|done]. injection H as H.
    apply fmap_run_Ret in H as (x & H & ->). by apply notes_control_loop in H.
  - destruct (controller s) as [| | |[d|pt|] live|]; try done.
    assert (exists c1, (if by_wakeup then wake_control (conn s) else Some (conn s)) = Some c1 /\ notes silent (conn s) c1) as (c1 & Hc1 & Hr1).
    { destruct by_wakeup; [|by eexists]. unfold wake_control in *. destruct (control_wakeup_ (conn s)); [done|].
      eexists. split; [done|]. apply Hwake. }
    rewrite Hc1 in H. injection H as <-. cbn [conn set_controller with_controller].
    etransitivity; [exact Hr1|]. pose proof (tol_backoff_turn (notes silent) (endpoint:=endpoint) now d (jitter s) c1) as Hb.
    by destruct (backoff_turn now d (jitter s) c1) as [[c2 j2] pt].
Qed.

Lemma react_notes e (s s' : system) :
  sys_inv s -> settled s -> allowed e s -> react other pow unspecified e s = Some (Ret s') ->
  notes (entry_of e s) (conn s) (conn s').
Proof.
  intros Hi Hset Hal H. destruct (loop_event e) eqn:He; [exact (loops_note e s s' Hi Hset Hal He H)|].
  destruct Hal as [_ Ha]. destruct (si_ok _ Hi) as (pend & await & Hok). pose proof (ok_inv _ _ _ Hok) as Hinv.
  destruct e; try done; cbn [react entry_of] in *; cbv zeta in H |- *.
  - injection H as H. apply fmap_run_Ret in H as (c' & H & ->). destruct Ha as (_ & Had & Hne & Hc).
    unfold enqueue in H. apply run_bind_Ret in H as (u & _ & H).
    eapply notes_enqueue_impl; [exact Hinv|done|by apply (fixed_sink_fresh types)|exact Hc|exact H].
  - injection H as H. apply fmap_run_Ret in H as (c' & H & ->). destruct Ha as (_ & Had & Hc).
    eapply notes_enqueue_impl; [exact Hinv|done|apply dynamic_sink_fresh|  |exact H]; lia.
  - injection H as H. apply fmap_run_Ret in H as (c' & H & ->). destruct Ha as (_ & Had & Hne). by eapply notes_enqueue_throws.
  - injection H as H. by apply notes_connect_call.
  - destruct (connector s); try done. pose proof (tol_do_connect_begin (notes silent) (endpoint:=endpoint) (conn s)) as Hb.
    destruct (do_connect_begin (conn s)) as [c1 pt]. injection H as <-. exact Hb.
  - destruct (connector s) as [| |pt live|] eqn:Hcn; try done. destruct (do_connect_resume _ _ _ _ _) as [m|] eqn:E; [|done].
    injection H as H. apply fmap_run_Ret in H as (x & -> & ->). destruct Ha as [_ [Ha _]].
    pose proof (si_mode _ Hi) as Hm. rewrite Hcn in Hm. destruct Hm as (c0 & _ & _ & Hci).
    exact (notes_do_connect other now pt i (conn s) x (si_fits _ Hi) (inv_known c0 pt i (conn s) Hci Ha) E).
  - destruct (connector s) as [| |[| | | | | |res] live|]; try done. injection H as H.
    apply fmap_run_Ret in H as (x & H & ->). by apply notes_connect_end in H.
  - destruct (connector s); try done. injection H as H. by apply notes_close_call in H.
  - injection H as H. by apply notes_close_call in H.
  - destruct (closers s); [done|]. unfold wake_done in H. destruct (actor_done_ (conn s)) as [|m]; [done|]. injection H as H.
    apply run_bind_Ret in H as (u & _ & [= <-]). by apply notes_refl.
  - destruct (controller s) as [| | |[d|pt|] live|] eqn:Hk; try done.
    destruct (do_reconnect_resume _ _ _ _ _ _ _ _) as [m|] eqn:E; [|done]. injection H as H.
    apply fmap_run_Ret in H as (x & -> & ->). destruct Ha as [_ Ha].
    pose proof (si_mode _ Hi) as Hm. rewrite (reconnect_idle s _ _ Hi Hk), Hk in Hm. cbn [mode_ok] in Hm.
    assert (connect_known pt i (conn s)) as Hkn.
    { destruct Hm as [(c0 & _ & _ & Hci & _)|Hsh]; [by eapply inv_known; [|apply Ha]|].
      eapply shaken_known; [exact Hsh|exact Ha|]. intros ->. by eapply Hset. }
    pose proof (notes_do_reconnect other pow unspecified now (jitter s) pt i (conn s) x (si_fits _ Hi) Hkn E) as Hn.
    by destruct x as [[c2 j2] pt2].
  - destruct (_ && _); [|done]. injection H as H. apply fmap_run_Ret in H as (c' & H & ->).
    exact (tol_transition (notes silent) now (conn s) c' H).
  - destruct (ended s); [|done]. injection H as H. apply fmap_run_Ret in H as (c' & H & ->). by apply notes_actor_completed in H.
Qed.

End events.

End notes.
