(* ===== verification/ActorTheorems.v ===== *)
(** * Theorems about the whole connection

    The runs of the system whose events are [allowed]: the three loops,
    [connect], [close], reconnection and the requests, interleaved in any
    order. *)

From S2P Require Import Prelude Kind Errors Charconv Buffer Message Parser Builder Adapter.
From S2P Require Import ParserInv ParserSafety ParserViews Wire WireParse.
From S2P Require Import Request RingQueue ResponseSink Pipeline PipelineSpec Config Connection Connect.
From S2P Require Import ConnectionSpec ConnectSpec Tolerant Strand Actor ConnectTheorems ReconnectTheorems.
From S2P Require Import ActorSpec ActorLife ActorWake ActorShutdown ActorOrder Journal.

Section runs.

Context (other : string -> Z -> string) {endpoint : Type}.
Context (pow : double -> double -> double) (unspecified : double -> Z).

Abbreviation system := (system endpoint).
Abbreviation event := (event endpoint).

(** The states that allowed events lead to. *)
Inductive reachable (s0 : system) : system -> Prop :=
| reachable_refl : reachable s0 s0
| reachable_fire e s s' :
    reachable s0 s -> allowed e s -> fire other pow unspecified e s = Some (Ret s') -> reachable s0 s'.

Lemma fire_inv e (s : system) r :
  sys_inv s -> settled s -> allowed e s -> fire other pow unspecified e s = Some r ->
  exists s', r = Ret s' /\ sys_inv s' /\ settled s'.
Proof.
  intros Hi Hs Ha Hr. unfold fire in Hr. destruct (react other pow unspecified e s) as [r1|] eqn:E; [|done].
  injection Hr as <-. destruct (react_inv other pow unspecified e s r1 Hi Hs Ha E) as (s' & -> & Hi').
  eexists. split; [done|]. split; [by apply settle_inv|apply settle_settled].
Qed.

(** A sequence of events. *)
Fixpoint fires (es : list event) (s : system) : option (run system) :=
  match es with
  | [] => Some (Ret s)
  | e :: es' =>
    match fire other pow unspecified e s with
    | Some (Ret s') => fires es' s'
    | r => r
    end
  end.

(** Every event of the sequence is allowed where it fires. *)
Fixpoint all_allowed (es : list event) (s : system) : bool :=
  match es with
  | [] => true
  | e :: es' =>
    bool_decide (allowed e s) &&
    match fire other pow unspecified e s with Some (Ret s') => all_allowed es' s' | _ => false end
  end.

Lemma fires_reachable s0 es : forall s,
  reachable s0 s -> all_allowed es s = true -> exists s', fires es s = Some (Ret s') /\ reachable s0 s'.
Proof.
  induction es as [|e es IH]; intros s Hr Ha; [by exists s|]. cbn [fires all_allowed] in *.
  apply andb_true_iff in Ha as [Ha%bool_decide_eq_true Hrest].
  destruct (fire other pow unspecified e s) as [[s'|]|] eqn:E; try done. apply IH; [|done]. by eapply reachable_fire.
Qed.

Lemma all_allowed_last s0 es e : forall s,
  reachable s0 s -> all_allowed (es ++ [e]) s = true ->
  exists s', fires es s = Some (Ret s') /\ reachable s0 s' /\ allowed e s' /\
    exists r, fire other pow unspecified e s' = Some r.
Proof.
  induction es as [|e1 es IH]; intros s Hr Ha; cbn [app fires all_allowed] in *;
    apply andb_true_iff in Ha as [Ha%bool_decide_eq_true Hrest].
  - exists s. split; [done|]. split; [done|]. split; [done|]. destruct (fire other pow unspecified e s); [by eexists|done].
  - destruct (fire other pow unspecified e1 s) as [[s'|]|] eqn:E; try done. apply IH; [|done]. by eapply reachable_fire.
Qed.

Section config.

Context (cfg : config) (Hfits : config_fits cfg) (Hlim : 0 <= max_pending_write_bytes (queue_limits cfg) <= u64_max).

Lemma system_reachable_inv s : reachable (system_new cfg) s -> sys_inv s /\ settled s.
Proof.
  induction 1 as [|e s s' _ [IH1 IH2] Ha Hf]; [split; [by apply sys_inv_new|done]|].
  by destruct (fire_inv e s _ IH1 IH2 Ha Hf) as (s1 & [= <-] & ? & ?).
Qed.

(** C2: the connection as a whole is safe on the runs that keep the promises of
    [allowed].  The strand may run the three loops of the actor, a [connect],
    the [close]s, reconnections and the requests of any number of callers in
    any order, and the resolver, the socket, the server and the timers may
    answer anything, except that: every request has a new sink and at least one
    command; an operation begun before the socket was closed does not succeed
    afterwards; once [do_connect] has returned, [connect] goes on before any
    other event; [close] is not called before the first [connect] nor during
    one; [connect] is not called in [FAILED] or [RECONNECTING], nor while an
    actor or a [close] of an earlier connection is around; the receive buffer
    is below 4 GiB and has not moved under a half-read value with texts when
    bytes arrive.  Then no event fails an assertion, reads outside its storage
    or leaves a loop unfinished; at most one read and one write are in flight,
    each announced by its guard, and a live write is the front of the queue of
    an open connection; outside [OPEN], [CONNECTING] and [RECONNECTING] nothing
    is pending; without an actor no loop is left and the state is [INIT] or
    [CLOSED]; a loop ends only after a stop was requested, and only the end of
    the actor writes [CLOSED].  The runs left out do fault:
    [late_write_completion_faults], [connect_assertion_race],
    [close_before_connect_faults], [close_during_handshake_faults],
    [stale_actor_done], [growth_leaves_dangling_views],
    [empty_dynamic_request_faults]. *)
Theorem system_safe s :
  reachable (system_new cfg) s ->
  (forall e r, allowed e s -> fire other pow unspecified e s = Some r -> exists s', r = Ret s' /\ reachable (system_new cfg) s') /\
  read_in_flight_ (conn s) = is_r_io (reader s) /\ write_in_flight_ (conn s) = is_w_io (writer s) /\
  (forall buf, writer s = w_io buf true ->
     state_ (conn s) = connection_state.OPEN /\ next_write_buffer (pipeline_ (conn s)) = Ret buf) /\
  (quiet (state_ (conn s)) = true -> nothing_pending (conn s)) /\
  (actor_running_ (conn s) = false ->
     loops_over s = true /\ (state_ (conn s) = connection_state.INIT \/ state_ (conn s) = connection_state.CLOSED)) /\
  (actor_running_ (conn s) = true -> some_stopped s = true -> stop_ (conn s) = true) /\
  (actor_running_ (conn s) = true -> state_ (conn s) = connection_state.CLOSED -> loops_over s = true).
Proof.
  intros Hr. destruct (system_reachable_inv s Hr) as [Hi Hs]. destruct (si_life _ Hi) as [L1 L2 L3 L4 L5].
  split; [|split; [apply Hi|split; [apply Hi|split; [|split; [|split; [|split; [done|]]]]]]].
  - intros e r Ha Hf. destruct (fire_inv e s r Hi Hs Ha Hf) as (s' & -> & _). exists s'. split; [done|].
    by eapply reachable_fire.
  - intros buf Hw. destruct (si_writer _ Hi) as (_ & _ & Hl). destruct (Hl buf Hw) as (? & _ & ?); [by apply (proj1 Hs) with buf|done].
  - by apply idle_nothing_pending.
  - intros Hx. destruct (L1 Hx) as (? & _ & _ & [[? _]|?]); auto.
  - intros Hx Hc. by apply L3, L4.
Qed.

(** ** Order *)

(** Every run of the system is a schedule of the strand, so what every schedule
    keeps holds of the system. *)
Lemma reachable_reaches c0 s0 s :
  reaches (endpoint:=endpoint) other pow unspecified c0 (conn s0) -> reachable s0 s ->
  reaches (endpoint:=endpoint) other pow unspecified c0 (conn s).
Proof.
  intros H0. induction 1 as [|e s s' _ IH Ha Hf]; [done|]. unfold fire in Hf.
  destruct (react other pow unspecified e s) as [[s1|]|] eqn:E; try done. injection Hf as <-.
  exact (react_reaches other pow unspecified c0 e s s1 Ha IH E).
Qed.

(** The events of a run, with what they promise, send and hear. *)
Inductive observed (s0 : system) : list entry -> system -> Prop :=
| observed_nothing : observed s0 [] s0
| observed_event e s s' js :
    observed s0 js s -> allowed e s -> fire other pow unspecified e s = Some (Ret s') ->
    observed s0 (js ++ [entry_of e s]) s'.

Lemma observed_reachable s0 js s : observed s0 js s -> reachable s0 s.
Proof. induction 1; [apply reachable_refl|by eapply reachable_fire]. Qed.

Lemma observed_notes js s :
  observed (system_new cfg) js s ->
  exists hs errss, runs (queue_limits cfg) hs (sinks (conn s)) (pipeline_ (conn s)) /\
    reply_slots hs = concat (promised <$> js) /\ written_bytes hs = concat (sent <$> js) /\ length errss = length js /\
    replies hs = concat (zip_with (fun j errs => (reply_message <$> heard j) ++ (reply_error <$> errs)) js errss).
Proof.
  induction 1 as [|e s s' js Hob (hs & errss & Hr & A & B & Hlen & C) Ha Hf].
  { exists history_new, []. split; [constructor|done]. }
  destruct (system_reachable_inv s (observed_reachable _ _ _ Hob)) as [Hi Hset].
  unfold fire in Hf. destruct (react other pow unspecified e s) as [[s1|]|] eqn:E; try done. injection Hf as <-.
  destruct (react_notes (queue_limits cfg) other pow unspecified e s s1 Hi Hset Ha E hs Hr) as (hs' & errs & Hr' & A' & B' & C').
  exists hs', (errss ++ [errs]). split; [done|]. rewrite A', B', C', A, B, C, !fmap_app, !concat_app, zip_with_app, concat_app by done.
  cbn. rewrite !app_nil_r, !length_app. cbn. by rewrite Hlen.
Qed.

(** C3: replies reach requests in order, from the wire to the response.  Take
    any run that keeps the promises of [allowed] (see [system_safe]) and what
    its events promised, sent and heard ([entry_of]): the slots of the requests
    that found the connection open and the pipeline with room, and of the
    handshakes; of each buffer handed to the socket, the bytes it took; of each
    read, the messages that its bytes complete, up to the replies awaited.
    These, in the order of the events, are the history of the pipeline: its
    slots are the promised ones, the bytes it counts as written are the bytes
    the socket took, and its replies are, event after event, the messages
    heard, followed by errors where requests were failed.  The [k]-th of these
    replies is in the [k]-th promised slot, at its type, and every value found
    in a response is the reply to its slot. *)
Theorem system_in_order js s :
  limits_ok (queue_limits cfg) -> observed (system_new cfg) js s ->
  exists hs errss, runs (queue_limits cfg) hs (sinks (conn s)) (pipeline_ (conn s)) /\
    reply_slots hs = concat (promised <$> js) /\ written_bytes hs = concat (sent <$> js) /\ length errss = length js /\
    replies hs = concat (zip_with (fun j errs => (reply_message <$> heard j) ++ (reply_error <$> errs)) js errss) /\
    (length (replies hs) <= length (reply_slots hs))%nat /\
    Forall2 (holds (sinks (conn s))) (take (length (replies hs)) (reply_slots hs)) (replies hs) /\
    forall a x i v, sinks (conn s) !! a = Some x -> sink_slots x !! i = Some (Val v) -> replied hs (a, i).
Proof.
  intros Hl Hob. destruct (observed_notes js s Hob) as (hs & errss & Hr & A & B & Hlen & C).
  destruct (runs_linked _ hs (sinks (conn s)) (pipeline_ (conn s)) Hl Hr) as (pend & await & Hlk).
  exists hs, errss. do 5 (split; [done|]). split; [apply (lk_len _ _ _ _ _ _ Hlk)|]. split; [apply (lk_holds _ _ _ _ _ _ Hlk)|].
  exact (runs_values _ hs (sinks (conn s)) (pipeline_ (conn s)) Hl Hr).
Qed.

(** ** Liveness *)

Lemma settle_awake (s : system) : awake s -> awake (settle s).
Proof.
  destruct s as [c w r k cn e n j]. unfold awake, settle. cbn [conn writer reader controller]. intros (Aw & Ar & Ak).
  split; [by destruct w|]. split; [|by destruct k as [| | |[]|]].
  replace (finishing _) with (finishing (mk_system c w r k cn e n j)) by (by destruct cn as [| |[]|]). by destruct r.
Qed.

Lemma reachable_awake s : reachable (system_new cfg) s -> awake s.
Proof.
  induction 1 as [|e s s' Hr IH Ha Hf]; [done|]. destruct (system_reachable_inv s Hr) as [Hi Hs].
  unfold fire in Hf. destruct (react other pow unspecified e s) as [[s1|]|] eqn:E; try done. injection Hf as <-.
  by eapply settle_awake, react_awake.
Qed.

(** What the head of [write_loop] does with something to write. *)
Lemma writer_writes c pend await (s : system) :
  conn_ok c pend await -> write_in_flight_ c = false -> state_ c = connection_state.OPEN ->
  has_pending_write (pipeline_ c) = true -> stop_ c = false ->
  exists buf s', next_write_buffer (pipeline_ c) = Ret buf /\
    fmap (M:=run) settle <$> Some (set_writer s <$> write_loop c) = Some (Ret s') /\ writer s' = w_io buf (socket_open c).
Proof.
  intros Hok Hfl Ho Hp Hs. destruct (write_loop_spec c pend await Hok Hfl) as (c' & w & -> & Hcase).
  destruct Hcase as [(_ & _ & [Hx|Hx])|[(_ & _ & _ & [Hx|Hx])|(buf & -> & -> & _ & _ & Hb)]]; try congruence.
  by eexists _, _.
Qed.

(** C6: no wake-up is lost on the runs that keep the promises of [allowed] (see
    [system_safe]).  A loop that waits for its event while there is something
    for it to do has a notification pending: the writer when a stop is
    requested or an open connection has something to write, the reader when a
    stop is requested or the connection is open (unless [connect] is about to
    notify it), the control loop when a stop is requested or the connection has
    failed, and in a backoff when a stop is requested.  So when an open
    connection without a stop has something to write, the writer is in a write,
    or it can run and then hands the front of the queue to the socket.  (In a
    run outside [allowed] a request can be stranded on an open connection
    without an actor: [connect_in_window_strands].) *)
Theorem no_lost_wakeup s :
  reachable (system_new cfg) s ->
  let c := conn s in
  (writer s = w_wait ->
     stop_ c = true \/ state_ c = connection_state.OPEN /\ has_pending_write (pipeline_ c) = true ->
     (0 < write_wakeup_ c)%nat) /\
  (reader s = r_wait -> stop_ c = true \/ state_ c = connection_state.OPEN /\ finishing s = false ->
     (0 < read_wakeup_ c)%nat) /\
  (match controller s with
   | k_wait | k_timer _ => stop_ c = true \/ state_ c = connection_state.FAILED -> (0 < control_wakeup_ c)%nat
   | k_reconnect (at_backoff _) _ => stop_ c = true -> (0 < control_wakeup_ c)%nat
   | _ => True
   end) /\
  (state_ c = connection_state.OPEN -> has_pending_write (pipeline_ c) = true -> stop_ c = false ->
     is_w_io (writer s) = true \/
     exists buf s', next_write_buffer (pipeline_ c) = Ret buf /\
       fire other pow unspecified ev_writer s = Some (Ret s') /\ writer s' = w_io buf (socket_open c)).
Proof.
  intros Hr c. pose proof (reachable_awake s Hr) as (Aw & Ar & Ak). destruct (system_reachable_inv s Hr) as [Hi _].
  split; [exact Aw|]. split; [exact Ar|]. split; [exact Ak|]. intros Ho Hp Hs.
  destruct (si_ok _ Hi) as (pend & await & Hok). destruct (si_writer _ Hi) as (Hfl & _).
  unfold fire, react. destruct (writer s) eqn:Hw; [right|right|by left|].
  - exact (writer_writes (conn s) pend await s Hok Hfl Ho Hp Hs).
  - unfold wake_write. specialize (Aw eq_refl (or_intror (conj Ho Hp))). destruct (write_wakeup_ (conn s)) as [|n]; [lia|].
    apply (writer_writes (set_wakeups n (read_wakeup_ (conn s)) (control_wakeup_ (conn s)) (conn s)) pend await s); try done.
    destruct Hok; by constructor.
  - assert (stop_ (conn s) = true); [|by unfold c in Hs; congruence].
    apply (life_stopped _ (si_life _ Hi)); [by apply open_alive|]. unfold some_stopped. by rewrite Hw.
Qed.

Lemma left_settle (s : system) : left_to_do (settle s) = left_to_do s.
Proof. destruct s as [c w r k cn e n j]. unfold left_to_do. cbn. by destruct w, r, k as [| | |[]|]. Qed.

(** C4: shutting down ends.  Once a stop is requested (by [close] or because
    reconnection is disabled), every event of the actor brings it strictly
    closer to its end, at most [left_to_do] events away, nothing else that is
    [allowed] sets it back, and until it has ended there is an event of the actor that can happen
    even if every operation in flight just fails: neither a lost notification
    nor an attempt to reconnect can hold it up.  When it has ended the state
    is [CLOSED] and [actor_done_] is notified. *)
Theorem shutdown_ends s :
  reachable (system_new cfg) s -> actor_running_ (conn s) = true -> stop_ (conn s) = true ->
  (forall e s', allowed e s -> fire other pow unspecified e s = Some (Ret s') ->
     (if actor_event e then left_to_do s' < left_to_do s else left_to_do s' = left_to_do s)%nat /\
     (actor_running_ (conn s') = true /\ stop_ (conn s') = true \/
      actor_running_ (conn s') = false /\ state_ (conn s') = connection_state.CLOSED /\
        (0 < actor_done_ (conn s'))%nat)) /\
  (small (parser_ (conn s)) ->
     exists e s', actor_event e = true /\ allowed e s /\ fire other pow unspecified e s = Some (Ret s')).
Proof.
  intros Hr Hrun Hs. destruct (system_reachable_inv s Hr) as [Hi Hset]. split.
  - intros e s' Ha Hf. unfold fire in Hf. destruct (react other pow unspecified e s) as [[s1|]|] eqn:E; try done.
    injection Hf as <-. rewrite left_settle. destruct (actor_event e) eqn:He.
    + by destruct (actor_closer other pow unspecified e s s1 Hi Hset Ha Hs He E).
    + destruct (other_keeps other pow unspecified e s s1 Hi Ha Hs Hrun He E) as [Hl Hs1]. split; [done|].
      left. split; [|done]. change (actor_running_ (conn s1) = true). unfold left_to_do in Hl. rewrite Hrun in Hl.
      destruct (actor_running_ (conn s1)); [done|]. destruct (ended s); lia.
  - intros Hsm.
    destruct (next_event_fires other pow unspecified s Hi (reachable_awake s Hr) Hsm Hrun Hs) as (He & Ha & r & Hf).
    destruct (react_inv other pow unspecified _ s r Hi Hset Ha Hf) as (s' & -> & _).
    exists (next_event s), (settle s'). split; [done|]. split; [done|]. unfold fire. by rewrite Hf.
Qed.

(** The actor can run down: its own events alone bring it to its end. *)
Lemma runs_down n : forall s,
  reachable (system_new cfg) s -> small (parser_ (conn s)) -> actor_running_ (conn s) = true -> stop_ (conn s) = true ->
  (left_to_do s <= n)%nat ->
  exists es s', (length es <= n)%nat /\ forallb actor_event es = true /\ all_allowed es s = true /\
    fires es s = Some (Ret s') /\ reachable (system_new cfg) s' /\ small (parser_ (conn s')) /\ closers s' = closers s /\
    actor_running_ (conn s') = false /\ state_ (conn s') = connection_state.CLOSED /\ (0 < actor_done_ (conn s'))%nat.
Proof.
  induction n as [|n IH]; intros s Hr Hsm Hrun Hs Hle.
  { unfold left_to_do in Hle. rewrite Hrun in Hle. destruct (ended s); lia. }
  destruct (system_reachable_inv s Hr) as [Hi Hset]. pose proof (reachable_awake s Hr) as Haw.
  destruct (next_event_fires other pow unspecified s Hi Haw Hsm Hrun Hs) as (He & Ha & r & Hf).
  destruct (react_inv other pow unspecified _ s r Hi Hset Ha Hf) as (s1 & -> & _).
  assert (fire other pow unspecified (next_event s) s = Some (Ret (settle s1))) as Hfire by (unfold fire; by rewrite Hf).
  pose proof (reachable_fire _ _ _ _ Hr Ha Hfire) as Hr1.
  destruct (next_event_small other pow unspecified s s1 Hi Hset Haw Hsm Hrun Hs Hf) as [Hsm1 Hcl1].
  destruct (actor_closer other pow unspecified _ s s1 Hi Hset Ha Hs He Hf) as [Hlt Hw].
  destruct Hw as [[Hrun1 Hs1]|(Hrun1 & Hst1 & Hd1)].
  - destruct (IH (settle s1)) as (es & s' & Hlen & Hall & Hal & Hfs & Hrest); try done; [by rewrite left_settle; lia|].
    exists (next_event s :: es), s'. cbn [length forallb all_allowed fires]. rewrite bool_decide_true, Hfire, He by done.
    split; [lia|]. split; [done|]. split; [done|]. split; [done|]. destruct Hrest as (? & ? & Hcl & ?).
    split; [done|]. split; [done|]. split; [|done]. rewrite Hcl. exact Hcl1.
  - exists [next_event s], (settle s1). cbn [length forallb all_allowed fires]. rewrite bool_decide_true, Hfire, He by done.
    split; [lia|]. by repeat (split; [done|]).
Qed.

(** When a [close] that waits can resume, the state is [CLOSED]. *)
Lemma close_resumes (s : system) :
  sys_inv s -> (0 < closers s)%nat -> (0 < actor_done_ (conn s))%nat ->
  exists s', react other pow unspecified ev_close_resume s = Some (Ret s') /\
    state_ (conn s') = connection_state.CLOSED /\ Datatypes.S (closers s') = closers s.
Proof.
  intros Hi Hc Hd. destruct (si_done _ Hi) as (_ & D2 & _). specialize (D2 Hd). cbn [react].
  unfold wake_done. destruct (closers s) as [|n]; [lia|]. destruct (actor_done_ (conn s)) as [|m]; [lia|].
  unfold close_end. cbn [set_actor state_]. rewrite bool_decide_true by done. cbn [assert mbind run_bind].
  by eexists.
Qed.


End config.

(** The journal of a sequence of events. *)
Fixpoint journal (es : list event) (s : system) : list entry :=
  match es with
  | [] => []
  | e :: es' =>
    match fire other pow unspecified e s with Some (Ret s') => entry_of e s :: journal es' s' | _ => [] end
  end.

Lemma fires_observed s0 es : forall s js,
  observed s0 js s -> all_allowed es s = true ->
  exists s', fires es s = Some (Ret s') /\ observed s0 (js ++ journal es s) s'.
Proof.
  induction es as [|e es IH]; intros s js Hob Ha; cbn [fires all_allowed journal] in *; [exists s; by rewrite app_nil_r|].
  apply andb_true_iff in Ha as [Ha%bool_decide_eq_true Hrest].
  destruct (fire other pow unspecified e s) as [[s'|]|] eqn:E; try done.
  destruct (IH s' (js ++ [entry_of e s])) as (s2 & Hf & Hob2); [by eapply observed_event|done|].
  exists s2. split; [done|]. by rewrite <- app_assoc in Hob2.
Qed.

End runs.

(** ** Concrete runs *)

Definition run_events (cfg : config) (es : list (event nat)) : option (run (system nat)) :=
  fires no_message sample_pow (fun _ => 0) es (system_new cfg).

(** [connect] on a server that answers the handshake at once. *)
Definition connecting (addr : nat) (now : Z) : list (event nat) :=
  [ev_connect; ev_spawned; ev_writer; ev_reader; ev_control now;
   ev_connect_io now (in_resolved (Val [0%nat])); ev_connect_io now (in_attempt (attempt_ok None None) addr);
   ev_connect_io now (in_written (Val 22)); ev_connect_io now (in_read (Val (s2b "+OK" ++ crlf)));
   ev_connect_io now in_continue; ev_connect_io now in_continue; ev_connect_end now].

(** The actor comes to its end after a stop. *)
Definition stopping (now : Z) : list (event nat) :=
  [ev_writer; ev_reader; ev_control now; ev_actor_end now; ev_actor_done now].

Definition closing (now : Z) : list (event nat) := ev_close now :: stopping now ++ [ev_close_resume].

(** The server closes the connection. *)
Definition losing (now : Z) : list (event nat) := [ev_reader; ev_read now (Val []); ev_control now] ++ stopping now.

Lemma default_fits : config_fits default_config.
Proof. by vm_compute. Qed.

Lemma default_limits_fit : 0 <= max_pending_write_bytes (queue_limits default_config) <= u64_max.
Proof. vm_compute; split; congruence. Qed.

Lemma default_queue_ok : limits_ok (queue_limits default_config).
Proof. vm_compute. repeat split; congruence. Qed.

Lemma reading_allowed :
  all_allowed no_message sample_pow (fun _ => 0) ((connecting 0 1 ++ [ev_reader]) ++ [ev_read 2 (Val (s2b "?"))])
    (system_new default_config) = true.
Proof. vm_compute. reflexivity. Qed.

Lemma system_safe_witness :
  exists s, reachable no_message sample_pow (fun _ => 0) (system_new default_config) s /\
    run_events default_config (connecting 0 1 ++ [ev_reader]) = Some (Ret s) /\
    exists s', fire no_message sample_pow (fun _ => 0) (ev_read 2 (Val (s2b "?"))) s = Some (Ret s').
Proof.
  destruct (all_allowed_last no_message sample_pow (fun _ => 0) (system_new default_config) (connecting 0 1 ++ [ev_reader])
    (ev_read 2 (Val (s2b "?"))) _ (reachable_refl _ _ _ _) reading_allowed) as (s & Hs & Hr & Ha & r & Hf).
  exists s. split; [exact Hr|]. split; [exact Hs|].
  destruct (system_safe no_message sample_pow (fun _ => 0) default_config default_fits default_limits_fit s Hr) as [Hsafe _].
  destruct (Hsafe _ r Ha Hf) as (s' & -> & _). exists s'. exact Hf.
Defined.

(** A request on the open connection, whose writer waits. *)
Definition asking : list (event nat) := connecting 0 1 ++ [ev_enqueue 2 2 [TString] get1 1].

Lemma asking_allowed :
  all_allowed no_message sample_pow (fun _ => 0) asking (system_new default_config) = true.
Proof. vm_compute. reflexivity. Qed.

(** A fact about the state a run ends in, by computation. *)
Lemma fires_check (f : system nat -> bool) es s0 s :
  fires no_message sample_pow (fun _ => 0) es s0 = Some (Ret s) ->
  match fires no_message sample_pow (fun _ => 0) es s0 with Some (Ret x) => f x | _ => false end = true -> f s = true.
Proof. intros ->. done. Qed.

Lemma no_lost_wakeup_witness :
  exists s, run_events default_config asking = Some (Ret s) /\
    state_ (conn s) = connection_state.OPEN /\ has_pending_write (pipeline_ (conn s)) = true /\ writer s = w_wait /\
    (0 < write_wakeup_ (conn s))%nat /\
    exists buf s', next_write_buffer (pipeline_ (conn s)) = Ret buf /\
      fire no_message sample_pow (fun _ => 0) ev_writer s = Some (Ret s') /\ writer s' = w_io buf (socket_open (conn s)).
Proof.
  destruct (fires_reachable no_message sample_pow (fun _ => 0) _ asking _ (reachable_refl _ _ _ _) asking_allowed) as (s & Hs & Hr).
  exists s. split; [exact Hs|].
  pose proof (fires_check (fun x => bool_decide (state_ (conn x) = connection_state.OPEN) && has_pending_write (pipeline_ (conn x)) &&
    match writer x with w_wait => true | _ => false end && negb (stop_ (conn x))) asking _ s Hs) as Hx.
  specialize (Hx ltac:(vm_compute; reflexivity)). clear Hs.
  apply andb_true_iff in Hx as [Hx Hst]. apply andb_true_iff in Hx as [Hx Hw]. apply andb_true_iff in Hx as [Ho Hp].
  apply bool_decide_eq_true in Ho. apply negb_true_iff in Hst.
  assert (writer s = w_wait) as Hwr by (destruct (writer s); reflexivity || discriminate Hw).
  destruct (no_lost_wakeup no_message sample_pow (fun _ => 0) default_config default_fits default_limits_fit s Hr)
    as (H1 & _ & _ & H4).
  split; [exact Ho|]. split; [exact Hp|]. split; [exact Hwr|]. split; [exact (H1 Hwr (or_intror (conj Ho Hp)))|].
  destruct (H4 Ho Hp Hst) as [Hio|He]; [|exact He]. rewrite Hwr in Hio. discriminate Hio.
Defined.

Lemma closing_allowed :
  all_allowed no_message sample_pow (fun _ => 0) (connecting 0 1 ++ [ev_close 2]) (system_new default_config) = true.
Proof. vm_compute. reflexivity. Qed.

Lemma shutdown_ends_witness :
  exists s, run_events default_config (connecting 0 1 ++ [ev_close 2]) = Some (Ret s) /\ left_to_do s = 5%nat /\
    exists e s', actor_event e = true /\ allowed e s /\ fire no_message sample_pow (fun _ => 0) e s = Some (Ret s') /\
      (left_to_do s' < 5)%nat.
Proof.
  destruct (fires_reachable no_message sample_pow (fun _ => 0) _ (connecting 0 1 ++ [ev_close 2]) _ (reachable_refl _ _ _ _)
    closing_allowed) as (s & Hs & Hr).
  exists s. split; [exact Hs|].
  pose proof (fires_check (fun x => actor_running_ (conn x) && stop_ (conn x) && (left_to_do x =? 5)%nat &&
    bool_decide (small (parser_ (conn x)))) _ _ s Hs) as Hx.
  specialize (Hx ltac:(vm_compute; reflexivity)). clear Hs.
  apply andb_true_iff in Hx as [Hx Hsm]. apply andb_true_iff in Hx as [Hx Hl]. apply andb_true_iff in Hx as [Hrun Hst].
  apply bool_decide_eq_true in Hsm. apply Nat.eqb_eq in Hl. split; [exact Hl|].
  destruct (shutdown_ends no_message sample_pow (fun _ => 0) default_config default_fits default_limits_fit s Hr Hrun Hst)
    as [H1 H2].
  destruct (H2 Hsm) as (e & s' & He & Ha & Hf). exists e, s'. split; [exact He|]. split; [exact Ha|]. split; [exact Hf|].
  destruct (H1 e s' Ha Hf) as [Hlt _]. rewrite He, Hl in Hlt. exact Hlt.
Defined.


(** The request is written and answered. *)
Definition answering : list (event nat) :=
  asking ++ [ev_writer; ev_written 3 (Val 3); ev_reader; ev_read 4 (Val (s2b "$2" ++ crlf ++ s2b "hi" ++ crlf))].

Definition answering_journal : list entry :=
  journal no_message sample_pow (fun _ => 0) answering (system_new default_config).

Lemma answering_allowed :
  all_allowed no_message sample_pow (fun _ => 0) answering (system_new default_config) = true.
Proof. vm_compute. reflexivity. Qed.

Lemma system_in_order_witness :
  exists s hs, run_events default_config answering = Some (Ret s) /\
    runs (queue_limits default_config) hs (sinks (conn s)) (pipeline_ (conn s)) /\
    reply_slots hs = [(0, 0); (1, 0)]%nat /\
    written_bytes hs = wire_ (hello fresh_connection) ++ s2b "GET" /\
    concat (heard <$> answering_journal) = [message_of (resp3.simple_string (s2b "OK")); message_of (resp3.bulk_string (s2b "hi"))] /\
    exists errss, replies hs =
      concat (zip_with (fun j errs => (reply_message <$> heard j) ++ (reply_error <$> errs)) answering_journal errss).
Proof.
  destruct (fires_observed no_message sample_pow (fun _ => 0) (system_new default_config) answering _ []
    (observed_nothing _ _ _ _) answering_allowed) as (s & Hs & Hob).
  destruct (system_in_order no_message sample_pow (fun _ => 0) default_config default_fits default_limits_fit
    answering_journal s default_queue_ok Hob) as (hs & errss & Hr & A & B & _ & C & _).
  exists s, hs. split; [exact Hs|]. split; [exact Hr|].
  split; [rewrite A; vm_compute; reflexivity|]. split; [rewrite B; vm_compute; reflexivity|].
  split; [vm_compute; reflexivity|]. exists errss. exact C.
Defined.

(** A [connect], a lost connection without reconnection, a second [connect]
    and a [close]: the actor of the lost connection notified [actor_done_]
    although nobody waited for it, [close] takes that notification for the end
    of the new actor and its assertion [state_ == CLOSED] fails. *)
Theorem stale_actor_done :
  run_events one_shot_config (connecting 0 1 ++ losing 2 ++ connecting 1 3 ++ [ev_close 4; ev_close_resume]) =
    Some (Fault assert_failed).
Proof. by vm_compute. Qed.

(** [actor_done_] is notified once, so of two [close]s that wait for the
    same actor only one returns: the actor is gone, the state is [CLOSED], no
    notification is left and one [close] still waits. *)
Theorem second_close_hangs :
  exists s, run_events default_config (connecting 0 1 ++ [ev_close 1] ++ closing 2) = Some (Ret s) /\
    actor_running_ (conn s) = false /\ state_ (conn s) = connection_state.CLOSED /\
    closers s = 1%nat /\ actor_done_ (conn s) = 0%nat.
Proof. vm_compute. eexists. split; [reflexivity|]. by repeat split. Qed.

(** [close] during an attempt to reconnect: the attempt fails and
    [do_reconnect] writes [FAILED] over [CLOSING], so a request is then refused
    with [connection_lost], where the header of [connection_state] promises
    [connection_closed]. *)
Definition close_while_reconnecting : list (event nat) :=
  connecting 0 1 ++ [ev_reader; ev_read 2 (Val []); ev_control 2; ev_close 3;
    ev_reconnect_io 3 (in_resolved (Unexpected io_operation_aborted)); ev_enqueue 4 4 [TString] get1 1].

Theorem closing_becomes_failed :
  all_allowed no_message sample_pow (fun _ => 0) close_while_reconnecting (system_new default_config) = true /\
  exists s x, run_events default_config close_while_reconnecting = Some (Ret s) /\
    stop_ (conn s) = true /\ state_ (conn s) = connection_state.FAILED /\
    sinks (conn s) !! 1%nat = Some x /\ sink_slots x = [Unexpected (client_error client_errc.connection_lost)].
Proof. split; [by vm_compute|]. vm_compute. eexists _, _. split; [reflexivity|]. by repeat split. Qed.

(** A request that is written, and fails to be written, after [do_connect] set
    [OPEN] and before [connect] goes on: its assertion [state_ == OPEN] fails. *)
Theorem connect_assertion_race :
  run_events default_config
    (take 11 (connecting 0 1) ++
     [ev_enqueue 2 2 [TString] get1 1; ev_writer; ev_written 2 (Unexpected (io_other [])); ev_connect_end 2]) =
  Some (Fault assert_failed).
Proof. by vm_compute. Qed.
